(* ===== verification/_CoqProject ===== *)
-Q . S2P
Prelude.v
Crc.v
Wire.v
Codec.v
GF256.v
ReedSolomon.v
Float64.v
FloatBounds.v
Maps.v
Types.v
Peer.v
SeqTracker.v
Report.v
Fragmenter.v
Reassembler.v
DataPath.v
Command.v
Bandwidth.v
Sha256.v
Aes.v
Gcm.v
X25519.v
BlockingQueue.v
BufferPool.v
Packets.v
Endpoint.v
Link.v
Handshake.v
Session.v
Nonces.v
Duties.v
SpeedTest.v
Transport.v
TransportSafe.v
SendPath.v
EndToEnd.v
Takeover.v
Tight.v
TransportRestart.v
Decimal.v
Logger.v
GatewayText.v
GatewayChannel.v
GatewayReactor.v
GatewayBoard.v
MetricsText.v
MetricsHttp.v
Gateway.v
GatewayFlow.v
GatewayChecks.v
GatewayTotal.v
GatewayLife.v
Platform.v
Client.v
