(* ===== verification/Prelude.v ===== *)
(** * damen: verification of the tight transport and of its gateway

    damen is a C++17 program: [tight] (src/tight) is a reliable message
    transport over UDP with forward error correction and encryption; the
    gateway (src/gateway) accepts devices over it. This library translates the
    program's own logic into executable Rocq definitions that keep the
    source's names, and proves what makes each part correct. Where the code
    does something else than it means to, a theorem says so.

    ** The program and the files that model it

    Wire format
    - Crc: crc32.cpp; the table-driven checksum.
    - Wire, Codec: wire_format.hpp, packet_codec.cpp, PacketHeader of types.hpp;
      fields, byte order, [encode], [decode].
    - Packets: [build_nonce], [build_wire_packet], [decrypt_payload] and
      [derive_session_key] of transport.cpp: sealing and opening packets.

    Forward error correction and data path
    - GF256, ReedSolomon: fec.cpp; field tables, encoder, Gaussian decoder.
    - Fragmenter: fragmenter.cpp; parity sizing and fragmentation.
    - SeqTracker, Reassembler: reassembler.cpp; sequence tracking, fragment
      collection, recovery, delivery.
    - DataPath: the fragmenter of one end with the reassembler of the other.
    - Report: report.cpp; receiver reports, retransmission, retry limits.
    - Command: command.cpp; the ordered command channel.
    - Bandwidth: bandwidth.cpp; the pacing estimator.

    Cryptography (crypto.cpp)
    - Sha256 (SHA-256, HMAC, HKDF), Aes, Gcm (AES-256-GCM), X25519.

    Containers
    - Maps: iteration order of std::map and std::set over stdpp's maps.
    - BlockingQueue: blocking_queue.hpp; linked nodes and their free list on an
      explicit heap. The classes [QueueOps] and [QueueLaws] are what the
      transport relies on.
    - BufferPool: buffer_pool.hpp; per-thread free lists of blocks.
    - Float64: IEEE binary64 arithmetic (SpecFloat of the Standard Library);
      FloatBounds: sign, canonical form and size of its results.

    Transport (transport.cpp, class TightTransport::Impl)
    - Types, Peer: types.hpp and peer.hpp; configuration and per-peer state.
    - Endpoint: every handler, sender and periodic duty that acts on one peer,
      in a state monad over the peer, the estimator and the list of effects.
    - Link: the link state machine as a step relation.
    - Handshake: two endpoints exchanging the datagrams they emit.
    - Session: messages over an encrypted session, from [fragment_and_send]
      to the message callback of the other side.
    - Nonces: which packets of a peer share a nonce, over everything it does.
    - Duties: what the reactor's rounds do for one peer.
    - SpeedTest: the train of probes, sent and received.
    - Transport: the peer table on a heap, send queue, encode and outbound
      queues, token bucket, loops, life cycle, over any queue with
      [QueueOps].
    - TransportSafe: every interleaving of calls and thread turns.
    - SendPath: order from the send queue to the socket.
    - EndToEnd: two whole transports, from [send_message] of one to the message
      callback of the other.
    - Takeover: [connect] to an address that belongs to another name.
    - Tight: the calls of class TightTransport (tight.hpp), its farewell and
      the end of the encoder thread.
    - TransportRestart: what a transport does after [stop].
    - Platform: the socket and the socket library (start and stop of
      transport.cpp, wsa.cpp), thread handles (small_thread.hpp), names
      (address.cpp), random numbers.
    - Logger: logger.hpp; the threshold and the lines written.

    Gateway (src/gateway)
    - Decimal: std::to_string, std::stoi, std::stoul.
    - GatewayText: JSON fields, upstream parsing, downstream formatting.
    - GatewayChannel: the inbox channel on an explicit heap.
    - GatewayReactor: timers, batches of messages, the task queue, statistics.
    - GatewayBoard: the server's state, blackboard, rate limiter, metrics,
      sessions.
    - Gateway: authentication, listeners, dispatch, deferred output, callbacks
      of the transport, periodic checks.
    - GatewayFlow: a batch against its reference.
    - GatewayChecks: the periodic checks, activity, links, the inbox, the
      limiter, hellos.
    - GatewayTotal: the limiter's arithmetic, and that the server never fails.
    - GatewayLife: server and reactor together: start, stop, the turns of the
      threads, calls of others, evolvers; gateway_main.cpp.
    - MetricsText, MetricsHttp: gateway_metrics.hpp and
      gateway_metrics_http.hpp; the text of the counters, the answer to a
      request, the server's sockets.

    Client (client/tight_client.cpp)
    - Client: arguments, configuration, console commands as calls of the
      transport.

    ** How the code corresponds

    A w-bit integer is a [Z] kept in range by the conversions of this file;
    signed counters of the clocks are unbounded. A byte buffer is [list Z].
    Undefined behaviour and failing casts are values: [res] carries a [fault]
    (index out of bounds, float-to-integer cast out of range, division by zero,
    dangling pointer), so "does not fault" is a theorem and not an assumption.
    std::map is a finite map visited in key order. Locks are not modelled: an
    operation that the source runs under a lock, and each turn of a loop, is
    one atomic step; the theorems on interleavings quantify over sequences of
    such steps. Condition variables are steps that are not enabled. Clock
    readings, random numbers, what recvfrom returns, whether a socket could be
    opened and how a name resolves are arguments. The C library's [log2] is a
    parameter. Callbacks are recorded, in order, and do not call back.

    ** What the theorems show

    - Round trips and rejection: decoding inverts encoding, accepts nothing
      else, and rejects burst errors; sealed packets open to what was sealed.
    - Arithmetic against references: CRC against the bit-serial definition,
      field and GHASH multiplication against polynomials, SHA-256 against its
      padding definition, the limb code of X25519 against the Montgomery
      ladder modulo 2^255-19, without overflow.
    - Delivery: a message of at most 255 data fragments arrives exactly once
      and unchanged, in spite of loss, repetition and reordering, iff enough
      parities arrived (DataPath), also over the sealed wire among datagrams
      that fail to open (Session) and from [send_message] of an idle transport
      to the callback of another over any number of its receiver's turns
      (EndToEnd). The receiver's periodic work is not part of these runs: it
      forgets completed messages after the dead timeout. Larger messages have
      fragments that parities do not tell apart (ReedSolomon).
    - Secrecy: over everything a peer does, two data packets with one nonce are
      the same packet (Nonces); for commands after a repeated acknowledgement
      and for retransmitted control packets this does not hold, and the
      theorems there show what an observer learns.
    - Order: commands in sequence, messages by priority, those of peers that
      are not online yet kept in their place, packets in order.
    - State: the receive cursor, the link state machine, the estimator, the
      queues and pools keep their invariants; both ends of a handshake go online,
      each with the key derived from its own private and the other's public
      key under one salt; a wrong token changes nothing.
    - Memory: no pointer in the transport dangles, queues keep their limits, in
      every interleaving without an address takeover.
    - Resources: sockets, references of the socket library and threads are
      released exactly once on every branch, also when the system refuses.
    - Gateway: what is written for a device is read back, the inbox is a FIFO,
      every due timer fires once per round, a batch has exactly the effect and
      the output its verdicts ask for, the periodic checks close and remove
      exactly the devices they should, limits of different devices do not
      interfere, the tokens of the limiter stay between zero and the
      capacity; in every
      life of the gateway messages reach the listeners in order and at most
      once, and what waits is served; the metrics are read back from the
      answer over HTTP.
    - Client: arguments are read back, the gateway understands the texts the
      client sends, and its transport keeps the memory invariant.
    - Failures: reassembly out of bounds on a forged count, report overflow,
      dropped first command, lost handshakes that are not repeated, freed peers
      still in use, emptied messages, timers whose function runs only once,
      identifiers that are not escaped, pings that do not keep a session alive,
      a transport and a gateway that do not work after a restart, and others,
      each as a theorem.

    ** Fuel

    Loops with a bound in the source keep it (64 datagrams, 16 tasks). The
    fuel of the others is the size of what they consume: drained commands the
    size of the held table, CTR and GHASH loops the length of the input,
    speed-test trains the number of bytes (each packet carries at least one),
    a round of the gateway's timers the length of their queue, emptying the
    inbox the number of its nodes;
    the theorems are about the functions with that fuel.

    ** Not modelled

    The system calls themselves (socket_platform.hpp; their results are
    arguments), the wording of what programs print, which is output only, the
    C library's text of a date, which is a parameter of the logger, and signal
    handling, which ends a run. Sleeping and the
    length of waits are not modelled. Towards the gateway the transport is the
    answers and callbacks it gives. The internal state of std::mt19937_64 is
    not modelled; its draws are arguments. Data races between threads inside
    one handler are outside the model. *)
From stdpp Require Import base list numbers option.
From Stdlib Require Import ZArith Lia Btauto.

Local Open Scope Z_scope.

(** ** Machine integers

    A w-bit unsigned integer is a [Z] in the range [0, 2^w); every place where
    the C++ arithmetic can wrap applies one of the conversions below. *)

Notation bytes := (list Z).

Definition in_width (w x : Z) : Prop := 0 <= x < 2 ^ w.

Global Instance in_width_dec w x : Decision (in_width w x).
Proof. unfold in_width. apply _. Defined.

Definition u8 (x : Z) : Z := x mod 2 ^ 8.
Definition u16 (x : Z) : Z := x mod 2 ^ 16.
Definition u32 (x : Z) : Z := x mod 2 ^ 32.
Definition u64 (x : Z) : Z := x mod 2 ^ 64.
Definition u128 (x : Z) : Z := x mod 2 ^ 128.

(** Two's-complement reading of a 32-bit value: [static_cast<int32_t>]. *)
Definition s32 (x : Z) : Z :=
  let v := u32 x in if v <? 2 ^ 31 then v else v - 2 ^ 32.

(** A buffer of [std::uint8_t]. *)
Definition bytes_ok (bs : bytes) : Prop := Forall (in_width 8) bs.

Global Instance bytes_ok_dec bs : Decision (bytes_ok bs).
Proof. unfold bytes_ok. apply _. Defined.

(** Loads and stores of a [n]-byte integer through [memcpy] on the
    little-endian hosts the program targets. *)
Fixpoint store_le (n : nat) (v : Z) : bytes :=
  match n with
  | O => []
  | S n' => Z.land v 255 :: store_le n' (Z.shiftr v 8)
  end.

Fixpoint load_le (bs : bytes) : Z :=
  match bs with
  | [] => 0
  | b :: r => Z.lor b (Z.shiftl (load_le r) 8)
  end.

(** ** Automation *)

Create HintDb width.

(** Normalises [Z.testbit] of the bitwise operators at index [i]. *)
Lemma testbit_ones_iff n i :
  0 <= n -> 0 <= i -> Z.testbit (Z.ones n) i = (i <? n).
Proof.
  intros Hn Hi. destruct (Z.ltb_spec i n).
  - apply Z.ones_spec_low; lia.
  - apply Z.ones_spec_high; lia.
Qed.

Lemma testbit_mod_pow2 a n i :
  0 <= n -> 0 <= i -> Z.testbit (a mod 2 ^ n) i = (i <? n) && Z.testbit a i.
Proof.
  intros Hn Hi. rewrite <- Z.land_ones by lia.
  rewrite Z.land_spec, testbit_ones_iff by lia. btauto.
Qed.

Lemma testbit_above w x i :
  in_width w x -> 0 <= w <= i -> Z.testbit x i = false.
Proof.
  intros Hx Hw. rewrite <- (Z.mod_small x (2 ^ w)) by exact Hx.
  rewrite testbit_mod_pow2 by lia. by rewrite (proj2 (Z.ltb_ge i w)) by lia.
Qed.

(** A number is a w-bit value exactly when it has no bit above [w]. *)
Lemma in_width_testbit w x :
  0 <= w -> 0 <= x -> (forall i, w <= i -> Z.testbit x i = false) -> in_width w x.
Proof.
  intros Hw Hx Hb. assert (Heq : x = x mod 2 ^ w).
  { apply Z.bits_inj'. intros i Hi. rewrite testbit_mod_pow2 by lia.
    destruct (Z.ltb_spec i w); [done|]. rewrite Hb by lia. done. }
  rewrite Heq. apply Z.mod_pos_bound. apply Z.pow_pos_nonneg; lia.
Qed.

Section Bitwise.
Context (w : Z) (Hw : 0 <= w).

Lemma lxor_width a b : in_width w a -> in_width w b -> in_width w (Z.lxor a b).
Proof using Hw.
  intros Ha Hb. apply in_width_testbit; [done| |].
  - apply Z.lxor_nonneg. unfold in_width in *. lia.
  - intros i Hi. rewrite Z.lxor_spec, (testbit_above w a), (testbit_above w b) by (lia || done).
    done.
Qed.

Lemma lor_width a b : in_width w a -> in_width w b -> in_width w (Z.lor a b).
Proof using Hw.
  intros Ha Hb. apply in_width_testbit; [done| |].
  - apply Z.lor_nonneg. unfold in_width in *. lia.
  - intros i Hi. rewrite Z.lor_spec, (testbit_above w a), (testbit_above w b) by (lia || done).
    done.
Qed.

Lemma land_width_l a b : in_width w a -> 0 <= b -> in_width w (Z.land a b).
Proof using Hw.
  intros Ha Hb. apply in_width_testbit; [done| |].
  - apply Z.land_nonneg. unfold in_width in *. lia.
  - intros i Hi. rewrite Z.land_spec, (testbit_above w a) by (lia || done). done.
Qed.

Lemma shiftr_width a n : in_width w a -> 0 <= n -> in_width w (Z.shiftr a n).
Proof using Hw.
  intros Ha Hn. apply in_width_testbit; [done| |].
  - apply Z.shiftr_nonneg. unfold in_width in *. lia.
  - intros i Hi. rewrite Z.shiftr_spec by lia.
    rewrite (testbit_above w a) by (lia || done). done.
Qed.

Lemma mod_width a : in_width w (a mod 2 ^ w).
Proof using Hw. apply Z.mod_pos_bound, Z.pow_pos_nonneg; lia. Qed.

Lemma wrap_id a : in_width w a -> a mod 2 ^ w = a.
Proof. apply Z.mod_small. Qed.
End Bitwise.

Lemma in_width_mono w w' x : 0 <= w <= w' -> in_width w x -> in_width w' x.
Proof.
  unfold in_width. intros Hw [? ?]. split; [lia|].
  apply Z.lt_le_trans with (2 ^ w); [lia|]. apply Z.pow_le_mono_r; lia.
Qed.

Lemma u8_width x : in_width 8 (u8 x). Proof. by apply mod_width. Qed.
Lemma u16_width x : in_width 16 (u16 x). Proof. by apply mod_width. Qed.
Lemma u32_width x : in_width 32 (u32 x). Proof. by apply mod_width. Qed.
Lemma u64_width x : in_width 64 (u64 x). Proof. by apply mod_width. Qed.

Lemma u8_id x : in_width 8 x -> u8 x = x. Proof. apply wrap_id. Qed.
Lemma u16_id x : in_width 16 x -> u16 x = x. Proof. apply wrap_id. Qed.
Lemma u32_id x : in_width 32 x -> u32 x = x. Proof. apply wrap_id. Qed.
Lemma u64_id x : in_width 64 x -> u64 x = x. Proof. apply wrap_id. Qed.
Lemma u128_id x : in_width 128 x -> u128 x = x. Proof. apply wrap_id. Qed.

Lemma land_255_width x : in_width 8 (Z.land x 255).
Proof. change 255 with (Z.ones 8). rewrite Z.land_ones by lia. by apply mod_width. Qed.

#[export] Hint Resolve u8_width u16_width u32_width u64_width land_255_width : width.
#[export] Hint Resolve lxor_width lor_width land_width_l shiftr_width : width.
#[export] Hint Extern 4 (0 <= _) => lia : width.

(** Normalises [Z.testbit] of the bitwise operators, trying every occurrence;
    the range side conditions are decided by [lia]. *)
Ltac bit_norm :=
  repeat match goal with
  | |- context [Z.testbit (Z.lxor ?a ?b) ?m] => rewrite (Z.lxor_spec a b m)
  | |- context [Z.testbit (Z.land ?a ?b) ?m] => rewrite (Z.land_spec a b m)
  | |- context [Z.testbit (Z.lor ?a ?b) ?m] => rewrite (Z.lor_spec a b m)
  | |- context [Z.testbit 0 ?m] => rewrite (Z.testbit_0_l m)
  | |- context [Z.testbit ?a ?m] => rewrite (Z.testbit_neg_r a m) by lia
  | |- context [Z.testbit (Z.shiftr ?a ?n) ?m] => rewrite (Z.shiftr_spec a n m) by lia
  | |- context [Z.testbit (Z.shiftl ?a ?n) ?m] => rewrite (Z.shiftl_spec a n m) by lia
  | |- context [Z.testbit (Z.ones ?n) ?m] => rewrite (testbit_ones_iff n m) by lia
  | |- context [Z.testbit (?a mod 2 ^ ?n) ?m] => rewrite (testbit_mod_pow2 a n m) by lia
  | W : in_width ?w ?a |- context [Z.testbit ?a ?m] => rewrite (testbit_above w a m W) by lia
  end.

Ltac bit_cases :=
  repeat match goal with
  | |- context [?a <? ?b] => destruct (Z.ltb_spec a b); try lia
  end.

(** Proves an equality of integers bit by bit, after the index has been
    split at the thresholds of interest. *)
Ltac bit_close :=
  bit_norm; bit_cases; bit_norm;
  repeat match goal with
  | |- context [Z.testbit ?a ?m] => progress ring_simplify m
  end; try btauto.

(** Case analysis on every boolean comparison of the goal and context. *)
Ltac case_bool :=
  repeat match goal with
  | |- context [?a =? ?b] => destruct (Z.eqb_spec a b)
  | |- context [?a <? ?b] => destruct (Z.ltb_spec a b)
  | |- context [?a <=? ?b] => destruct (Z.leb_spec a b)
  | H : context [?a =? ?b] |- _ => destruct (Z.eqb_spec a b)
  | H : context [?a <? ?b] |- _ => destruct (Z.ltb_spec a b)
  | H : context [?a <=? ?b] |- _ => destruct (Z.leb_spec a b)
  end.

(** Discharges a decidable closed proposition by evaluation. *)
Ltac eval_decide := apply (bool_decide_eq_true_1 _); vm_compute; reflexivity.

(** ** Byte buffers *)

Lemma bytes_ok_nil : bytes_ok []. Proof. constructor. Qed.

Lemma bytes_ok_app a b : bytes_ok (a ++ b) <-> bytes_ok a /\ bytes_ok b.
Proof. apply Forall_app. Qed.

Lemma bytes_ok_take n bs : bytes_ok bs -> bytes_ok (take n bs).
Proof. apply Forall_take. Qed.

Lemma bytes_ok_drop n bs : bytes_ok bs -> bytes_ok (drop n bs).
Proof. apply Forall_drop. Qed.

Lemma bytes_ok_replicate n : bytes_ok (replicate n 0).
Proof. apply Forall_replicate. unfold in_width. lia. Qed.

Lemma bytes_ok_lookup bs i b : bytes_ok bs -> bs !! i = Some b -> in_width 8 b.
Proof. intros H Hi. eapply Forall_lookup_1; eauto. Qed.

(** Reading a buffer that is zero beyond its end. *)
Definition byte_at (bs : bytes) (i : nat) : Z := default 0 (bs !! i).

Lemma byte_at_width bs i : bytes_ok bs -> in_width 8 (byte_at bs i).
Proof.
  intros H. unfold byte_at. destruct (bs !! i) eqn:E; simpl.
  - eapply bytes_ok_lookup; eauto.
  - unfold in_width; lia.
Qed.

Lemma byte_at_lookup bs i : (i < length bs)%nat -> bs !! i = Some (byte_at bs i).
Proof.
  intros Hi. unfold byte_at. destruct (lookup_lt_is_Some_2 bs i Hi) as [x Hx].
  by rewrite Hx.
Qed.

Lemma byte_at_ge bs i : (length bs <= i)%nat -> byte_at bs i = 0.
Proof. intros Hi. unfold byte_at. by rewrite lookup_ge_None_2. Qed.

(** Buffers of the same length that agree at every index are equal. *)
Lemma bytes_eq (a b : bytes) :
  length a = length b ->
  (forall i, (i < length a)%nat -> byte_at a i = byte_at b i) -> a = b.
Proof.
  intros Hl He. apply list_eq. intros i. destruct (decide (i < length a)%nat) as [Hi|Hi].
  - rewrite !byte_at_lookup by lia. by rewrite He.
  - rewrite !lookup_ge_None_2 by lia. done.
Qed.

#[export] Hint Resolve bytes_ok_nil bytes_ok_take bytes_ok_drop bytes_ok_replicate
  byte_at_width : width.

Lemma length_store_le n v : length (store_le n v) = n.
Proof. revert v. induction n; intros v; simpl; [done|]. by rewrite IHn. Qed.

Lemma store_le_ok n v : bytes_ok (store_le n v).
Proof.
  revert v. induction n; intros v; simpl; constructor; auto with width. apply IHn.
Qed.

Lemma load_le_width bs : bytes_ok bs -> in_width (8 * Z.of_nat (length bs)) (load_le bs).
Proof.
  induction 1 as [|b r Hb Hr IH]; simpl; [unfold in_width; simpl; lia|].
  apply in_width_testbit; [lia| |].
  - apply Z.lor_nonneg. rewrite Z.shiftl_nonneg. unfold in_width in *. lia.
  - intros i Hi. rewrite Z.lor_spec, Z.shiftl_spec by lia.
    rewrite (testbit_above 8 b) by (done || lia).
    rewrite (testbit_above _ _ (i - 8) IH) by lia. done.
Qed.

(** Disjoint bit fields add up. *)
Lemma lor_shiftl_add k a y : 0 <= k -> in_width k a -> Z.lor a (Z.shiftl y k) = a + 2 ^ k * y.
Proof.
  intros Hk Ha.
  assert (Z.land a (Z.shiftl y k) = 0) as H0.
  { apply Z.bits_inj'. intros i Hi. rewrite Z.land_spec, Z.bits_0. destruct (Z.ltb_spec i k).
    - rewrite Z.shiftl_spec_low by lia. btauto.
    - rewrite (testbit_above k a) by (done || lia). btauto. }
  rewrite <- Z.lxor_lor, <- Z.add_nocarry_lxor by done. rewrite Z.shiftl_mul_pow2 by done. lia.
Qed.

(** Base-256 reading of a little-endian buffer. *)
Lemma load_le_cons b r : in_width 8 b -> load_le (b :: r) = b + 256 * load_le r.
Proof. intros Hb. apply (lor_shiftl_add 8); [lia|done]. Qed.

(** Bit [k] of a little-endian buffer. *)
Lemma testbit_load_le bs k : bytes_ok bs -> 0 <= k ->
  Z.testbit (load_le bs) k = Z.testbit (byte_at bs (Z.to_nat (k / 8))) (k mod 8).
Proof.
  intros H. revert k. induction H as [|b r Hb Hr IH]; intros k Hk.
  - unfold byte_at. rewrite lookup_nil. simpl. by rewrite !Z.testbit_0_l.
  - cbn [load_le]. bit_norm. destruct (Z.ltb_spec k 8) as [Hlt|Hge].
    + rewrite (Z.testbit_neg_r _ (k - 8)) by lia. rewrite Z.div_small, Z.mod_small by lia.
      change (byte_at (b :: r) (Z.to_nat 0)) with b. btauto.
    + rewrite (testbit_above 8 b) by (done || lia). rewrite IH by lia.
      replace k with (k - 8 + 1 * 8) at 3 4 by lia. rewrite Z.div_add, Z.mod_add by lia.
      replace (Z.to_nat ((k - 8) / 8 + 1)) with (S (Z.to_nat ((k - 8) / 8)))
        by (pose proof (Z.div_pos (k - 8) 8); lia).
      generalize (Z.to_nat ((k - 8) / 8)). intros i.
      change (byte_at (b :: r) (S i)) with (byte_at r i). btauto.
Qed.

(** [memcpy] of an integer out of a buffer it was copied into. *)
Lemma load_store_le n v : load_le (store_le n v) = v mod 2 ^ (8 * Z.of_nat n).
Proof.
  revert v. induction n as [|n IH]; intros v; simpl; [by rewrite Z.mod_1_r|].
  rewrite IH. change 255 with (Z.ones 8). apply Z.bits_inj'. intros i Hi. bit_norm.
  destruct (Z.ltb_spec i 8).
  - rewrite (Z.testbit_neg_r _ (i - 8)) by lia. bit_norm. bit_cases. btauto.
  - bit_norm. replace (i - 8 + 8) with i by lia. bit_cases; btauto.
Qed.

Lemma store_load_le bs : bytes_ok bs -> store_le (length bs) (load_le bs) = bs.
Proof.
  induction 1 as [|b r Hb Hr IH]; simpl; [done|].
  f_equal.
  - change 255 with (Z.ones 8). rewrite Z.land_ones by lia.
    rewrite <- (wrap_id 8 b Hb) at 2. apply Z.bits_inj'. intros i Hi. bit_norm.
    destruct (Z.ltb_spec i 8); [|done].
    rewrite (Z.testbit_neg_r _ (i - 8)) by lia. btauto.
  - transitivity (store_le (length r) (load_le r)); [f_equal|done]. apply Z.bits_inj'. intros i Hi. bit_norm.
    simpl. f_equal. lia.
Qed.

(** Two buffers of the same length with the same integer value are equal. *)
Lemma load_le_inj a b :
  bytes_ok a -> bytes_ok b -> length a = length b -> load_le a = load_le b -> a = b.
Proof.
  intros Ha Hb Hl He. rewrite <- (store_load_le a Ha), <- (store_load_le b Hb).
  by rewrite Hl, He.
Qed.

(** ** Lists *)

(** [std::vector::resize(n, 0)] of a byte buffer. *)
Definition resize0 (n : nat) (bs : bytes) : bytes :=
  take n bs ++ replicate (n - length bs) 0.

Lemma length_resize0 n bs : length (resize0 n bs) = n.
Proof. unfold resize0. rewrite length_app, length_take, length_replicate. lia. Qed.

Lemma resize0_ok n bs : bytes_ok bs -> bytes_ok (resize0 n bs).
Proof. intros H. apply bytes_ok_app; auto with width. Qed.

Lemma byte_at_resize0 n bs i : (i < n)%nat -> byte_at (resize0 n bs) i = byte_at bs i.
Proof.
  intros Hi. unfold resize0, byte_at.
  destruct (decide (i < length bs)%nat).
  - rewrite lookup_app_l by (rewrite length_take; lia).
    by rewrite lookup_take_lt by lia.
  - rewrite lookup_app_r by (rewrite length_take; lia).
    rewrite (lookup_ge_None_2 bs i) by lia.
    rewrite length_take. rewrite lookup_replicate_2 by lia. done.
Qed.

Lemma resize0_app n bs : (length bs <= n)%nat -> resize0 n bs = bs ++ replicate (n - length bs) 0.
Proof. intros H. unfold resize0. by rewrite take_ge. Qed.

(** ** Undefined behaviour

    Operations of the C++ source that the language leaves undefined (an index
    outside a vector, a floating-point value that does not fit the integer it
    is cast to, a null or dangling pointer, ...) end in [Fault]; everything else
    is [Ok]. *)

Inductive fault := OutOfBounds | BadCast | DivByZero | BadPointer.

Inductive res (A : Type) := Ok (a : A) | Fault (e : fault).
Arguments Ok {_} _.
Arguments Fault {_} _.

Global Instance res_ret : MRet res := fun A a => Ok a.
Global Instance res_bind : MBind res :=
  fun A B f m => match m with Ok a => f a | Fault e => Fault e end.

(** Element access [v\[i\]]. *)
Definition at_index {A} (l : list A) (i : nat) : res A :=
  match l !! i with Some x => Ok x | None => Fault OutOfBounds end.

Lemma at_index_lookup {A} (l : list A) i x : l !! i = Some x -> at_index l i = Ok x.
Proof. intros H. unfold at_index. by rewrite H. Qed.

Lemma bind_Ok {A B} (m : res A) (f : A -> res B) b :
  mbind f m = Ok b -> exists a, m = Ok a /\ f a = Ok b.
Proof. destruct m; [|done]. intros H. eauto. Qed.

(** Inverts a chain of [mbind]s that ends in [Ok]. *)
Ltac inv_bind H :=
  match type of H with
  | mbind _ _ = Ok _ =>
      let a := fresh "a" in let E := fresh "E" in
      apply bind_Ok in H as (a & E & H)
  end.

Lemma mapM_Ok {A B} (f : A -> res B) (g : A -> B) l :
  (forall x, x ∈ l -> f x = Ok (g x)) -> mapM f l = Ok (g <$> l).
Proof.
  induction l as [|x l IH]; intros H; [done|]. simpl. rewrite (H x) by left. simpl.
  rewrite IH by (intros; apply H; by right). done.
Qed.

(** Indexing past the end, once, is enough. *)
Lemma mapM_at_index_out {A} (l : list A) ks i :
  i ∈ ks -> (length l <= i)%nat -> mapM (at_index l) ks = Fault OutOfBounds.
Proof.
  intros Hi Hl. induction ks as [|j ks IH]; [by apply elem_of_nil in Hi|]. 
  change (mapM (at_index l) (j :: ks)) with (x ← at_index l j; xs ← mapM (at_index l) ks; mret (M := res) (x :: xs)).
  destruct (at_index l j) as [x|f] eqn:Ej; unfold at_index in Ej; destruct (l !! j) as [y|] eqn:El; simplify_eq; [|done].
  cbn [mbind res_bind]. rewrite IH; [done|]. apply elem_of_cons in Hi as [->|]; [|done].
  by rewrite lookup_ge_None_2 in El.
Qed.

Lemma mapM_at_index {A} (l : list A) n :
  (n <= length l)%nat -> mapM (at_index l) (seq 0 n) = Ok (take n l).
Proof.
  intros Hn. destruct n as [|n]; [done|].
  destruct l as [|d l0]; [simpl in Hn; lia|]. set (l := d :: l0) in *.
  rewrite (mapM_Ok _ (fun i => default d (l !! i))).
  - f_equal. apply list_eq. intros i. rewrite list_lookup_fmap.
    destruct (decide (i < S n)%nat).
    + rewrite lookup_seq_lt, lookup_take_lt by done. simpl.
      destruct (lookup_lt_is_Some_2 l i) as [x Hx]; [lia|]. by rewrite Hx.
    + rewrite !lookup_ge_None_2; [done|rewrite length_take; lia|rewrite length_seq; lia].
  - intros i Hi. apply elem_of_seq in Hi. destruct (lookup_lt_is_Some_2 l i) as [x Hx]; [lia|].
    rewrite Hx. by apply at_index_lookup.
Qed.
