(* ===== verification/Crc.v ===== *)
(** * CRC-32 (tight/src/crc32.cpp)

    The table-driven checksum of the datagrams, its equivalence with the
    bit-serial IEEE 802.3 definition, its linearity, and the burst-error
    property the packet codec relies on. *)
From stdpp Require Import base list numbers option.
From Stdlib Require Import ZArith Lia Btauto.
From S2P Require Import Prelude.

Local Open Scope Z_scope.

Module Crc32.

(** One step of the inner loop of [init_crc_table]: bit [k] of the entry. *)
Definition crc_bit (c : Z) : Z :=
  if Z.land c 1 =? 0 then Z.shiftr c 1 else Z.lxor 0xEDB88320 (Z.shiftr c 1).

(** [init_crc_table]: entry [i] is [i] after eight steps. *)
Definition init_crc_table : list Z :=
  (fun i => Nat.iter 8 crc_bit i) <$> seqZ 0 256.

Definition g_crc_table : list Z := Eval vm_compute in init_crc_table.

(** Body of the loop of [crc32_update]. *)
Definition crc_step (crc b : Z) : Z :=
  Z.lxor (byte_at g_crc_table (Z.to_nat (Z.land (Z.lxor crc b) 0xFF))) (Z.shiftr crc 8).

Definition crc32_update (crc : Z) (data : bytes) : Z := foldl crc_step crc data.

Definition crc32_compute (data : bytes) : Z :=
  Z.lxor (crc32_update 0xFFFFFFFF data) 0xFFFFFFFF.

(** Reference: the bit-serial CRC, one shift per message bit. *)
Definition crc32_bitwise (crc : Z) (data : bytes) : Z :=
  foldl (fun c b => Nat.iter 8 crc_bit (Z.lxor c b)) crc data.

(** ** The one-bit step *)

Lemma crc_bit_alt c :
  crc_bit c = Z.lxor (if Z.testbit c 0 then 0xEDB88320 else 0) (Z.shiftr c 1).
Proof.
  unfold crc_bit. change 1 with (Z.ones 1) at 1. rewrite Z.land_ones by lia.
  change (2 ^ 1) with 2. rewrite Z.bit0_odd, Zmod_odd. destruct (Z.odd c); simpl; [done|].
  by rewrite Z.lxor_0_l.
Qed.

Lemma crc_bit_lxor a b : crc_bit (Z.lxor a b) = Z.lxor (crc_bit a) (crc_bit b).
Proof.
  rewrite !crc_bit_alt, Z.lxor_spec, Z.shiftr_lxor.
  destruct (Z.testbit a 0), (Z.testbit b 0); simpl; apply Z.bits_inj'; intros i Hi;
    rewrite ?Z.lxor_spec, ?Z.testbit_0_l; btauto.
Qed.

Lemma crc_bit_0 : crc_bit 0 = 0. Proof. done. Qed.

Lemma crc_bit_width c : in_width 32 c -> in_width 32 (crc_bit c).
Proof.
  intros Hc. rewrite crc_bit_alt. apply lxor_width; [lia| |auto with width].
  destruct (Z.testbit c 0); unfold in_width; lia.
Qed.

Lemma crc_bit_zero_inv c : in_width 32 c -> crc_bit c = 0 -> c = 0.
Proof.
  intros Hc H0. rewrite crc_bit_alt in H0. apply Z.lxor_eq in H0.
  destruct (Z.testbit c 0) eqn:E.
  - exfalso. assert (Z.testbit 0xEDB88320 31 = true) as Hb by done.
    rewrite H0, Z.shiftr_spec, (testbit_above 32) in Hb by (done || lia). done.
  - apply Z.bits_inj'. intros i Hi. rewrite Z.testbit_0_l.
    destruct (decide (i = 0)) as [->|]; [done|].
    replace i with (i - 1 + 1) by lia. rewrite <- Z.shiftr_spec by lia.
    by rewrite <- H0, Z.testbit_0_l.
Qed.

Lemma iter_crc_bit_lxor n a b :
  Nat.iter n crc_bit (Z.lxor a b) = Z.lxor (Nat.iter n crc_bit a) (Nat.iter n crc_bit b).
Proof. induction n; simpl; [done|]. by rewrite IHn, crc_bit_lxor. Qed.

Lemma iter_crc_bit_width n c : in_width 32 c -> in_width 32 (Nat.iter n crc_bit c).
Proof. intros H. induction n; simpl; [done|]. by apply crc_bit_width. Qed.

Lemma iter_crc_bit_inj n a b :
  in_width 32 a -> in_width 32 b -> Nat.iter n crc_bit a = Nat.iter n crc_bit b -> a = b.
Proof.
  intros Ha Hb H. apply Z.lxor_eq. assert (in_width 32 (Z.lxor a b)) as Hw by auto with width.
  assert (Nat.iter n crc_bit (Z.lxor a b) = 0) as H0.
  { by rewrite iter_crc_bit_lxor, H, Z.lxor_nilpotent. }
  clear H. revert H0. induction n; simpl; [done|]. intros H0. apply IHn.
  apply crc_bit_zero_inv; [by apply iter_crc_bit_width|done].
Qed.

(** Shifting in eight zero low bits is undone by eight steps. *)
Lemma crc_bit_shiftl_1 x : crc_bit (Z.shiftl x 1) = x.
Proof.
  rewrite crc_bit_alt, Z.shiftl_spec by lia. rewrite Z.testbit_neg_r by lia.
  by rewrite Z.lxor_0_l, Z.shiftr_shiftl_l, Z.shiftl_0_r by lia.
Qed.

Lemma iter_crc_bit_shiftl n x : Nat.iter n crc_bit (Z.shiftl x (Z.of_nat n)) = x.
Proof.
  revert x. induction n as [|n IH]; intros x; [by rewrite Z.shiftl_0_r|].
  rewrite Nat.iter_succ_r.
  replace (Z.of_nat (S n)) with (Z.of_nat n + 1) by lia.
  rewrite <- Z.shiftl_shiftl by lia. by rewrite crc_bit_shiftl_1.
Qed.

(** ** The byte step *)

Lemma g_crc_table_spec i : 0 <= i < 256 ->
  byte_at g_crc_table (Z.to_nat i) = Nat.iter 8 crc_bit i.
Proof.
  intros Hi. change g_crc_table with init_crc_table. unfold byte_at, init_crc_table.
  rewrite list_lookup_fmap, lookup_seqZ_lt by lia. simpl. do 8 f_equal. lia.
Qed.

(** The table step is eight bit steps on [crc xor b]. *)
Lemma crc_step_bitwise crc b :
  in_width 8 b -> crc_step crc b = Nat.iter 8 crc_bit (Z.lxor crc b).
Proof.
  intros Hb. unfold crc_step.
  rewrite g_crc_table_spec by (apply land_255_width).
  set (x := Z.lxor crc b). rewrite <- (iter_crc_bit_shiftl 8 (Z.shiftr crc 8)).
  rewrite <- iter_crc_bit_lxor. f_equal. subst x. change 0xFF with (Z.ones 8).
  apply Z.bits_inj'. intros i Hi. bit_norm. destruct (Z.ltb_spec i 8).
  - rewrite (Z.testbit_neg_r _ (i - Z.of_nat 8)) by lia. btauto.
  - rewrite Z.shiftr_spec by lia. replace (i - Z.of_nat 8 + 8) with i by lia.
    rewrite (testbit_above 8 b) by (done || lia). btauto.
Qed.

Lemma crc_step_width crc b : in_width 32 crc -> in_width 8 b -> in_width 32 (crc_step crc b).
Proof.
  intros Hc Hb. rewrite crc_step_bitwise by done. apply iter_crc_bit_width.
  apply lxor_width; [lia|done|]. by apply (in_width_mono 8).
Qed.

Lemma crc32_update_width crc bs :
  in_width 32 crc -> bytes_ok bs -> in_width 32 (crc32_update crc bs).
Proof.
  intros Hc Hb. revert crc Hc. induction Hb; intros crc Hc; simpl; [done|].
  apply IHHb. by apply crc_step_width.
Qed.

Lemma crc32_update_app crc a b :
  crc32_update crc (a ++ b) = crc32_update (crc32_update crc a) b.
Proof. apply foldl_app. Qed.

(** Feeding bytes shifts them into the register from the low end: the state
    after [bs] is [8 * length bs] bit steps on [crc xor (bs as an integer)]. *)
Lemma crc32_update_shift crc bs : bytes_ok bs ->
  crc32_update crc bs = Nat.iter (8 * length bs) crc_bit (Z.lxor crc (load_le bs)).
Proof.
  intros Hb. revert crc. induction Hb as [|b r Hb Hr IH]; intros crc.
  { simpl. by rewrite Z.lxor_0_r. }
  cbn [crc32_update foldl]. change (foldl crc_step ?c r) with (crc32_update c r).
  rewrite IH, crc_step_bitwise by done.
  replace (8 * length (b :: r))%nat with (8 * length r + 8)%nat by (simpl; lia).
  rewrite Nat.iter_add. f_equal.
  rewrite <- (iter_crc_bit_shiftl 8 (load_le r)) at 1. rewrite <- iter_crc_bit_lxor. f_equal.
  simpl load_le. apply Z.bits_inj'. intros i Hi. bit_norm. destruct (Z.ltb_spec i 8).
  - rewrite (Z.testbit_neg_r _ (i - Z.of_nat 8)), (Z.testbit_neg_r _ (i - 8)) by lia. btauto.
  - rewrite (testbit_above 8 b) by (done || lia). change (Z.of_nat 8) with 8. btauto.
Qed.

(** The register is an injective function of its previous value... *)
Lemma crc32_update_inj c d bs :
  in_width 32 c -> in_width 32 d -> bytes_ok bs ->
  crc32_update c bs = crc32_update d bs -> c = d.
Proof.
  intros Hc Hd Hb. revert c d Hc Hd. induction Hb as [|b r Hb Hr IH]; intros c d Hc Hd; [done|].
  simpl. intros H. apply IH in H; [|by apply crc_step_width..].
  rewrite !crc_step_bitwise in H by done.
  assert (in_width 32 b) by (by apply (in_width_mono 8)).
  apply iter_crc_bit_inj in H; [|auto with width..].
  by apply (f_equal (fun z => Z.lxor z b)) in H;
    rewrite !Z.lxor_assoc, Z.lxor_nilpotent, !Z.lxor_0_r in H.
Qed.

(** Two byte strings of one length that differ, and only within 32 consecutive
    bits; the bits of a byte count from the least significant one, as the
    reflected CRC takes them. *)
Definition burst (e e' : bytes) : Prop :=
  exists k d, 0 <= k /\ 0 < d < 2 ^ 32 /\ Z.lxor (load_le e) (load_le e') = Z.shiftl d k.

Lemma burst_ne e e' : burst e e' -> e <> e'.
Proof.
  intros (k & d & Hk & Hd & E) ->. rewrite Z.lxor_nilpotent in E. symmetry in E.
  apply Z.shiftl_eq_0_iff in E; lia.
Qed.

(** ... and a burst fed to it changes it. *)
Lemma crc32_update_burst c e e' : bytes_ok e -> bytes_ok e' -> length e = length e' -> burst e e' ->
  crc32_update c e <> crc32_update c e'.
Proof.
  intros He He' Hl (k & d & Hk & Hd & E) H. rewrite !crc32_update_shift, Hl in H by done.
  set (n := (8 * length e')%nat) in *.
  assert (k < Z.of_nat n) as Hkn.
  { assert (in_width (8 * Z.of_nat (length e')) (Z.lxor (load_le e) (load_le e'))) as Hw.
    { apply lxor_width; [lia| |by apply load_le_width]. rewrite <- Hl. by apply load_le_width. }
    rewrite E, Z.shiftl_mul_pow2 in Hw by lia. unfold in_width in Hw.
    apply (Z.pow_lt_mono_r_iff 2); [lia..|]. replace (Z.of_nat n) with (8 * Z.of_nat (length e')) by lia. nia. }
  assert (Nat.iter n crc_bit (Z.lxor (load_le e) (load_le e')) = 0) as H0.
  { rewrite iter_crc_bit_lxor. rewrite !iter_crc_bit_lxor in H.
    apply (f_equal (Z.lxor (Nat.iter n crc_bit c))) in H. rewrite <- !Z.lxor_assoc, Z.lxor_nilpotent, !Z.lxor_0_l in H.
    by rewrite H, Z.lxor_nilpotent. }
  rewrite E in H0. replace n with (n - Z.to_nat k + Z.to_nat k)%nat in H0 by lia.
  rewrite Nat.iter_add in H0. replace (Z.shiftl d k) with (Z.shiftl d (Z.of_nat (Z.to_nat k))) in H0 by (f_equal; lia). rewrite iter_crc_bit_shiftl in H0.
  assert (d = 0); [|lia]. apply (iter_crc_bit_inj (n - Z.to_nat k)); [unfold in_width; lia..|].
  rewrite H0. clear. induction (n - Z.to_nat k)%nat as [|m IH]; [done|]. change (0 = crc_bit (Nat.iter m crc_bit 0)). by rewrite <- IH.
Qed.

(** The table-driven CRC of crc32.cpp computes the bit-serial IEEE CRC on
    every message. *)
Theorem crc32_update_correct crc data :
  bytes_ok data -> crc32_update crc data = crc32_bitwise crc data.
Proof.
  intros Hb. revert crc. induction Hb as [|b r Hb Hr IH]; intros crc; [done|].
  simpl. by rewrite IH, crc_step_bitwise.
Qed.

Lemma crc32_update_correct_witness :
  crc32_update 0xFFFFFFFF [0x31; 0x32; 0x33] = crc32_bitwise 0xFFFFFFFF [0x31; 0x32; 0x33].
Proof. apply crc32_update_correct. eval_decide. Defined.

(** A burst always changes the register. *)
Lemma crc32_burst c pre e e' post :
  in_width 32 c -> bytes_ok pre -> bytes_ok e -> bytes_ok e' -> bytes_ok post ->
  length e = length e' -> burst e e' ->
  crc32_update c (pre ++ e ++ post) <> crc32_update c (pre ++ e' ++ post).
Proof.
  intros Hc Hp He He' Hq Hl Hn H. rewrite !crc32_update_app in H.
  apply crc32_update_inj in H; [|by repeat apply crc32_update_width..|done].
  by apply crc32_update_burst in H.
Qed.

Example crc32_check_value :
  crc32_compute [0x31;0x32;0x33;0x34;0x35;0x36;0x37;0x38;0x39] = 0xCBF43926.
Proof. vm_compute. reflexivity. Qed.

End Crc32.
