(* ===== verification/Wire.v ===== *)
(** * Wire format (tight/src/wire_format.hpp, tight/include/tight/types.hpp)

    The constants, the byte-swapping helpers and the header record shared by
    the transport's translation units, and buffer writes through [memcpy]. *)
From stdpp Require Import base list numbers option.
From Stdlib Require Import ZArith Lia Btauto.
From S2P Require Import Prelude.

Local Open Scope Z_scope.

Module Wire.

Definition kMagic : Z := 0x54474854.
Definition kVersion : Z := 1.
Definition kHeaderSize : nat := 48.
Definition kFlagEncrypted : Z := 0x8000.

Definition to_be16 (v : Z) : Z :=
  u16 (Z.lor (Z.shiftl (Z.land v 0x00FF) 8) (Z.shiftr (Z.land v 0xFF00) 8)).

Definition to_be32 (v : Z) : Z :=
  u32 (Z.lor (Z.lor (Z.shiftl (Z.land v 0x000000FF) 24) (Z.shiftl (Z.land v 0x0000FF00) 8))
             (Z.lor (Z.shiftr (Z.land v 0x00FF0000) 8) (Z.shiftr (Z.land v 0xFF000000) 24))).

Definition to_be64 (v : Z) : Z :=
  Z.lor (u64 (Z.shiftl (to_be32 (u32 (Z.land (Z.shiftr v 32) 0xFFFFFFFF))) 32))
        (to_be32 (u32 (Z.land v 0xFFFFFFFF))).

(** [enum class PacketType : std::uint8_t]. The underlying type is fixed, so
    a value read from the network may be none of the enumerators. *)
Inductive PacketType :=
| Handshake | HandshakeAck | Online | Heartbeat | Bye | Data | Parity | Ack | Report
| Probe | Command | UnknownType (code : Z).

Global Instance PacketType_eq_dec : EqDecision PacketType.
Proof. solve_decision. Defined.

Definition type_code (t : PacketType) : Z :=
  match t with
  | Handshake => 0 | HandshakeAck => 1 | Online => 2 | Heartbeat => 3 | Bye => 4
  | Data => 5 | Parity => 6 | Ack => 7 | Report => 8 | Probe => 9 | Command => 10
  | UnknownType c => c
  end.

Definition type_of_code (c : Z) : PacketType :=
  match c with
  | 0 => Handshake | 1 => HandshakeAck | 2 => Online | 3 => Heartbeat | 4 => Bye
  | 5 => Data | 6 => Parity | 7 => Ack | 8 => Report | 9 => Probe | 10 => Command
  | c => UnknownType c
  end.

Record PacketHeader := mkHeader {
  magic : Z; version : Z; type : PacketType; flags : Z; client_id : Z; session_id : Z;
  sequence : Z; acknowledgment : Z; message_id : Z; fragment_index : Z; fragment_count : Z;
  payload_size : Z; reserved : Z; tick : Z; checksum : Z
}.

Global Instance PacketHeader_eq_dec : EqDecision PacketHeader.
Proof. solve_decision. Defined.

(** [PacketHeader header{}]: value-initialised. *)
Definition empty_header : PacketHeader :=
  mkHeader 0 0 Handshake 0 0 0 0 0 0 0 0 0 0 0 0.

Definition set_checksum (h : PacketHeader) (c : Z) : PacketHeader :=
  mkHeader (magic h) (version h) (type h) (flags h) (client_id h) (session_id h)
    (sequence h) (acknowledgment h) (message_id h) (fragment_index h) (fragment_count h)
    (payload_size h) (reserved h) (tick h) c.

Definition set_flags_size (h : PacketHeader) (f s : Z) : PacketHeader :=
  mkHeader (magic h) (version h) (type h) f (client_id h) (session_id h)
    (sequence h) (acknowledgment h) (message_id h) (fragment_index h) (fragment_count h)
    s (reserved h) (tick h) (checksum h).

(** The fields fit their C++ types. *)
Definition type_wf (t : PacketType) : Prop :=
  match t with UnknownType c => 11 <= c < 256 | _ => True end.

Definition header_wf (h : PacketHeader) : Prop :=
  in_width 32 (magic h) /\ in_width 8 (version h) /\ type_wf (type h) /\
  in_width 16 (flags h) /\ in_width 32 (client_id h) /\ in_width 64 (session_id h) /\
  in_width 32 (sequence h) /\ in_width 32 (acknowledgment h) /\ in_width 32 (message_id h) /\
  in_width 16 (fragment_index h) /\ in_width 16 (fragment_count h) /\
  in_width 16 (payload_size h) /\ in_width 16 (reserved h) /\ in_width 32 (tick h).

Global Instance type_wf_dec t : Decision (type_wf t).
Proof. destruct t; apply _. Defined.

Global Instance header_wf_dec h : Decision (header_wf h).
Proof. unfold header_wf. apply _. Defined.

(** [std::memcpy(buf + off, bs, |bs|)] inside an allocated buffer. *)
Definition put (buf : bytes) (off : nat) (bs : bytes) : bytes :=
  take off buf ++ bs ++ drop (off + length bs) buf.

(** [std::memcpy(&v, buf + off, n)]. *)
Definition get (buf : bytes) (off n : nat) : Z := load_le (take n (drop off buf)).

Definition put8 (off : nat) (v : Z) (buf : bytes) : bytes := put buf off (store_le 1 v).
Definition put16 (off : nat) (v : Z) (buf : bytes) : bytes := put buf off (store_le 2 (to_be16 v)).
Definition put32 (off : nat) (v : Z) (buf : bytes) : bytes := put buf off (store_le 4 (to_be32 v)).
Definition put64 (off : nat) (v : Z) (buf : bytes) : bytes := put buf off (store_le 8 (to_be64 v)).

Definition get8 (buf : bytes) (off : nat) : Z := get buf off 1.
Definition get16 (buf : bytes) (off : nat) : Z := to_be16 (get buf off 2).
Definition get32 (buf : bytes) (off : nat) : Z := to_be32 (get buf off 4).
Definition get64 (buf : bytes) (off : nat) : Z :=
  let lo := get32 buf off in
  let hi := get32 buf (off + 4) in
  Z.lor (u64 (Z.shiftl hi 32)) lo.

(** ** Byte order *)

Lemma to_be16_rev v : in_width 16 v -> to_be16 v = load_le (rev (store_le 2 v)).
Proof.
  intros Hv. unfold to_be16, u16. simpl.
  change 0xFF00 with (Z.shiftl (Z.ones 8) 8). change 0x00FF with (Z.ones 8).
  change 255 with (Z.ones 8). apply Z.bits_inj'. intros i Hi.
  destruct (Z.ltb_spec i 8), (Z.ltb_spec i 16); try lia; bit_close.
Qed.

Lemma to_be32_rev v : in_width 32 v -> to_be32 v = load_le (rev (store_le 4 v)).
Proof.
  intros Hv. unfold to_be32, u32. simpl.
  change 0xFF000000 with (Z.shiftl (Z.ones 8) 24). change 0xFF0000 with (Z.shiftl (Z.ones 8) 16).
  change 0xFF00 with (Z.shiftl (Z.ones 8) 8). change 255 with (Z.ones 8).
  apply Z.bits_inj'. intros i Hi.
  destruct (Z.ltb_spec i 8), (Z.ltb_spec i 16), (Z.ltb_spec i 24), (Z.ltb_spec i 32);
    try lia; bit_close.
Qed.

Lemma to_be16_width v : in_width 16 (to_be16 v).
Proof. apply u16_width. Qed.

Lemma to_be32_width v : in_width 32 (to_be32 v).
Proof. apply u32_width. Qed.

Lemma to_be64_width v : in_width 64 (to_be64 v).
Proof.
  unfold to_be64. apply lor_width; [lia|apply u64_width|].
  eapply in_width_mono; [|apply to_be32_width]. lia.
Qed.

Lemma rev_ok bs : bytes_ok bs -> bytes_ok (rev bs).
Proof. apply List.Forall_rev. Qed.

(** What a swapped store leaves in memory: the big-endian bytes of [v]. *)
Lemma store_be16 v : in_width 16 v -> store_le 2 (to_be16 v) = rev (store_le 2 v).
Proof.
  intros H. rewrite to_be16_rev by done.
  change 2%nat with (length (rev (store_le 2 v))) at 1.
  apply store_load_le, rev_ok, store_le_ok.
Qed.

Lemma store_be32 v : in_width 32 v -> store_le 4 (to_be32 v) = rev (store_le 4 v).
Proof.
  intros H. rewrite to_be32_rev by done.
  change 4%nat with (length (rev (store_le 4 v))) at 1.
  apply store_load_le, rev_ok, store_le_ok.
Qed.

Lemma to_be16_involutive v : in_width 16 v -> to_be16 (to_be16 v) = v.
Proof.
  intros H. rewrite (to_be16_rev (to_be16 v)) by apply to_be16_width.
  rewrite store_be16, rev_involutive, load_store_le by done. by apply wrap_id.
Qed.

Lemma to_be32_involutive v : in_width 32 v -> to_be32 (to_be32 v) = v.
Proof.
  intros H. rewrite (to_be32_rev (to_be32 v)) by apply to_be32_width.
  rewrite store_be32, rev_involutive, load_store_le by done. by apply wrap_id.
Qed.

(** ** Reading a buffer built by concatenation *)

Lemma get_skip f r off n :
  (length f <= off)%nat -> get (f ++ r) off n = get r (off - length f) n.
Proof. intros H. unfold get. by rewrite drop_app_ge. Qed.

Lemma get_hit n w r : get (store_le n w ++ r) 0 n = w mod 2 ^ (8 * Z.of_nat n).
Proof.
  unfold get. rewrite drop_0, take_app_length' by (by rewrite length_store_le).
  apply load_store_le.
Qed.

Lemma get_app_l d r off n :
  (off + n <= length d)%nat -> get (d ++ r) off n = get d off n.
Proof.
  intros H. unfold get. rewrite drop_app_le by lia. rewrite take_app_le; [done|].
  rewrite length_drop. lia.
Qed.

Lemma get_width d off n : bytes_ok d -> in_width (8 * Z.of_nat n) (get d off n).
Proof.
  intros H. unfold get. eapply in_width_mono; [|apply load_le_width; auto with width].
  rewrite length_take. lia.
Qed.

(** Storing back what was loaded reproduces the slice. *)
Lemma store_get d off n :
  bytes_ok d -> (off + n <= length d)%nat -> store_le n (get d off n) = take n (drop off d).
Proof.
  intros Hd Hl. unfold get.
  assert (length (take n (drop off d)) = n) as Hn by (rewrite length_take, length_drop; lia).
  rewrite <- Hn at 1. apply store_load_le. auto with width.
Qed.

Lemma store_get16 d off : bytes_ok d -> (off + 2 <= length d)%nat ->
  store_le 2 (to_be16 (get16 d off)) = take 2 (drop off d).
Proof.
  intros Hd Hl. unfold get16. rewrite to_be16_involutive by (by apply (get_width d off 2)).
  by apply store_get.
Qed.

Lemma store_get32 d off : bytes_ok d -> (off + 4 <= length d)%nat ->
  store_le 4 (to_be32 (get32 d off)) = take 4 (drop off d).
Proof.
  intros Hd Hl. unfold get32. rewrite to_be32_involutive by (by apply (get_width d off 4)).
  by apply store_get.
Qed.

(** ** The 64-bit field: two swapped words, low word first *)

Lemma store_le_split n m v :
  store_le (n + m) v = store_le n v ++ store_le m (Z.shiftr v (8 * Z.of_nat n)).
Proof.
  revert v. induction n as [|n IH]; intros v; [done|].
  cbn [store_le Nat.add app]. rewrite IH, Z.shiftr_shiftr by lia. do 4 f_equal. lia.
Qed.

Lemma store_le_mod n v : store_le n (v mod 2 ^ (8 * Z.of_nat n)) = store_le n v.
Proof.
  rewrite <- load_store_le. rewrite <- (length_store_le n v) at 1.
  apply store_load_le, store_le_ok.
Qed.

Lemma store_be64 v : in_width 64 v ->
  store_le 8 (to_be64 v) =
  store_le 4 (to_be32 (u32 v)) ++ store_le 4 (to_be32 (Z.shiftr v 32)).
Proof.
  intros Hv. change 8%nat with (4 + 4)%nat. rewrite store_le_split.
  change (8 * Z.of_nat 4) with 32.
  pose proof (to_be32_width (u32 v)) as Wl. pose proof (to_be32_width (Z.shiftr v 32)) as Wh.
  assert (to_be64 v = Z.lor (Z.shiftl (to_be32 (Z.shiftr v 32)) 32) (to_be32 (u32 v))) as ->.
  { unfold to_be64. change 0xFFFFFFFF with (Z.ones 32). rewrite !Z.land_ones by lia.
    fold (u32 (Z.shiftr v 32)) (u32 v). rewrite !(u32_id (u32 _)) by apply u32_width.
    assert (in_width 32 (Z.shiftr v 32)) as W32.
    { unfold in_width in *. rewrite Z.shiftr_div_pow2 by lia. split.
      - apply Z.div_pos; lia.
      - apply Z.div_lt_upper_bound; lia. }
    rewrite (u32_id (Z.shiftr v 32)) by done. f_equal. apply u64_id.
    unfold in_width in *. rewrite Z.shiftl_mul_pow2 by lia. lia. }
  f_equal.
  - rewrite <- (store_le_mod 4). f_equal. change (8 * Z.of_nat 4) with 32.
    rewrite <- (wrap_id 32 (to_be32 (u32 v))) at 2 by done.
    apply Z.bits_inj'. intros i Hi. destruct (Z.ltb_spec i 32); bit_close.
  - f_equal. apply Z.bits_inj'. intros i Hi. bit_close.
Qed.

Lemma get64_hit v r : in_width 64 v -> get64 (store_le 8 (to_be64 v) ++ r) 0 = v.
Proof.
  intros Hv. rewrite store_be64 by done. unfold get64, get32.
  rewrite <- app_assoc, get_hit. rewrite get_skip by (rewrite length_store_le; lia).
  rewrite length_store_le. change (0 + 4 - 4)%nat with 0%nat. rewrite get_hit.
  change (8 * Z.of_nat 4) with 32.
  rewrite !(wrap_id 32 (to_be32 _)) by apply to_be32_width.
  assert (in_width 32 (Z.shiftr v 32)) as W32.
  { unfold in_width in *. rewrite Z.shiftr_div_pow2 by lia. split.
    - apply Z.div_pos; lia.
    - apply Z.div_lt_upper_bound; lia. }
  rewrite !to_be32_involutive by (done || apply u32_width). unfold u64, u32.
  apply Z.bits_inj'. intros i Hi. destruct (Z.ltb_spec i 32), (Z.ltb_spec i 64); try lia; bit_close.
Qed.

Lemma get64_width d off : in_width 64 (get64 d off).
Proof.
  unfold get64. apply lor_width; [lia|apply u64_width|].
  eapply in_width_mono; [|apply to_be32_width]. lia.
Qed.

Lemma get64_low d off : u32 (get64 d off) = get32 d off.
Proof.
  unfold get64, u32, u64. pose proof (to_be32_width (get d off 4)) as W.
  fold (get32 d off) in W. rewrite <- (wrap_id 32 (get32 d off)) at 2 by done.
  apply Z.bits_inj'. intros i Hi. destruct (Z.ltb_spec i 32); bit_close.
Qed.

Lemma get64_high d off : Z.shiftr (get64 d off) 32 = get32 d (off + 4).
Proof.
  unfold get64, u64. pose proof (to_be32_width (get d off 4)) as W.
  fold (get32 d off) in W. pose proof (to_be32_width (get d (off + 4) 4)) as W'.
  fold (get32 d (off + 4)) in W'.
  apply Z.bits_inj'. intros i Hi. destruct (Z.ltb_spec i 32); bit_close.
Qed.

Lemma store_get64 d off : bytes_ok d -> (off + 8 <= length d)%nat ->
  store_le 8 (to_be64 (get64 d off)) = take 8 (drop off d).
Proof.
  intros Hd Hl. rewrite store_be64 by apply get64_width.
  rewrite get64_low, get64_high, !store_get32 by (done || lia).
  change 8%nat with (4 + 4)%nat. rewrite <- drop_drop. apply take_take_drop.
Qed.

Lemma type_code_of_code c : 0 <= c -> type_code (type_of_code c) = c.
Proof.
  intros H. destruct c as [|p|p]; [done| |lia].
  do 4 (destruct p as [p|p|]; try done).
Qed.

Lemma type_of_code_code t : type_wf t -> type_of_code (type_code t) = t.
Proof.
  destruct t as [| | | | | | | | | | |c]; try done. simpl. intros H.
  destruct c as [|p|p]; [lia| |lia]. do 4 (destruct p as [p|p|]; try done; try lia).
Qed.

Lemma type_code_width t : type_wf t -> in_width 8 (type_code t).
Proof. destruct t; simpl; unfold in_width; lia. Qed.

Lemma type_of_code_wf c : in_width 8 c -> type_wf (type_of_code c).
Proof.
  unfold in_width. intros H. destruct c as [|p|p]; [done| |lia].
  do 4 (destruct p as [p|p|]; try exact I; try (simpl; lia)).
Qed.

#[export] Hint Resolve to_be16_width to_be32_width to_be64_width store_le_ok rev_ok
  get64_width : width.

End Wire.
