(* ===== verification/Codec.v ===== *)
(** * Packet codec (tight/src/packet_codec.cpp)

    Encoding and decoding of a datagram: the 48-byte header, the payload and
    the CRC over both. The encoder writes into a caller-supplied buffer as the
    source does; the theorems relate it to the decoder in both directions and
    show which corruptions the decoder rejects. *)
From stdpp Require Import base list numbers option.
From Stdlib Require Import ZArith Lia Btauto.
From S2P Require Import Prelude Crc Wire.

Local Open Scope Z_scope.
Import Crc32 Wire.

Module PacketCodec.

(** [encode_header_to]: the sixteen stores into [out]. *)
Definition encode_header_to (header : PacketHeader) (out : bytes) : bytes :=
  let p := put32 0 (magic header) out in
  let p := put8 4 (version header) p in
  let p := put8 5 (type_code (type header)) p in
  let p := put16 6 (flags header) p in
  let p := put32 8 (client_id header) p in
  let p := put64 12 (session_id header) p in
  let p := put32 20 (sequence header) p in
  let p := put32 24 (acknowledgment header) p in
  let p := put32 28 (message_id header) p in
  let p := put16 32 (fragment_index header) p in
  let p := put16 34 (fragment_count header) p in
  let p := put16 36 (payload_size header) p in
  let p := put16 38 (reserved header) p in
  let p := put32 40 (tick header) p in
  put32 44 0 p.

Definition finalize_crc (datagram : bytes) (size : nat) : bytes :=
  if (size <? kHeaderSize)%nat then datagram
  else
    let datagram := put datagram 44 (replicate 4 0) in
    let crc := crc32_update 0xFFFFFFFF (take size datagram) in
    put datagram 44 (store_le 4 (to_be32 (Z.lxor crc 0xFFFFFFFF))).

(** [encode_to] returns the buffer and the total length written. *)
Definition encode_to (header : PacketHeader) (payload : bytes) (out : bytes) : bytes * nat :=
  let out := encode_header_to header out in
  let '(out, total) :=
    match payload with
    | [] => (out, kHeaderSize)
    | _ => (put out kHeaderSize payload, (kHeaderSize + length payload)%nat)
    end in
  (finalize_crc out total, total).

Definition encode (header : PacketHeader) (payload : bytes) : bytes :=
  (encode_to header payload (replicate (kHeaderSize + length payload) 0)).1.

(** [decode]: [None] is the [false] result. *)
Definition decode (p : bytes) : option (PacketHeader * bytes) :=
  let size := length p in
  if (size <? kHeaderSize)%nat then None else
  let m := get32 p 0 in
  if negb (m =? kMagic) then None else
  let v := get8 p 4 in
  if negb (v =? kVersion) then None else
  let psize := get16 p 36 in
  let header := mkHeader m v (type_of_code (get8 p 5)) (get16 p 6) (get32 p 8) (get64 p 12)
    (get32 p 20) (get32 p 24) (get32 p 28) (get16 p 32) (get16 p 34) psize (get16 p 38)
    (get32 p 40) (get32 p 44) in
  let n := Z.to_nat psize in
  if (size <? kHeaderSize + n)%nat then None else
  let crc := crc32_update 0xFFFFFFFF (take 44 p) in
  let crc := crc32_update crc (replicate 4 0) in
  let crc := crc32_update crc (take n (drop kHeaderSize p)) in
  if negb (Z.lxor crc 0xFFFFFFFF =? checksum header) then None else
  Some (header, take n (drop kHeaderSize p)).

(** ** What the encoder writes *)

(** The first 44 bytes: everything but the checksum. *)
Definition header_bytes (h : PacketHeader) : bytes :=
  store_le 4 (to_be32 (magic h)) ++ store_le 1 (version h) ++
  store_le 1 (type_code (type h)) ++ store_le 2 (to_be16 (flags h)) ++
  store_le 4 (to_be32 (client_id h)) ++ store_le 8 (to_be64 (session_id h)) ++
  store_le 4 (to_be32 (sequence h)) ++ store_le 4 (to_be32 (acknowledgment h)) ++
  store_le 4 (to_be32 (message_id h)) ++ store_le 2 (to_be16 (fragment_index h)) ++
  store_le 2 (to_be16 (fragment_count h)) ++ store_le 2 (to_be16 (payload_size h)) ++
  store_le 2 (to_be16 (reserved h)) ++ store_le 4 (to_be32 (tick h)).

Definition datagram_crc (h : PacketHeader) (payload : bytes) : Z :=
  crc32_compute (header_bytes h ++ replicate 4 0 ++ payload).

Lemma length_header_bytes h : length (header_bytes h) = 44%nat.
Proof. unfold header_bytes. rewrite !length_app, !length_store_le. done. Qed.

Lemma header_bytes_ok h : bytes_ok (header_bytes h).
Proof. unfold header_bytes. rewrite !bytes_ok_app. repeat split; apply store_le_ok. Qed.

Lemma put_acc acc rest bs off :
  length acc = off -> (length bs <= length rest)%nat ->
  put (acc ++ rest) off bs = (acc ++ bs) ++ drop (length bs) rest.
Proof.
  intros <- Hl. unfold put. rewrite take_app_length. rewrite drop_app_ge by lia.
  rewrite <- app_assoc. do 3 f_equal. lia.
Qed.

Lemma encode_header_to_spec h out :
  (48 <= length out)%nat ->
  encode_header_to h out = header_bytes h ++ replicate 4 0 ++ drop 48 out.
Proof.
  intros Hl. unfold encode_header_to, put8, put16, put32, put64.
  change out with ([] ++ out) at 1.
  do 15 (rewrite put_acc;
    [| rewrite ?length_app, ?length_store_le; reflexivity
     | rewrite ?length_store_le, ?length_drop; lia]).
  rewrite !length_store_le, !drop_drop. unfold header_bytes.
  rewrite <- !app_assoc. reflexivity.
Qed.

Lemma finalize_crc_spec hd crc0 body :
  length hd = 44%nat -> length crc0 = 4%nat ->
  finalize_crc (hd ++ crc0 ++ body) (48 + length body) =
  hd ++ store_le 4 (to_be32 (crc32_compute (hd ++ replicate 4 0 ++ body))) ++ body.
Proof.
  intros Hh Hc. unfold finalize_crc, kHeaderSize.
  destruct (Nat.ltb_spec (48 + length body) 48); [lia|].
  assert (forall x y, length x = 4%nat -> length y = 4%nat ->
    put (hd ++ x ++ body) 44 y = hd ++ y ++ body) as Hput.
  { intros x y Hx Hy. rewrite put_acc by (rewrite ?length_app; lia).
    rewrite <- app_assoc, drop_app_ge by lia. do 2 f_equal.
    replace (length y - length x)%nat with 0%nat by lia. done. }
  rewrite Hput by (rewrite ?length_replicate; done).
  rewrite take_ge by (rewrite !length_app, length_replicate; lia).
  rewrite Hput by (rewrite ?length_replicate, ?length_store_le; done). done.
Qed.

(** The datagram laid out: header, checksum, payload. *)
Lemma encode_spec h payload :
  encode h payload =
  header_bytes h ++ store_le 4 (to_be32 (datagram_crc h payload)) ++ payload.
Proof.
  unfold encode, encode_to. rewrite encode_header_to_spec
    by (rewrite length_replicate; unfold kHeaderSize; lia).
  rewrite drop_replicate. unfold datagram_crc.
  replace (kHeaderSize + length payload - 48)%nat with (length payload)
    by (unfold kHeaderSize; lia).
  destruct payload as [|b r]; [by rewrite (finalize_crc_spec _ _ []) by
    (rewrite ?length_header_bytes, ?length_replicate; done)|].
  set (p := b :: r). cbn [fst]. unfold kHeaderSize.
  rewrite (app_assoc _ (replicate 4 0)), put_acc
    by (rewrite ?length_app, ?length_header_bytes, ?length_replicate; done).
  rewrite drop_ge by (rewrite length_replicate; done). rewrite app_nil_r, <- app_assoc.
  apply finalize_crc_spec; [apply length_header_bytes|done].
Qed.

Lemma length_encode h payload : length (encode h payload) = (48 + length payload)%nat.
Proof. rewrite encode_spec, !length_app, length_header_bytes, length_store_le. lia. Qed.

Lemma encode_ok h payload : bytes_ok payload -> bytes_ok (encode h payload).
Proof.
  intros H. rewrite encode_spec, !bytes_ok_app.
  split_and!; [apply header_bytes_ok|apply store_le_ok|done].
Qed.

Lemma datagram_crc_width h payload :
  bytes_ok payload -> in_width 32 (datagram_crc h payload).
Proof.
  intros H. unfold datagram_crc, crc32_compute. apply lxor_width; [lia| |unfold in_width; lia].
  apply crc32_update_width; [unfold in_width; lia|].
  rewrite !bytes_ok_app. auto using header_bytes_ok with width.
Qed.

(** ** Reading the fields back *)

Section ReadBack.
Context (h : PacketHeader) (r : bytes) (Hwf : header_wf h).

Lemma read_be32 pre v post off :
  in_width 32 v -> length pre = off -> get32 (pre ++ store_le 4 (to_be32 v) ++ post) off = v.
Proof.
  intros Hv <-. unfold get32. rewrite get_skip by lia. rewrite Nat.sub_diag, get_hit.
  rewrite (wrap_id 32) by apply to_be32_width. by apply to_be32_involutive.
Qed.

Lemma read_be16 pre v post off :
  in_width 16 v -> length pre = off -> get16 (pre ++ store_le 2 (to_be16 v) ++ post) off = v.
Proof.
  intros Hv <-. unfold get16. rewrite get_skip by lia. rewrite Nat.sub_diag, get_hit.
  rewrite (wrap_id 16) by apply to_be16_width. by apply to_be16_involutive.
Qed.

Lemma read_8 pre v post off :
  in_width 8 v -> length pre = off -> get8 (pre ++ store_le 1 v ++ post) off = v.
Proof.
  intros Hv <-. unfold get8. rewrite get_skip by lia. rewrite Nat.sub_diag, get_hit.
  by apply (wrap_id 8).
Qed.

Lemma read_be64 pre v post off :
  in_width 64 v -> length pre = off -> get64 (pre ++ store_le 8 (to_be64 v) ++ post) off = v.
Proof.
  intros Hv <-. rewrite <- (get64_hit v post Hv) at 2. unfold get64, get32.
  rewrite !(get_skip pre) by lia. rewrite Nat.sub_diag.
  by replace (length pre + 4 - length pre)%nat with (0 + 4)%nat by lia.
Qed.

(** One field further, then its read lemma. *)
Ltac next_field L := split; [by apply L; rewrite ?length_app, ?length_store_le|]; rewrite app_assoc.

Lemma read_header :
  let d := header_bytes h ++ r in
  get32 d 0 = magic h /\ get8 d 4 = version h /\ type_of_code (get8 d 5) = type h /\
  get16 d 6 = flags h /\ get32 d 8 = client_id h /\ get64 d 12 = session_id h /\
  get32 d 20 = sequence h /\ get32 d 24 = acknowledgment h /\ get32 d 28 = message_id h /\
  get16 d 32 = fragment_index h /\ get16 d 34 = fragment_count h /\
  get16 d 36 = payload_size h /\ get16 d 38 = reserved h /\ get32 d 40 = tick h.
Proof using Hwf.
  destruct Hwf as (H1&H2&H3&H4&H5&H6&H7&H8&H9&H10&H11&H12&H13&H14).
  cbv zeta. unfold header_bytes. rewrite <- !app_assoc.
  split; [by apply (read_be32 [])|].
  next_field read_8. split.
  { rewrite read_8; [by apply type_of_code_code|by apply type_code_width|
      by rewrite ?length_app, ?length_store_le]. }
  rewrite app_assoc.
  next_field read_be16. next_field read_be32. next_field read_be64.
  next_field read_be32. next_field read_be32. next_field read_be32.
  next_field read_be16. next_field read_be16. next_field read_be16. next_field read_be16.
  by apply read_be32; rewrite ?length_app, ?length_store_le.
Qed.
End ReadBack.

(** ** Decoding *)

Lemma decode_layout h c payload rest :
  header_wf h -> magic h = kMagic -> version h = kVersion -> in_width 32 c ->
  payload_size h = Z.of_nat (length payload) ->
  decode (header_bytes h ++ store_le 4 (to_be32 c) ++ payload ++ rest) =
  if Z.eqb (datagram_crc h payload) c then Some (set_checksum h c, payload) else None.
Proof.
  intros Hwf Hm Hv Hc Hs. unfold decode.
  set (d := header_bytes h ++ _). assert (length d = 48 + length payload + length rest)%nat as Hd.
  { subst d. rewrite !length_app, length_header_bytes, length_store_le. lia. }
  destruct (read_header h (store_le 4 (to_be32 c) ++ payload ++ rest) Hwf)
    as (E1&E2&E3&E4&E5&E6&E7&E8&E9&E10&E11&E12&E13&E14).
  fold d in E1, E2, E3, E4, E5, E6, E7, E8, E9, E10, E11, E12, E13, E14.
  assert (get32 d 44 = c) as E15.
  { subst d. apply read_be32; [done|apply length_header_bytes]. }
  rewrite E1, E2, E3, E4, E5, E6, E7, E8, E9, E10, E11, E12, E13, E14, E15, Hm, Hv, Hs.
  rewrite !Z.eqb_refl. cbn [negb]. rewrite Nat2Z.id. unfold kHeaderSize.
  destruct (Nat.ltb_spec (length d) 48); [lia|].
  destruct (Nat.ltb_spec (length d) (48 + length payload)); [lia|].
  assert (take 44 d = header_bytes h) as ->.
  { subst d. apply take_app_length'. by rewrite length_header_bytes. }
  assert (take (length payload) (drop 48 d) = payload) as ->.
  { subst d. rewrite app_assoc, drop_app_length'
      by (by rewrite length_app, length_header_bytes, length_store_le).
    apply take_app_length. }
  cbn [checksum]. rewrite <- !crc32_update_app, <- ?app_assoc.
  change (Z.lxor (crc32_update _ ?x) _) with (crc32_compute x). fold (datagram_crc h payload).
  unfold set_checksum. rewrite Hm, Hv, Hs. by destruct (_ =? c).
Qed.

(** C15. Round trip: decoding an encoded datagram, even with bytes appended to
    it, returns the header (with the checksum filled in) and the payload. *)
Theorem decode_encode h payload rest :
  header_wf h -> magic h = kMagic -> version h = kVersion -> bytes_ok payload ->
  payload_size h = Z.of_nat (length payload) ->
  decode (encode h payload ++ rest) = Some (set_checksum h (datagram_crc h payload), payload).
Proof.
  intros Hwf Hm Hv Hp Hs. rewrite encode_spec, <- !app_assoc.
  rewrite decode_layout by auto using datagram_crc_width. by rewrite Z.eqb_refl.
Qed.

(** Cutting a buffer at the boundaries of the header fields. *)
Lemma take_4_fields (d : bytes) n m : take n d ++ take m (drop n d) = take (n + m) d.
Proof. apply take_take_drop. Qed.

Lemma header_bytes_decoded d h :
  bytes_ok d -> (48 <= length d)%nat ->
  magic h = get32 d 0 -> version h = get8 d 4 -> type h = type_of_code (get8 d 5) ->
  flags h = get16 d 6 -> client_id h = get32 d 8 -> session_id h = get64 d 12 ->
  sequence h = get32 d 20 -> acknowledgment h = get32 d 24 -> message_id h = get32 d 28 ->
  fragment_index h = get16 d 32 -> fragment_count h = get16 d 34 ->
  payload_size h = get16 d 36 -> reserved h = get16 d 38 -> tick h = get32 d 40 ->
  header_bytes h = take 44 d.
Proof.
  intros Hd Hl E1 E2 E3 E4 E5 E6 E7 E8 E9 E10 E11 E12 E13 E14. unfold header_bytes.
  rewrite E1, E2, E3, E4, E5, E6, E7, E8, E9, E10, E11, E12, E13, E14.
  rewrite type_code_of_code by (by apply (get_width d 5 1)).
  unfold get8. rewrite !store_get16, !store_get32, !store_get64, !store_get by (done || lia).
  rewrite drop_0, !app_assoc. rewrite !take_4_fields. done.
Qed.

Lemma decode_Some_inv d h payload :
  decode d = Some (h, payload) ->
  (48 + length payload <= length d)%nat /\ payload_size h = Z.of_nat (length payload) /\
  payload = take (length payload) (drop 48 d) /\
  (bytes_ok d -> header_bytes h = take 44 d) /\
  checksum h = get32 d 44 /\ checksum h = crc32_compute (take 44 d ++ replicate 4 0 ++ payload).
Proof.
  unfold decode, kHeaderSize. destruct (Nat.ltb_spec (length d) 48); [done|].
  destruct (get32 d 0 =? kMagic) eqn:Em; cbn [negb]; [|done].
  destruct (get8 d 4 =? kVersion) eqn:Ev; cbn [negb]; [|done].
  destruct (Nat.ltb_spec (length d) (48 + Z.to_nat (get16 d 36))); [done|].
  destruct (negb (Z.lxor _ _ =? _)) eqn:Ec; [done|]. intros Heq. injection Heq as <- <-.
  apply negb_false_iff, Z.eqb_eq in Ec.
  assert (length (take (Z.to_nat (get16 d 36)) (drop 48 d)) = Z.to_nat (get16 d 36)) as El.
  { rewrite length_take, length_drop. lia. }
  assert (in_width 16 (get16 d 36)) as W by apply to_be16_width.
  rewrite El. split_and!.
  - lia.
  - simpl. unfold in_width in W. lia.
  - done.
  - intros Hd. by apply header_bytes_decoded.
  - done.
  - cbn [checksum] in *. rewrite <- Ec, <- !crc32_update_app. unfold crc32_compute. by rewrite <- ?app_assoc.
Qed.

(** C16. The decoder accepts nothing the encoder does not produce: an accepted
    datagram is the encoding of the decoded header and payload, followed by
    ignored trailing bytes. *)
Theorem decode_canonical d h payload :
  bytes_ok d -> decode d = Some (h, payload) -> exists rest, d = encode h payload ++ rest.
Proof.
  intros Hd Hdec. apply decode_Some_inv in Hdec as (Hl & Hs & Hp & Hh & Hc & Hcrc).
  specialize (Hh Hd). exists (drop (48 + length payload) d).
  rewrite encode_spec. unfold datagram_crc. rewrite Hh, <- Hcrc, Hc, store_get32 by (done || lia).
  rewrite (app_assoc (take 44 d)), take_4_fields. revert Hp.
  generalize (length payload). intros n ->. change (44 + 4)%nat with 48%nat.
  by rewrite take_4_fields, take_drop.
Qed.

(** ** Corruption *)

(** Where a corruption window [[i, i + n)] may lie: inside the checksum, or
    clear of both the checksum and the payload length. *)
Definition window_ok (i n : nat) : Prop :=
  ((i + n <= 36) \/ (38 <= i /\ i + n <= 44) \/ (44 <= i /\ i + n <= 48) \/ 48 <= i)%nat.

Global Instance window_ok_dec i n : Decision (window_ok i n).
Proof. unfold window_ok. apply _. Defined.

(** The buffer the CRC covers. *)
Definition blank (d : bytes) : bytes := take 44 d ++ replicate 4 0 ++ drop 48 d.

Section Window.
Context (pre e e' post : bytes) (Hl : length e = length e').

Lemma get_window off n :
  (off + n <= length pre \/ length pre + length e <= off)%nat ->
  get (pre ++ e ++ post) off n = get (pre ++ e' ++ post) off n.
Proof using Hl.
  intros [H|H].
  - by rewrite !get_app_l by lia.
  - rewrite !get_skip by lia. by rewrite Hl.
Qed.

(** A window clear of the checksum sits in the blanked buffer unchanged. *)
Lemma blank_window :
  (length pre + length e <= 44 \/ 48 <= length pre)%nat ->
  exists p q, forall x, length x = length e -> blank (pre ++ x ++ post) = p ++ x ++ q.
Proof using Hl.
  intros [H|H].
  - exists pre, (take (44 - length pre - length e) post ++ replicate 4 0 ++
      drop (48 - length pre - length e) post). intros x Hx. unfold blank.
    rewrite take_app_ge, take_app_ge, drop_app_ge, drop_app_ge by lia.
    rewrite <- !app_assoc, Hx. done.
  - exists (take 44 pre ++ replicate 4 0 ++ drop 48 pre), post. intros x Hx. unfold blank.
    rewrite take_app_le, drop_app_le by lia. by rewrite <- !app_assoc.
Qed.

Lemma outside_window :
  (44 <= length pre /\ length pre + length e <= 48)%nat ->
  blank (pre ++ e ++ post) = blank (pre ++ e' ++ post).
Proof using Hl.
  intros [H1 H2]. unfold blank. rewrite !take_app_le by lia. do 2 f_equal.
  rewrite !drop_app_ge by lia. by rewrite Hl.
Qed.
End Window.

Lemma blank_ok d : bytes_ok d -> bytes_ok (blank d).
Proof. intros H. unfold blank. rewrite !bytes_ok_app. auto with width. Qed.

Lemma decode_payload_size d h payload :
  decode d = Some (h, payload) -> payload_size h = get16 d 36.
Proof. unfold decode. intros H. repeat case_match; simplify_eq; done. Qed.

(** An accepted datagram whose length field spans it has its CRC over the
    blanked buffer in the checksum field. *)
Lemma decode_accepts_crc d h payload :
  decode d = Some (h, payload) -> length d = (48 + Z.to_nat (get16 d 36))%nat ->
  get32 d 44 = crc32_compute (blank d).
Proof.
  intros Hd Hl. pose proof Hd as Hd'. apply decode_Some_inv in Hd as (H1 & H2 & H3 & _ & H5 & H6).
  rewrite <- H5, H6. unfold blank. do 3 f_equal. rewrite H3. apply take_ge.
  rewrite length_drop. rewrite (decode_payload_size _ _ _ Hd') in H2. lia.
Qed.

(** C17. Integrity: change an encoded datagram in some of 32 consecutive bits (up
    to five bytes), anywhere but in the payload-length field and not across the
    edge of the checksum field: the decoder rejects it. *)
Theorem decode_rejects_burst h payload pre e e' post :
  header_wf h -> magic h = kMagic -> version h = kVersion -> bytes_ok payload ->
  payload_size h = Z.of_nat (length payload) ->
  encode h payload = pre ++ e ++ post ->
  bytes_ok e' -> length e = length e' -> burst e e' ->
  window_ok (length pre) (length e) ->
  decode (pre ++ e' ++ post) = None.
Proof.
  intros Hwf Hm Hv Hp Hs Henc He' Hl Hne Hw.
  destruct (decode (pre ++ e' ++ post)) as [[h' p']|] eqn:Hdec; [exfalso|done].
  pose proof (decode_encode h payload [] Hwf Hm Hv Hp Hs) as Hd0. rewrite app_nil_r in Hd0.
  pose proof (encode_ok h payload Hp) as Hok. rewrite Henc in Hok, Hd0.
  assert (bytes_ok (pre ++ e' ++ post)) as Hok'.
  { rewrite !bytes_ok_app in Hok |- *. destruct Hok as (? & ? & ?). done. }
  assert (length (pre ++ e ++ post) = 48 + length payload)%nat as Hlen
    by (rewrite <- Henc; apply length_encode).
  assert (get16 (pre ++ e ++ post) 36 = Z.of_nat (length payload)) as Hsz.
  { by rewrite <- (decode_payload_size _ _ _ Hd0), <- Hs. }
  assert (get16 (pre ++ e' ++ post) 36 = get16 (pre ++ e ++ post) 36) as Hsz'.
  { unfold get16. rewrite (get_window pre e e') by (done || unfold window_ok in Hw; lia). done. }
  apply decode_accepts_crc in Hd0; [|lia].
  apply decode_accepts_crc in Hdec; [|rewrite !length_app in *; lia].
  destruct (decide (44 <= length pre /\ length pre + length e <= 48)%nat) as [Hin|Hout].
  - rewrite (outside_window pre e e' post Hl Hin) in Hd0. rewrite <- Hdec in Hd0.
    apply (f_equal (fun v => store_le 4 (to_be32 v))) in Hd0.
    rewrite !store_get32 in Hd0 by (done || rewrite !length_app in *; lia).
    rewrite !drop_app_le in Hd0 by lia.
    assert (forall x, length x = length e ->
      drop (length pre - 44) (take (length pre - 44 + length e)
        (take 4 (drop 44 pre ++ x ++ post))) = x) as Hx.
    { intros x Hx. rewrite take_take, Nat.min_l by lia.
      replace (length pre - 44)%nat with (length (drop 44 pre)) by (rewrite length_drop; lia).
      rewrite take_app_add, drop_app_length. by apply take_app_length'. }
    apply (burst_ne e e' Hne). rewrite <- (Hx e), <- (Hx e') by done. by rewrite Hd0.
  - assert (get32 (pre ++ e ++ post) 44 = get32 (pre ++ e' ++ post) 44) as Heq.
    { unfold get32. rewrite (get_window pre e e') by (done || unfold window_ok in Hw; lia). done. }
    destruct (blank_window pre e e' post Hl) as (p & q & Hb); [unfold window_ok in Hw; lia|].
    rewrite Heq, Hdec, !Hb in Hd0 by done.
    pose proof (blank_ok _ Hok) as B. rewrite Hb in B by done. rewrite !bytes_ok_app in B.
    destruct B as (? & ? & ?).
    apply (crc32_burst 0xFFFFFFFF p e e' q); try done.
    unfold crc32_compute in Hd0.
    apply (f_equal (fun z => Z.lxor z 0xFFFFFFFF)) in Hd0.
    by rewrite !Z.lxor_assoc, Z.lxor_nilpotent, !Z.lxor_0_r in Hd0.
Qed.

(** ** Witnesses *)

Definition demo_header : PacketHeader :=
  mkHeader kMagic kVersion Data 2 7 0x0102030405060708 11 0 3 0 3 3 3 99 0.

Lemma decode_encode_witness :
  decode (encode demo_header [1; 2; 3] ++ [9]) =
  Some (set_checksum demo_header (datagram_crc demo_header [1; 2; 3]), [1; 2; 3]).
Proof. apply decode_encode; [eval_decide|done|done|eval_decide|done]. Defined.

Lemma decode_canonical_witness :
  exists rest, encode demo_header [1; 2; 3] ++ [9] =
    encode (set_checksum demo_header (datagram_crc demo_header [1; 2; 3])) [1; 2; 3] ++ rest.
Proof. apply decode_canonical; [eval_decide|vm_compute; reflexivity]. Defined.

Lemma demo_encoded : encode demo_header [1; 2; 3] =
  take 11 (encode demo_header [1; 2; 3]) ++ [7; 5; 6; 7; 8] ++ drop 16 (encode demo_header [1; 2; 3]).
Proof. vm_compute. reflexivity. Qed.

Lemma decode_rejects_burst_witness :
  decode (take 11 (encode demo_header [1; 2; 3]) ++ [135; 5; 6; 7; 15] ++ drop 16 (encode demo_header [1; 2; 3])) = None.
Proof.
  apply (decode_rejects_burst demo_header [1; 2; 3] _ [7; 5; 6; 7; 8] [135; 5; 6; 7; 15] _);
    [eval_decide|reflexivity|reflexivity|eval_decide|reflexivity|exact demo_encoded|eval_decide|reflexivity| |eval_decide].
  exists 7, 234881025. vm_compute. repeat split; discriminate.
Defined.

End PacketCodec.
