(* ===== verification/GF256.v ===== *)
(** * GF(2^8) arithmetic (tight/src/fec.cpp, lines 8-56)

    The exp/log tables of the Reed-Solomon code, the table-driven field
    operations, their equivalence with carry-less multiplication modulo the
    primitive polynomial 0x11D, and the field laws. *)
From stdpp Require Import base list numbers option.
From Stdlib Require Import ZArith Lia Btauto.
From S2P Require Import Prelude.

Local Open Scope Z_scope.

Module GF.

(** Body of the first loop of the constructor of [GfTables]. *)
Definition table_step (st : list Z * list Z * Z) (i : nat) : list Z * list Z * Z :=
  let '(exp, log, x) := st in
  let exp := <[i := u8 x]> exp in
  let log := <[Z.to_nat x := u8 (Z.of_nat i)]> log in
  let x := u16 (Z.shiftl x 1) in
  let x := if Z.land x 0x100 =? 0 then x else Z.lxor x 0x11D in
  (exp, log, x).

(** The constructor of [GfTables]: 255 powers of the generator, then the
    second period copied behind the first. *)
Definition GfTables : list Z * list Z :=
  let '(exp, log, _) := foldl table_step (replicate 512 0, replicate 256 0, 1) (seq 0 255) in
  (foldl (fun e i => <[i := byte_at e (i - 255)]> e) exp (seq 255 257), log).

Definition gf_exp : list Z := Eval vm_compute in GfTables.1.
Definition gf_log : list Z := Eval vm_compute in GfTables.2.

Definition exp (i : Z) : Z := byte_at gf_exp (Z.to_nat i).
Definition log (a : Z) : Z := byte_at gf_log (Z.to_nat a).

Definition gf_mul (a b : Z) : Z :=
  if (a =? 0) || (b =? 0) then 0 else exp (log a + log b).

Definition gf_pow (a : Z) (e : Z) : Z :=
  if e =? 0 then 1 else if a =? 0 then 0 else exp (Z.rem (log a * e) 255).

Definition gf_inv (a : Z) : Z := exp (255 - log a).

Definition coef (parity_index data_index : nat) : Z :=
  gf_pow (u8 (Z.of_nat data_index + 1)) (Z.of_nat parity_index).

(** Reference multiplication: the sum of the shifts of [a] selected by the
    bits of [b], each reduced modulo x^8 + x^4 + x^3 + x^2 + 1. *)
Definition xtime (a : Z) : Z :=
  if Z.testbit a 7 then Z.lxor (Z.land (Z.shiftl a 1) 255) 0x1D else Z.shiftl a 1.

Definition pmul (a b : Z) : Z :=
  foldr (fun i acc => Z.lxor (if Z.testbit b (Z.of_nat i) then Nat.iter i xtime a else 0) acc)
    0 (seq 0 8).

(** ** Finite checks *)

Lemma tables_eq : GfTables = (gf_exp, gf_log).
Proof. vm_compute. reflexivity. Qed.

(** All bytes, for checks by evaluation. *)
Definition all_bytes : list Z := seqZ 0 256.

Lemma elem_of_all_bytes a : in_width 8 a -> a ∈ all_bytes.
Proof. intros H. apply elem_of_seqZ. unfold in_width in H. lia. Qed.

Lemma forall_bytes (P : Z -> bool) :
  forallb P all_bytes = true -> forall a, in_width 8 a -> P a = true.
Proof.
  intros H a Ha. rewrite forallb_forall in H. apply H.
  rewrite <- list_elem_of_In. by apply elem_of_all_bytes.
Qed.

Lemma forall_bytes2 (P : Z -> Z -> bool) :
  forallb (fun a => forallb (P a) all_bytes) all_bytes = true ->
  forall a b, in_width 8 a -> in_width 8 b -> P a b = true.
Proof.
  intros H a b Ha Hb. apply (forall_bytes (P a)); [|done].
  by apply (forall_bytes (fun a => forallb (P a) all_bytes)).
Qed.

Lemma gf_mul_pmul_check :
  forallb (fun a => forallb (fun b => gf_mul a b =? pmul a b) all_bytes) all_bytes = true.
Proof. vm_compute. reflexivity. Qed.

(** The table-driven product of fec.cpp is multiplication of polynomials
    over GF(2) modulo 0x11D, for every pair of bytes. *)
Theorem gf_mul_correct a b :
  in_width 8 a -> in_width 8 b -> gf_mul a b = pmul a b.
Proof.
  intros Ha Hb. apply Z.eqb_eq.
  by apply (forall_bytes2 (fun a b => gf_mul a b =? pmul a b) gf_mul_pmul_check).
Qed.

Lemma gf_mul_correct_witness : gf_mul 0x53 0xCA = pmul 0x53 0xCA.
Proof. apply gf_mul_correct; eval_decide. Defined.

Lemma exp_log_check :
  forallb (fun a => (a =? 0) || ((exp (log a) =? a) && (log a <? 255) && (0 <=? log a)))
    all_bytes = true.
Proof. vm_compute. reflexivity. Qed.

Lemma log_exp_check :
  forallb (fun i => (255 <=? i) || ((log (exp i) =? i) && negb (exp i =? 0))) all_bytes = true.
Proof. vm_compute. reflexivity. Qed.

Lemma exp_period_check :
  forallb (fun i => (exp i <? 256) && (0 <=? exp i) &&
    ((exp (i + 255) =? exp i) || (i =? 255) && (exp (i + 255) =? exp 0))) all_bytes = true.
Proof. vm_compute. reflexivity. Qed.

Lemma exp_log a : in_width 8 a -> a <> 0 -> exp (log a) = a /\ 0 <= log a < 255.
Proof.
  intros Ha Hne. pose proof (forall_bytes _ exp_log_check a Ha) as H. cbv beta in H.
  destruct (Z.eqb_spec a 0); [done|]. simpl in H. apply andb_prop in H as [H H2].
  apply andb_prop in H as [H0 H1].
  apply Z.eqb_eq in H0. apply Z.ltb_lt in H1. apply Z.leb_le in H2. done.
Qed.

Lemma log_exp i : 0 <= i < 255 -> log (exp i) = i /\ exp i <> 0.
Proof.
  intros Hi. assert (in_width 8 i) as W by (unfold in_width; lia).
  pose proof (forall_bytes _ log_exp_check i W) as H. cbv beta in H.
  destruct (Z.leb_spec 255 i); [lia|]. simpl in H. apply andb_prop in H as [H Hn].
  apply Z.eqb_eq in H. apply negb_true_iff, Z.eqb_neq in Hn. done.
Qed.

Lemma exp_mod i : 0 <= i < 511 -> exp i = exp (i mod 255) /\ in_width 8 (exp i).
Proof.
  intros Hi. assert (forall j, 0 <= j < 256 -> in_width 8 (exp j) /\
    (exp (j + 255) = exp j \/ j = 255 /\ exp (j + 255) = exp 0)) as H.
  { intros j Hj. pose proof (forall_bytes _ exp_period_check j Hj) as H. cbv beta in H.
    apply andb_prop in H as [H H1]. apply andb_prop in H as [H H2].
    apply Z.ltb_lt in H. apply Z.leb_le in H2. unfold in_width. split; [lia|].
    apply orb_prop in H1 as [H1|H1]; [apply Z.eqb_eq in H1; auto|].
    apply andb_prop in H1 as [E H1]. apply Z.eqb_eq in E, H1. auto. }
  destruct (decide (i < 255)).
  { rewrite Z.mod_small by lia. split; [done|]. apply H. lia. }
  destruct (decide (i = 510)) as [->|]; [vm_compute; done|].
  destruct (H (i - 255)) as [Hw [He|[? ?]]]; [lia| |lia].
  replace (i - 255 + 255) with i in He by lia. rewrite He. split; [|done].
  assert (i mod 255 = (i - 255) mod 255) as ->.
  { replace i with (i - 255 + 1 * 255) at 1 by lia. by rewrite Z.mod_add by lia. }
  by rewrite (Z.mod_small (i - 255)) by lia.
Qed.

(** ** Field laws *)

Lemma gf_mul_width a b : in_width 8 a -> in_width 8 b -> in_width 8 (gf_mul a b).
Proof.
  intros Ha Hb. unfold gf_mul. destruct (Z.eqb_spec a 0), (Z.eqb_spec b 0); simpl;
    try (unfold in_width; lia).
  apply exp_mod. pose proof (exp_log a Ha). pose proof (exp_log b Hb). lia.
Qed.

Lemma gf_mul_0_l b : gf_mul 0 b = 0. Proof. done. Qed.
Lemma gf_mul_0_r a : gf_mul a 0 = 0. Proof. unfold gf_mul. by destruct (a =? 0). Qed.

Lemma gf_mul_comm a b : gf_mul a b = gf_mul b a.
Proof.
  unfold gf_mul. rewrite orb_comm, Z.add_comm. done.
Qed.

Lemma gf_mul_1_l a : in_width 8 a -> gf_mul 1 a = a.
Proof.
  intros Ha. unfold gf_mul. destruct (Z.eqb_spec a 0); [done|]. simpl.
  by apply exp_log.
Qed.

(** Products of nonzero elements through their logarithms. *)
Lemma gf_mul_exp i j : 0 <= i < 255 -> 0 <= j < 255 ->
  gf_mul (exp i) (exp j) = exp ((i + j) mod 255).
Proof.
  intros Hi Hj. unfold gf_mul. destruct (log_exp i Hi) as [Li Ni], (log_exp j Hj) as [Lj Nj].
  rewrite (proj2 (Z.eqb_neq _ _) Ni), (proj2 (Z.eqb_neq _ _) Nj). simpl.
  rewrite Li, Lj. apply exp_mod. lia.
Qed.

Lemma gf_mul_assoc a b c : in_width 8 a -> in_width 8 b -> in_width 8 c ->
  gf_mul a (gf_mul b c) = gf_mul (gf_mul a b) c.
Proof.
  intros Ha Hb Hc.
  destruct (decide (a = 0)) as [->|Na]; [done|].
  destruct (decide (b = 0)) as [->|Nb]; [by rewrite gf_mul_0_l, !gf_mul_0_r, gf_mul_0_l|].
  destruct (decide (c = 0)) as [->|Nc]; [by rewrite !gf_mul_0_r|].
  destruct (exp_log a Ha Na) as [Ea La], (exp_log b Hb Nb) as [Eb Lb],
    (exp_log c Hc Nc) as [Ec Lc].
  rewrite <- Ea, <- Eb, <- Ec, !gf_mul_exp; try lia; try (apply Z.mod_pos_bound; lia).
  f_equal. rewrite Z.add_mod_idemp_r, Z.add_mod_idemp_l by lia. f_equal. lia.
Qed.

Lemma gf_mul_inv a : in_width 8 a -> a <> 0 -> gf_mul a (gf_inv a) = 1 /\ in_width 8 (gf_inv a).
Proof.
  intros Ha Na. destruct (exp_log a Ha Na) as [Ea La]. unfold gf_inv.
  destruct (exp_mod (255 - log a)) as [Em Hw]; [lia|]. split; [|done].
  rewrite Em, <- Ea at 1. rewrite gf_mul_exp by (try apply Z.mod_pos_bound; lia).
  rewrite Z.add_mod_idemp_r by lia.
  replace (log a + (255 - log a)) with 255 by lia. done.
Qed.

Lemma gf_mul_eq_0 a b : in_width 8 a -> in_width 8 b -> gf_mul a b = 0 -> a = 0 \/ b = 0.
Proof.
  intros Ha Hb H. destruct (decide (a = 0)) as [|Na]; [by left|].
  destruct (decide (b = 0)) as [|Nb]; [by right|]. exfalso.
  destruct (exp_log a Ha Na) as [Ea La], (exp_log b Hb Nb) as [Eb Lb].
  rewrite <- Ea, <- Eb, gf_mul_exp in H by lia.
  eapply (log_exp ((log a + log b) mod 255)); [apply Z.mod_pos_bound; lia|done].
Qed.

(** Carry-less multiplication is additive in its second argument. *)
Lemma pmul_lxor_r a b c : pmul a (Z.lxor b c) = Z.lxor (pmul a b) (pmul a c).
Proof.
  unfold pmul. generalize (seq 0 8). intros l. induction l as [|i l IH]; [done|].
  cbn [foldr]. rewrite IH, Z.lxor_spec.
  destruct (Z.testbit b (Z.of_nat i)), (Z.testbit c (Z.of_nat i)); cbn [xorb];
    apply Z.bits_inj'; intros k Hk; rewrite ?Z.lxor_spec, ?Z.testbit_0_l; btauto.
Qed.

Lemma gf_mul_lxor_r a b c : in_width 8 a -> in_width 8 b -> in_width 8 c ->
  gf_mul a (Z.lxor b c) = Z.lxor (gf_mul a b) (gf_mul a c).
Proof.
  intros. rewrite !gf_mul_correct by auto with width. apply pmul_lxor_r.
Qed.

Lemma gf_mul_lxor_l a b c : in_width 8 a -> in_width 8 b -> in_width 8 c ->
  gf_mul (Z.lxor a b) c = Z.lxor (gf_mul a c) (gf_mul b c).
Proof.
  intros. rewrite !(gf_mul_comm _ c). by apply gf_mul_lxor_r.
Qed.

#[export] Hint Resolve gf_mul_width : width.

End GF.
