(* ===== verification/ReedSolomon.v ===== *)
(** * Reed-Solomon erasure code (tight/src/fec.cpp, lines 58-174)

    The encoder and the syndrome / Gauss-Jordan decoder of the FEC layer.
    Soundness: whatever the coefficients, a successful decoding returns the
    original fragments. Completeness: with at most three parity fragments and
    255 data fragments, any pattern of at most as many erasures as received
    parities is repaired. *)
From stdpp Require Import base list numbers option sets.
From Stdlib Require Import ZArith Lia Btauto.
From S2P Require Import Prelude GF256.

Local Open Scope Z_scope.
Import GF.

Module ReedSolomon.

(** Row [i] of a table of buffers. *)
Definition row_at (m : list bytes) (i : nat) : bytes := default [] (m !! i).

(** [dst ^= c * src] on the first [min(|dst|, |src|, width)] bytes. *)
Definition gf_mul_add (dst src : bytes) (c : Z) (width : nat) : bytes :=
  if (c =? 0) || (length src =? 0)%nat then dst else
  let n := (length dst `min` (length src `min` width))%nat in
  if c =? 1 then
    imap (fun i x => if (i <? n)%nat then Z.lxor x (byte_at src i) else x) dst
  else
    let lc := log c in
    imap (fun i x =>
      if (i <? n)%nat then
        if byte_at src i =? 0 then x else Z.lxor x (exp (lc + log (byte_at src i)))
      else x) dst.

(** One row of [encode_into]: the reused buffer is cleared over [width], then
    every fragment is accumulated with its coefficient. *)
Definition encode_row (fragments : list bytes) (p width : nat) (buf : bytes) : bytes :=
  let buf := if (length buf <? width)%nat then replicate width 0
             else replicate width 0 ++ drop width buf in
  foldl (fun acc j => gf_mul_add acc (row_at fragments j) (coef p j) width)
    buf (seq 0 (length fragments)).

Definition encode_into (fragments : list bytes) (parity_count width : nat)
    (out : list bytes) : list bytes :=
  let out := if (length out <? parity_count)%nat
             then out ++ replicate (parity_count - length out) [] else out in
  foldl (fun out p => <[p := encode_row fragments p width (row_at out p)]> out)
    out (seq 0 parity_count).

Definition encode (fragments : list bytes) (parity_count width : nat) : list bytes :=
  encode_into fragments parity_count width [].

(** ** Decoder *)

Definition is_missing (data : list (option bytes)) (j : nat) : bool :=
  match data !! j with Some (Some _) => false | _ => true end.

Definition missing_indices (data : list (option bytes)) : list nat :=
  List.filter (is_missing data) (seq 0 (length data)).

(** The syndrome of one parity fragment: the parity with the contribution of
    every present data fragment removed. *)
Definition syndrome (data : list (option bytes)) (pi : nat) (par : bytes) (width : nat) : bytes :=
  foldl (fun acc j =>
      match data !! j with
      | Some (Some f) => gf_mul_add acc f (coef pi j) width
      | _ => acc
      end)
    (resize0 width par) (seq 0 (length data)).

Definition at2 (a : list bytes) (r c : nat) : Z := byte_at (row_at a r) c.

Definition swap_rows (a : list bytes) (i j : nat) : list bytes :=
  <[i := row_at a j]> (<[j := row_at a i]> a).

(** Scaling of the pivot row, columns [col..]. *)
Definition scale_row (col : nat) (inv : Z) (row : bytes) : bytes :=
  imap (fun j x => if (j <? col)%nat then x else gf_mul x inv) row.

(** [a[r][j] ^= f * a[col][j]], columns [col..]. *)
Definition elim_row (col : nat) (prow : bytes) (f : Z) (row : bytes) : bytes :=
  imap (fun j x => if (j <? col)%nat then x else Z.lxor x (gf_mul f (byte_at prow j))) row.

(** Normalisation of the pivot row: the pivot becomes 1. *)
Definition normalize (col : nat) (st : list bytes * list bytes) : list bytes * list bytes :=
  let '(a, syn) := st in
  let inv := gf_inv (at2 a col col) in
  (<[col := scale_row col inv (row_at a col)]> a,
   <[col := (fun b => gf_mul b inv) <$> row_at syn col]> syn).

(** Elimination of column [col] from every other row. *)
Definition eliminate (width col : nat) (st : list bytes * list bytes) : list bytes * list bytes :=
  let '(a, syn) := st in
  let prow := row_at a col in
  let psyn := row_at syn col in
  (imap (fun r row => if (r =? col)%nat then row else
           let f := byte_at row col in
           if f =? 0 then row else elim_row col prow f row) a,
   imap (fun r s => if (r =? col)%nat then s else
           let f := at2 a r col in
           if f =? 0 then s else gf_mul_add s psyn f width) syn).

Definition swap_pivot (pivot col : nat) (st : list bytes * list bytes) : list bytes * list bytes :=
  if (pivot =? col)%nat then st
  else (swap_rows st.1 pivot col, swap_rows st.2 pivot col).

(** Iteration [col] of the elimination; [None] is [return false]. *)
Definition gauss_step (m width : nat) (st : list bytes * list bytes) (col : nat)
    : option (list bytes * list bytes) :=
  pivot ← List.find (fun r => negb (at2 st.1 r col =? 0)) (seq col (m - col));
  Some (eliminate width col (normalize col (swap_pivot pivot col st))).

Fixpoint gauss (m width : nat) (cols : list nat) (st : list bytes * list bytes)
    : option (list bytes * list bytes) :=
  match cols with
  | [] => Some st
  | col :: cols => st ← gauss_step m width st col; gauss m width cols st
  end.

(** [decode] returns the repaired table, or [None] for [false]. *)
Definition decode (data : list (option bytes)) (parity : list (nat * bytes)) (width : nat)
    : option (list (option bytes)) :=
  let missing := missing_indices data in
  let m := length missing in
  if (m =? 0)%nat then Some data else
  if (length parity <? m)%nat then None else
  let used := take m parity in
  let syn := (fun '(pi, par) => syndrome data pi par width) <$> used in
  let a := (fun '(pi, _) => (fun c => coef pi c) <$> missing) <$> used in
  '(_, syn) ← gauss m width (seq 0 m) (a, syn);
  Some (foldl (fun d '(i, s) => <[i := Some s]> d) data (zip missing syn)).

(** ** Sums over GF(2^8) *)

Definition lsum (l : list nat) (f : nat -> Z) : Z :=
  foldr (fun i acc => Z.lxor (f i) acc) 0 l.

Lemma lsum_ext l f g : (forall i, i ∈ l -> f i = g i) -> lsum l f = lsum l g.
Proof.
  intros H. induction l as [|i l IH]; [done|]. simpl.
  rewrite H by set_solver. f_equal. apply IH. set_solver.
Qed.

Lemma lsum_width l f : (forall i, i ∈ l -> in_width 8 (f i)) -> in_width 8 (lsum l f).
Proof.
  intros H. induction l as [|i l IH]; [unfold in_width; simpl; lia|].
  simpl. apply lxor_width; [lia|apply H; set_solver|apply IH; set_solver].
Qed.

Lemma lsum_0 l : lsum l (fun _ => 0) = 0.
Proof. induction l as [|i l IH]; simpl; by rewrite ?IH. Qed.

Lemma lxor_shuffle a b c d :
  Z.lxor (Z.lxor a b) (Z.lxor c d) = Z.lxor (Z.lxor a c) (Z.lxor b d).
Proof. apply Z.bits_inj'. intros i Hi. rewrite !Z.lxor_spec. btauto. Qed.

Lemma lsum_lxor l f g : lsum l (fun i => Z.lxor (f i) (g i)) = Z.lxor (lsum l f) (lsum l g).
Proof. induction l as [|i l IH]; simpl; [done|]. by rewrite IH, lxor_shuffle. Qed.

Lemma lsum_app l k f : lsum (l ++ k) f = Z.lxor (lsum l f) (lsum k f).
Proof. induction l as [|i l IH]; simpl; [done|]. by rewrite IH, Z.lxor_assoc. Qed.

Lemma lsum_mul l f c : in_width 8 c -> (forall i, i ∈ l -> in_width 8 (f i)) ->
  lsum l (fun i => gf_mul c (f i)) = gf_mul c (lsum l f).
Proof.
  intros Hc H. induction l as [|i l IH]; simpl; [by rewrite gf_mul_0_r|].
  rewrite IH by set_solver. rewrite gf_mul_lxor_r; [done..|apply H; set_solver|].
  apply lsum_width. set_solver.
Qed.

Lemma lsum_filter (P : nat -> bool) l f :
  lsum (List.filter P l) f = lsum l (fun i => if P i then f i else 0).
Proof.
  induction l as [|i l IH]; simpl; [done|]. destruct (P i); simpl; by rewrite IH.
Qed.

(** A sum with a single nonzero term. *)
Lemma lsum_single l f i :
  NoDup l -> i ∈ l -> (forall j, j ∈ l -> j <> i -> f j = 0) -> lsum l f = f i.
Proof.
  induction l as [|k l IH]; intros Hnd Hi H0; [by apply not_elem_of_nil in Hi|].
  apply NoDup_cons in Hnd as [Hk Hnd]. simpl. destruct (decide (k = i)) as [->|Hne].
  - rewrite (lsum_ext l f (fun _ => 0)), lsum_0, Z.lxor_0_r; [done|].
    intros j Hj. apply H0; [set_solver|]. intros ->. done.
  - rewrite H0 by set_solver. rewrite Z.lxor_0_l. apply IH; [done|set_solver|set_solver].
Qed.

(** Summing over a list of indices, position by position. *)
Lemma lsum_positions (l : list nat) f :
  lsum l f = lsum (seq 0 (length l)) (fun c => f (default 0%nat (l !! c))).
Proof.
  assert (forall k, lsum (seq k (length l)) (fun c => f (default 0%nat (l !! (c - k)%nat))) =
    lsum l f) as H.
  { induction l as [|i l IH]; intros k; [done|]. simpl. rewrite Nat.sub_diag. simpl. f_equal.
    rewrite <- (IH (S k)). apply lsum_ext. intros c Hc. apply elem_of_seq in Hc.
    replace (c - k)%nat with (S (c - S k)) by lia. done. }
  rewrite <- (H 0%nat) at 1. apply lsum_ext. intros c _. by rewrite Nat.sub_0_r.
Qed.

(** ** The multiply-accumulate kernel *)

Lemma byte_at_imap f (l : bytes) i :
  (i < length l)%nat -> byte_at (imap f l) i = f i (byte_at l i).
Proof.
  intros Hi. unfold byte_at. rewrite list_lookup_imap.
  destruct (lookup_lt_is_Some_2 l i Hi) as [x Hx]. by rewrite Hx.
Qed.

Lemma imap_ok f (l : bytes) :
  bytes_ok l -> (forall i x, in_width 8 x -> in_width 8 (f i x)) -> bytes_ok (imap f l).
Proof.
  intros Hl Hf. apply Forall_lookup_2. intros i x. rewrite list_lookup_imap_Some.
  intros (y & Hy & ->). apply Hf. eapply bytes_ok_lookup; eauto.
Qed.

Lemma length_gf_mul_add dst src c w : length (gf_mul_add dst src c w) = length dst.
Proof. unfold gf_mul_add. repeat case_match; by rewrite ?length_imap. Qed.

(** The three code paths compute the same thing. *)
Lemma gf_mul_add_spec dst src c w i :
  in_width 8 c -> bytes_ok src -> (i < length dst)%nat ->
  byte_at (gf_mul_add dst src c w) i =
  Z.lxor (byte_at dst i) (if (i <? w)%nat then gf_mul c (byte_at src i) else 0).
Proof.
  intros Hc Hs Hi. unfold gf_mul_add. destruct (Z.eqb_spec c 0) as [->|Hc0].
  { simpl. rewrite gf_mul_0_l. destruct (i <? w)%nat; by rewrite Z.lxor_0_r. }
  destruct (Nat.eqb_spec (length src) 0) as [Hs0|Hs0].
  { simpl. rewrite (byte_at_ge src i), gf_mul_0_r by lia. destruct (i <? w)%nat; by rewrite Z.lxor_0_r. }
  simpl. destruct (Nat.ltb_spec i w) as [Hw|Hw].
  - destruct (decide (i < length src)%nat) as [Hl|Hl].
    + assert (i <? length dst `min` (length src `min` w) = true)%nat as Hb
        by (apply Nat.ltb_lt; lia).
      destruct (Z.eqb_spec c 1) as [->|]; rewrite byte_at_imap, Hb by done.
      * by rewrite gf_mul_1_l by auto with width.
      * unfold gf_mul. rewrite (proj2 (Z.eqb_neq c 0)) by done.
        destruct (Z.eqb_spec (byte_at src i) 0); simpl; [by rewrite Z.lxor_0_r|done].
    + rewrite (byte_at_ge src i), gf_mul_0_r, Z.lxor_0_r by lia.
      assert (i <? length dst `min` (length src `min` w) = false)%nat as Hb
        by (apply Nat.ltb_ge; lia).
      destruct (c =? 1); by rewrite byte_at_imap, Hb.
  - rewrite Z.lxor_0_r. assert (i <? length dst `min` (length src `min` w) = false)%nat as Hb
      by (apply Nat.ltb_ge; lia).
    destruct (c =? 1); by rewrite byte_at_imap, Hb.
Qed.

Lemma gf_mul_add_ok dst src c w :
  in_width 8 c -> bytes_ok src -> bytes_ok dst -> bytes_ok (gf_mul_add dst src c w).
Proof.
  intros Hc Hs Hd. apply Forall_lookup_2. intros i x Hx.
  assert (i < length dst)%nat as Hi.
  { rewrite <- (length_gf_mul_add dst src c w). by eapply lookup_lt_Some. }
  assert (x = byte_at (gf_mul_add dst src c w) i) as -> by (unfold byte_at; by rewrite Hx).
  rewrite gf_mul_add_spec by done. apply lxor_width; [lia|auto with width|].
  destruct (i <? w)%nat; [auto with width|unfold in_width; lia].
Qed.

(** Accumulating a list of sources. *)
Lemma fold_mul_add_spec (l : list nat) (src : nat -> bytes) (c : nat -> Z) w buf i :
  (forall j, in_width 8 (c j)) -> (forall j, bytes_ok (src j)) ->
  (i < length buf)%nat -> (i < w)%nat ->
  byte_at (foldl (fun acc j => gf_mul_add acc (src j) (c j) w) buf l) i =
  Z.lxor (byte_at buf i) (lsum l (fun j => gf_mul (c j) (byte_at (src j) i))).
Proof.
  intros Hc Hs. revert buf. induction l as [|j l IH]; intros buf Hi Hw; simpl.
  { by rewrite Z.lxor_0_r. }
  rewrite IH by (rewrite ?length_gf_mul_add; done).
  rewrite gf_mul_add_spec, (proj2 (Nat.ltb_lt i w)) by done. by rewrite Z.lxor_assoc.
Qed.

Lemma fold_mul_add_length (l : list nat) (src : nat -> bytes) (c : nat -> Z) w buf :
  length (foldl (fun acc j => gf_mul_add acc (src j) (c j) w) buf l) = length buf.
Proof.
  revert buf. induction l as [|j l IH]; intros buf; simpl; [done|].
  by rewrite IH, length_gf_mul_add.
Qed.

Lemma fold_mul_add_ok (l : list nat) (src : nat -> bytes) (c : nat -> Z) w buf :
  (forall j, in_width 8 (c j)) -> (forall j, bytes_ok (src j)) -> bytes_ok buf ->
  bytes_ok (foldl (fun acc j => gf_mul_add acc (src j) (c j) w) buf l).
Proof.
  intros Hc Hs. revert buf. induction l as [|j l IH]; intros buf Hb; simpl; [done|].
  apply IH. by apply gf_mul_add_ok.
Qed.

Lemma gf_pow_width a e : in_width 8 a -> 0 <= e -> in_width 8 (gf_pow a e).
Proof.
  intros Ha He. unfold gf_pow. destruct (e =? 0); [unfold in_width; lia|].
  destruct (Z.eqb_spec a 0); [unfold in_width; lia|].
  apply exp_mod. pose proof (exp_log a Ha).
  rewrite Z.rem_mod_nonneg by nia. pose proof (Z.mod_pos_bound (log a * e) 255). lia.
Qed.

Lemma coef_width p j : in_width 8 (coef p j).
Proof. unfold coef. apply gf_pow_width; [apply u8_width|lia]. Qed.

#[local] Hint Resolve coef_width gf_mul_add_ok : width.

Definition frags_ok (fs : list bytes) : Prop := Forall bytes_ok fs.

Lemma row_at_ok fs i : frags_ok fs -> bytes_ok (row_at fs i).
Proof.
  intros H. unfold row_at. destruct (fs !! i) eqn:E; simpl; [|apply bytes_ok_nil].
  by eapply (Forall_lookup_1 bytes_ok).
Qed.

#[local] Hint Resolve row_at_ok : width.

(** What every parity byte is: the linear combination of the data bytes. *)
Definition parity_byte (fs : list bytes) (p k : nat) : Z :=
  lsum (seq 0 (length fs)) (fun j => gf_mul (coef p j) (byte_at (row_at fs j) k)).

Lemma parity_byte_width fs p k : frags_ok fs -> in_width 8 (parity_byte fs p k).
Proof.
  intros Hf. apply lsum_width. intros j _.
  apply gf_mul_width; [apply coef_width|by apply byte_at_width, row_at_ok].
Qed.

(** The content of a row does not depend on what the reused buffer held. *)
Lemma encode_row_spec fs p w buf k :
  frags_ok fs -> (k < w)%nat -> byte_at (encode_row fs p w buf) k = parity_byte fs p k.
Proof.
  intros Hf Hk. unfold encode_row, parity_byte.
  set (b := if (length buf <? w)%nat then _ else _).
  assert (w <= length b)%nat as Hl.
  { subst b. destruct (_ <? _)%nat; rewrite ?length_app, length_replicate; lia. }
  rewrite fold_mul_add_spec; [|auto with width..|lia|done].
  assert (byte_at b k = 0) as ->; [|apply Z.lxor_0_l].
  subst b. unfold byte_at. destruct (_ <? _)%nat.
  - by rewrite lookup_replicate_2.
  - rewrite lookup_app_l by (by rewrite length_replicate). by rewrite lookup_replicate_2.
Qed.

Lemma length_encode_row_empty fs p w : length (encode_row fs p w []) = w.
Proof.
  unfold encode_row. rewrite fold_mul_add_length.
  destruct (_ <? _)%nat eqn:E; [apply length_replicate|].
  apply Nat.ltb_ge in E. simpl in E. by replace w with 0%nat by lia.
Qed.

Lemma encode_row_ok fs p w buf : frags_ok fs -> bytes_ok buf -> bytes_ok (encode_row fs p w buf).
Proof.
  intros Hf Hb. unfold encode_row. apply fold_mul_add_ok; [auto with width..|].
  destruct (_ <? _)%nat; rewrite ?bytes_ok_app; auto with width.
Qed.

Lemma row_at_insert_eq (m : list bytes) i x :
  (i < length m)%nat -> row_at (<[i := x]> m) i = x.
Proof. intros H. unfold row_at. by rewrite list_lookup_insert_eq. Qed.

Lemma row_at_insert_ne (m : list bytes) i j x :
  i <> j -> row_at (<[i := x]> m) j = row_at m j.
Proof. intros H. unfold row_at. by rewrite list_lookup_insert_ne. Qed.

(** Rows are written once each, in order. *)
Lemma encode_into_fold fs w ps out p :
  NoDup ps -> p ∈ ps -> (forall q, q ∈ ps -> (q < length out)%nat) ->
  row_at (foldl (fun out p => <[p := encode_row fs p w (row_at out p)]> out) out ps) p =
  encode_row fs p w (row_at out p).
Proof.
  assert (forall ps out, p ∉ ps ->
    row_at (foldl (fun out p => <[p := encode_row fs p w (row_at out p)]> out) out ps) p =
    row_at out p) as Hnot.
  { intros ps'. induction ps' as [|q ps' IH]; intros out' Hn; simpl; [done|].
    rewrite IH by set_solver. apply row_at_insert_ne. set_solver. }
  revert out. induction ps as [|q ps IH]; intros out Hnd Hp Hlt; [set_solver|].
  apply NoDup_cons in Hnd as [Hq Hnd]. simpl. destruct (decide (q = p)) as [->|Hne].
  - rewrite Hnot by done. apply row_at_insert_eq. apply Hlt. set_solver.
  - rewrite IH; [|done|set_solver|intros; rewrite length_insert; set_solver].
    by rewrite row_at_insert_ne.
Qed.

Lemma length_encode_into fs pc w out :
  length (encode_into fs pc w out) = (length out `max` pc)%nat.
Proof.
  unfold encode_into. set (o := if (length out <? pc)%nat then _ else _).
  assert (length o = (length out `max` pc)%nat) as <-.
  { unfold o. destruct (Nat.ltb_spec (length out) pc); [rewrite length_app, length_replicate|]; lia. }
  clearbody o. generalize (seq 0 pc). intros ps. revert o.
  induction ps as [|q ps IH]; intros o; simpl; [done|]. by rewrite IH, length_insert.
Qed.

Lemma encode_into_row fs pc w out p :
  (p < pc)%nat -> row_at (encode_into fs pc w out) p = encode_row fs p w (row_at out p).
Proof.
  intros Hp. unfold encode_into.
  set (o := if (length out <? pc)%nat then _ else _).
  assert (pc <= length o)%nat as Hl.
  { subst o. destruct (Nat.ltb_spec (length out) pc);
      rewrite ?length_app, ?length_replicate; lia. }
  rewrite encode_into_fold; [|apply NoDup_seq|apply elem_of_seq; lia|].
  2: { intros q Hq. apply elem_of_seq in Hq. lia. }
  f_equal. subst o. destruct (_ <? _)%nat; [|done]. unfold row_at.
  destruct (decide (p < length out)%nat).
  - by rewrite lookup_app_l.
  - rewrite lookup_app_r by lia. rewrite (lookup_ge_None_2 out) by lia.
    destruct (replicate _ _ !! _) eqn:E; [|done].
    by apply lookup_replicate in E as [-> _].
Qed.

(** The encoder: every parity byte is the combination of the data bytes
    with the Vandermonde coefficients, whatever the caller's buffers held. *)
Theorem encode_into_spec fs pc w out p k :
  frags_ok fs -> (p < pc)%nat -> (k < w)%nat ->
  byte_at (row_at (encode_into fs pc w out) p) k = parity_byte fs p k.
Proof. intros. rewrite encode_into_row by done. by apply encode_row_spec. Qed.

Lemma encode_into_spec_witness :
  byte_at (row_at (encode_into [[1; 2]; [3]] 2 2 [[9; 9; 9]]) 1) 0 =
  parity_byte [[1; 2]; [3]] 1 0.
Proof.
  apply encode_into_spec; [|lia|lia]. repeat constructor; unfold in_width; lia.
Defined.

(** The coefficients are powers of the low byte of the position plus one, so
    they repeat after 256 fragments. *)
Lemma parity_byte_swapped a b mid p k : length mid = 255%nat ->
  parity_byte (a :: mid ++ [b]) p k = parity_byte (b :: mid ++ [a]) p k.
Proof.
  intros Hl. unfold parity_byte. cbn [length]. rewrite !length_app, Hl. cbn [length].
  change (S (255 + 1)) with 257%nat. assert (seq 0 257 = [0%nat] ++ seq 1 255 ++ [256%nat]) as -> by reflexivity.
  assert (forall i f, lsum [i] f = f i) as Hone by (intros; apply Z.lxor_0_r).
  rewrite !lsum_app, !Hone.
  assert (forall x y, row_at (x :: mid ++ [y]) 256 = y) as Hlast.
  { intros x y. change (default [] ((mid ++ [y]) !! 255%nat) = y).
    by rewrite lookup_app_r, Hl by (rewrite Hl; lia). }
  assert (coef p 256 = coef p 0) as -> by reflexivity. rewrite !Hlast.
  change (row_at (a :: mid ++ [b]) 0) with a. change (row_at (b :: mid ++ [a]) 0) with b.
  rewrite (lsum_ext (seq 1 255) _ (fun j => gf_mul (coef p j) (byte_at (row_at (b :: mid ++ [a]) j) k))).
  - set (z := lsum _ _). rewrite (Z.lxor_comm z), (Z.lxor_comm z). rewrite <- !Z.lxor_assoc. f_equal. apply Z.lxor_comm.
  - intros j Hj%elem_of_seq. f_equal. f_equal. destruct j as [|j]; [lia|].
    change (default [] ((mid ++ [b]) !! j) = default [] ((mid ++ [a]) !! j)). by rewrite !lookup_app_l by lia.
Qed.

(** Parities do not tell two fragments apart that are 256 positions apart:
    messages that differ by exchanging them have the same parities, whatever
    their number, so when both are lost nothing can restore them. *)
Theorem same_parities a b mid pc w p out k :
  length mid = 255%nat -> bytes_ok a -> bytes_ok b -> frags_ok mid -> (p < pc)%nat -> (k < w)%nat ->
  byte_at (row_at (encode_into (a :: mid ++ [b]) pc w out) p) k =
  byte_at (row_at (encode_into (b :: mid ++ [a]) pc w out) p) k.
Proof.
  intros Hl Ha Hb Hm Hp Hk.
  assert (forall x y, bytes_ok x -> bytes_ok y -> frags_ok (x :: mid ++ [y])) as Hok.
  { intros x y Hx Hy. constructor; [done|]. apply Forall_app. split; [done|by constructor]. }
  rewrite !encode_into_spec by (done || by apply Hok). by apply parity_byte_swapped.
Qed.

Lemma same_parities_witness :
  byte_at (row_at (encode_into ([1] :: replicate 255 [3] ++ [[2]]) 2 1 []) 1) 0 =
  byte_at (row_at (encode_into ([2] :: replicate 255 [3] ++ [[1]]) 2 1 []) 1) 0.
Proof.
  apply (same_parities [1] [2] (replicate 255 [3])); [done|..|lia|lia].
  - by repeat constructor.
  - by repeat constructor.
  - apply Forall_replicate. by repeat constructor.
Defined.

(** ** Gauss-Jordan elimination *)

Section Gauss.
Context (m w : nat).

Definition rowdot (row : bytes) (v : nat -> Z) : Z :=
  lsum (seq 0 m) (fun c => gf_mul (byte_at row c) (v c)).

(** Shape of the linear system: [m] rows of [m] coefficients, [m] right-hand
    sides of [w] bytes. *)
Definition rows_of (n : nat) (a : list bytes) : Prop :=
  length a = m /\ Forall (fun row => length row = n /\ bytes_ok row) a.

Definition system (st : list bytes * list bytes) : Prop := rows_of m st.1 /\ rows_of w st.2.

(** [X c] is the content of the [c]-th unknown. *)
Definition solves (st : list bytes * list bytes) (X : nat -> nat -> Z) : Prop :=
  forall r k, (r < m)%nat -> (k < w)%nat ->
    rowdot (row_at st.1 r) (fun c => X c k) = byte_at (row_at st.2 r) k.

Definition in_kernel (a : list bytes) (v : nat -> Z) : Prop :=
  forall r, (r < m)%nat -> rowdot (row_at a r) v = 0.

(** Columns before [col] are those of the identity. *)
Definition unit_cols (col : nat) (a : list bytes) : Prop :=
  forall r c, (r < m)%nat -> (c < col)%nat -> at2 a r c = if (r =? c)%nat then 1 else 0.

Lemma rows_of_row n a r : rows_of n a -> (r < m)%nat ->
  length (row_at a r) = n /\ bytes_ok (row_at a r).
Proof.
  intros [Hl Hf] Hr. unfold row_at. destruct (lookup_lt_is_Some_2 a r) as [x Hx]; [lia|].
  rewrite Hx. simpl. by apply (Forall_lookup_1 (fun row => length row = n /\ bytes_ok row) a r).
Qed.

Lemma rows_of_intro n a : length a = m ->
  (forall r, (r < m)%nat -> length (row_at a r) = n /\ bytes_ok (row_at a r)) -> rows_of n a.
Proof.
  intros Hl H. split; [done|]. apply Forall_lookup_2. intros r x Hx.
  assert (r < m)%nat by (rewrite <- Hl; by eapply lookup_lt_Some).
  specialize (H r ltac:(done)). unfold row_at in H. by rewrite Hx in H.
Qed.

Lemma at2_width n a r c : rows_of n a -> (r < m)%nat -> in_width 8 (at2 a r c).
Proof. intros H Hr. apply byte_at_width. by apply (rows_of_row n a r). Qed.

Lemma length_rows n a : rows_of n a -> length a = m. Proof. by intros [? _]. Qed.

Lemma rowdot_width row v :
  bytes_ok row -> (forall c, in_width 8 (v c)) -> in_width 8 (rowdot row v).
Proof. intros. apply lsum_width. intros. auto with width. Qed.

(** *** Exchange of two rows *)

Lemma row_at_swap a i j r : (i < length a)%nat -> (j < length a)%nat ->
  row_at (swap_rows a i j) r =
  row_at a (if decide (r = i) then j else if decide (r = j) then i else r).
Proof.
  intros Hi Hj. unfold swap_rows. destruct (decide (r = i)) as [->|].
  - by rewrite row_at_insert_eq by (by rewrite length_insert).
  - rewrite row_at_insert_ne by done. destruct (decide (r = j)) as [->|].
    + by rewrite row_at_insert_eq.
    + by rewrite row_at_insert_ne.
Qed.

Lemma length_swap_rows a i j : length (swap_rows a i j) = length a.
Proof. unfold swap_rows. by rewrite !length_insert. Qed.

Lemma rows_of_swap n a i j : rows_of n a -> (i < m)%nat -> (j < m)%nat -> rows_of n (swap_rows a i j).
Proof.
  intros Ha Hi Hj. pose proof (length_rows _ _ Ha). apply rows_of_intro.
  { by rewrite length_swap_rows. }
  intros r Hr. rewrite row_at_swap by lia. apply rows_of_row; [done|].
  repeat case_decide; lia.
Qed.

Lemma swap_pivot_spec p col st :
  system st -> (p < m)%nat -> (col < m)%nat ->
  system (swap_pivot p col st) /\
  (forall X, solves st X -> solves (swap_pivot p col st) X) /\
  (forall v, in_kernel (swap_pivot p col st).1 v -> in_kernel st.1 v) /\
  at2 (swap_pivot p col st).1 col col = at2 st.1 p col /\
  (forall n, (n <= col)%nat -> (n <= p)%nat -> unit_cols n st.1 ->
    unit_cols n (swap_pivot p col st).1).
Proof.
  intros [Ha Hs] Hp Hc. pose proof (length_rows _ _ Ha). pose proof (length_rows _ _ Hs).
  unfold swap_pivot. destruct (Nat.eqb_spec p col) as [->|Hne]; [done|].
  unfold solves, in_kernel, unit_cols, at2. cbn [fst snd]. split_and!.
  - split; by apply rows_of_swap.
  - intros X HX r k Hr Hk. rewrite !row_at_swap by lia. apply HX; [|done]. repeat case_decide; lia.
  - intros v Hv r Hr. specialize (Hv (if decide (r = p) then col else if decide (r = col) then p else r)).
    rewrite row_at_swap in Hv by lia.
    repeat case_decide; subst; try done; apply Hv; done.
  - rewrite row_at_swap by lia. by rewrite decide_False, decide_True by done.
  - intros n Hn Hn' Hu r c Hr Hcn. rewrite row_at_swap by lia.
    destruct (decide (r = p)) as [->|]; [|destruct (decide (r = col)) as [->|]].
    + rewrite Hu by lia. repeat case_match; rewrite ?Nat.eqb_eq, ?Nat.eqb_neq in *; lia.
    + rewrite Hu by lia. repeat case_match; rewrite ?Nat.eqb_eq, ?Nat.eqb_neq in *; lia.
    + by apply Hu.
Qed.

(** *** Scaling the pivot row *)

Lemma rowdot_scale col inv row v :
  in_width 8 inv -> bytes_ok row -> length row = m -> (forall c, in_width 8 (v c)) ->
  (forall c, (c < col)%nat -> byte_at row c = 0) ->
  rowdot (scale_row col inv row) v = gf_mul inv (rowdot row v).
Proof.
  intros Hi Hr Hl Hv Hz. unfold rowdot. rewrite <- lsum_mul by (intros; auto with width).
  apply lsum_ext. intros c Hc. apply elem_of_seq in Hc. unfold scale_row.
  rewrite byte_at_imap by lia. destruct (Nat.ltb_spec c col).
  - by rewrite Hz, gf_mul_0_l, gf_mul_0_r by done.
  - rewrite (gf_mul_comm (byte_at row c) inv). symmetry. apply gf_mul_assoc; auto with width.
Qed.

Lemma byte_at_scale_syn inv s k :
  byte_at ((fun b => gf_mul b inv) <$> s) k = gf_mul inv (byte_at s k).
Proof.
  unfold byte_at. rewrite list_lookup_fmap. destruct (s !! k); simpl.
  - apply gf_mul_comm.
  - by rewrite gf_mul_0_r.
Qed.

Lemma normalize_spec col st :
  system st -> (col < m)%nat -> at2 st.1 col col <> 0 -> unit_cols col st.1 ->
  system (normalize col st) /\
  (forall X, (forall c k, in_width 8 (X c k)) -> solves st X -> solves (normalize col st) X) /\
  (forall v, (forall c, in_width 8 (v c)) ->
    in_kernel (normalize col st).1 v -> in_kernel st.1 v) /\
  at2 (normalize col st).1 col col = 1 /\ unit_cols col (normalize col st).1.
Proof.
  destruct st as [a syn]. intros [Ha Hs] Hc Hp Hu. cbn [fst snd] in *.
  pose proof (length_rows _ _ Ha) as La. pose proof (length_rows _ _ Hs) as Ls.
  destruct (rows_of_row _ _ _ Ha Hc) as [Lr Or]. destruct (rows_of_row _ _ _ Hs Hc) as [Lq Oq].
  destruct (gf_mul_inv (at2 a col col)) as [Hinv Winv]; [by apply (at2_width m)|done|].
  set (inv := gf_inv (at2 a col col)) in *.
  assert (forall c, (c < col)%nat -> byte_at (row_at a col) c = 0) as Hz.
  { intros c Hcc. specialize (Hu col c Hc Hcc). unfold at2 in Hu. rewrite Hu.
    by rewrite (proj2 (Nat.eqb_neq col c)) by lia. }
  unfold normalize. fold inv. unfold solves, in_kernel, unit_cols. cbn [fst snd]. split_and!.
  - split; apply rows_of_intro; cbn [fst snd]; rewrite ?length_insert; [done| |done|];
      intros r Hr; (destruct (decide (r = col)) as [->|];
        [rewrite row_at_insert_eq by lia|rewrite row_at_insert_ne by done; by apply rows_of_row]).
    + unfold scale_row. rewrite length_imap. split; [done|]. apply imap_ok; [done|].
      intros i x Hx. destruct (_ <? _)%nat; auto with width.
    + rewrite length_fmap. split; [done|]. apply Forall_fmap. eapply Forall_impl; [exact Oq|].
      intros x Hx. simpl. auto with width.
  - intros X HX Hsol r k Hr Hk. destruct (decide (r = col)) as [->|].
    + rewrite !row_at_insert_eq by lia. rewrite rowdot_scale by (done || intros; apply HX).
      rewrite byte_at_scale_syn. f_equal. by apply Hsol.
    + rewrite !row_at_insert_ne by done. by apply Hsol.
  - intros v Hv Hk r Hr. specialize (Hk r Hr). destruct (decide (r = col)) as [->|].
    + rewrite row_at_insert_eq, rowdot_scale in Hk by (done || lia).
      apply gf_mul_eq_0 in Hk; [|done|by apply rowdot_width]. destruct Hk as [Hk|]; [|done].
      rewrite Hk, gf_mul_0_r in Hinv. done.
    + by rewrite row_at_insert_ne in Hk.
  - unfold at2. rewrite row_at_insert_eq by lia. unfold scale_row.
    rewrite byte_at_imap by lia. rewrite (proj2 (Nat.ltb_ge col col)) by lia. done.
  - intros r c Hr Hcc. unfold at2. destruct (decide (r = col)) as [->|].
    + rewrite row_at_insert_eq by lia. unfold scale_row. rewrite byte_at_imap by lia.
      rewrite (proj2 (Nat.ltb_lt c col)) by done. by apply Hu.
    + rewrite row_at_insert_ne by done. by apply Hu.
Qed.

(** *** Elimination *)

Lemma row_at_imap f (a : list bytes) r :
  (r < length a)%nat -> row_at (imap f a) r = f r (row_at a r).
Proof.
  intros Hr. unfold row_at. rewrite list_lookup_imap.
  destruct (lookup_lt_is_Some_2 a r Hr) as [x Hx]. by rewrite Hx.
Qed.

Lemma elim_row_spec col prow f row c :
  in_width 8 f -> length row = m -> (c < m)%nat ->
  (forall c, (c < col)%nat -> byte_at prow c = 0) ->
  byte_at (if f =? 0 then row else elim_row col prow f row) c =
  Z.lxor (byte_at row c) (gf_mul f (byte_at prow c)).
Proof.
  intros Hf Hl Hc Hz. destruct (Z.eqb_spec f 0) as [->|].
  { by rewrite gf_mul_0_l, Z.lxor_0_r. }
  unfold elim_row. rewrite byte_at_imap by lia. destruct (Nat.ltb_spec c col); [|done].
  by rewrite Hz, gf_mul_0_r, Z.lxor_0_r by done.
Qed.

Lemma rowdot_elim col prow f row v :
  in_width 8 f -> bytes_ok row -> bytes_ok prow -> length row = m ->
  (forall c, in_width 8 (v c)) -> (forall c, (c < col)%nat -> byte_at prow c = 0) ->
  rowdot (if f =? 0 then row else elim_row col prow f row) v =
  Z.lxor (rowdot row v) (gf_mul f (rowdot prow v)).
Proof.
  intros Hf Hr Hp Hl Hv Hz. unfold rowdot. rewrite <- lsum_mul by (intros; auto with width).
  rewrite <- lsum_lxor. apply lsum_ext. intros c Hc. apply elem_of_seq in Hc.
  rewrite elim_row_spec by (done || lia).
  rewrite gf_mul_lxor_l by auto with width. f_equal. symmetry.
  apply gf_mul_assoc; auto with width.
Qed.

Lemma elim_row_ok col prow f row :
  in_width 8 f -> bytes_ok row -> bytes_ok prow ->
  length (if f =? 0 then row else elim_row col prow f row) = length row /\
  bytes_ok (if f =? 0 then row else elim_row col prow f row).
Proof.
  intros Hf Hr Hp. destruct (f =? 0); [done|]. unfold elim_row. rewrite length_imap.
  split; [done|]. apply imap_ok; [done|]. intros i x Hx.
  destruct (_ <? _)%nat; auto with width.
Qed.

Lemma elim_syn_spec psyn f s k :
  in_width 8 f -> bytes_ok psyn -> length s = w -> (k < w)%nat ->
  byte_at (if f =? 0 then s else gf_mul_add s psyn f w) k =
  Z.lxor (byte_at s k) (gf_mul f (byte_at psyn k)).
Proof.
  intros Hf Hp Hl Hk. destruct (Z.eqb_spec f 0) as [->|].
  { by rewrite gf_mul_0_l, Z.lxor_0_r. }
  rewrite gf_mul_add_spec by (done || lia). by rewrite (proj2 (Nat.ltb_lt k w)).
Qed.

Section Eliminate.
Context (col : nat) (a syn : list bytes).
Context (Ha : rows_of m a) (Hs : rows_of w syn) (Hc : (col < m)%nat)
  (Hp : at2 a col col = 1) (Hu : unit_cols col a).

Let a' := (eliminate w col (a, syn)).1.
Let syn' := (eliminate w col (a, syn)).2.

Lemma pivot_row_zero c : (c < col)%nat -> byte_at (row_at a col) c = 0.
Proof using Hc Hu.
  intros Hcc. specialize (Hu col c Hc Hcc). unfold at2 in Hu. rewrite Hu.
  by rewrite (proj2 (Nat.eqb_neq col c)) by lia.
Qed.

Lemma elim_row_at r : (r < m)%nat ->
  row_at a' r = if (r =? col)%nat then row_at a r
                else if at2 a r col =? 0 then row_at a r
                     else elim_row col (row_at a col) (at2 a r col) (row_at a r).
Proof using Ha.
  intros Hr. unfold a', eliminate. cbn [fst]. rewrite row_at_imap; [done|].
  by rewrite (length_rows _ _ Ha).
Qed.

Lemma elim_syn_at r : (r < m)%nat ->
  row_at syn' r = if (r =? col)%nat then row_at syn r
                  else if at2 a r col =? 0 then row_at syn r
                       else gf_mul_add (row_at syn r) (row_at syn col) (at2 a r col) w.
Proof using Hs.
  intros Hr. unfold syn', eliminate. cbn [snd]. rewrite row_at_imap; [done|].
  by rewrite (length_rows _ _ Hs).
Qed.

Lemma eliminate_system : system (eliminate w col (a, syn)).
Proof using Ha Hs Hc.
  split; fold a' syn'; apply rows_of_intro.
  - unfold a', eliminate. cbn [fst]. rewrite length_imap. by apply length_rows in Ha.
  - intros r Hr. rewrite elim_row_at by done. destruct (r =? col)%nat; [by apply rows_of_row|].
    destruct (rows_of_row _ _ _ Ha Hr) as [L O], (rows_of_row _ _ _ Ha Hc) as [Lc Oc].
    destruct (elim_row_ok col (row_at a col) (at2 a r col) (row_at a r)) as [L' O'];
      [by apply (at2_width m)|done..|]. by rewrite L'.
  - unfold syn', eliminate. cbn [snd]. rewrite length_imap. by apply length_rows in Hs.
  - intros r Hr. rewrite elim_syn_at by done. destruct (r =? col)%nat; [by apply rows_of_row|].
    destruct (rows_of_row _ _ _ Hs Hr) as [L O], (rows_of_row _ _ _ Hs Hc) as [Lc Oc].
    destruct (_ =? 0); [done|]. rewrite length_gf_mul_add. split; [done|].
    apply gf_mul_add_ok; [by apply (at2_width m)|done..].
Qed.

Lemma eliminate_rowdot r v : (r < m)%nat -> (forall c, in_width 8 (v c)) ->
  rowdot (row_at a' r) v =
  if (r =? col)%nat then rowdot (row_at a r) v
  else Z.lxor (rowdot (row_at a r) v) (gf_mul (at2 a r col) (rowdot (row_at a col) v)).
Proof using Ha Hc Hu.
  intros Hr Hv. rewrite elim_row_at by done. destruct (r =? col)%nat; [done|].
  destruct (rows_of_row _ _ _ Ha Hr) as [L O], (rows_of_row _ _ _ Ha Hc) as [Lc Oc].
  apply rowdot_elim; [by apply (at2_width m)|done..|apply pivot_row_zero].
Qed.

Lemma eliminate_solves X : (forall c k, in_width 8 (X c k)) ->
  solves (a, syn) X -> solves (eliminate w col (a, syn)) X.
Proof using Ha Hc Hs Hu.
  intros HX Hsol r k Hr Hk. fold a' syn'. rewrite eliminate_rowdot by (done || intros; apply HX).
  rewrite elim_syn_at by done. destruct (r =? col)%nat eqn:E; [by apply Hsol|].
  destruct (rows_of_row _ _ _ Hs Hr) as [L O], (rows_of_row _ _ _ Hs Hc) as [Lc Oc].
  rewrite elim_syn_spec by (done || by apply (at2_width m)).
  pose proof (Hsol r k Hr Hk) as E1. pose proof (Hsol col k Hc Hk) as E2.
  cbn [fst snd] in E1, E2. by rewrite E1, E2.
Qed.

Lemma eliminate_kernel v : (forall c, in_width 8 (v c)) ->
  in_kernel (eliminate w col (a, syn)).1 v -> in_kernel a v.
Proof using Ha Hc Hu.
  intros Hv Hk r Hr. fold a' in Hk. pose proof (Hk col Hc) as Kc. pose proof (Hk r Hr) as Kr.
  rewrite eliminate_rowdot in Kc, Kr by done. rewrite Nat.eqb_refl in Kc.
  destruct (Nat.eqb_spec r col) as [->|]; [done|].
  by rewrite Kc, gf_mul_0_r, Z.lxor_0_r in Kr.
Qed.

Lemma eliminate_unit_cols : unit_cols (S col) (eliminate w col (a, syn)).1.
Proof using Ha Hc Hp Hu.
  intros r c Hr Hcc. fold a'. unfold at2. rewrite elim_row_at by done.
  destruct (rows_of_row _ _ _ Ha Hr) as [L O].
  destruct (Nat.eqb_spec r col) as [->|Hne].
  - destruct (decide (c = col)) as [->|]; [by rewrite Nat.eqb_refl|]. apply Hu; lia.
  - rewrite elim_row_spec; [|by apply (at2_width m)|done|lia|apply pivot_row_zero].
    destruct (decide (c = col)) as [->|Hne'].
    + fold (at2 a r col) (at2 a col col). rewrite Hp, gf_mul_comm, gf_mul_1_l
        by (by apply (at2_width m)).
      rewrite Z.lxor_nilpotent. by rewrite (proj2 (Nat.eqb_neq r col)).
    + rewrite (pivot_row_zero c), gf_mul_0_r, Z.lxor_0_r by lia. apply Hu; lia.
Qed.
End Eliminate.

(** Without a pivot the remaining matrix is singular. *)
Lemma no_pivot col a :
  rows_of m a -> (col < m)%nat -> unit_cols col a ->
  (forall r, (col <= r < m)%nat -> at2 a r col = 0) ->
  exists v, (forall c, in_width 8 (v c)) /\ in_kernel a v /\ v col <> 0.
Proof.
  intros Ha Hc Hu Hz.
  exists (fun c => if decide (c < col)%nat then at2 a c col else if decide (c = col) then 1 else 0).
  split_and!.
  - intros c. repeat case_decide; [apply (at2_width m); [done|lia]|unfold in_width; lia..].
  - intros r Hr. unfold rowdot.
    rewrite (lsum_ext _ _ (fun c => Z.lxor
      (if decide (c = r /\ (r < col)%nat) then at2 a r col else 0)
      (if decide (c = col) then at2 a r col else 0))).
    2: { intros c Hcs. apply elem_of_seq in Hcs. fold (at2 a r c).
      destruct (decide (c < col)%nat) as [Hlt|Hge].
      - rewrite Hu by lia. rewrite (decide_False (P := c = col)) by lia. rewrite Z.lxor_0_r.
        destruct (Nat.eqb_spec r c) as [->|].
        + rewrite decide_True by done. apply gf_mul_1_l. by apply (at2_width m).
        + by rewrite decide_False by (intros [? ?]; congruence).
      - rewrite (decide_False (P := c = r /\ _)) by lia. rewrite Z.lxor_0_l.
        destruct (decide (c = col)) as [->|]; [|apply gf_mul_0_r].
        rewrite gf_mul_comm. apply gf_mul_1_l. by apply (at2_width m). }
    rewrite lsum_lxor.
    rewrite (lsum_single _ (fun c => if decide (c = col) then at2 a r col else 0) col);
      [|apply NoDup_seq|apply elem_of_seq; lia|intros; by rewrite decide_False].
    rewrite (decide_True (P := col = col)) by done.
    destruct (decide (r < col)%nat).
    + rewrite (lsum_single _ _ r); [|apply NoDup_seq|apply elem_of_seq; lia|].
      * rewrite decide_True by done. apply Z.lxor_nilpotent.
      * intros j _ Hj. by rewrite decide_False by (intros [? ?]; congruence).
    + rewrite Hz by lia. rewrite Z.lxor_0_r.
      rewrite (lsum_ext _ _ (fun _ => 0)); [apply lsum_0|].
      intros c _. by rewrite decide_False by (intros [? ?]; lia).
  - rewrite decide_False by lia. by rewrite decide_True.
Qed.

Definition regular (a : list bytes) : Prop :=
  forall v, (forall c, in_width 8 (v c)) -> in_kernel a v -> forall c, (c < m)%nat -> v c = 0.

(** One iteration preserves the system and its solutions; it fails only on a
    singular matrix. *)
Lemma gauss_step_spec col st :
  system st -> (col < m)%nat -> unit_cols col st.1 ->
  match gauss_step m w st col with
  | Some st' => system st' /\ unit_cols (S col) st'.1 /\
      (forall X, (forall c k, in_width 8 (X c k)) -> solves st X -> solves st' X) /\
      (regular st.1 -> regular st'.1)
  | None => ~ regular st.1
  end.
Proof.
  intros Hst Hc Hu. unfold gauss_step.
  destruct (List.find _ _) as [p|] eqn:Ef; simpl.
  - apply find_some in Ef as [Hp Hnz]. apply in_seq in Hp. apply negb_true_iff, Z.eqb_neq in Hnz.
    destruct (swap_pivot_spec p col st Hst ltac:(lia) Hc) as (S1 & X1 & K1 & P1 & U1).
    set (st1 := swap_pivot p col st) in *. specialize (U1 col ltac:(lia) ltac:(lia) Hu).
    destruct (normalize_spec col st1 S1 Hc ltac:(by rewrite P1) U1) as (S2 & X2 & K2 & P2 & U2).
    destruct (normalize col st1) as [a2 syn2] eqn:E2. cbn [fst snd] in *. destruct S2 as [S2a S2s].
    split_and!.
    + by apply eliminate_system.
    + by apply eliminate_unit_cols.
    + intros X HX Hsol. apply eliminate_solves; auto.
    + intros Hreg v Hv Hk. apply Hreg; [done|]. apply K1, K2; [done|].
      by apply (eliminate_kernel col a2 syn2).
  - destruct (no_pivot col st.1) as (v & Hv & Hk & Hne); [apply Hst|done|done| |].
    + intros r Hr. pose proof (find_none _ _ Ef r) as H0. rewrite in_seq in H0.
      specialize (H0 ltac:(lia)). by apply negb_false_iff, Z.eqb_eq in H0.
    + intros Hreg. apply Hne. by apply (Hreg v Hv Hk).
Qed.

Lemma gauss_spec n col st :
  (col + n = m)%nat -> system st -> unit_cols col st.1 ->
  match gauss m w (seq col n) st with
  | Some st' => system st' /\ unit_cols m st'.1 /\
      (forall X, (forall c k, in_width 8 (X c k)) -> solves st X -> solves st' X)
  | None => ~ regular st.1
  end.
Proof.
  revert col st. induction n as [|n IH]; intros col st Hm Hst Hu; simpl.
  { by replace m with col by lia. }
  pose proof (gauss_step_spec col st Hst ltac:(lia) Hu) as H.
  destruct (gauss_step m w st col) as [st1|]; simpl; [|done].
  destruct H as (S1 & U1 & X1 & R1). specialize (IH (S col) st1 ltac:(lia) S1 U1).
  destruct (gauss m w (seq (S col) n) st1) as [st'|]; [naive_solver|auto].
Qed.

(** A system with identity matrix has its solution on the right. *)
Lemma unit_solution st X :
  unit_cols m st.1 -> (forall c k, in_width 8 (X c k)) -> solves st X ->
  forall r k, (r < m)%nat -> (k < w)%nat -> byte_at (row_at st.2 r) k = X r k.
Proof.
  intros Hu HX Hsol r k Hr Hk. rewrite <- Hsol by done. unfold rowdot.
  rewrite (lsum_single _ _ r); [|apply NoDup_seq|apply elem_of_seq; lia|].
  - fold (at2 st.1 r r). by rewrite Hu, Nat.eqb_refl, gf_mul_1_l by done.
  - intros c Hcs Hne. apply elem_of_seq in Hcs. fold (at2 st.1 r c).
    rewrite Hu by lia. by rewrite (proj2 (Nat.eqb_neq r c)), gf_mul_0_l by lia.
Qed.
End Gauss.

(** ** The decoder *)

Definition fill (data : list (option bytes)) (idx : list nat) (syn : list bytes) :=
  foldl (fun d '(i, s) => <[i := Some s]> d) data (zip idx syn).

Lemma fill_notin data idx syn j : j ∉ idx -> fill data idx syn !! j = data !! j.
Proof.
  unfold fill. revert data syn. induction idx as [|i idx IH]; intros data syn Hj; [done|].
  destruct syn as [|s syn]; [done|]. simpl. rewrite IH by set_solver.
  apply list_lookup_insert_ne. set_solver.
Qed.

Lemma length_fill data idx syn : length (fill data idx syn) = length data.
Proof.
  unfold fill. revert data syn. induction idx as [|i idx IH]; intros data syn; [done|].
  destruct syn as [|s syn]; [done|]. simpl. by rewrite IH, length_insert.
Qed.

Lemma fill_in data idx syn c i :
  NoDup idx -> length idx = length syn -> idx !! c = Some i -> (i < length data)%nat ->
  fill data idx syn !! i = Some (Some (row_at syn c)).
Proof.
  unfold fill. revert data syn c. induction idx as [|i' idx IH]; intros data syn c Hnd Hl Hc Hi;
    [done|]. destruct syn as [|s syn]; [done|]. apply NoDup_cons in Hnd as [Hn Hnd]. simpl in *.
  destruct c as [|c]; simpl in Hc.
  - simplify_eq. fold (fill (<[i := Some s]> data) idx syn). rewrite fill_notin by done.
    by rewrite list_lookup_insert_eq.
  - rewrite (IH _ syn c); [done|done|lia|done|by rewrite length_insert].
Qed.

Lemma NoDup_missing data : NoDup (missing_indices data).
Proof.
  unfold missing_indices. apply NoDup_ListNoDup. apply List.NoDup_filter.
  apply NoDup_ListNoDup, NoDup_seq.
Qed.

Lemma elem_of_missing data j :
  j ∈ missing_indices data <-> (j < length data)%nat /\ is_missing data j = true.
Proof.
  unfold missing_indices. rewrite list_elem_of_In, filter_In, in_seq. intuition lia.
Qed.

(** Source fragment of index [j] as the syndrome loop sees it. *)
Definition present (data : list (option bytes)) (j : nat) : bytes :=
  match data !! j with Some (Some f) => f | _ => [] end.

Lemma syndrome_alt data pi par w :
  syndrome data pi par w =
  foldl (fun acc j => gf_mul_add acc (present data j) (coef pi j) w)
    (resize0 w par) (seq 0 (length data)).
Proof.
  unfold syndrome. generalize (resize0 w par). generalize (seq 0 (length data)).
  intros l. induction l as [|j l IH]; intros acc; [done|]. simpl. rewrite IH. f_equal.
  unfold present. destruct (data !! j) as [[f|]|]; [done|..];
    unfold gf_mul_add; by rewrite orb_true_r.
Qed.

Section Decode.
Context (D : list bytes) (data : list (option bytes)) (parity : list (nat * bytes)) (w : nat).

(** The table holds original fragments, possibly zero-extended. *)
Definition consistent : Prop :=
  length data = length D /\
  forall j x, data !! j = Some (Some x) ->
    bytes_ok x /\ forall k, (k < w)%nat -> byte_at x k = byte_at (row_at D j) k.

(** The received parities were computed from the original fragments. *)
Definition parities_of : Prop :=
  forall pi par, (pi, par) ∈ parity ->
    bytes_ok par /\ forall k, (k < w)%nat -> byte_at par k = parity_byte D pi k.

(** The table with every hole filled by the (zero-extended) original. *)
Definition repaired : list (option bytes) :=
  imap (fun j o => match o with Some x => Some x | None => Some (resize0 w (row_at D j)) end) data.

Context (HD : frags_ok D) (Hcons : consistent) (Hpar : parities_of).

Let missing := missing_indices data.
Let m := length missing.
Let used := take m parity.
Let syn0 := (fun '(pi, par) => syndrome data pi par w) <$> used.
Let a0 : list bytes := (fun '(pi, _) => (fun c => coef pi c) <$> missing) <$> used.
Let unknown (c k : nat) : Z := byte_at (row_at D (default 0%nat (missing !! c))) k.

Lemma present_ok j : bytes_ok (present data j).
Proof using Hcons.
  unfold present. destruct (data !! j) as [[f|]|] eqn:E; [|apply bytes_ok_nil..].
  by apply (proj2 Hcons j f).
Qed.

Lemma present_byte j k : (k < w)%nat -> (j < length data)%nat ->
  byte_at (present data j) k = if is_missing data j then 0 else byte_at (row_at D j) k.
Proof using Hcons.
  intros Hk Hj. unfold present, is_missing. destruct (data !! j) as [[f|]|] eqn:E; [|done..].
  by apply (proj2 Hcons j f).
Qed.

Lemma syndrome_spec pi par k :
  (pi, par) ∈ parity -> (k < w)%nat ->
  byte_at (syndrome data pi par w) k =
  lsum missing (fun j => gf_mul (coef pi j) (byte_at (row_at D j) k)).
Proof using HD Hcons Hpar.
  intros Hp Hk. destruct (Hpar pi par Hp) as [Op Ep]. rewrite syndrome_alt.
  rewrite fold_mul_add_spec; [|auto with width|intros; apply present_ok|by rewrite length_resize0|done].
  rewrite byte_at_resize0, Ep by done. unfold parity_byte, missing, missing_indices.
  destruct Hcons as [Hl _]. rewrite <- Hl, lsum_filter, <- lsum_lxor. apply lsum_ext.
  intros j Hj. apply elem_of_seq in Hj. rewrite present_byte by (done || lia).
  destruct (is_missing data j).
  - by rewrite gf_mul_0_r, Z.lxor_0_r.
  - apply Z.lxor_nilpotent.
Qed.

Lemma used_lookup r : (m <= length parity)%nat -> (r < m)%nat ->
  exists pi par, used !! r = Some (pi, par) /\ (pi, par) ∈ parity.
Proof.
  intros Hm Hr. destruct (lookup_lt_is_Some_2 parity r) as [[pi par] E]; [lia|].
  exists pi, par. split; [unfold used; by rewrite lookup_take_lt|].
  apply list_elem_of_lookup. eauto.
Qed.

Lemma row_a0 r pi par c : used !! r = Some (pi, par) -> (c < m)%nat ->
  byte_at (row_at a0 r) c = coef pi (default 0%nat (missing !! c)).
Proof.
  intros E Hc. unfold row_at, a0. rewrite list_lookup_fmap, E. simpl. unfold byte_at.
  rewrite list_lookup_fmap. destruct (lookup_lt_is_Some_2 missing c Hc) as [i Hi].
  by rewrite Hi.
Qed.

Lemma row_syn0 r pi par : used !! r = Some (pi, par) -> row_at syn0 r = syndrome data pi par w.
Proof. intros E. unfold row_at, syn0. by rewrite list_lookup_fmap, E. Qed.

Lemma length_used : (m <= length parity)%nat -> length used = m.
Proof. intros H. unfold used. rewrite length_take. lia. Qed.

Lemma initial_system : (m <= length parity)%nat -> system m w (a0, syn0).
Proof using Hcons Hpar.
  intros Hm. split; apply rows_of_intro; cbn [fst snd].
  - unfold a0. by rewrite length_fmap, length_used.
  - intros r Hr. destruct (used_lookup r Hm Hr) as (pi & par & E & _).
    unfold row_at, a0. rewrite list_lookup_fmap, E. simpl. rewrite length_fmap.
    split; [done|]. apply Forall_fmap, Forall_true. intros. apply coef_width.
  - unfold syn0. by rewrite length_fmap, length_used.
  - intros r Hr. destruct (used_lookup r Hm Hr) as (pi & par & E & Hin).
    rewrite (row_syn0 r pi par E), syndrome_alt.
    rewrite fold_mul_add_length, length_resize0. split; [done|].
    apply fold_mul_add_ok; [auto with width|intros; apply present_ok|].
    apply resize0_ok. by apply (Hpar pi par).
Qed.

Lemma initial_solves : (m <= length parity)%nat -> solves m w (a0, syn0) unknown.
Proof using HD Hcons Hpar.
  intros Hm r k Hr Hk. cbn [fst snd]. destruct (used_lookup r Hm Hr) as (pi & par & E & Hin).
  rewrite (row_syn0 r pi par E), syndrome_spec by done. rewrite lsum_positions. fold m.
  apply lsum_ext. intros c Hc. apply elem_of_seq in Hc.
  rewrite (row_a0 r pi par c E) by lia. done.
Qed.

Lemma unknown_width c k : in_width 8 (unknown c k).
Proof using HD. apply byte_at_width. by apply row_at_ok. Qed.

(** The linear system being solved is regular when the chosen rows and
    columns of the coefficient matrix are. *)
Definition coef_regular : Prop :=
  forall v, (forall c, in_width 8 (v c)) ->
    (forall pi, pi ∈ used.*1 ->
      lsum (seq 0 m) (fun c => gf_mul (coef pi (default 0%nat (missing !! c))) (v c)) = 0) ->
    forall c, (c < m)%nat -> v c = 0.

Lemma fill_repaired syn :
  length syn = m -> (forall r, (r < m)%nat -> length (row_at syn r) = w) ->
  (forall r k, (r < m)%nat -> (k < w)%nat -> byte_at (row_at syn r) k = unknown r k) ->
  fill data missing syn = repaired.
Proof.
  intros Hl Hw Hb. apply list_eq. intros j.
  destruct (decide (j < length data)%nat) as [Hj|Hj].
  2: { rewrite !lookup_ge_None_2; [done|..]; unfold repaired;
         rewrite ?length_fill, ?length_imap; lia. }
  unfold repaired. rewrite list_lookup_imap.
  destruct (lookup_lt_is_Some_2 data j Hj) as [o Ho]. rewrite Ho. simpl. destruct o as [x|].
  - rewrite fill_notin; [done|]. unfold missing. rewrite elem_of_missing.
    unfold is_missing. rewrite Ho. by intros [_ ?].
  - assert (j ∈ missing) as Hin.
    { apply elem_of_missing. unfold is_missing. by rewrite Ho. }
    apply list_elem_of_lookup in Hin as [c Hc].
    assert (c < m)%nat by (by eapply lookup_lt_Some).
    rewrite (fill_in _ _ _ c j); [|apply NoDup_missing|done|done|done].
    do 2 f_equal. apply bytes_eq; [by rewrite Hw, length_resize0|].
    intros k Hk. rewrite Hw in Hk by done. rewrite Hb, byte_at_resize0 by done.
    unfold unknown. by rewrite Hc.
Qed.

Lemma decode_cases :
  match decode data parity w with
  | Some data' => data' = repaired
  | None => (length parity < m)%nat \/ ~ coef_regular
  end.
Proof using HD Hcons Hpar.
  unfold decode. fold missing. fold m. destruct (Nat.eqb_spec m 0) as [H0|H0].
  { rewrite <- (fill_repaired []); [|done|lia|lia].
    unfold fill. apply length_zero_iff_nil in H0. by rewrite H0. }
  destruct (Nat.ltb_spec (length parity) m) as [Hlt|Hge]; [by left|].
  fold used. fold syn0 a0.
  pose proof (gauss_spec m w m 0 (a0, syn0) ltac:(lia) (initial_system Hge)) as HG.
  specialize (HG ltac:(intros r c Hr Hc; lia)).
  destruct (gauss m w (seq 0 m) (a0, syn0)) as [[a' syn']|] eqn:E; simpl.
  - destruct HG as ([_ HS] & HU & HX). cbn [fst snd] in *.
    apply fill_repaired; [by apply (length_rows _ _ _ HS)|intros; by apply (rows_of_row m w _ _ HS)|].
    apply (unit_solution m w (a', syn')); [done|apply unknown_width|].
    apply HX; [apply unknown_width|by apply initial_solves].
  - right. intros Hreg. apply HG. intros v Hv Hk. apply Hreg; [done|].
    intros pi Hpi. apply list_elem_of_fmap in Hpi as ([pi' par] & -> & Hin). simpl.
    apply list_elem_of_lookup in Hin as [r Hr].
    assert (r < m)%nat as Hrm.
    { apply lookup_lt_Some in Hr. rewrite length_used in Hr by done. done. }
    rewrite <- (Hk r Hrm). cbn [fst]. unfold rowdot. apply lsum_ext. intros c Hc.
    apply elem_of_seq in Hc. by rewrite (row_a0 r pi' par c Hr) by lia.
Qed.

(** Soundness of FEC recovery: for every number of fragments and
    parities, if [decode] reports success then every hole has been filled
    with the bytes of the lost fragment. *)
Theorem decode_sound data' : decode data parity w = Some data' -> data' = repaired.
Proof using HD Hcons Hpar. pose proof decode_cases as H. intros E. by rewrite E in H. Qed.

Lemma decode_complete :
  (m <= length parity)%nat -> coef_regular -> decode data parity w = Some repaired.
Proof using HD Hcons Hpar.
  pose proof decode_cases as H. intros Hm Hreg.
  destruct (decode data parity w); [by rewrite H|]. destruct H as [H|H]; [lia|done].
Qed.
End Decode.

(** ** Regularity of the coefficient matrix for three parities *)

Section Vandermonde.
Local Infix "⊕" := Z.lxor (at level 50, left associativity).
Local Infix "⊗" := gf_mul (at level 40, left associativity).

Lemma lxor_cancel a b : a ⊕ b = 0 <-> a = b.
Proof. split; [apply Z.lxor_eq|]. intros ->. apply Z.lxor_nilpotent. Qed.

Lemma sq_add u v : in_width 8 u -> in_width 8 v -> (u ⊕ v) ⊗ (u ⊕ v) = u ⊗ u ⊕ v ⊗ v.
Proof.
  intros. rewrite gf_mul_lxor_l, !gf_mul_lxor_r by auto with width.
  rewrite (gf_mul_comm v u). apply Z.bits_inj'. intros i Hi. rewrite !Z.lxor_spec. btauto.
Qed.

(** A nonzero factor can be dropped. *)
Lemma mul_diff_0 u v a : in_width 8 u -> in_width 8 v -> in_width 8 a -> u <> v ->
  u ⊗ a = v ⊗ a -> a = 0.
Proof.
  intros Hu Hv Ha Hne H. apply lxor_cancel in H. rewrite <- gf_mul_lxor_l in H by done.
  apply gf_mul_eq_0 in H; [|auto with width..]. destruct H as [H|]; [|done].
  by apply Z.lxor_eq in H.
Qed.

Section Two.
Context (x y a b : Z) (Hx : in_width 8 x) (Hy : in_width 8 y) (Ha : in_width 8 a)
  (Hb : in_width 8 b) (Hx0 : x <> 0) (Hy0 : y <> 0) (Hxy : x <> y).

Lemma rows_01 : a ⊕ b = 0 -> x ⊗ a ⊕ y ⊗ b = 0 -> a = 0 /\ b = 0.
Proof using Ha Hb Hx Hxy Hy.
  rewrite !lxor_cancel. intros -> H. by apply (mul_diff_0 x y b) in H.
Qed.

Lemma rows_02 : a ⊕ b = 0 -> x ⊗ x ⊗ a ⊕ y ⊗ y ⊗ b = 0 -> a = 0 /\ b = 0.
Proof using Ha Hb Hx Hxy Hy.
  rewrite !lxor_cancel. intros -> H. apply mul_diff_0 in H; [done|auto with width..|].
  intros E. apply lxor_cancel in E. rewrite <- sq_add in E by done.
  apply gf_mul_eq_0 in E; [|auto with width..]. apply Hxy, lxor_cancel. tauto.
Qed.

Lemma rows_12 : x ⊗ a ⊕ y ⊗ b = 0 -> x ⊗ x ⊗ a ⊕ y ⊗ y ⊗ b = 0 -> a = 0 /\ b = 0.
Proof using Ha Hb Hx Hxy Hy Hx0 Hy0.
  rewrite !lxor_cancel, <- !gf_mul_assoc by done. intros E1 E2. rewrite E1 in E2.
  apply mul_diff_0 in E2; [|auto with width..]. rewrite E2 in E1.
  apply gf_mul_eq_0 in E1; [|done..]. apply gf_mul_eq_0 in E2; [|done..]. tauto.
Qed.
End Two.

Lemma rows_012 x y z a b c :
  in_width 8 x -> in_width 8 y -> in_width 8 z -> in_width 8 a -> in_width 8 b -> in_width 8 c ->
  x <> y -> x <> z -> y <> z ->
  a ⊕ (b ⊕ c) = 0 -> x ⊗ a ⊕ (y ⊗ b ⊕ z ⊗ c) = 0 ->
  x ⊗ x ⊗ a ⊕ (y ⊗ y ⊗ b ⊕ z ⊗ z ⊗ c) = 0 -> a = 0 /\ b = 0 /\ c = 0.
Proof.
  intros Hx Hy Hz Ha Hb Hc Nxy Nxz Nyz E0 E1 E2.
  assert (c = a ⊕ b) as ->.
  { apply lxor_cancel. rewrite <- E0. apply Z.bits_inj'. intros i Hi. rewrite !Z.lxor_spec. btauto. }
  assert (forall u v t, in_width 8 u -> in_width 8 v -> in_width 8 t ->
    u ⊗ a ⊕ (v ⊗ b ⊕ t ⊗ (a ⊕ b)) = (u ⊕ t) ⊗ a ⊕ (v ⊕ t) ⊗ b) as Hexp.
  { intros. rewrite gf_mul_lxor_r, !gf_mul_lxor_l by auto with width.
    apply Z.bits_inj'. intros i Hi. rewrite !Z.lxor_spec. btauto. }
  rewrite Hexp in E1, E2 by auto with width. rewrite <- !sq_add in E2 by done.
  apply (rows_12 (x ⊕ z) (y ⊕ z)) in E2 as [-> ->]; auto with width.
  - intros E. by apply Z.lxor_eq in E.
  - intros E. by apply Z.lxor_eq in E.
  - intros E. apply Nxy. apply (f_equal (fun t => t ⊕ z)) in E.
    by rewrite !Z.lxor_assoc, Z.lxor_nilpotent, !Z.lxor_0_r in E.
Qed.

(** Coefficients of the first three parity rows. *)
Definition point (j : nat) : Z := Z.of_nat j + 1.

Lemma point_u8 j : (j < 255)%nat -> u8 (Z.of_nat j + 1) = point j /\ in_width 8 (point j) /\ point j <> 0.
Proof.
  intros Hj. assert (in_width 8 (point j)) by (unfold in_width, point; lia).
  split_and!; [by apply u8_id|done|unfold point; lia].
Qed.

Lemma coef_0 j : coef 0 j = 1. Proof. done. Qed.

Lemma coef_1 j : (j < 255)%nat -> coef 1 j = point j.
Proof.
  intros Hj. destruct (point_u8 j Hj) as (E & W & N). unfold coef. rewrite E.
  unfold gf_pow. simpl. rewrite (proj2 (Z.eqb_neq _ _) N), Z.mul_1_r.
  destruct (exp_log _ W N) as [EL L]. rewrite Z.rem_small by lia. done.
Qed.

Lemma coef_2 j : (j < 255)%nat -> coef 2 j = point j ⊗ point j.
Proof.
  intros Hj. destruct (point_u8 j Hj) as (E & W & N). unfold coef. rewrite E.
  unfold gf_pow, gf_mul. simpl (Z.of_nat 2 =? 0). cbv iota.
  rewrite (proj2 (Z.eqb_neq _ _) N). simpl.
  destruct (exp_log _ W N) as [EL L]. rewrite Z.rem_mod_nonneg by lia.
  replace (log (point j) * Z.of_nat 2) with (log (point j) + log (point j)) by lia.
  symmetry. apply exp_mod. lia.
Qed.

(** A duplicate-free list of numbers below three has at most three entries. *)
Lemma below_3 (ps : list nat) :
  NoDup ps -> (forall p, p ∈ ps -> (p < 3)%nat) -> (length ps <= 3)%nat.
Proof.
  intros Hnd Hp. assert (ps ⊆+ [0; 1; 2]%nat) as HS.
  { apply NoDup_submseteq; [done|]. intros p Hin. specialize (Hp p Hin).
    destruct p as [|[|[|p]]]; [set_solver..|lia]. }
  by apply submseteq_length in HS.
Qed.

(** Row [p] of the coefficient matrix at the point [x], for [p < 3]. *)
Definition cf (p : nat) (x : Z) : Z := match p with 0%nat => 1 | 1%nat => x | _ => x ⊗ x end.

Lemma coef_cf p j : (p < 3)%nat -> (j < 255)%nat -> coef p j = cf p (point j).
Proof.
  intros Hp Hj. destruct p as [|[|[|p]]]; [done|by apply coef_1|by apply coef_2|lia].
Qed.

Lemma regular_1 p x a : in_width 8 x -> in_width 8 a -> x <> 0 -> cf p x ⊗ a = 0 -> a = 0.
Proof.
  intros Hx Ha Nx. destruct p as [|[|p]]; simpl; intros H; [by rewrite gf_mul_1_l in H|..];
    repeat (apply gf_mul_eq_0 in H as [H|H]; [..|by auto with width|by auto with width]); done.
Qed.

Ltac simpl_rows := cbn [cf] in *; repeat match goal with
  H : context [1 ⊗ _] |- _ => rewrite !gf_mul_1_l in H by done end.

Lemma regular_2 p q x y a b :
  in_width 8 x -> in_width 8 y -> in_width 8 a -> in_width 8 b ->
  x <> 0 -> y <> 0 -> x <> y -> (p < 3)%nat -> (q < 3)%nat -> p <> q ->
  cf p x ⊗ a ⊕ cf p y ⊗ b = 0 -> cf q x ⊗ a ⊕ cf q y ⊗ b = 0 -> a = 0 /\ b = 0.
Proof.
  intros ??????? Hp Hq Hpq E1 E2.
  destruct p as [|[|[|p]]]; [..|lia]; destruct q as [|[|[|q]]]; try lia; simpl_rows;
    first [by apply (rows_01 x y)|by apply (rows_02 x y)|by apply (rows_12 x y)].
Qed.

Lemma regular_3 p q r x y z a b c :
  in_width 8 x -> in_width 8 y -> in_width 8 z ->
  in_width 8 a -> in_width 8 b -> in_width 8 c ->
  x <> y -> x <> z -> y <> z -> (p < 3)%nat -> (q < 3)%nat -> (r < 3)%nat ->
  p <> q -> p <> r -> q <> r ->
  (forall t, t ∈ [p; q; r] -> cf t x ⊗ a ⊕ (cf t y ⊗ b ⊕ cf t z ⊗ c) = 0) ->
  a = 0 /\ b = 0 /\ c = 0.
Proof.
  intros ????????? Hp Hq Hr Hpq Hpr Hqr E.
  assert (forall t, (t < 3)%nat -> t ∈ [p; q; r]) as Hin.
  { intros t Ht. rewrite !elem_of_cons. lia. }
  pose proof (E _ (Hin 0%nat ltac:(lia))) as E0. pose proof (E _ (Hin 1%nat ltac:(lia))) as E1.
  pose proof (E _ (Hin 2%nat ltac:(lia))) as E2. clear E. simpl_rows. by apply (rows_012 x y z).
Qed.

(** Any rows among the first three, as many as there are columns. *)
Lemma regular_rows (ps js : list nat) (v : nat -> Z) :
  NoDup ps -> (forall p, p ∈ ps -> (p < 3)%nat) -> length ps = length js ->
  (forall c, in_width 8 (v c)) -> (forall j, j ∈ js -> (j < 255)%nat) -> NoDup js ->
  (forall p, p ∈ ps ->
    lsum (seq 0 (length js)) (fun c => coef p (default 0%nat (js !! c)) ⊗ v c) = 0) ->
  forall c, (c < length js)%nat -> v c = 0.
Proof.
  intros Hnd Hp Hl Hv Hlt Hjs H c Hc. pose proof (below_3 ps Hnd Hp) as Hle.
  assert (forall p, p ∈ ps -> lsum (seq 0 (length js))
    (fun c => cf p (point (default 0%nat (js !! c))) ⊗ v c) = 0) as H'.
  { intros p Hin. rewrite <- (H p Hin). apply lsum_ext. intros c' Hc'. apply elem_of_seq in Hc'.
    destruct (lookup_lt_is_Some_2 js c') as [j Hj]; [lia|]. rewrite Hj. simpl.
    rewrite coef_cf; [done|by apply Hp|]. apply Hlt, list_elem_of_lookup. eauto. }
  assert (forall i j, i <> j -> point i <> point j) as Hpt by (unfold point; lia).
  assert (forall j, j ∈ js -> in_width 8 (point j) /\ point j <> 0) as Hw.
  { intros j Hj. apply Hlt in Hj. by destruct (point_u8 j Hj) as (_ & ? & ?). }
  clear H Hlt.
  destruct js as [|i [|j [|k [|? ?]]]]; destruct ps as [|p [|q [|r [|? ?]]]];
    simpl in Hl, Hc, Hle; try lia; simpl in H'; rewrite ?NoDup_cons in Hnd, Hjs.
  - assert (c = 0%nat) as -> by lia. specialize (H' p ltac:(set_solver)).
    rewrite Z.lxor_0_r in H'. destruct (Hw i ltac:(set_solver)). by eapply regular_1.
  - destruct (Hw i ltac:(set_solver)), (Hw j ltac:(set_solver)).
    pose proof (H' p ltac:(set_solver)) as E1. pose proof (H' q ltac:(set_solver)) as E2.
    rewrite Z.lxor_0_r in E1, E2.
    destruct (regular_2 p q (point i) (point j) (v 0%nat) (v 1%nat)) as [? ?]; auto.
    1: apply Hpt; set_solver. 1,2: apply Hp; set_solver. 1: set_solver.
    by destruct c as [|[|c]]; [| |lia].
  - destruct (Hw i ltac:(set_solver)), (Hw j ltac:(set_solver)), (Hw k ltac:(set_solver)).
    destruct (regular_3 p q r (point i) (point j) (point k) (v 0%nat) (v 1%nat) (v 2%nat))
      as (? & ? & ?); auto.
    1-3: apply Hpt; set_solver. 1-3: apply Hp; set_solver. 1-3: set_solver.
    { intros t Ht. rewrite <- (H' t Ht). by rewrite Z.lxor_0_r. }
    by destruct c as [|[|[|c]]]; [| | |lia].
Qed.
End Vandermonde.

Lemma coef_regular_3 data parity :
  (length data <= 255)%nat -> NoDup parity.*1 -> (forall p, p ∈ parity.*1 -> (p < 3)%nat) ->
  (length (missing_indices data) <= length parity)%nat ->
  coef_regular data parity.
Proof.
  intros Hn Hnd Hp Hm v Hv H.
  assert (sublist (take (length (missing_indices data)) parity).*1 parity.*1) as Hsub
    by (rewrite fmap_take; apply sublist_take).
  eapply regular_rows; [..|exact Hv| |apply NoDup_missing|exact H].
  - by eapply sublist_NoDup.
  - intros p Hin. apply Hp. eapply elem_of_submseteq; [exact Hin|]. by apply sublist_submseteq.
  - rewrite length_fmap, length_take. lia.
  - intros j Hj. apply elem_of_missing in Hj. lia.
Qed.

(** C13. Completeness of FEC recovery as the fragmenter uses it (at most three
    parities, at most 255 data fragments): any set of lost fragments no
    larger than the number of parities that arrived is recovered. *)
Theorem decode_recovers D data parity w :
  frags_ok D -> (length data <= 255)%nat -> consistent D data w -> parities_of D parity w ->
  NoDup parity.*1 -> (forall p, p ∈ parity.*1 -> (p < 3)%nat) ->
  (length (missing_indices data) <= length parity)%nat ->
  decode data parity w = Some (repaired D data w).
Proof. intros. apply decode_complete; [done..|]. by apply coef_regular_3. Qed.

(** ** Shape of a successful decoding, whatever the bytes received *)

Lemma gauss_step_length m w st col st' :
  gauss_step m w st col = Some st' -> length st'.2 = length st.2.
Proof.
  unfold gauss_step. intros H. apply bind_Some in H as (pv & _ & [= <-]).
  destruct st as [a syn]. unfold swap_pivot. case_match; simpl; rewrite length_imap, length_insert; [done|].
  unfold swap_rows. by rewrite !length_insert.
Qed.

Lemma gauss_length m w cols st st' : gauss m w cols st = Some st' -> length st'.2 = length st.2.
Proof.
  revert st. induction cols as [|col cols IH]; intros st; simpl; [by intros [= <-]|].
  intros H. apply bind_Some in H as (st1 & H1 & H). apply IH in H. rewrite H.
  by eapply gauss_step_length.
Qed.

Lemma decode_fills data parity w data' :
  decode data parity w = Some data' ->
  length data' = length data /\ forall j, (j < length data)%nat -> exists b, data' !! j = Some (Some b).
Proof.
  unfold decode. set (missing := missing_indices data).
  assert (forall j, (j < length data)%nat -> j ∉ missing -> exists b, data !! j = Some (Some b)) as Hpres.
  { intros j Hj Hn. destruct (lookup_lt_is_Some_2 data j Hj) as [o Ho].
    destruct o as [b|]; [by exists b|]. exfalso. apply Hn, elem_of_missing. split; [done|].
    unfold is_missing. by rewrite Ho. }
  destruct (Nat.eqb_spec (length missing) 0) as [H0|H0].
  { intros [= <-]. split; [done|]. intros j Hj. apply Hpres; [done|].
    apply nil_length_inv in H0. rewrite H0. set_solver. }
  destruct (Nat.ltb_spec (length parity) (length missing)) as [|Hge]; [done|].
  intros H. apply bind_Some in H as ([a' syn'] & HG & [= <-]).
  apply gauss_length in HG. simpl in HG. rewrite length_fmap, length_take in HG.
  fold (fill data missing syn'). split; [apply length_fill|]. intros j Hj.
  destruct (decide (j ∈ missing)) as [Hin|Hnin].
  - apply list_elem_of_lookup in Hin as [c Hc]. pose proof (lookup_lt_Some _ _ _ Hc).
    eexists. apply (fill_in _ _ _ c); [apply NoDup_missing|lia|done|done].
  - rewrite fill_notin by done. by apply Hpres.
Qed.

(** ** A concrete stream *)

Lemma encode_parities D pc w :
  frags_ok D -> parities_of D (imap pair (encode D pc w)) w.
Proof.
  intros HD pi par Hin. apply list_elem_of_lookup in Hin as [p Hp].
  rewrite list_lookup_imap in Hp. destruct (encode D pc w !! p) as [r|] eqn:E; [|done].
  simplify_eq/=. assert (pi < pc)%nat as Hlt.
  { apply lookup_lt_Some in E. unfold encode in E. rewrite length_encode_into in E. simpl in E. lia. }
  assert (par = row_at (encode D pc w) pi) as -> by (unfold row_at; by rewrite E).
  unfold encode. rewrite encode_into_row by done. split; [apply encode_row_ok; [done|apply bytes_ok_nil]|].
  intros k Hk. by apply encode_row_spec.
Qed.

Definition demo_frags : list bytes := [[1; 2]; [3; 4]; [5]].
Definition demo_table : list (option bytes) := [None; Some [3; 4]; None].
Definition demo_parity : list (nat * bytes) := imap pair (encode demo_frags 3 2).

Lemma demo_frags_ok : frags_ok demo_frags.
Proof. repeat constructor; unfold in_width; lia. Qed.

Lemma demo_consistent : consistent demo_frags demo_table 2.
Proof.
  split; [done|]. intros [|[|[|j]]] x E; simplify_eq/=.
  split; [|by intros [|[|k]] Hk; [..|lia]]. repeat constructor; unfold in_width; lia.
Qed.

Lemma decode_sound_witness :
  [Some [1; 2]; Some [3; 4]; Some [5; 0]] = repaired demo_frags demo_table 2.
Proof.
  apply (decode_sound demo_frags demo_table demo_parity 2);
    [apply demo_frags_ok|apply demo_consistent|apply encode_parities, demo_frags_ok|].
  vm_compute. reflexivity.
Defined.

Lemma decode_recovers_witness :
  decode demo_table (drop 1 demo_parity) 2 = Some (repaired demo_frags demo_table 2).
Proof.
  apply decode_recovers;
    [apply demo_frags_ok|simpl; lia|apply demo_consistent| | | |vm_compute; lia].
  - intros pi par Hin. apply (encode_parities demo_frags 3 2 demo_frags_ok).
    eapply elem_of_submseteq; [exact Hin|]. apply submseteq_drop.
  - apply (bool_decide_unpack _). vm_compute. done.
  - apply Forall_forall. apply (bool_decide_unpack _). vm_compute. done.
Defined.

(** A limit of the code: with parity rows 0 and 3 the loss of fragments 6
    and 23 is not repaired although two parities are present, because the cube
    is not injective on the field; the decoder reports failure. *)
Theorem decode_rows_0_3_singular data par0 par3 w :
  missing_indices data = [6; 23]%nat -> decode data [(0%nat, par0); (3%nat, par3)] w = None.
Proof.
  intros H. unfold decode. rewrite H. cbn [length Nat.eqb Nat.ltb Nat.leb take fmap list_fmap].
  generalize (syndrome data 0 par0 w), (syndrome data 3 par3 w). intros s0 s3.
  vm_compute. reflexivity.
Qed.

Lemma decode_rows_0_3_singular_witness :
  decode (imap (fun k x => if (k =? 6)%nat || (k =? 23)%nat then None else Some x)
            (replicate 30 [7]))
    [(0%nat, encode_row (replicate 30 [7]) 0 1 []); (3%nat, encode_row (replicate 30 [7]) 3 1 [])] 1
  = None.
Proof. apply decode_rows_0_3_singular. reflexivity. Defined.

End ReedSolomon.
