(* ===== verification/Float64.v ===== *)
(** * IEEE 754 binary64 arithmetic

    The [double] computations of the program (parity sizing, late-packet
    thresholds, bandwidth control, token buckets), through the specification
    floats of the standard library: every operation is correctly rounded to
    nearest even, as the C++ ones are on the supported targets. *)
From stdpp Require Import base list numbers option.
From Stdlib Require Import ZArith Lia Floats.SpecFloat.
From S2P Require Import Prelude.

Local Open Scope Z_scope.

Module F64.

Definition double : Type := spec_float.

Definition prec : Z := 53.
Definition emax : Z := 1024.

Definition add : double -> double -> double := SFadd prec emax.
Definition sub : double -> double -> double := SFsub prec emax.
Definition mul : double -> double -> double := SFmul prec emax.
Definition div : double -> double -> double := SFdiv prec emax.
Definition opp : double -> double := SFopp.
Definition ltb : double -> double -> bool := SFltb.
Definition leb : double -> double -> bool := SFleb.

(** [static_cast<double>] of an integer. *)
Definition of_Z (n : Z) : double := binary_normalize prec emax n 0 false.

Definition zero : double := S754_zero false.

(** A decimal literal [n / d]: the nearest double. *)
Definition lit (n d : Z) : double := div (of_Z n) (of_Z d).

Definition is_finite (f : double) : bool :=
  match f with S754_zero _ | S754_finite _ _ _ => true | _ => false end.

(** Magnitude [m * 2^e], rounded towards zero. *)
Definition mag_floor (m : positive) (e : Z) : Z := Z.shiftl (Z.pos m) e.
Definition mag_ceil (m : positive) (e : Z) : Z :=
  let q := mag_floor m e in
  if 0 <=? e then q else if Z.shiftl q (- e) =? Z.pos m then q else q + 1.

(** Integer part; undefined on infinities and NaN. *)
Definition trunc (f : double) : res Z :=
  match f with
  | S754_zero _ => Ok 0
  | S754_finite s m e => Ok (if s then - mag_floor m e else mag_floor m e)
  | _ => Fault BadCast
  end.

(** [std::ceil]: the value as a double again. *)
Definition ceil (f : double) : double :=
  match f with
  | S754_finite false m e => of_Z (mag_ceil m e)
  | S754_finite true m e =>
      let q := mag_floor m e in if q =? 0 then S754_zero true else of_Z (- q)
  | _ => f
  end.

(** Conversions to an unsigned integer of [w] bits: undefined when the
    integer part does not fit. *)
Definition cast_unsigned (w : Z) (f : double) : res Z :=
  n ← trunc f; if bool_decide (in_width w n) then Ok n else Fault BadCast.

Definition cast_u16 : double -> res Z := cast_unsigned 16.
Definition cast_u32 : double -> res Z := cast_unsigned 32.
Definition cast_u64 : double -> res Z := cast_unsigned 64.

Lemma cast_unsigned_width w f n : cast_unsigned w f = Ok n -> in_width w n.
Proof.
  unfold cast_unsigned. intros H. inv_bind H. by case_bool_decide; simplify_eq.
Qed.

Definition fmax (a b : double) : double := if ltb a b then b else a.
Definition fmin (a b : double) : double := if ltb b a then b else a.

End F64.
