(* ===== verification/FloatBounds.v ===== *)
(** * Sign and size of double computations

    Non-negative doubles in canonical form are closed under addition,
    multiplication, division and a subtraction that does not go below zero, and
    their integer parts are bounded by their exponents. *)
From stdpp Require Import base list numbers option.
From Stdlib Require Import ZArith Lia Floats.SpecFloat.
From S2P Require Import Prelude Float64.

Local Open Scope Z_scope.

Module FloatBounds.
Import F64.

Local Notation fe := (fexp prec emax).

Lemma fe_eq e : fe e = Z.max (e - 53) (-1074).
Proof. reflexivity. Qed.

(** ** Digits *)

Lemma digits_bounds p : 2 ^ (Z.pos (digits2_pos p) - 1) <= Z.pos p < 2 ^ Z.pos (digits2_pos p).
Proof.
  induction p as [p IH|p IH|]; cbn [digits2_pos]; [| |done].
  - rewrite Pos2Z.inj_succ. replace (Z.succ (Z.pos (digits2_pos p)) - 1) with (Z.succ (Z.pos (digits2_pos p) - 1)) by lia.
    rewrite !Z.pow_succ_r by lia. lia.
  - rewrite Pos2Z.inj_succ. replace (Z.succ (Z.pos (digits2_pos p)) - 1) with (Z.succ (Z.pos (digits2_pos p) - 1)) by lia.
    rewrite !Z.pow_succ_r by lia. lia.
Qed.

Lemma Zdigits_nonneg m : 0 <= Zdigits2 m.
Proof. destruct m; cbn; lia. Qed.

Lemma Zdigits_upper m : 0 <= m -> m < 2 ^ Zdigits2 m.
Proof. destruct m as [|p|p]; [done| |lia]. intros _. apply digits_bounds. Qed.

Lemma Zdigits_lower m : 0 < m -> 2 ^ (Zdigits2 m - 1) <= m.
Proof. destruct m as [|p|p]; [lia| |lia]. intros _. apply digits_bounds. Qed.

(** Digits from bounds. *)
Lemma Zdigits_le m k : 0 <= m -> 0 <= k -> m < 2 ^ k -> Zdigits2 m <= k.
Proof.
  intros Hm Hk H. destruct (Z.eq_dec m 0) as [->|Hne]; [done|]. pose proof (Zdigits_lower m ltac:(lia)) as L.
  destruct (Z_le_gt_dec (Zdigits2 m) k) as [|Hg]; [done|]. assert (2 ^ k <= 2 ^ (Zdigits2 m - 1)) by (apply Z.pow_le_mono_r; lia). lia.
Qed.
Lemma Zdigits_ge m k : 0 <= k -> 2 ^ k <= m -> k < Zdigits2 m.
Proof.
  intros Hk H. assert (0 < 2 ^ k) by (apply Z.pow_pos_nonneg; lia). pose proof (Zdigits_upper m ltac:(lia)) as U.
  destruct (Z_le_gt_dec (Zdigits2 m) k) as [Hg|]; [|lia]. assert (2 ^ Zdigits2 m <= 2 ^ k) by (apply Z.pow_le_mono_r; lia). lia.
Qed.

(** ** Shifting *)

Lemma shr_1_m r : 0 <= shr_m r -> shr_m (shr_1 r) = shr_m r / 2.
Proof.
  destruct r as [m g s]. cbn. destruct m as [|p|p]; [done| |lia]. intros _. destruct p; cbn -[Z.div]; [| |done].
  - rewrite <- (Z.div_unique (Z.pos p~1) 2 (Z.pos p) 1); lia.
  - rewrite <- (Z.div_unique (Z.pos p~0) 2 (Z.pos p) 0); lia.
Qed.

Lemma iter_shr p : forall r, 0 <= shr_m r -> shr_m (iter_pos shr_1 p r) = shr_m r / 2 ^ Z.pos p.
Proof.
  assert (forall m k, 0 <= m -> 0 <= m / 2 ^ Z.pos k) as Hn by (intros; apply Z.div_pos; lia).
  induction p as [p IH|p IH|]; intros r Hr; cbn [iter_pos].
  - assert (0 <= shr_m (shr_1 r)) as H1 by (rewrite shr_1_m by done; apply Z.div_pos; lia).
    rewrite IH; rewrite IH by done; [|by apply Hn]. rewrite shr_1_m by done.
    rewrite !Z.div_div by lia. f_equal. replace (Z.pos p~1) with (1 + Z.pos p + Z.pos p) by lia. rewrite !Z.pow_add_r by lia. lia.
  - rewrite IH; rewrite IH by done; [|by apply Hn]. rewrite Z.div_div by lia. f_equal.
    replace (Z.pos p~0) with (Z.pos p + Z.pos p) by lia. rewrite Z.pow_add_r by lia. lia.
  - by rewrite shr_1_m.
Qed.

Lemma shr_record_m m l : shr_m (shr_record_of_loc m l) = m.
Proof. by destruct l as [|[]]. Qed.

Lemma shr_fexp_spec m e l r e' : 0 <= m -> shr_fexp prec emax m e l = (r, e') ->
  let n := Z.max 0 (fe (Zdigits2 m + e) - e) in e' = e + n /\ shr_m r = m / 2 ^ n.
Proof.
  intros Hm. unfold shr_fexp, shr. cbv zeta. destruct (fe (Zdigits2 m + e) - e) as [|p|p] eqn:En; intros [= <- <-]; cbn [Z.max].
  - rewrite shr_record_m, Z.div_1_r. lia.
  - rewrite iter_shr; rewrite shr_record_m; [|done]. done.
  - rewrite shr_record_m, Z.div_1_r. lia.
Qed.

Lemma round_even_bounds m l : 0 <= m -> m <= round_nearest_even m l <= m + 1.
Proof. intros Hm. unfold round_nearest_even. destruct l as [|[]]; try lia. destruct (Z.even m); lia. Qed.

(** ** Rounding *)

Definition canonical (m : positive) (e : Z) : Prop := fe (Z.pos (digits2_pos m) + e) = e.

(** Non-negative, and canonical when finite. *)
Definition fine (f : double) : Prop :=
  match f with
  | S754_zero _ => True
  | S754_finite false m e => canonical m e
  | S754_infinity false => True
  | _ => False
  end.

Lemma canonical_bounds m e : canonical m e -> Z.pos m < 2 ^ 53 /\ -1074 <= e /\ (-1074 < e -> 2 ^ 52 <= Z.pos m).
Proof.
  unfold canonical. rewrite fe_eq. intros H. pose proof (digits_bounds m) as [L U]. split_and!.
  - eapply Z.lt_le_trans; [exact U|]. apply Z.pow_le_mono_r; lia.
  - lia.
  - intros He. replace (Z.pos (digits2_pos m)) with 53 in L by lia. exact L.
Qed.

(** The mantissa after the first shift. *)
Lemma first_shift m e l r e' : 0 <= m -> e <= fe (Zdigits2 m + e) -> shr_fexp prec emax m e l = (r, e') ->
  e' = fe (Zdigits2 m + e) /\ 0 <= shr_m r < 2 ^ 53 /\ (-1074 < e' -> 0 < m -> 2 ^ 52 <= shr_m r).
Proof.
  intros Hm He E. destruct (shr_fexp_spec m e l r e' Hm E) as [E1 E2]. rewrite Z.max_r in E1, E2 by lia.
  set (d := Zdigits2 m) in *. assert (e' = fe (d + e)) as -> by lia. split; [done|]. rewrite E2. rewrite fe_eq in *.
  set (n := Z.max (d + e - 53) (-1074) - e) in *. assert (0 < 2 ^ n) by (apply Z.pow_pos_nonneg; lia).
  pose proof (Zdigits_nonneg m). pose proof (Zdigits_upper m Hm) as U. fold d in U, H0. split.
  - split; [apply Z.div_pos; lia|]. apply Z.div_lt_upper_bound; [lia|]. eapply Z.lt_le_trans; [exact U|].
    rewrite <- Z.pow_add_r by lia. apply Z.pow_le_mono_r; lia.
  - intros Hgt Hpos. pose proof (Zdigits_lower m Hpos) as L. fold d in L. apply Z.div_le_lower_bound; [lia|].
    rewrite <- Z.pow_add_r by lia. replace (n + 52) with (d - 1) by lia. exact L.
Qed.

(** Rounding to a canonical double; how large the result can be. *)
Lemma round_fine m e l : 0 <= m -> e <= fe (Zdigits2 m + e) ->
  match binary_round_aux prec emax false m e l with
  | S754_zero _ => True
  | S754_finite false m' e' => canonical m' e' /\ e' <= fe (Zdigits2 m + e) + 1
  | S754_infinity false => 971 <= fe (Zdigits2 m + e)
  | _ => False
  end.
Proof.
  intros Hm He. unfold binary_round_aux. destruct (shr_fexp prec emax m e l) as [r e1] eqn:E1.
  destruct (first_shift m e l r e1 Hm He E1) as (Ee & Hr & Hbig).
  pose proof (round_even_bounds (shr_m r) (loc_of_shr_record r) ltac:(lia)) as Hrd.
  set (m1 := round_nearest_even _ _) in *. destruct (shr_fexp prec emax m1 e1 loc_Exact) as [r2 e2] eqn:E2.
  destruct (shr_fexp_spec m1 e1 _ r2 e2 ltac:(lia) E2) as [F1 F2].
  assert (-1074 <= e1) as He1 by (rewrite Ee, fe_eq; lia).
  assert (0 <= shr_m r2) as H0 by (rewrite F2; apply Z.div_pos; [lia|]; apply Z.pow_pos_nonneg; lia).
  destruct (shr_m r2) as [|p|p] eqn:Ep; [done| |lia].
  enough (canonical p e2 /\ e2 <= e1 + 1) as [? ?].
  { destruct (Z.leb_spec e2 (emax - prec)) as [_|Hg]; [split; [done|]|]; rewrite <- Ee; [lia|]. change (emax - prec) with 971 in Hg. lia. }
  unfold canonical. rewrite !fe_eq in *. destruct (Z.eq_dec m1 (2 ^ 53)) as [Em|Em].
  - rewrite Em in F1, F2. replace (Zdigits2 (2 ^ 53)) with 54 in F1, F2 by reflexivity.
    replace (Z.max 0 _) with 1 in F1, F2 by lia. assert (Z.pos p = 2 ^ 52) as Hp by (rewrite F2; reflexivity).
    assert (Z.pos (digits2_pos p) = 53) as -> by (injection Hp as ->; reflexivity). lia.
  - assert (Zdigits2 m1 <= 53) as Hd by (apply Zdigits_le; lia). replace (Z.max 0 _) with 0 in F1, F2 by lia.
    rewrite Z.div_1_r in F2. change (Z.pos (digits2_pos p)) with (Zdigits2 (Z.pos p)). rewrite F2.
    destruct (Z_lt_ge_dec (-1074) e1) as [Hl|Hg]; [|lia].
    assert (0 < m) as Hpos. { destruct (Z.eq_dec m 0) as [->|]; [|lia]. change (Zdigits2 0) with 0 in *. lia. }
    specialize (Hbig Hl Hpos). pose proof (Zdigits_ge m1 52 ltac:(lia) ltac:(lia)). lia.
Qed.

Lemma round_fine' m e l : 0 <= m -> e <= fe (Zdigits2 m + e) -> fine (binary_round_aux prec emax false m e l).
Proof. intros Hm He. pose proof (round_fine m e l Hm He) as H. destruct (binary_round_aux _ _ _ _ _ _) as [|[]| |[]]; cbn; tauto. Qed.

Lemma digits_shift m d : Z.pos (digits2_pos (Pos.iter xO m d)) = Z.pos (digits2_pos m) + Z.pos d /\
  Z.pos (Pos.iter xO m d) = Z.pos m * 2 ^ Z.pos d.
Proof.
  induction d as [|d [IH1 IH2]] using Pos.peano_ind; [cbn; lia|]. rewrite Pos.iter_succ. cbn [digits2_pos].
  rewrite !Pos2Z.inj_succ, Z.pow_succ_r, IH1 by lia. split; [lia|]. rewrite Pos2Z.inj_xO, IH2. lia.
Qed.

(** Aligning a mantissa to a smaller exponent. *)
Lemma align_spec m e e' : e' <= e -> Z.pos (fst (shl_align m e e')) = Z.pos m * 2 ^ (e - e') /\
  Z.pos (digits2_pos (fst (shl_align m e e'))) = Z.pos (digits2_pos m) + (e - e') /\ snd (shl_align m e e') = e'.
Proof.
  intros He. unfold shl_align. destruct (e' - e) as [|p|p] eqn:E; cbn [fst snd].
  - replace (e - e') with 0 by lia. rewrite Z.mul_1_r. lia.
  - lia.
  - replace (e - e') with (Z.pos p) by lia. destruct (digits_shift m p) as [-> ->]. lia.
Qed.

Lemma round_pos m e :
  match binary_round prec emax false m e with
  | S754_zero _ => True
  | S754_finite false m' e' => canonical m' e' /\ e' <= fe (Z.pos (digits2_pos m) + e) + 1
  | S754_infinity false => 971 <= fe (Z.pos (digits2_pos m) + e)
  | _ => False
  end.
Proof.
  unfold binary_round. set (f := fe (Z.pos (digits2_pos m) + e)).
  destruct (shl_align m e f) as [mz ez] eqn:Ea.
  assert (ez <= f /\ Z.pos (digits2_pos mz) + ez = Z.pos (digits2_pos m) + e) as [H1 H2].
  { destruct (Z_le_gt_dec f e) as [Hle|Hgt].
    - destruct (align_spec m e f Hle) as (_ & D & S). rewrite Ea in D, S. cbn in D, S. lia.
    - unfold shl_align in Ea. destruct (f - e) as [|p|p] eqn:Ed; injection Ea as <- <-; lia. }
  pose proof (round_fine (Z.pos mz) ez loc_Exact ltac:(lia)) as H. cbn [Zdigits2] in H. rewrite H2 in H. fold f in H. exact (H H1).
Qed.

(** ** Operations *)

Lemma round_pos_fine m e : fine (binary_round prec emax false m e).
Proof. pose proof (round_pos m e) as H. destruct (binary_round _ _ _ _ _) as [|[]| |[]]; cbn; tauto. Qed.

Lemma fine_of_Z n : 0 <= n -> fine (of_Z n).
Proof. intros Hn. unfold of_Z, binary_normalize. destruct n; [exact I|apply round_pos_fine|lia]. Qed.

Lemma fine_add x y : fine x -> fine y -> fine (add x y).
Proof.
  destruct x as [sx|[]| |[] mx ex], y as [sy|[]| |[] my ey]; cbn [fine]; try done; intros Hx Hy; try exact I; try done.
  - by destruct sx, sy.
  - cbn [add SFadd]. unfold add, SFadd, cond_Zopp, binary_normalize. cbv zeta. apply round_pos_fine.
Qed.

Lemma mul_digits p q : Z.pos (digits2_pos p) + Z.pos (digits2_pos q) - 1 <= Z.pos (digits2_pos (p * q)).
Proof.
  pose proof (digits_bounds p) as [L1 _]. pose proof (digits_bounds q) as [L2 _].
  assert (Z.pos (digits2_pos p) + Z.pos (digits2_pos q) - 2 < Zdigits2 (Z.pos (p * q))) as H; [|cbn in H; lia].
  apply Zdigits_ge; [lia|]. rewrite Pos2Z.inj_mul.
  replace (Z.pos (digits2_pos p) + Z.pos (digits2_pos q) - 2) with (Z.pos (digits2_pos p) - 1 + (Z.pos (digits2_pos q) - 1)) by lia.
  rewrite Z.pow_add_r by lia. apply Z.mul_le_mono_nonneg; [apply Z.pow_nonneg; lia|exact L1|apply Z.pow_nonneg; lia|exact L2].
Qed.

Lemma fine_mul x my ey : fine x -> canonical my ey -> fine (mul x (S754_finite false my ey)).
Proof.
  destruct x as [sx|[]| |[] mx ex]; cbn [fine]; try done. intros Hx Hy. unfold mul, SFmul. cbn [xorb]. apply round_fine'; [lia|].
  cbn [Zdigits2]. pose proof (mul_digits mx my). unfold canonical in *. rewrite fe_eq in *. lia.
Qed.

Lemma fine_div x my ey : fine x -> fine (div x (S754_finite false my ey)).
Proof.
  destruct x as [sx|[]| |[] mx ex]; cbn [fine]; try done. intros Hx. unfold div, SFdiv, SFdiv_core_binary. cbv zeta. cbn [Zdigits2].
  set (d1 := Z.pos (digits2_pos mx)). set (d2 := Z.pos (digits2_pos my)).
  set (e' := Z.min _ _). set (s := ex - ey - e').
  assert (0 <= s) as Hs by (unfold s, e'; lia).
  assert (match s with 0 => Z.pos mx | Z.pos _ => Z.shiftl (Z.pos mx) s | Z.neg _ => 0 end = Z.pos mx * 2 ^ s) as ->.
  { destruct s; [lia|by rewrite Z.shiftl_mul_pow2|lia]. }
  pose proof (Z.div_eucl_eq (Z.pos mx * 2 ^ s) (Z.pos my) ltac:(done)) as _.
  assert (Z.div_eucl (Z.pos mx * 2 ^ s) (Z.pos my) = (Z.pos mx * 2 ^ s / Z.pos my, Z.pos mx * 2 ^ s mod Z.pos my)) as ->.
  { unfold Z.div, Z.modulo. by destruct (Z.div_eucl _ _). }
  assert (0 < 2 ^ s) by (apply Z.pow_pos_nonneg; lia). cbn [xorb].
  set (q := Z.pos mx * 2 ^ s / Z.pos my). assert (0 <= q) as Hq by (apply Z.div_pos; lia).
  apply round_fine'; [exact Hq|].
  assert (d1 + s - d2 <= Zdigits2 q) as Hd.
  { destruct (Z_le_gt_dec (d1 + s - d2) 0) as [|Hg]; [pose proof (Zdigits_nonneg q); lia|].
    assert (d1 + s - d2 - 1 < Zdigits2 q); [|lia]. apply Zdigits_ge; [lia|]. unfold q. apply Z.div_le_lower_bound; [lia|].
    pose proof (digits_bounds mx) as [L1 _]. pose proof (digits_bounds my) as [_ U2]. fold d1 in L1. fold d2 in U2.
    etrans; [apply Z.mul_le_mono_nonneg_r; [apply Z.pow_nonneg; lia|apply Z.lt_le_incl, U2]|].
    rewrite <- Z.pow_add_r by (unfold d2; lia). replace (d2 + (d1 + s - d2 - 1)) with (d1 - 1 + s) by lia.
    rewrite Z.pow_add_r by (unfold d1; lia). apply Z.mul_le_mono_nonneg_r; [lia|exact L1]. }
  assert (e' <= fe (d1 + ex - (d2 + ey))) as He by (unfold e'; lia). rewrite fe_eq in *. unfold s in Hd. lia.
Qed.

(** No infinity, and an exponent of at most [k]. *)
Definition small (k : Z) (f : double) : Prop :=
  match f with S754_finite _ _ e => e <= k | S754_infinity _ => False | _ => True end.

Lemma not_above x mc ec : fine x -> ltb (S754_finite false mc ec) x = false -> small ec x.
Proof.
  destruct x as [sx|[]| |[] mx ex]; cbn [fine]; try done. intros _. unfold ltb, SFltb, SFcompare.
  destruct (Z.compare_spec ec ex) as [->|H|H]; cbn; [lia|done|lia].
Qed.

Lemma pos_compare_ge m1 m2 : (match Pos.compare_cont Eq m1 m2 with Lt => true | _ => false end) = false -> (m2 <= m1)%positive.
Proof. change (Pos.compare_cont Eq m1 m2) with (Pos.compare m1 m2). destruct (Pos.compare_spec m1 m2); try done; lia. Qed.

(** The mantissas of two doubles at a common exponent. *)
Lemma aligned_le mx ex my ey : canonical mx ex -> canonical my ey ->
  ltb (S754_finite false mx ex) (S754_finite false my ey) = false ->
  Z.pos (fst (shl_align my ey (Z.min ex ey))) <= Z.pos (fst (shl_align mx ex (Z.min ex ey))).
Proof.
  intros Hx Hy Hlt. unfold ltb, SFltb, SFcompare in Hlt. set (ez := Z.min ex ey).
  destruct (align_spec mx ex ez ltac:(unfold ez; lia)) as (A1 & _). destruct (align_spec my ey ez ltac:(unfold ez; lia)) as (B1 & _).
  destruct (canonical_bounds _ _ Hx) as (_ & _ & Nx). destruct (canonical_bounds _ _ Hy) as (Uy & Ly & _).
  rewrite A1, B1. destruct (Z.compare_spec ex ey) as [Ee|Ee|Ee]; [|done|].
  - subst ey. apply pos_compare_ge in Hlt. apply Z.mul_le_mono_nonneg_r; [apply Z.pow_nonneg; unfold ez; lia|lia].
  - replace ez with ey by (unfold ez; lia). rewrite Z.sub_diag, Z.pow_0_r, Z.mul_1_r.
    assert (2 ^ 1 <= 2 ^ (ex - ey)) by (apply Z.pow_le_mono_r; lia). specialize (Nx ltac:(lia)). nia.
Qed.

(** A difference that is not negative. *)
Lemma fine_sub k x y : k <= 10 -> fine x -> fine y -> small k x -> ltb x y = false -> fine (sub x y) /\ small (k + 1) (sub x y).
Proof.
  intros Hk10. destruct x as [sx|[]| |[] mx ex], y as [sy|[]| |[] my ey]; cbn [fine small]; try done; intros Hx Hy Hk Hlt; try done.
  - by destruct sx, sy.
  - split; [done|]. cbn. lia.
  - unfold sub, SFsub, cond_Zopp. cbv zeta.
    set (ez := Z.min ex ey).
    destruct (align_spec mx ex ez ltac:(unfold ez; lia)) as (A1 & A2 & _). destruct (align_spec my ey ez ltac:(unfold ez; lia)) as (B1 & B2 & _).
    destruct (canonical_bounds _ _ Hx) as (Ux & Lx & Nx). destruct (canonical_bounds _ _ Hy) as (Uy & Ly & Ny).
    pose proof (aligned_le mx ex my ey Hx Hy Hlt) as Hle. fold ez in Hle.
    set (a := Z.pos (fst (shl_align mx ex ez))) in *. set (b := Z.pos (fst (shl_align my ey ez))) in *.
    assert (0 <= a - b <= a) as Hd by lia. destruct (a - b) as [|p|p] eqn:Ed; [done| |lia]. unfold binary_normalize.
    pose proof (round_pos p ez) as Hr. assert (Z.pos (digits2_pos p) + ez <= Z.pos (digits2_pos mx) + ex) as Hdig.
    { assert (Zdigits2 (Z.pos p) <= Z.pos (digits2_pos mx) + (ex - ez)) as Hz; [|cbn in Hz; lia]. rewrite <- A2.
      apply Zdigits_le; [lia|lia|]. eapply Z.le_lt_trans; [exact (proj2 Hd)|]. apply digits_bounds. }
    assert (fe (Z.pos (digits2_pos p) + ez) <= ex) as Hf by (unfold canonical in Hx; rewrite fe_eq in *; lia).
    destruct (binary_round _ _ _ _ _) as [|[]| |[]]; cbn; try done; [lia|]. destruct Hr as [Hc He]. split; [done|lia].
Qed.

(** Rounding a value below [K] units of the target exponent stays at or below it. *)
Lemma round_below p ez K : let f := fe (Z.pos (digits2_pos p) + ez) in
  Z.pos p * 2 ^ Z.max 0 (ez - f) < K * 2 ^ Z.max 0 (f - ez) ->
  match binary_round prec emax false p ez with
  | S754_finite false m' e' => f <= e' /\ Z.pos m' * 2 ^ (e' - f) <= K
  | _ => True
  end.
Proof.
  intros f HK. unfold binary_round. fold f. destruct (shl_align p ez f) as [mz e0] eqn:Ea.
  assert (e0 <= f /\ Z.pos (digits2_pos mz) + e0 = Z.pos (digits2_pos p) + ez /\ Z.pos mz < K * 2 ^ (f - e0)) as (H1 & H2 & H3).
  { destruct (Z_le_gt_dec f ez) as [Hle|Hgt].
    - destruct (align_spec p ez f Hle) as (V & D & S). rewrite Ea in V, D, S. cbn in V, D, S. subst e0.
      rewrite Z.sub_diag, V. rewrite Z.max_r, Z.max_l in HK by lia. split_and!; lia.
    - unfold shl_align in Ea. destruct (f - ez) as [|q|q] eqn:Ed; injection Ea as <- <-; try lia.
      rewrite Z.max_l, Z.max_r in HK by lia. rewrite Ed. split_and!; lia. }
  clear HK. unfold binary_round_aux. destruct (shr_fexp prec emax (Z.pos mz) e0 loc_Exact) as [r e1] eqn:E1.
  destruct (shr_fexp_spec (Z.pos mz) e0 _ r e1 ltac:(lia) E1) as [F1 F2]. cbn [Zdigits2] in F1, F2. rewrite H2 in F1, F2.
  fold f in F1, F2. rewrite Z.max_r in F1, F2 by lia. assert (e1 = f) as -> by lia.
  assert (0 < 2 ^ (f - e0)) by (apply Z.pow_pos_nonneg; lia).
  assert (0 <= shr_m r < K) as Hr.
  { rewrite F2. split; [apply Z.div_pos; lia|]. apply Z.div_lt_upper_bound; lia. }
  pose proof (round_even_bounds (shr_m r) (loc_of_shr_record r) ltac:(lia)) as Hrd.
  set (m1 := round_nearest_even _ _) in *. destruct (shr_fexp prec emax m1 f loc_Exact) as [r2 e2] eqn:E2.
  destruct (shr_fexp_spec m1 f _ r2 e2 ltac:(lia) E2) as [G1 G2].
  set (n := Z.max 0 _) in *. assert (0 <= n) by lia. assert (0 < 2 ^ n) by (apply Z.pow_pos_nonneg; lia).
  destruct (shr_m r2) as [|q|q] eqn:Eq; [done| |done]. destruct (e2 <=? emax - prec); [|done]. split; [lia|].
  replace (e2 - f) with n by lia. rewrite G2. pose proof (Z.mul_div_le m1 (2 ^ n)). lia.
Qed.

(** Subtracting does not make a double larger. *)
Lemma sub_below x y : fine x -> fine y -> small 10 x -> ltb x y = false -> ltb x (sub x y) = false.
Proof.
  intros Hx Hy Hsm Hlt. assert (forall z, ltb z z = false) as Hrefl.
  { intros [b|[]| |[] m e]; try done; unfold ltb, SFltb, SFcompare; rewrite Z.compare_refl;
      change (Pos.compare_cont Eq m m) with (Pos.compare m m); by rewrite Pos.compare_refl. }
  destruct x as [sx|[]| |[] mx ex], y as [sy|[]| |[] my ey]; cbn [fine small] in *; try done; try apply Hrefl.
  - by destruct sx, sy.
  - unfold sub, SFsub, cond_Zopp. cbv zeta. set (ez := Z.min ex ey).
    pose proof (aligned_le mx ex my ey Hx Hy Hlt) as Hle. fold ez in Hle.
    destruct (align_spec mx ex ez ltac:(unfold ez; lia)) as (A1 & A2 & _). destruct (align_spec my ey ez ltac:(unfold ez; lia)) as (B1 & _ & _).
    destruct (canonical_bounds _ _ Hx) as (Ux & Lx & Nx).
    set (a := Z.pos (fst (shl_align mx ex ez))) in *. set (b := Z.pos (fst (shl_align my ey ez))) in *.
    assert (0 < b) as Hb by (unfold b; lia). destruct (a - b) as [|p|p] eqn:Ed; [done| |lia]. unfold binary_normalize.
    set (f := fe (Z.pos (digits2_pos p) + ez)).
    assert (f <= ex) as Hf.
    { assert (Zdigits2 (Z.pos p) <= Z.pos (digits2_pos mx) + (ex - ez)) as Hz.
      { rewrite <- A2. apply Zdigits_le; [lia|lia|]. eapply Z.lt_trans; [|apply digits_bounds]. fold a. lia. }
      unfold f. unfold canonical in Hx. cbn in Hz. rewrite fe_eq in *. lia. }
    pose proof (round_below p ez (Z.pos mx * 2 ^ (ex - f))) as Hr. cbv zeta in Hr. fold f in Hr.
    pose proof (round_pos_fine p ez) as Hfine.
    destruct (binary_round prec emax false p ez) as [|[]| |[] m' e'] eqn:Eb; cbn [fine] in Hfine; try done.
    { pose proof (round_pos p ez) as Hi. rewrite Eb in Hi. fold f in Hi.
      exfalso. lia. }
    destruct Hr as [He Hv].
    { assert (Z.pos p < Z.pos mx * 2 ^ (ex - ez)) as Hp by lia. rewrite <- Z.mul_assoc, <- Z.pow_add_r by lia.
      destruct (Z_le_gt_dec f ez) as [Hfe|Hgt].
      - rewrite (Z.max_r 0 (ez - f)), (Z.max_l 0 (f - ez)), Z.add_0_r by lia.
        replace (ex - f) with (ex - ez + (ez - f)) by lia. rewrite (Z.pow_add_r 2) by (unfold ez; lia).
        assert (0 < 2 ^ (ez - f)) by (apply Z.pow_pos_nonneg; lia). nia.
      - rewrite (Z.max_l 0 (ez - f)), (Z.max_r 0 (f - ez)), Z.mul_1_r by lia.
        replace (ex - f + (f - ez)) with (ex - ez) by lia. exact Hp. }
    destruct (canonical_bounds _ _ Hfine) as (Um & Lm & Nm).
    unfold ltb, SFltb, SFcompare. destruct (Z.compare_spec ex e') as [<-|Hl|Hl]; [| |done].
    + change (Pos.compare_cont Eq mx m') with (Pos.compare mx m'). destruct (Pos.compare_spec mx m') as [|Hm|]; try done.
      assert (0 < 2 ^ (ex - f)) by (apply Z.pow_pos_nonneg; lia). nia.
    + exfalso. specialize (Nm ltac:(lia)). replace (e' - f) with (e' - ex + (ex - f)) in Hv by lia.
      rewrite Z.pow_add_r in Hv by lia. assert (0 < 2 ^ (ex - f)) by (apply Z.pow_pos_nonneg; lia).
      assert (2 ^ 1 <= 2 ^ (e' - ex)) by (apply Z.pow_le_mono_r; lia). rewrite Z.mul_assoc in Hv.
      apply Z.mul_le_mono_pos_r in Hv; [|done]. assert (2 ^ 52 * 2 ^ 1 <= Z.pos m' * 2 ^ (e' - ex)); [|lia].
      apply Z.mul_le_mono_nonneg; lia.
Qed.

(** The order of doubles that are not negative. *)
Lemma ltb_trans_neg c x y : fine c -> fine x -> fine y -> ltb c x = false -> ltb x y = false -> ltb c y = false.
Proof.
  destruct c as [|[]| |[] mc ec], x as [|[]| |[] mx ex], y as [|[]| |[] my ey]; cbn [fine]; try done. intros _ _ _.
  unfold ltb, SFltb, SFcompare. change (Pos.compare_cont Eq) with Pos.compare.
  destruct (Z.compare_spec ec ex), (Z.compare_spec ex ey), (Z.compare_spec ec ey); try done; try lia; intros Ha Hb; subst.
  destruct (Pos.compare_spec mc mx), (Pos.compare_spec mx my), (Pos.compare_spec mc my); try done; lia.
Qed.

Lemma not_ltb_leb c x : fine c -> fine x -> ltb c x = false -> SFleb x c = true.
Proof.
  destruct c as [|[]| |[] mc ec], x as [|[]| |[] mx ex]; cbn [fine]; try done. intros _ _.
  unfold ltb, SFltb, SFleb, SFcompare. change (Pos.compare_cont Eq) with Pos.compare.
  destruct (Z.compare_spec ec ex), (Z.compare_spec ex ec); try done; try lia.
  destruct (Pos.compare_spec mc mx), (Pos.compare_spec mx mc); try done; lia.
Qed.

Lemma fine_nonneg x : fine x -> SFleb zero x = true.
Proof. by destruct x as [|[]| |[]]. Qed.

Lemma fine_cast k f : fine f -> small k f -> k <= 10 -> exists n, cast_u64 f = Ok n.
Proof.
  intros Hf Hs Hk. unfold cast_u64, cast_unsigned. destruct f as [b|[]| |[] m e]; cbn [fine small] in *; try done; [by eexists|].
  cbn [trunc mbind res_bind]. destruct (canonical_bounds _ _ Hf) as (U & _ & _).
  assert (in_width 64 (mag_floor m e)) as Hw.
  { unfold in_width, mag_floor. split; [apply Z.shiftl_nonneg; lia|].
    destruct (Z_le_gt_dec 0 e) as [He|He].
    - rewrite Z.shiftl_mul_pow2 by done. assert (2 ^ e <= 2 ^ 10) by (apply Z.pow_le_mono_r; lia). nia.
    - rewrite Z.shiftl_div_pow2 by lia. apply Z.div_lt_upper_bound; [apply Z.pow_pos_nonneg; lia|].
      assert (1 <= 2 ^ (- e)) by (apply (Z.pow_le_mono_r 2 0); lia). nia. }
  exists (mag_floor m e). by rewrite bool_decide_true.
Qed.

End FloatBounds.
