(* ===== verification/Maps.v ===== *)
(** * Ordered containers

    [std::map] and [std::set] keyed by integers are finite maps and sets;
    where the program iterates, it visits the keys in ascending order. This
    file adds that order to stdpp's maps. *)
From stdpp Require Import base list numbers option sets gmap sorting.
From Stdlib Require Import ZArith Lia.
From S2P Require Import Prelude.

Local Open Scope Z_scope.

Notation zmap := (gmap Z).
Notation zset := (gset Z).

Section Ascending.
Context {A : Type}.
Implicit Types m : zmap A.

Definition key_le (p q : Z * A) : Prop := p.1 <= q.1.

Global Instance key_le_dec p q : Decision (key_le p q).
Proof. unfold key_le. apply _. Defined.

Global Instance key_le_trans : Transitive key_le.
Proof. unfold key_le. intros ????. lia. Qed.

Global Instance key_le_total : Total key_le.
Proof. unfold key_le. intros ??. lia. Qed.

(** The entries in iteration order. *)
Definition entries m : list (Z * A) := merge_sort key_le (map_to_list m).

Definition keys m : list Z := (entries m).*1.

Lemma entries_perm m : entries m ≡ₚ map_to_list m.
Proof. apply merge_sort_Permutation. Qed.

Lemma elem_of_entries m k x : (k, x) ∈ entries m <-> m !! k = Some x.
Proof. rewrite entries_perm. apply elem_of_map_to_list. Qed.

Lemma elem_of_keys m k : k ∈ keys m <-> is_Some (m !! k).
Proof.
  unfold keys. rewrite list_elem_of_fmap. split.
  - intros ([k' x] & -> & H). apply elem_of_entries in H. eauto.
  - intros [x H]. exists (k, x). by rewrite elem_of_entries.
Qed.

Lemma NoDup_keys m : NoDup (keys m).
Proof. unfold keys. rewrite entries_perm. apply NoDup_fst_map_to_list. Qed.

Lemma keys_sorted m : StronglySorted Z.lt (keys m).
Proof.
  assert (StronglySorted key_le (entries m)) as HS
    by (apply StronglySorted_merge_sort; apply _).
  pose proof (NoDup_keys m) as HN. unfold keys in *.
  induction HS as [|[k x] l HS IH HF]; simpl in *; [constructor|].
  apply NoDup_cons in HN as [Hk HN]. constructor; [by apply IH|].
  apply Forall_fmap, Forall_forall. intros [k' x'] Hin. simpl.
  rewrite Forall_forall in HF. specialize (HF _ Hin). unfold key_le in HF. simpl in *.
  assert (k' <> k); [|lia]. intros ->. apply Hk, list_elem_of_fmap. by exists (k, x').
Qed.

(** [begin()]: the entry with the smallest key. *)
Definition first_entry m : option (Z * A) := head (entries m).

Lemma first_entry_Some m k x :
  first_entry m = Some (k, x) <-> m !! k = Some x /\ forall k', is_Some (m !! k') -> k <= k'.
Proof.
  unfold first_entry. pose proof (keys_sorted m) as HS. split.
  - intros H. destruct (entries m) as [|[k0 x0] l] eqn:E; simplify_eq/=.
    split; [apply elem_of_entries; rewrite E; left|]. intros k' Hk'.
    apply elem_of_keys in Hk'. unfold keys in *. rewrite E in *. simpl in *.
    apply StronglySorted_inv in HS as [_ HF]. rewrite Forall_forall in HF.
    apply elem_of_cons in Hk' as [->|Hk']; [lia|]. specialize (HF _ Hk'). lia.
  - intros [Hk Hmin]. pose proof (proj2 (elem_of_entries m k x) Hk) as Hin.
    destruct (entries m) as [|[k0 x0] l] eqn:E; [set_solver|]. simpl.
    assert (m !! k0 = Some x0) as H0 by (apply elem_of_entries; rewrite E; left).
    assert (k <= k0) by (apply Hmin; eauto).
    unfold keys in HS. rewrite E in HS. simpl in HS.
    apply StronglySorted_inv in HS as [_ HF]. rewrite Forall_forall in HF.
    apply elem_of_cons in Hin as [|Hin]; [by simplify_eq|].
    specialize (HF k ltac:(apply list_elem_of_fmap; by exists (k, x))). lia.
Qed.

Lemma first_entry_None m : first_entry m = None <-> m = ∅.
Proof.
  unfold first_entry. split.
  - intros H. destruct (entries m) eqn:E; [|done]. apply map_empty. intros k.
    apply eq_None_not_Some. intros [x Hx]. apply elem_of_entries in Hx. rewrite E in Hx. set_solver.
  - intros ->. done.
Qed.

End Ascending.

(** Ascending elements of a set. *)
Definition elements_asc (s : zset) : list Z := merge_sort Z.le (elements s).

Lemma elem_of_elements_asc s k : k ∈ elements_asc s <-> k ∈ s.
Proof. unfold elements_asc. by rewrite merge_sort_Permutation, elem_of_elements. Qed.
