(* ===== verification/Types.v ===== *)
(** * Public data types (tight/include/tight/types.hpp)

    Link roles and states, network addresses, the endpoint configuration. The
    packet header is in [Wire]. Durations and time points are integers: the
    configuration counts milliseconds, the steady clock nanoseconds. *)
From stdpp Require Import base list numbers option strings.
From Stdlib Require Import ZArith.
From S2P Require Import Prelude Float64.

Local Open Scope Z_scope.

Module Types.

Inductive LinkRole := Leaf | Node.

Inductive LinkState := Closed | Handshake | Established | Online.

Global Instance LinkRole_eq_dec : EqDecision LinkRole.
Proof. solve_decision. Defined.
Global Instance LinkState_eq_dec : EqDecision LinkState.
Proof. solve_decision. Defined.

Definition role_code (r : LinkRole) : Z := match r with Leaf => 0 | Node => 1 end.
Definition state_code (s : LinkState) : Z :=
  match s with Closed => 0 | Handshake => 1 | Established => 2 | Online => 3 end.

Record PeerEvent := mkPeerEvent {
  ev_id : string; ev_role : LinkRole; ev_state : LinkState; ev_client_id : Z }.

Record NetAddress := mkNetAddress { host : string; port : Z }.

Global Instance NetAddress_eq_dec : EqDecision NetAddress.
Proof. solve_decision. Defined.

Record TightConfig := mkConfig {
  bind : NetAddress;
  cfg_id : string;
  token : string;
  role : LinkRole;
  mtu : Z;
  heartbeat : Z;
  report_interval : Z;
  flush_interval : Z;
  dead_timeout : Z;
  retransmit_timeout : Z;
  initial_bandwidth_bytes : Z;
  queue_limit : Z;
  max_message_bytes : Z;
  drop_log : bool;
  retransmit_enabled : bool;
  late_rtt_multiplier : F64.double;
  speed_test_enabled : bool;
  speed_test_bytes : Z;
  encryption_enabled : bool;
  socket_buffer_bytes : Z;
  encode_queue_limit : Z;
  outbound_queue_limit : Z;
  lite_mode : bool }.

Definition default_config : TightConfig := {|
  bind := mkNetAddress "" 0; cfg_id := ""; token := ""; role := Leaf;
  mtu := 1350; heartbeat := 5000; report_interval := 1000; flush_interval := 10;
  dead_timeout := 30000; retransmit_timeout := 500;
  initial_bandwidth_bytes := 100 * 1024 * 1024; queue_limit := 65536;
  max_message_bytes := 64 * 1024; drop_log := true; retransmit_enabled := true;
  late_rtt_multiplier := F64.of_Z 4; speed_test_enabled := true;
  speed_test_bytes := 100 * 1024; encryption_enabled := true;
  socket_buffer_bytes := 8 * 1024 * 1024; encode_queue_limit := 4096;
  outbound_queue_limit := 65536; lite_mode := false |}.

(** Nanoseconds of the steady clock. *)
Definition ms (n : Z) : Z := n * 1000000.
Definition seconds (n : Z) : Z := n * 1000000000.

End Types.
