(* ===== verification/Peer.v ===== *)
(** * Per-peer state (tight/src/peer.hpp)

    The [Peer] structure shared by the transport's components. Its fields keep
    the source's names and are grouped by the component that owns them: receive
    sequence tracking, fragment assembly, sending, clock synchronisation,
    speed-test trains, the command channel, encryption, and the link itself. *)
From stdpp Require Import base list numbers option strings gmap.
From Stdlib Require Import ZArith Lia.
From S2P Require Import Prelude Wire Float64 Maps Types.

Local Open Scope Z_scope.
Import Types.

Module Peer.
Import Wire.

Record PendingSend := mkPending {
  m_header : PacketHeader;
  m_payload : bytes;
  m_last_send : Z;
  m_bytes : Z;
  m_retries : Z }.

Record IncomingMessage := mkIncoming {
  m_message_id : Z;
  m_total_count : Z;
  m_data_count : Z;
  m_fragments : list (option bytes);
  m_sizes : list Z;
  m_first_seen : Z }.

(** The value-initialised entry that [std::map::operator\[\]] creates. *)
Definition new_incoming : IncomingMessage := mkIncoming 0 0 0 [] [] 0.

Record SeqTrack := mkTrack {
  m_missing_seqs : zmap Z;
  m_recv_seqs : zset;
  m_next_expected_seq : Z;
  m_seq_initialized : bool }.

Record Assembly := mkAssembly {
  m_incoming : zmap IncomingMessage;
  m_completed : zmap Z;
  m_oversize_log_ts : Z }.

Record Sending := mkSending {
  m_sequence_out : Z;
  m_msg_id_out : Z;
  m_pending : zmap PendingSend;
  m_peer_late_ratio : F64.double }.

Record LateStats := mkLate {
  m_transit_samples : Z;
  m_late_samples : Z }.

Record ClockSync := mkClock {
  m_clock_offset_us : Z;
  m_clock_synced : bool;
  m_clock_pending : bool;
  m_hs_tick : Z;
  m_hs_arrival_ms : Z }.

Record ProbeTrain := mkProbe {
  m_probe_first : Z;
  m_probe_last : Z;
  m_probe_bytes : Z;
  m_probe_count : Z;
  m_probe_bw_bps : Z }.

Record CommandState := mkCommand {
  m_cmd_seq_out : Z;
  m_cmd_next_expected : Z;
  m_cmd_initialized : bool;
  m_cmd_held : zmap bytes;
  m_cmd_gap_since : Z }.

Record CryptoState := mkCrypto {
  m_crypto_ready : bool;
  m_crypto_key : bytes }.

(** IPv4 address and port. *)
Record AddrKey := mkAddr { m_addr : Z; m_port : Z }.

Global Instance AddrKey_eq_dec : EqDecision AddrKey.
Proof. solve_decision. Defined.

Definition addr_ltb (a b : AddrKey) : bool :=
  if negb (m_addr a =? m_addr b) then m_addr a <? m_addr b else m_port a <? m_port b.

Record LinkInfo := mkLink {
  m_id : string;
  m_sockaddr : AddrKey;
  m_addr_set : bool;
  m_role : LinkRole;
  m_state : LinkState;
  m_peer_client_id : Z;
  m_peer_session_id : Z;
  m_last_recv : Z;
  m_last_heartbeat_sent : Z;
  m_last_handshake_sent : Z;
  m_last_report_sent : Z;
  m_sender_rtt_us : Z;
  m_reconnect : bool;
  m_drop_log : bool;
  m_retransmit : bool;
  m_peer_retransmit : bool }.

Record Peer := mkPeer {
  link : LinkInfo;
  sending : Sending;
  track : SeqTrack;
  asm : Assembly;
  late : LateStats;
  clock : ClockSync;
  probe : ProbeTrain;
  cmd : CommandState;
  crypto : CryptoState }.

(** Default member initialisers. *)
Definition new_link : LinkInfo :=
  mkLink "" (mkAddr 0 0) false Leaf Closed 0 0 0 0 0 0 0 false true true true.
Definition new_sending : Sending := mkSending 1 1 ∅ F64.zero.
Definition new_track : SeqTrack := mkTrack ∅ ∅ 0 false.
Definition new_asm : Assembly := mkAssembly ∅ ∅ 0.
Definition new_late : LateStats := mkLate 0 0.
Definition new_clock : ClockSync := mkClock 0 false false 0 0.
Definition new_probe : ProbeTrain := mkProbe 0 0 0 0 0.
Definition new_cmd : CommandState := mkCommand 1 0 false ∅ 0.
Definition new_crypto : CryptoState := mkCrypto false (replicate 32 0).
Definition new_peer : Peer :=
  mkPeer new_link new_sending new_track new_asm new_late new_clock new_probe new_cmd new_crypto.

(** Assignments to the fields of one group. *)
Definition set_link l p := mkPeer l (sending p) (track p) (asm p) (late p) (clock p) (probe p) (cmd p) (crypto p).
Definition set_sending s p := mkPeer (link p) s (track p) (asm p) (late p) (clock p) (probe p) (cmd p) (crypto p).
Definition set_track t p := mkPeer (link p) (sending p) t (asm p) (late p) (clock p) (probe p) (cmd p) (crypto p).
Definition set_asm a p := mkPeer (link p) (sending p) (track p) a (late p) (clock p) (probe p) (cmd p) (crypto p).
Definition set_late l p := mkPeer (link p) (sending p) (track p) (asm p) l (clock p) (probe p) (cmd p) (crypto p).
Definition set_clock c p := mkPeer (link p) (sending p) (track p) (asm p) (late p) c (probe p) (cmd p) (crypto p).
Definition set_probe b p := mkPeer (link p) (sending p) (track p) (asm p) (late p) (clock p) b (cmd p) (crypto p).
Definition set_cmd c p := mkPeer (link p) (sending p) (track p) (asm p) (late p) (clock p) (probe p) c (crypto p).
Definition set_crypto c p := mkPeer (link p) (sending p) (track p) (asm p) (late p) (clock p) (probe p) (cmd p) c.

(** ** Speed-test trains *)

Definition kProbeTrainGap : Z := ms 20.

Definition finalize_probe_train (p : ProbeTrain) (now : Z) : res ProbeTrain :=
  if m_probe_count p =? 0 then Ok p else
  if now - m_probe_last p <=? kProbeTrainGap then Ok p else
  let span_us := Z.quot (m_probe_last p - m_probe_first p) 1000 in
  bw ← (if (2 <=? m_probe_count p) && (0 <? span_us) then
          F64.cast_u64 (F64.div (F64.mul (F64.of_Z (m_probe_bytes p)) (F64.of_Z 1000000))
                          (F64.of_Z span_us))
        else Ok (m_probe_bw_bps p));
  Ok (mkProbe (m_probe_first p) (m_probe_last p) 0 0 bw).

Lemma finalize_bw_width p now p' :
  in_width 64 (m_probe_bw_bps p) -> finalize_probe_train p now = Ok p' ->
  in_width 64 (m_probe_bw_bps p').
Proof.
  intros Hw. unfold finalize_probe_train. repeat case_match; intros H'; simplify_eq; try done.
  - inv_bind H'. simplify_eq. by eapply F64.cast_unsigned_width.
  - inv_bind H'. by simplify_eq.
Qed.

(** ** One-way transit time *)

Definition transit_time_us (c : ClockSync) (tick arrival_ms : Z) : Z :=
  if negb (m_clock_synced c) || (tick =? 0) then -1 else
  let arrival_low := Z.land arrival_ms 0xFFFFFFFF in
  let t := s32 (u32 (arrival_low - tick)) * 1000 + m_clock_offset_us c in
  if 0 <=? t then t else 0.

(** The wrap-around of the 32-bit millisecond counters cancels: transit is the
    real elapsed time converted into the local clock whenever the two ticks
    are less than 2^31 ms apart. *)
Lemma transit_time_wrap c sent arrival :
  m_clock_synced c = true -> 0 <= sent -> 0 <= arrival -> u32 sent <> 0 ->
  - 2 ^ 31 <= arrival - sent < 2 ^ 31 ->
  transit_time_us c (u32 sent) arrival =
  Z.max 0 ((arrival - sent) * 1000 + m_clock_offset_us c).
Proof.
  intros Hs H0 H1 Hne Hd. unfold transit_time_us. rewrite Hs. simpl.
  rewrite (proj2 (Z.eqb_neq _ _) Hne). change 0xFFFFFFFF with (Z.ones 32).
  rewrite Z.land_ones by lia.
  assert (s32 (u32 (arrival mod 2 ^ 32 - u32 sent)) = arrival - sent) as ->.
  { unfold s32, u32. rewrite Z.mod_mod by lia.
    replace ((arrival mod 2 ^ 32 - sent mod 2 ^ 32) mod 2 ^ 32) with ((arrival - sent) mod 2 ^ 32)
      by (symmetry; apply Zminus_mod_idemp_r || (rewrite Zminus_mod_idemp_l, Zminus_mod_idemp_r; done)).
    destruct (decide (0 <= arrival - sent)).
    - rewrite Z.mod_small by lia. by rewrite (proj2 (Z.ltb_lt _ _)) by lia.
    - replace ((arrival - sent) mod 2 ^ 32) with (arrival - sent + 2 ^ 32)
        by (symmetry; rewrite <- (Z_mod_plus_full _ 1), Z.mul_1_l; apply Z.mod_small; lia).
      rewrite (proj2 (Z.ltb_ge _ _)) by lia. lia. }
  destruct (Z.leb_spec 0 ((arrival - sent) * 1000 + m_clock_offset_us c)); lia.
Qed.

End Peer.
