(* ===== verification/SeqTracker.v ===== *)
(** * Receive-sequence tracking (tight/src/reassembler.cpp, lines 43-93)

    The first half of [Reassembler::handle_data]: late-packet accounting and
    the gap tracker that feeds the NACK reports. The tracker is compared with
    the set of sequence numbers received so far. *)
From stdpp Require Import base list numbers option sets gmap strings.
From Stdlib Require Import ZArith Lia.
From S2P Require Import Prelude Float64 Maps Types Peer.

Local Open Scope Z_scope.
Import Peer.

Module SeqTracker.

(** Transit time above [late_multiplier * RTT] counts as late; nothing is
    counted while the clock is not synchronised ([transit_us = -1]). *)
Definition account_late (l : LateStats) (transit_us rtt_us : Z) (late_multiplier : F64.double)
    : res LateStats :=
  if 0 <=? transit_us then
    threshold_us ← F64.cast_u64 (F64.mul late_multiplier
                       (F64.of_Z (if 0 <? rtt_us then rtt_us else 10000)));
    Ok (mkLate (u64 (m_transit_samples l + 1))
          (if threshold_us <? transit_us then u64 (m_late_samples l + 1) else m_late_samples l))
  else Ok l.

(** [for (g = next; g < seq; ++g) if (!recv.count(g)) missing.emplace(g, now)]. *)
Definition note_gap (recv : zset) (now : Z) (missing : zmap Z) (g : Z) : zmap Z :=
  if bool_decide (g ∈ recv) then missing
  else match missing !! g with Some _ => missing | None => <[g := now]> missing end.

Definition note_gaps (recv : zset) (now next seq : Z) (missing : zmap Z) : zmap Z :=
  foldl (note_gap recv now) missing (seqZ next (seq - next)).

(** [while (recv.count(next)) { recv.erase(next); ++next; }]; one element
    leaves the set per turn, so its size bounds the number of turns. *)
Fixpoint drain (fuel : nat) (recv : zset) (next : Z) : zset * Z :=
  match fuel with
  | O => (recv, next)
  | S fuel =>
      if bool_decide (next ∈ recv) then drain fuel (recv ∖ {[next]}) (u32 (next + 1))
      else (recv, next)
  end.

Definition advance (recv : zset) (next : Z) : zset * Z := drain (size recv) recv next.

Definition track_sequence (t : SeqTrack) (seq now : Z) : SeqTrack :=
  if seq =? 0 then t
  else if negb (m_seq_initialized t) then
    mkTrack (m_missing_seqs t) (m_recv_seqs t) (u32 (seq + 1)) true
  else if m_next_expected_seq t <=? seq then
    let missing := note_gaps (m_recv_seqs t) now (m_next_expected_seq t) seq (m_missing_seqs t) in
    let '(recv, next) := advance (m_recv_seqs t ∪ {[seq]}) (m_next_expected_seq t) in
    mkTrack missing recv next true
  else
    let '(recv, next) := advance (m_recv_seqs t) (m_next_expected_seq t) in
    mkTrack (delete seq (m_missing_seqs t)) recv next true.

(** ** The loops *)

Lemma drain_done fuel recv next recv' next' :
  (size recv <= fuel)%nat -> drain fuel recv next = (recv', next') -> next' ∉ recv'.
Proof.
  revert recv next. induction fuel as [|fuel IH]; intros recv next Hf; simpl.
  - intros [= <- <-]. assert (recv ≡ ∅) as Hs by (apply size_empty_iff; lia). set_solver.
  - case_bool_decide as Hin; [|by intros [= <- <-]]. apply IH.
    rewrite size_difference, size_singleton by set_solver. lia.
Qed.

(** The loop terminates: it stops at a number that is not in the set. *)
Lemma advance_done recv next recv' next' : advance recv next = (recv', next') -> next' ∉ recv'.
Proof. unfold advance. by apply drain_done. Qed.

Lemma seq_drain_spec fuel recv next recv' next' :
  0 <= next -> (forall s, s ∈ recv -> s < 2 ^ 32 - 1) ->
  drain fuel recv next = (recv', next') ->
  next <= next' /\ (forall s, s ∈ recv' <-> s ∈ recv /\ ~ next <= s < next') /\
  (forall s, next <= s < next' -> s ∈ recv).
Proof.
  revert recv next. induction fuel as [|fuel IH]; intros recv next H0 Hb; simpl.
  - intros [= <- <-]. split_and!; [lia| |lia]. intros s. split; [|tauto]. intros. split; [done|lia].
  - case_bool_decide as Hin.
    2: { intros [= <- <-]. split_and!; [lia| |lia]. intros s. split; [|tauto]. intros. split; [done|lia]. }
    pose proof (Hb _ Hin). rewrite u32_id by (unfold in_width; lia). intros E.
    apply IH in E as (Hle & Hr & Hi); [|lia|set_solver]. split_and!; [lia|..].
    + intros s. rewrite Hr. rewrite elem_of_difference, elem_of_singleton.
      split; [intros ((? & ?) & ?)|intros (? & ?)]; split_and!; done || lia.
    + intros s Hs. destruct (decide (s = next)) as [->|]; [done|].
      specialize (Hi s ltac:(lia)). set_solver.
Qed.

Lemma advance_spec recv next recv' next' :
  0 <= next -> (forall s, s ∈ recv -> s < 2 ^ 32 - 1) -> advance recv next = (recv', next') ->
  next <= next' /\ (forall s, s ∈ recv' <-> s ∈ recv /\ ~ next <= s < next') /\
  (forall s, next <= s < next' -> s ∈ recv).
Proof. apply seq_drain_spec. Qed.

Lemma note_gap_lookup recv now missing g s :
  is_Some (note_gap recv now missing g !! s) <-> is_Some (missing !! s) \/ (s = g /\ g ∉ recv).
Proof.
  unfold note_gap. case_bool_decide as Hin; [naive_solver|].
  destruct (missing !! g) eqn:E; [naive_solver|].
  rewrite lookup_insert_is_Some. destruct (decide (g = s)); naive_solver.
Qed.

Lemma note_gaps_lookup recv now next seq missing s :
  is_Some (note_gaps recv now next seq missing !! s) <->
  is_Some (missing !! s) \/ (next <= s < seq /\ s ∉ recv).
Proof.
  unfold note_gaps.
  assert (forall l m, is_Some (foldl (note_gap recv now) m l !! s) <->
    is_Some (m !! s) \/ (s ∈ l /\ s ∉ recv)) as Hf.
  { induction l as [|g l IH]; intros m; simpl; [set_solver|].
    rewrite IH, note_gap_lookup, elem_of_cons. naive_solver. }
  rewrite Hf, elem_of_seqZ. intuition lia.
Qed.

(** ** Refinement of the set of received sequence numbers

    [H] is the set of the numbers received so far and [base] the number after
    the first one. *)
Record tracks (base : Z) (H : zset) (t : SeqTrack) : Prop := {
  tr_init : m_seq_initialized t = true;
  tr_base : 0 <= base <= m_next_expected_seq t;
  tr_below : forall s, base <= s < m_next_expected_seq t -> s ∈ H;
  tr_next : m_next_expected_seq t ∉ H;
  tr_recv : forall s, s ∈ m_recv_seqs t <-> s ∈ H /\ m_next_expected_seq t <= s;
  tr_missing : forall s, s ∉ H ->
    is_Some (m_missing_seqs t !! s) <-> base <= s /\ exists s', s' ∈ H /\ s < s' }.

Lemma tracks_first t seq now :
  m_seq_initialized t = false -> m_recv_seqs t = ∅ -> m_missing_seqs t = ∅ -> 0 < seq < 2 ^ 32 - 1 ->
  tracks (seq + 1) {[seq]} (track_sequence t seq now).
Proof.
  intros Hi Hr Hmi Hs. unfold track_sequence. rewrite (proj2 (Z.eqb_neq seq 0)) by lia.
  rewrite Hi. simpl. rewrite u32_id by (unfold in_width; lia).
  split; simpl; rewrite ?Hr; [done|lia|lia|set_solver by lia| |].
  - intros s. rewrite elem_of_singleton. split; [set_solver|]. lia.
  - intros s _. rewrite Hmi, lookup_empty. split; [by intros [? ?]|].
    intros (? & s' & Hs' & ?). apply elem_of_singleton in Hs'. lia.
Qed.

Lemma tracks_step base H t seq now :
  tracks base H t -> (forall s, s ∈ H -> s < 2 ^ 32 - 1) -> 0 < seq < 2 ^ 32 - 1 ->
  tracks base (H ∪ {[seq]}) (track_sequence t seq now).
Proof.
  intros [Hi Hb Hlow Hn Hr Hm] HH Hs. unfold track_sequence.
  rewrite (proj2 (Z.eqb_neq seq 0)) by lia. rewrite Hi. simpl.
  set (n := m_next_expected_seq t) in *. destruct (Z.leb_spec n seq) as [Hle|Hgt].
  - destruct (advance (m_recv_seqs t ∪ {[seq]}) n) as [recv' next'] eqn:E.
    pose proof (advance_done _ _ _ _ E) as Hd. apply advance_spec in E as (Hnn & Hr' & Hi'); [|lia|].
    2: { intros s. rewrite elem_of_union, Hr, elem_of_singleton.
         intros [[? _]| ->]; [by apply HH|lia]. }
    assert (forall s, s ∈ recv' <-> s ∈ H ∪ {[seq]} /\ next' <= s) as Hr''.
    { intros s. rewrite Hr', !elem_of_union, Hr, !elem_of_singleton.
      destruct (decide (s = seq)) as [->|]; intuition lia. }
    split; simpl; [done|lia| | |done|].
    + intros s Hss. destruct (decide (s < n)) as [|Hge]; [set_solver by lia|].
      specialize (Hi' s ltac:(lia)). rewrite elem_of_union, Hr, elem_of_singleton in Hi'.
      set_solver.
    + intros Hin. apply Hd. rewrite Hr''. split; [done|lia].
    + intros s Hns. rewrite note_gaps_lookup, (Hm s) by set_solver. rewrite Hr. split.
      * intros [(? & s' & ? & ?)|(? & _)]; (split; [lia|]); [exists s'|exists seq]; set_solver by lia.
      * intros (Hbs & s' & Hs' & Hlt). destruct (decide (n <= s < seq)) as [|Hsg]; [right; set_solver|].
        left. split; [done|]. destruct (decide (s < n)) as [Hlo|]; [specialize (Hlow s ltac:(lia)); set_solver|].
        exists s'. set_solver by lia.
  - destruct (advance (m_recv_seqs t) n) as [recv' next'] eqn:E.
    unfold advance in E.
    assert (n ∉ m_recv_seqs t) as Hnr by (rewrite Hr; tauto).
    assert (recv' = m_recv_seqs t /\ next' = n) as [-> ->].
    { destruct (size (m_recv_seqs t)); simpl in E; [|case_bool_decide; [done|]]; by simplify_eq. }
    split; simpl; [done|lia| |set_solver by lia| |].
    + intros s Hss. set_solver.
    + intros s. rewrite Hr. set_solver by lia.
    + intros s Hns. rewrite lookup_delete_ne by set_solver. rewrite (Hm s) by set_solver.
      split; intros (Hbs & s' & Hs' & Hlt); (split; [done|]); [exists s'; set_solver|].
      apply elem_of_union in Hs' as [Hs'|Hs']; [by exists s'|]. apply elem_of_singleton in Hs' as ->.
      specialize (Hlow s ltac:(lia)). set_solver.
Qed.

(** A run of the tracker over the arrivals [(seq, time)]. *)
Definition track_run (t : SeqTrack) (arrivals : list (Z * Z)) : SeqTrack :=
  foldl (fun t '(seq, now) => track_sequence t seq now) t arrivals.

Definition seqs (arrivals : list (Z * Z)) : zset := list_to_set arrivals.*1.

Lemma tracks_run base H t arrivals :
  tracks base H t -> (forall s, s ∈ H -> s < 2 ^ 32 - 1) ->
  Forall (fun a => 0 < a.1 < 2 ^ 32 - 1) arrivals ->
  tracks base (H ∪ seqs arrivals) (track_run t arrivals).
Proof.
  intros Ht HH Ha. revert H t Ht HH. unfold seqs.
  induction Ha as [|[seq now] l Hs Ha IH]; intros H t Ht HH; simpl in *.
  - by rewrite (right_id_L ∅ (∪)).
  - rewrite (assoc_L (∪)). apply IH; [by apply tracks_step|set_solver by lia].
Qed.

(** C21. The gap tracker refines the set of received sequence numbers. After any
    arrivals with numbers below 2^32 - 1, in any order, with duplicates and
    losses: the acknowledged cursor is the first number after the first arrival
    that has not been received; the out-of-order set holds exactly the received
    numbers above it; and of the numbers not received, the missing table lists
    exactly those between the first arrival and some received number. (Received
    numbers may stay listed, see [filled_gap_still_missing].) *)
Theorem tracker_exact seq0 now0 arrivals t :
  t = track_run new_track ((seq0, now0) :: arrivals) ->
  Forall (fun a => 0 < a.1 < 2 ^ 32 - 1) ((seq0, now0) :: arrivals) ->
  let received := seqs ((seq0, now0) :: arrivals) in
  seq0 < m_next_expected_seq t /\ m_next_expected_seq t ∉ received /\
  (forall s, seq0 < s < m_next_expected_seq t -> s ∈ received) /\
  (forall s, s ∈ m_recv_seqs t <-> s ∈ received /\ m_next_expected_seq t < s) /\
  (forall s, s ∉ received ->
     is_Some (m_missing_seqs t !! s) <-> seq0 < s /\ exists s', s' ∈ received /\ s < s').
Proof.
  intros -> Ha received. apply Forall_cons in Ha as [H0 Ha]. simpl in H0.
  assert (tracks (seq0 + 1) {[seq0]} (track_sequence new_track seq0 now0)) as Ht
    by (by apply tracks_first).
  apply (tracks_run _ _ _ arrivals) in Ht; [|set_solver by lia|done].
  change (track_run new_track ((seq0, now0) :: arrivals))
    with (track_run (track_sequence new_track seq0 now0) arrivals).
  change ({[seq0]} ∪ seqs arrivals) with received in Ht.
  destruct Ht as [_ Hb Hl Hn Hr Hm]. split_and!; [lia|done| | |].
  - intros s Hs. apply Hl. lia.
  - intros s. rewrite Hr. split; intros [Hs Hle]; split; try done; [|lia].
    destruct (decide (s = m_next_expected_seq (track_run (track_sequence new_track seq0 now0) arrivals))); [congruence|lia].
  - intros s Hs. rewrite (Hm s Hs). split; intros (? & ?); split; done || lia.
Qed.

Lemma tracker_exact_witness :
  let t := track_run new_track [(7, 0); (9, 1); (12, 2); (8, 3)] in
  m_next_expected_seq t = 10 /\ is_Some (m_missing_seqs t !! 11).
Proof.
  intros t. split; [vm_compute; reflexivity|].
  apply (tracker_exact 7 0 [(9, 1); (12, 2); (8, 3)] t eq_refl).
  - repeat constructor; simpl; lia.
  - eval_decide.
  - split; [lia|]. exists 12. split; [eval_decide|lia].
Defined.

(** A packet that fills a gap before the cursor has passed it stays listed
    as missing: its number is still reported as lost although it arrived. *)
Theorem filled_gap_still_missing :
  let t := track_run new_track [(1, 0); (4, 1); (3, 2); (2, 3)] in
  m_next_expected_seq t = 5 /\ m_missing_seqs t !! 2 = Some 1 /\ m_missing_seqs t !! 3 = Some 1.
Proof. vm_compute. done. Qed.

End SeqTracker.
