(* ===== verification/Report.v ===== *)
(** * Loss and lateness reports (tight/src/report.cpp)

    The receiver's periodic report (acknowledgement cursor, late ratio, lost
    sequence numbers, probed bandwidth) and the sender's reaction to it
    (pruning of acknowledged packets, bounded retransmission of lost ones). *)
From stdpp Require Import base list numbers option sets gmap strings.
From Stdlib Require Import ZArith Lia.
From S2P Require Import Prelude Wire Float64 Maps Types Peer SeqTracker.

Local Open Scope Z_scope.
Import Types Wire Peer SeqTracker.

Module Report.

Definition kMaxRetries : Z := 10.

(** ** Building a report *)

(** Advances the cursor over a gap and over what was received behind it. *)
Definition skip_gap (t : SeqTrack) (g : Z) : SeqTrack :=
  if m_seq_initialized t && (g =? m_next_expected_seq t) then
    let '(recv, next) := advance (m_recv_seqs t) (u32 (m_next_expected_seq t + 1)) in
    mkTrack (m_missing_seqs t) recv next (m_seq_initialized t)
  else t.

Definition erase_missing (t : SeqTrack) (g : Z) : SeqTrack :=
  mkTrack (delete g (m_missing_seqs t)) (m_recv_seqs t) (m_next_expected_seq t)
    (m_seq_initialized t).

(** One turn of the loop over [m_missing_seqs]. *)
Definition scan_entry (retransmit : bool) (now give_up_us loss_threshold : Z)
    (st : SeqTrack * list Z) (e : Z * Z) : SeqTrack * list Z :=
  let '(t, lost) := st in
  let '(g, seen) := e in
  let elapsed_us := Z.quot (now - seen) 1000 in
  if negb retransmit then (erase_missing (skip_gap t g) g, lost)
  else if give_up_us <? elapsed_us then (erase_missing t g, lost)
  else if loss_threshold <? elapsed_us then (skip_gap t g, lost ++ [g])
  else (t, lost).

Definition scan_missing (retransmit : bool) (now give_up_us loss_threshold : Z) (t : SeqTrack)
    : SeqTrack * list Z :=
  foldl (scan_entry retransmit now give_up_us loss_threshold) (t, []) (entries (m_missing_seqs t)).

Definition kMissingCap : nat := 4096.

(** [while (missing.size() > 4096) missing.erase(missing.begin())]. *)
Fixpoint cap_missing (fuel : nat) (m : zmap Z) : zmap Z :=
  match fuel with
  | O => m
  | S fuel =>
      if (kMissingCap <? size m)%nat then
        match first_entry m with
        | Some (k, _) => cap_missing fuel (delete k m)
        | None => m
        end
      else m
  end.

Definition loss_threshold_us (sender_rtt_us : Z) : Z :=
  let rtt_threshold := if 0 <? sender_rtt_us then sender_rtt_us else 10000 in
  if rtt_threshold <? 10000 then 100000 else u32 (rtt_threshold * 7) / 2.

Definition give_up_us (report_interval : Z) : Z := report_interval * (kMaxRetries + 2) * 1000.

Definition ratio_val (l : LateStats) : res Z :=
  let late_ratio :=
    if 0 <? m_transit_samples l then
      F64.div (F64.of_Z (m_late_samples l)) (F64.of_Z (m_transit_samples l))
    else F64.zero in
  F64.cast_u16 (F64.mul late_ratio (F64.of_Z 10000)).

Definition ack_cursor (t : SeqTrack) : Z :=
  if m_seq_initialized t then
    if 0 <? m_next_expected_seq t then m_next_expected_seq t - 1 else 0
  else 0.

Definition be16 (v : Z) : bytes := store_le 2 (to_be16 v).
Definition be32 (v : Z) : bytes := store_le 4 (to_be32 v).

(** The payload, in the order of its offsets: 0, 4, 6, 8, 12, 12 + 4N. *)
Definition report_bytes (ack_seq ratio probe_bw : Z) (lost_seqs : list Z) : bytes :=
  let n := u16 (Z.of_nat (length lost_seqs)) in
  let lost_count := if 256 <? n then 256 else n in
  be32 ack_seq ++ be16 ratio ++ be16 lost_count ++ store_le 4 0 ++
  (take (Z.to_nat lost_count) lost_seqs ≫= be32) ++
  be32 (u32 (Z.land probe_bw 0xFFFFFFFF)).

Definition build_payload (p : Peer) (now report_interval : Z) : res (Peer * bytes) :=
  let '(t, lost_seqs) :=
    scan_missing (m_retransmit (link p) && m_peer_retransmit (link p)) now
      (give_up_us report_interval) (loss_threshold_us (m_sender_rtt_us (link p))) (track p) in
  let missing := cap_missing (size (m_missing_seqs t)) (m_missing_seqs t) in
  let t := mkTrack missing (m_recv_seqs t) (m_next_expected_seq t) (m_seq_initialized t) in
  ratio ← ratio_val (late p);
  let ack_seq := ack_cursor t in
  pr ← finalize_probe_train (probe p) now;
  let probe_bw := m_probe_bw_bps pr in
  let pr := mkProbe (m_probe_first pr) (m_probe_last pr) (m_probe_bytes pr) (m_probe_count pr) 0 in
  Ok (set_probe pr (set_late (mkLate 0 0) (set_track t p)),
      report_bytes ack_seq ratio probe_bw lost_seqs).

(** ** Handling a report *)

Record Parsed := mkParsed {
  r_ack : Z; r_ratio : Z; r_lost : list Z; r_probe_bw : Z }.

(** [None] is the early [return 0]. *)
Definition parse (payload : bytes) : option Parsed :=
  if (length payload <? 12)%nat then None else
  let ack_seq := get32 payload 0 in
  let ratio := get16 payload 4 in
  let lost_count := Z.to_nat (get16 payload 6) in
  let expected := (12 + lost_count * 4)%nat in
  if (length payload <? expected)%nat then None else
  let probe_bw := if (expected + 4 <=? length payload)%nat then get32 payload expected else 0 in
  Some (mkParsed ack_seq ratio ((fun i => get32 payload (12 + i * 4)) <$> seq 0 lost_count) probe_bw).

Definition clamp_ratio (raw : Z) : F64.double :=
  let p := F64.div (F64.of_Z raw) (F64.of_Z 10000) in
  let p := if F64.ltb p F64.zero then F64.zero else p in
  if F64.ltb (F64.of_Z 1) p then F64.of_Z 1 else p.

(** Entries that are retransmitted, in ascending order. *)
Definition snapshot (ack_seq : Z) (lost : zset) (pending : zmap PendingSend)
    : list (Z * PendingSend) :=
  List.filter (fun '(k, ps) =>
      negb ((k <=? ack_seq) && negb (bool_decide (k ∈ lost))) &&
      bool_decide (k ∈ lost) && (m_retries ps <? kMaxRetries))
    (entries pending).

Definition pruned (ack_seq : Z) (lost : zset) (k : Z) (ps : PendingSend) : bool :=
  ((k <=? ack_seq) && negb (bool_decide (k ∈ lost))) || (kMaxRetries <=? m_retries ps).

Definition prune (ack_seq : Z) (lost : zset) (pending : zmap PendingSend) : zmap PendingSend :=
  filter (fun '(k, ps) => pruned ack_seq lost k ps = false) pending.

Definition bump_retry (now : Z) (pending : zmap PendingSend) (k : Z) : zmap PendingSend :=
  match pending !! k with
  | Some ps =>
      if m_retries ps <? kMaxRetries then
        <[k := mkPending (m_header ps) (m_payload ps) now (m_bytes ps) (m_retries ps + 1)]> pending
      else pending
  | None => pending
  end.

(** New sending state, the packets handed to [resend], and the probed
    bandwidth. *)
Definition handle (s : Sending) (payload : bytes) (now : Z)
    : Sending * list (PacketHeader * bytes) * Z :=
  match parse payload with
  | None => (s, [], 0)
  | Some r =>
      let lost : zset := list_to_set (r_lost r) in
      let snap := snapshot (r_ack r) lost (m_pending s) in
      let pending := prune (r_ack r) lost (m_pending s) in
      let pending := foldl (bump_retry now) pending snap.*1 in
      (mkSending (m_sequence_out s) (m_msg_id_out s) pending (clamp_ratio (r_ratio r)),
       (fun '(_, ps) => (m_header ps, m_payload ps)) <$> snap, r_probe_bw r)
  end.

(** ** Round trip of the wire format *)

Lemma length_be32 v : length (be32 v) = 4%nat.
Proof. apply length_store_le. Qed.
Lemma length_be16 v : length (be16 v) = 2%nat.
Proof. apply length_store_le. Qed.

Lemma get32_at pre v post off :
  off = length pre -> in_width 32 v -> get32 (pre ++ be32 v ++ post) off = v.
Proof.
  intros -> Hv. unfold get32, be32. rewrite get_skip, Nat.sub_diag, get_hit by done.
  rewrite (wrap_id 32) by apply to_be32_width. by apply to_be32_involutive.
Qed.

Lemma get16_at pre v post off :
  off = length pre -> in_width 16 v -> get16 (pre ++ be16 v ++ post) off = v.
Proof.
  intros -> Hv. unfold get16, be16. rewrite get_skip, Nat.sub_diag, get_hit by done.
  rewrite (wrap_id 16) by apply to_be16_width. by apply to_be16_involutive.
Qed.

Lemma length_bind_be32 l : length (l ≫= be32) = (4 * length l)%nat.
Proof. induction l as [|x l IH]; [done|]. rewrite bind_cons, length_app, IH, length_be32. simpl. lia. Qed.

Lemma get32_list pre l post i x :
  Forall (in_width 32) l -> l !! i = Some x ->
  get32 (pre ++ (l ≫= be32) ++ post) (length pre + i * 4) = x.
Proof.
  intros Hl Hi. rewrite <- (take_drop_middle l i x Hi). rewrite bind_app, bind_cons.
  rewrite <- !(assoc_L (++)), (assoc_L (++) pre).
  apply get32_at; [|by eapply Forall_lookup_1].
  rewrite length_app, length_bind_be32, length_take_le; [lia|].
  apply lookup_lt_Some in Hi. lia.
Qed.

Lemma parse_layout ack ratio n lost bw :
  in_width 32 ack -> in_width 16 ratio -> in_width 32 bw -> in_width 16 n ->
  Forall (in_width 32) lost -> Z.of_nat (length lost) = n ->
  parse (be32 ack ++ be16 ratio ++ be16 n ++ store_le 4 0 ++ (lost ≫= be32) ++ be32 bw) =
  Some (mkParsed ack ratio lost bw).
Proof.
  intros Ha Hr Hb Hn Hl Hlen. set (d := _ ++ _).
  assert (length d = 12 + length lost * 4 + 4)%nat as Hd.
  { unfold d. rewrite !length_app, length_bind_be32, !length_be32, !length_be16, length_store_le. lia. }
  assert (get16 d 6 = n) as En.
  { unfold d. rewrite (assoc_L (++) (be32 ack)). apply get16_at; [|done].
    by rewrite length_app, length_be32, length_be16. }
  unfold parse. rewrite En. replace (Z.to_nat n) with (length lost) by lia.
  rewrite (proj2 (Nat.ltb_ge _ _)) by lia. rewrite (proj2 (Nat.ltb_ge _ _)) by lia.
  rewrite (proj2 (Nat.leb_le _ _)) by lia. do 2 f_equal.
  - unfold d. by apply (get32_at []).
  - unfold d. apply get16_at; [|done]. by rewrite length_be32.
  - apply list_eq. intros i. rewrite list_lookup_fmap.
    destruct (decide (i < length lost)%nat) as [Hi|Hi].
    2: { rewrite !lookup_ge_None_2; [done|..]; rewrite ?length_seq; lia. }
    destruct (lookup_lt_is_Some_2 lost i Hi) as [x Hx]. rewrite Hx, lookup_seq_lt by lia. simpl.
    apply (f_equal Some). unfold d. rewrite 3!(assoc_L (++)).
    rewrite <- (get32_list (((be32 ack ++ be16 ratio) ++ be16 n) ++ store_le 4 0) lost (be32 bw) i x Hl Hx).
    rewrite !length_app, length_be32, !length_be16, length_store_le. done.
  - unfold d. rewrite 4!(assoc_L (++)). rewrite <- (right_id_L [] (++) (be32 bw)).
    apply get32_at; [|done].
    rewrite !length_app, length_bind_be32, length_be32, !length_be16, length_store_le. lia.
Qed.

Lemma parse_report ack ratio bw lost :
  in_width 32 ack -> in_width 16 ratio -> in_width 64 bw -> Forall (in_width 32) lost ->
  Z.of_nat (length lost) < 65536 ->
  parse (report_bytes ack ratio bw lost) = Some (mkParsed ack ratio (take 256 lost) (u32 bw)).
Proof.
  intros Ha Hr Hb Hl Hlen. unfold report_bytes.
  rewrite (u16_id (Z.of_nat (length lost))) by (unfold in_width; lia).
  assert (u32 (Z.land bw 0xFFFFFFFF) = u32 bw) as ->.
  { change 0xFFFFFFFF with (Z.ones 32). rewrite Z.land_ones by lia. by apply Z.mod_mod. }
  assert (take (Z.to_nat (if 256 <? Z.of_nat (length lost) then 256 else Z.of_nat (length lost))) lost
    = take 256 lost) as ->.
  { destruct (Z.ltb_spec 256 (Z.of_nat (length lost))); [done|].
    rewrite Nat2Z.id, (take_ge lost (length lost)), (take_ge lost 256); [done|lia..]. }
  apply parse_layout; auto with width.
  - unfold in_width in *. case_match; lia.
  - by apply Forall_take.
  - rewrite length_take. destruct (Z.ltb_spec 256 (Z.of_nat (length lost))); lia.
Qed.

(** The sender reads exactly what the receiver reported: cursor, ratio,
    bandwidth, and the first 256 lost sequence numbers. *)
Theorem parse_report_bytes ack ratio bw lost :
  in_width 32 ack -> in_width 16 ratio -> in_width 64 bw -> Forall (in_width 32) lost ->
  Z.of_nat (length lost) < 65536 ->
  parse (report_bytes ack ratio bw lost) = Some (mkParsed ack ratio (take 256 lost) (u32 bw)).
Proof. apply parse_report. Qed.

Lemma parse_report_bytes_witness :
  parse (report_bytes 4660 25 (2 ^ 32 + 7) [5; 9]) = Some (mkParsed 4660 25 [5; 9] 7).
Proof.
  apply (parse_report_bytes 4660 25 (2 ^ 32 + 7) [5; 9]); unfold in_width; [lia..| |simpl; lia].
  repeat constructor; lia.
Defined.

(** ** The scan of the missing table *)

Record in_range (t : SeqTrack) : Prop := {
  ir_init : m_seq_initialized t = true;
  ir_next : 0 < m_next_expected_seq t < 2 ^ 32;
  ir_recv : forall s, s ∈ m_recv_seqs t -> 0 <= s < 2 ^ 32 - 1;
  ir_missing : forall s, is_Some (m_missing_seqs t !! s) -> 0 <= s < 2 ^ 32 - 1 }.

(** Between [t] and [t'] the cursor only passed numbers that had been received
    or are in [lost]. *)
Record passed (t t' : SeqTrack) (lost : list Z) : Prop := {
  ps_init : m_seq_initialized t' = true;
  ps_le : m_next_expected_seq t <= m_next_expected_seq t' < 2 ^ 32;
  ps_recv : m_recv_seqs t' ⊆ m_recv_seqs t;
  ps_skip : forall s, m_next_expected_seq t <= s < m_next_expected_seq t' ->
    s ∈ m_recv_seqs t \/ s ∈ lost }.

Lemma passed_skip t t' lost g :
  in_range t -> passed t t' lost -> 0 <= g < 2 ^ 32 - 1 ->
  passed t (skip_gap t' g) (lost ++ [g]).
Proof.
  intros Hr Hp Hg. destruct Hp as [Hi Hle Hsub Hs]. unfold skip_gap. rewrite Hi. simpl.
  destruct (Z.eqb_spec g (m_next_expected_seq t')) as [->|Hne]; simpl.
  2: { split; try done. intros s Hss. apply Hs in Hss. set_solver. }
  destruct Hr as [_ Hn Hrr _].
  destruct (advance _ _) as [recv next] eqn:E. rewrite u32_id in E by (unfold in_width; lia).
  pose proof E as E'. apply advance_spec in E as (Hge & Hrec & Hsk); [|lia|].
  2: { intros s Hin. apply Hsub, Hrr in Hin. lia. }
  assert (next < 2 ^ 32).
  { destruct (decide (next <= m_next_expected_seq t' + 1)); [lia|].
    specialize (Hsk (next - 1) ltac:(lia)). apply Hsub, Hrr in Hsk. lia. }
  split; simpl; [done|lia| |].
  - intros s Hin. apply Hrec in Hin as [Hin _]. by apply Hsub.
  - intros s Hss. destruct (decide (s < m_next_expected_seq t')).
    + destruct (Hs s ltac:(lia)); set_solver.
    + destruct (decide (s = m_next_expected_seq t')) as [->|]; [set_solver|].
      left. apply Hsub, Hsk. lia.
Qed.

Lemma passed_scan t now gu lt es : in_range t ->
  (forall e, e ∈ es -> 0 <= e.1 < 2 ^ 32 - 1) -> forall t' lost,
  passed t t' lost ->
  let r := foldl (scan_entry true now gu lt) (t', lost) es in passed t r.1 r.2.
Proof.
  intros Hr. induction es as [|[g seen] es IH]; intros Hes t' lost Hp; simpl; [done|].
  assert (0 <= g < 2 ^ 32 - 1) as Hg by (apply (Hes (g, seen)); left).
  assert (forall e, e ∈ es -> 0 <= e.1 < 2 ^ 32 - 1) as Hes' by (intros e He; apply Hes; by right).
  case_match; [|case_match].
  - apply IH; [done|]. destruct Hp. by split.
  - apply IH; [done|]. by apply passed_skip.
  - by apply IH.
Qed.

Lemma scan_passed t now gu lt : in_range t ->
  passed t (scan_missing true now gu lt t).1 (scan_missing true now gu lt t).2.
Proof.
  intros Hr. unfold scan_missing. apply passed_scan; [done|..].
  - intros [g seen] He. apply elem_of_entries in He. apply (ir_missing t Hr). simpl. eauto.
  - destruct Hr as [Hi Hn _ _]. split; [done|lia|done|lia].
Qed.

(** Only missing numbers are reported, each at most once. *)
Lemma scan_lost_sublist rt now gu lt es t lost :
  exists l, sublist l es.*1 /\ (foldl (scan_entry rt now gu lt) (t, lost) es).2 = lost ++ l.
Proof.
  revert t lost. induction es as [|[g seen] es IH]; intros t lost; simpl.
  - exists []. by rewrite (right_id_L [] (++)).
  - case_match; [|case_match; [|case_match]].
    all: match goal with |- exists l, _ /\ (foldl _ (?a, ?b) _).2 = _ => destruct (IH a b) as (l & Hl & ->) end.
    3: { exists (g :: l). split; [by apply sublist_skip|]. by rewrite <- (assoc_L (++)). }
    all: exists l; split; [by apply sublist_cons|done].
Qed.

Lemma scan_lost rt now gu lt t :
  sublist (scan_missing rt now gu lt t).2 (keys (m_missing_seqs t)).
Proof.
  unfold scan_missing, keys. destruct (scan_lost_sublist rt now gu lt
    (entries (m_missing_seqs t)) t []) as (l & Hl & ->). done.
Qed.

Lemma length_keys {A} (m : zmap A) : length (keys m) = size m.
Proof. unfold keys. by rewrite length_fmap, (Permutation_length (entries_perm m)), length_map_to_list. Qed.

(** No unreceived packet is acknowledged silently: a report that lists
    fewer than 256 losses names every sequence number that its cursor newly
    passes and that was not received. *)
Theorem report_names_skipped p now ri p' payload :
  in_range (track p) -> m_retransmit (link p) = true -> m_peer_retransmit (link p) = true ->
  Z.of_nat (size (m_missing_seqs (track p))) < 65536 -> in_width 64 (m_probe_bw_bps (probe p)) ->
  build_payload p now ri = Ok (p', payload) ->
  exists r, parse payload = Some r /\
    ((length (r_lost r) < 256)%nat ->
     forall s, m_next_expected_seq (track p) <= s <= r_ack r ->
       s ∈ m_recv_seqs (track p) \/ s ∈ r_lost r).
Proof.
  intros Hr Hrt Hprt Hsz Hbw. unfold build_payload. rewrite Hrt, Hprt. simpl.
  pose proof (scan_passed (track p) now (give_up_us ri)
    (loss_threshold_us (m_sender_rtt_us (link p))) Hr) as Hp.
  pose proof (scan_lost true now (give_up_us ri)
    (loss_threshold_us (m_sender_rtt_us (link p))) (track p)) as Hl.
  destruct (scan_missing _ _ _ _ _) as [t lost]. cbn [fst snd] in *. intros H.
  inv_bind H. inv_bind H. simplify_eq. destruct Hp as [Hi Hle _ Hs].
  assert (Z.of_nat (length lost) < 65536).
  { apply sublist_length in Hl. rewrite length_keys in Hl. lia. }
  unfold ack_cursor. cbn [m_seq_initialized m_next_expected_seq]. rewrite Hi.
  pose proof (ir_next _ Hr) as Hn.
  eexists. split.
  { apply parse_report; try done.
    - unfold in_width. cbn [m_seq_initialized m_next_expected_seq]. case_bool; lia.
    - by eapply F64.cast_unsigned_width.
    - by eapply finalize_bw_width.
    - apply Forall_forall. intros s Hin.
      assert (s ∈ keys (m_missing_seqs (track p))) as Hk by (eapply sublist_subseteq; eauto).
      apply elem_of_keys, (ir_missing _ Hr) in Hk. unfold in_width. lia. }
  cbn [r_lost r_ack m_next_expected_seq]. rewrite length_take. intros Hlt s Hss.
  rewrite take_ge by lia. apply Hs. revert Hss. case_bool; lia.
Qed.

(** ** The hard cap *)

Lemma cap_missing_size fuel m :
  (size m <= fuel)%nat -> (size (cap_missing fuel m) <= kMissingCap)%nat.
Proof.
  revert m. induction fuel as [|fuel IH]; intros m Hf; cbn [cap_missing]; [lia|].
  destruct (Nat.ltb_spec kMissingCap (size m)) as [Hlt|]; [|done].
  destruct (first_entry m) as [[k x]|] eqn:E.
  - apply first_entry_Some in E as [E _]. apply IH. rewrite map_size_delete_Some by eauto. lia.
  - apply first_entry_None in E as ->. rewrite map_size_empty. lia.
Qed.

(** ** Retransmission *)

Record pending_ok (pending : zmap PendingSend) : Prop := {
  po_key : forall k ps, pending !! k = Some ps -> sequence (m_header ps) = k;
  po_retries : forall k ps, pending !! k = Some ps -> 0 <= m_retries ps <= kMaxRetries }.

Definition budget (pending : zmap PendingSend) (k : Z) : Z :=
  match pending !! k with Some ps => kMaxRetries - m_retries ps | None => 0 end.

Definition bump (now : Z) (ps : PendingSend) : PendingSend :=
  if m_retries ps <? kMaxRetries
  then mkPending (m_header ps) (m_payload ps) now (m_bytes ps) (m_retries ps + 1) else ps.

Lemma bump_retry_lookup now pending k k' :
  bump_retry now pending k !! k' =
  if decide (k = k') then bump now <$> pending !! k' else pending !! k'.
Proof.
  unfold bump_retry, bump. destruct (decide (k = k')) as [->|Hne].
  - destruct (pending !! k') eqn:E; simpl; [|done]. case_match; [|done].
    by rewrite lookup_insert_eq.
  - repeat case_match; try done. by rewrite lookup_insert_ne.
Qed.

Lemma bump_all_lookup now ks pending k :
  NoDup ks ->
  foldl (bump_retry now) pending ks !! k =
  if decide (k ∈ ks) then bump now <$> pending !! k else pending !! k.
Proof.
  revert pending. induction ks as [|k0 ks IH]; intros pending Hnd; cbn [foldl].
  - rewrite decide_False by set_solver. done.
  - apply NoDup_cons in Hnd as [Hk0 Hnd]. rewrite IH, bump_retry_lookup by done.
    destruct (decide (k0 = k)) as [->|Hne].
    + rewrite (decide_False (P := k ∈ ks)) by done. by rewrite decide_True by set_solver.
    + destruct (decide (k ∈ ks)).
      * by rewrite decide_True by set_solver.
      * by rewrite decide_False by set_solver.
Qed.

Lemma elem_of_snapshot ack lost pending k ps :
  (k, ps) ∈ snapshot ack lost pending <->
  pending !! k = Some ps /\ k ∈ lost /\ m_retries ps < kMaxRetries.
Proof.
  unfold snapshot. rewrite list_elem_of_In, filter_In, <- list_elem_of_In, elem_of_entries.
  rewrite !andb_true_iff, bool_decide_eq_true, Z.ltb_lt. split; [tauto|].
  intros (H1 & H2 & H3). split_and!; try done. rewrite bool_decide_true by done.
  by rewrite andb_false_r.
Qed.

Lemma NoDup_snapshot ack lost pending : NoDup (snapshot ack lost pending).*1.
Proof.
  pose proof (NoDup_keys pending) as H. unfold snapshot, keys in *.
  induction (entries pending) as [|[k ps] l IH]; simpl; [done|].
  apply NoDup_cons in H as [Hk H]. case_match; simpl; [|by apply IH].
  apply NoDup_cons. split; [|by apply IH]. intros Hin. apply Hk.
  apply list_elem_of_fmap in Hin as ([k' ps'] & -> & Hin).
  apply list_elem_of_fmap. exists (k', ps'). split; [done|].
  apply list_elem_of_In, filter_In in Hin as [Hin _]. by apply list_elem_of_In.
Qed.

Lemma prune_lookup ack lost pending k :
  prune ack lost pending !! k =
  match pending !! k with
  | Some ps => if pruned ack lost k ps then None else Some ps
  | None => None
  end.
Proof.
  unfold prune. destruct (pending !! k) as [ps|] eqn:E.
  - destruct (pruned ack lost k ps) eqn:Ep.
    + apply map_lookup_filter_None. right. intros ps' H'. simplify_eq. by rewrite Ep.
    + by apply map_lookup_filter_Some.
  - apply map_lookup_filter_None. by left.
Qed.

(** The retransmission buffer after a report. *)
Lemma handle_pending s payload now r k :
  parse payload = Some r ->
  let lost : zset := list_to_set (r_lost r) in
  m_pending (handle s payload now).1.1 !! k =
  match m_pending s !! k with
  | Some ps =>
      if pruned (r_ack r) lost k ps then None
      else Some (if decide (k ∈ lost) then bump now ps else ps)
  | None => None
  end.
Proof.
  intros E lost. unfold handle. rewrite E. cbn [fst m_pending].
  rewrite bump_all_lookup, prune_lookup by apply NoDup_snapshot.
  fold lost. destruct (m_pending s !! k) as [ps|] eqn:Ek; [|by case_match].
  destruct (pruned (r_ack r) lost k ps) eqn:Ep; [by case_match|]. unfold pruned in Ep.
  apply orb_false_iff in Ep as [_ Er]. apply Z.leb_gt in Er.
  destruct (decide (k ∈ lost)) as [Hin|Hnin].
  - rewrite decide_True; [done|]. apply list_elem_of_fmap. exists (k, ps).
    split; [done|]. by apply elem_of_snapshot.
  - rewrite decide_False; [done|]. intros Hin.
    apply list_elem_of_fmap in Hin as ([k' ps'] & -> & Hin).
    by apply elem_of_snapshot in Hin as (_ & ? & _).
Qed.

Lemma bump_retries now ps :
  m_retries ps <= kMaxRetries -> m_retries ps <= m_retries (bump now ps) <= kMaxRetries.
Proof. intros H. unfold bump. case_bool; simpl; lia. Qed.

Lemma bump_header now ps : m_header (bump now ps) = m_header ps.
Proof. unfold bump. by case_match. Qed.

Lemma handle_pending_ok s payload now :
  pending_ok (m_pending s) -> pending_ok (m_pending (handle s payload now).1.1).
Proof.
  intros [Hk Hr]. destruct (parse payload) as [r|] eqn:E.
  2: { unfold handle. by rewrite E. }
  split; intros k ps; rewrite (handle_pending s payload now r k E);
    destruct (m_pending s !! k) as [ps0|] eqn:E0; try done;
    case_match; try done; intros [= <-]; case_match; eauto.
  - rewrite bump_header. eauto.
  - specialize (Hr _ _ E0). pose proof (bump_retries now ps0). lia.
Qed.

(** A sequence of reports [(payload, time)] and everything they make the
    sender retransmit. *)
Fixpoint handle_all (s : Sending) (reports : list (bytes * Z))
    : Sending * list (PacketHeader * bytes) :=
  match reports with
  | [] => (s, [])
  | (payload, now) :: reports =>
      let '(s', out, _) := handle s payload now in
      let '(s'', out') := handle_all s' reports in (s'', out ++ out')
  end.

Definition resends (k : Z) (out : list (PacketHeader * bytes)) : Z :=
  Z.of_nat (length (List.filter (fun hp => sequence hp.1 =? k) out)).

Lemma resends_app k a b : resends k (a ++ b) = resends k a + resends k b.
Proof. unfold resends. rewrite List.filter_app, length_app. lia. Qed.

Lemma budget_nonneg pending k : pending_ok pending -> 0 <= budget pending k.
Proof.
  intros [_ Hr]. unfold budget. destruct (pending !! k) eqn:E; [|lia].
  specialize (Hr _ _ E). lia.
Qed.

(** At most one copy of a packet per report, and none once it left the
    retransmission buffer. *)
Lemma snapshot_resends ack lost pending k : pending_ok pending ->
  resends k ((fun '(_, ps) => (m_header ps, m_payload ps)) <$> snapshot ack lost pending) =
  if decide (k ∈ (snapshot ack lost pending).*1) then 1 else 0.
Proof.
  intros [Hk _]. assert (forall e, e ∈ snapshot ack lost pending -> sequence (m_header e.2) = e.1) as Hs.
  { intros [k' ps] He. apply elem_of_snapshot in He as (He & _). eauto. }
  pose proof (NoDup_snapshot ack lost pending) as Hnd. revert Hs Hnd.
  induction (snapshot ack lost pending) as [|[k' ps] l IH]; intros Hs Hnd; [done|].
  rewrite fmap_cons in Hnd. apply NoDup_cons in Hnd as [Hn Hnd].
  specialize (IH ltac:(intros; apply Hs; by right) Hnd).
  pose proof (Hs (k', ps) ltac:(left)) as E. simpl in E, Hn. rewrite !fmap_cons. unfold resends in *.
  cbn [List.filter fst]. rewrite E. destruct (Z.eqb_spec k' k) as [->|Hne].
  - rewrite (decide_True (P := k ∈ k :: l.*1)) by left. rewrite decide_False in IH by done.
    cbn [length]. rewrite Nat2Z.inj_succ, IH. done.
  - rewrite IH. destruct (decide (k ∈ l.*1)).
    + by rewrite decide_True by (by right).
    + by rewrite decide_False by set_solver.
Qed.

Lemma handle_budget s payload now k : pending_ok (m_pending s) ->
  resends k (handle s payload now).1.2 + budget (m_pending (handle s payload now).1.1) k
  <= budget (m_pending s) k.
Proof.
  intros Hok. destruct (parse payload) as [r|] eqn:E.
  2: { unfold handle. rewrite E. simpl. unfold resends. simpl. lia. }
  unfold budget at 1. rewrite (handle_pending s payload now r k E).
  unfold handle. rewrite E. cbn [fst snd]. rewrite snapshot_resends by done.
  unfold budget. destruct (m_pending s !! k) as [ps|] eqn:Ek.
  2: { rewrite decide_False; [lia|]. intros Hin.
       apply list_elem_of_fmap in Hin as ([k' ps] & -> & Hin).
       apply elem_of_snapshot in Hin as (Hin & _). simpl in Ek. congruence. }
  pose proof (po_retries _ Hok _ _ Ek) as Hr.
  set (lost := list_to_set (r_lost r) : zset).
  destruct (decide (k ∈ (snapshot (r_ack r) lost (m_pending s)).*1)) as [Hin|Hnin].
  - apply list_elem_of_fmap in Hin as ([k' ps'] & -> & Hin).
    apply elem_of_snapshot in Hin as (Ek' & Hl & Hlt). simpl in *. simplify_eq.
    unfold pruned. rewrite bool_decide_true, andb_false_r by done. simpl.
    rewrite (proj2 (Z.leb_gt _ _)), decide_True by done.
    unfold bump. rewrite (proj2 (Z.ltb_lt _ _)) by done. simpl. lia.
  - fold lost. destruct (pruned (r_ack r) lost k ps); [simpl; lia|].
    destruct (decide (k ∈ lost)); simpl; [|lia]. pose proof (bump_retries now ps). lia.
Qed.

Lemma handle_all_budget s reports k : pending_ok (m_pending s) ->
  resends k (handle_all s reports).2 <= budget (m_pending s) k.
Proof.
  revert s. induction reports as [|[payload now] reports IH]; intros s Hok; simpl.
  { by apply budget_nonneg. }
  pose proof (handle_budget s payload now k Hok) as Hb.
  pose proof (handle_pending_ok s payload now Hok) as Hok'.
  destruct (handle s payload now) as [[s' out] bw]. cbn [fst snd] in *.
  specialize (IH s' Hok'). destruct (handle_all s' reports) as [s'' out']. simpl in *.
  rewrite resends_app. lia.
Qed.

(** C22. Retransmission is bounded: whatever reports arrive, a packet of the
    retransmission buffer is sent again at most ten times. *)
Theorem resend_bounded s reports k :
  pending_ok (m_pending s) -> resends k (handle_all s reports).2 <= 10.
Proof.
  intros Hok. pose proof (handle_all_budget s reports k Hok). unfold budget in *.
  destruct (m_pending s !! k) eqn:E; [|lia].
  pose proof (po_retries _ Hok _ _ E). unfold kMaxRetries in *. lia.
Qed.

(** A report removes a packet from the retransmission buffer only when it
    is acknowledged and not listed as lost, or has been retried ten times; a
    packet listed as lost and not exhausted is retransmitted. *)
Theorem handle_keeps_unacknowledged s payload now r k ps :
  parse payload = Some r -> m_pending s !! k = Some ps -> m_retries ps < 10 ->
  (r_ack r < k \/ k ∈ r_lost r) ->
  is_Some (m_pending (handle s payload now).1.1 !! k) /\
  (k ∈ r_lost r -> (m_header ps, m_payload ps) ∈ (handle s payload now).1.2).
Proof.
  intros E Ek Hr Hk. split.
  - rewrite (handle_pending s payload now r k E), Ek. unfold pruned, kMaxRetries.
    rewrite (proj2 (Z.leb_gt _ _) Hr), orb_false_r.
    destruct Hk as [Hk|Hk]; [rewrite (proj2 (Z.leb_gt _ _) Hk); by eauto|].
    rewrite bool_decide_true by set_solver. rewrite andb_false_r. eauto.
  - intros Hl. unfold handle. rewrite E. cbn [fst snd]. apply list_elem_of_fmap.
    exists (k, ps). split; [done|]. apply elem_of_snapshot. split_and!; [done|set_solver|done].
Qed.

(** ** Concrete runs *)

Definition demo_pending : PendingSend := mkPending (mkHeader 0 0 Data 0 0 0 3 0 0 0 0 0 0 0 0) [1] 0 0 0.
Definition demo_sending : Sending := mkSending 4 2 {[3 := demo_pending]} F64.zero.

Lemma demo_pending_ok : pending_ok (m_pending demo_sending).
Proof.
  split; intros k ps; cbn [m_pending demo_sending]; intros [<- <-]%lookup_singleton_Some; [done|].
  simpl. unfold kMaxRetries. lia.
Qed.

Lemma resend_bounded_witness :
  resends 3 (handle_all demo_sending (replicate 20 (report_bytes 5 0 0 [3], 1))).2 <= 10.
Proof. apply resend_bounded, demo_pending_ok. Defined.

Lemma handle_keeps_unacknowledged_witness :
  is_Some (m_pending (handle demo_sending (report_bytes 5 0 0 [3]) 1).1.1 !! 3).
Proof.
  apply (handle_keeps_unacknowledged demo_sending (report_bytes 5 0 0 [3]) 1
           (mkParsed 5 0 [3] 0) 3 demo_pending); [reflexivity|reflexivity|done|right; left].
Defined.

Definition demo_gap_peer (hi : Z) : Peer :=
  set_track (track_run new_track [(1, 0); (hi, 0)]) new_peer.

Lemma report_names_skipped_witness :
  exists r p' payload, build_payload (demo_gap_peer 4) (seconds 1) 1000 = Ok (p', payload) /\
    parse payload = Some r /\ forall s, 2 <= s <= r_ack r ->
      s ∈ m_recv_seqs (track (demo_gap_peer 4)) \/ s ∈ r_lost r.
Proof.
  destruct (build_payload (demo_gap_peer 4) (seconds 1) 1000) as [[p' payload]|] eqn:E; [|done].
  destruct (report_names_skipped (demo_gap_peer 4) (seconds 1) 1000 p' payload) as (r & Hp & Hs);
    [|done|done|done|done|exact E|].
  - split; [done|done|..].
    + intros s. change (m_recv_seqs _) with ({[4]} : zset). set_solver by lia.
    + intros s. change (m_missing_seqs _) with (<[3 := 0]> {[2 := 0]} : zmap Z).
      rewrite lookup_insert_is_Some'. intros [<-|[x Hx%lookup_singleton_Some]]; lia.
  - exists r, p', payload. split_and!; [done|done|]. apply Hs.
    vm_compute in E. injection E as <- <-. vm_compute in Hp. injection Hp as <-. simpl. lia.
Defined.

(** With more than 256 losses in one report the excess is acknowledged
    without being named: packet 258 was never received, and the report makes
    the sender forget it. *)
Theorem report_overflow_forgets :
  match build_payload (demo_gap_peer 259) (seconds 1) 1000 with
  | Ok (_, payload) =>
      let ps := mkPending (mkHeader 0 0 Data 0 0 0 258 0 0 0 0 0 0 0 0) [1] 0 0 0 in
      let s := mkSending 300 2 {[258 := ps]} F64.zero in
      bool_decide (258 ∈ m_recv_seqs (track (demo_gap_peer 259))) = false /\
      (r_ack <$> parse payload) = Some 259 /\
      m_pending (handle s payload 0).1.1 !! 258 = None /\ (handle s payload 0).1.2 = []
  | Fault _ => False
  end.
Proof. vm_compute. done. Qed.

End Report.
