(* ===== verification/Fragmenter.v ===== *)
(** * Outbound fragmentation (tight/src/fragmenter.cpp)

    A message is prefixed with its length, cut into fragments of equal width
    and extended with one to three parity fragments. [std::log2] comes from
    the C library and is a parameter of the parity sizing. *)
From stdpp Require Import base list numbers option strings gmap.
From Stdlib Require Import ZArith Lia.
From S2P Require Import Prelude Wire GF256 ReedSolomon Float64 Maps Types Peer.

Local Open Scope Z_scope.
Import Wire Peer.

Module Fragmenter.

Definition kFecSafetyCoefficient : F64.double := F64.lit 12 10.

Section Log.
Context (log2 : F64.double -> F64.double).

(** Entropy-sized parity count, clamped to [1, 3]. *)
Definition compute_parity_count_for (late_ratio : F64.double) (data_count : Z) : res Z :=
  if F64.leb late_ratio (F64.lit 1 10000) || F64.leb (F64.lit 9999 10000) late_ratio then Ok 1 else
  let one_minus := F64.sub (F64.of_Z 1) late_ratio in
  let h := F64.sub (F64.mul (F64.opp late_ratio) (log2 late_ratio))
                   (F64.mul one_minus (log2 one_minus)) in
  let redundancy := F64.mul h kFecSafetyCoefficient in
  p ← F64.cast_u16 (F64.ceil (F64.mul (F64.of_Z data_count) redundancy));
  let p := if p <? 1 then 1 else p in
  Ok (if 3 <? p then 3 else p).

(** Arguments of one [SendFragmentCallback]. *)
Record Fragment := mkFragment {
  f_msg_id : Z; f_idx : Z; f_cnt : Z; f_data_cnt : Z; f_real_size : Z;
  f_data : bytes; f_width : nat; f_ackable : bool }.

(** [do msg_id = (m_msg_id_out++) & 0x7FFFFFFF while (msg_id == 0)]: two turns
    are enough, since two consecutive counters do not both vanish. *)
Definition next_msg_id (out : Z) : Z * Z :=
  let id := Z.land out 0x7FFFFFFF in
  let out' := u32 (out + 1) in
  if id =? 0 then (Z.land out' 0x7FFFFFFF, u32 (out' + 1)) else (id, out').

Definition frag_payload (mtu : Z) : Z :=
  let fp := if Z.of_nat kHeaderSize <? mtu then mtu - Z.of_nat kHeaderSize else 64 in
  if fp <=? 4 then 64 else fp.

(** The [data_count] spans of the prefixed message. *)
Definition spans (full : bytes) (fp data_count : nat) : list bytes :=
  (fun i => take fp (drop (i * fp) full)) <$> seq 0 data_count.

Definition prefixed (payload : bytes) : bytes :=
  store_le 4 (to_be32 (u32 (Z.land (Z.of_nat (length payload)) 0xFFFFFFFF))) ++ payload.

Definition data_fragments (msg_id cnt d_cnt : Z) (width : nat) (sp : list bytes) : list Fragment :=
  imap (fun i s => mkFragment msg_id (u16 (Z.of_nat i)) cnt d_cnt
                     (u16 (Z.of_nat (length s))) s width true) sp.

Definition parity_fragments (msg_id cnt d_cnt : Z) (width data_count : nat) (parities : list bytes)
    (parity_count : nat) : list Fragment :=
  (fun p => mkFragment msg_id (u16 (Z.of_nat (data_count + p))) cnt d_cnt
              (u16 (Z.of_nat width)) (take width (ReedSolomon.row_at parities p)) width true)
  <$> seq 0 parity_count.

(** Fragments in the order of the callbacks; [scratch] is what the reused
    parity buffers held. *)
Definition fragment_and_send (s : Sending) (payload : bytes) (mtu : Z) (scratch : list bytes)
    : res (Sending * list Fragment) :=
  let fp := Z.to_nat (frag_payload mtu) in
  let '(msg_id, out) := next_msg_id (m_msg_id_out s) in
  let full := prefixed payload in
  let real_total := length full in
  let data_count := ((real_total + fp - 1) / fp)%nat in
  let data_count := if (data_count =? 0)%nat then 1%nat else data_count in
  pc ← compute_parity_count_for (m_peer_late_ratio s) (Z.of_nat data_count);
  let sp := spans full fp data_count in
  let parities := ReedSolomon.encode_into sp (Z.to_nat pc) fp scratch in
  let cnt := u16 (Z.of_nat data_count + pc) in
  let d_cnt := u16 (Z.of_nat data_count) in
  Ok (mkSending (m_sequence_out s) out (m_pending s) (m_peer_late_ratio s),
      data_fragments msg_id cnt d_cnt fp sp ++
      parity_fragments msg_id cnt d_cnt fp data_count parities (Z.to_nat pc)).

(** ** Parity sizing *)

Lemma parity_count_range late n pc : compute_parity_count_for late n = Ok pc -> 1 <= pc <= 3.
Proof.
  unfold compute_parity_count_for. case_match; [intros [= <-]; lia|].
  intros E. inv_bind E. injection E as <-. case_bool; lia.
Qed.

End Log.

(** ** Message identifiers *)

Lemma next_msg_id_spec out id out' : in_width 32 out -> next_msg_id out = (id, out') ->
  0 < id < 2 ^ 31 /\ in_width 32 out'.
Proof.
  intros Hw. unfold next_msg_id. change 0x7FFFFFFF with (Z.ones 31).
  rewrite !Z.land_ones by lia. destruct (Z.eqb_spec (out mod 2 ^ 31) 0) as [E|E]; intros [= <- <-].
  - split; [|apply u32_width]. unfold u32. unfold in_width in Hw.
    assert (((out + 1) mod 2 ^ 32) mod 2 ^ 31 = 1) as ->; [|lia].
    replace (2 ^ 32) with (2 ^ 31 * 2) by done.
    rewrite Z.rem_mul_r by lia. rewrite Z.mul_comm, Z.mod_add by lia. rewrite Z.mod_mod by lia.
    rewrite <- Zplus_mod_idemp_l, E. done.
  - split; [|apply u32_width]. pose proof (Z.mod_pos_bound out (2 ^ 31)). lia.
Qed.

(** ** Spans cover the message *)

Lemma data_count_cover n fp : (0 < fp)%nat -> (0 < n)%nat ->
  ((n + fp - 1) / fp <> 0)%nat /\
  (((n + fp - 1) / fp - 1) * fp < n <= ((n + fp - 1) / fp) * fp)%nat.
Proof.
  intros Hf Hn. pose proof (Nat.div_mod_eq (n + fp - 1) fp) as E.
  pose proof (Nat.mod_upper_bound (n + fp - 1) fp ltac:(lia)).
  set (q := ((n + fp - 1) / fp)%nat) in *. assert (0 < q)%nat by nia. split; [lia|]. nia.
Qed.

Lemma concat_spans full fp n : concat (spans full fp n) = take (n * fp) full.
Proof.
  unfold spans. induction n as [|n IH]; [done|].
  rewrite seq_S, fmap_app, concat_app, IH. simpl. rewrite app_nil_r.
  replace (fp + n * fp)%nat with (n * fp + fp)%nat by lia. by rewrite take_take_drop.
Qed.

Lemma length_spans full fp n : length (spans full fp n) = n.
Proof. unfold spans. by rewrite length_fmap, length_seq. Qed.

Lemma spans_lookup full fp n i : (i < n)%nat ->
  spans full fp n !! i = Some (take fp (drop (i * fp) full)).
Proof. intros H. unfold spans. by rewrite list_lookup_fmap, lookup_seq_lt. Qed.

End Fragmenter.
