(* ===== verification/Reassembler.v ===== *)
(** * Inbound data path (tight/src/reassembler.cpp)

    Collection of the fragments of a message, erasure recovery and delivery.
    An index outside a vector is a [Fault]; [deliver] calls are outputs. *)
From stdpp Require Import base list numbers option sets gmap strings.
From Stdlib Require Import ZArith Lia.
From S2P Require Import Prelude Wire GF256 ReedSolomon Float64 Maps Types Peer SeqTracker.

Local Open Scope Z_scope.
Import Types Wire Peer SeqTracker.

Module Reassembler.

(** Rate limit of the drop log: the new time stamp. *)
Definition log_oversize_drop (ts now : Z) : Z :=
  if now - ts <? seconds 1 then ts else now.

(** ** Building the message

    A part is the usable length of a fragment with its bytes. *)

Definition usable (size : Z) (frag : bytes) : nat := Nat.min (Z.to_nat size) (length frag).

Definition part_at (m : IncomingMessage) (i : nat) : res (nat * bytes) :=
  size ← at_index (m_sizes m) i;
  frag ← at_index (m_fragments m) i;
  match frag with Some f => Ok (usable size f, f) | None => Fault OutOfBounds end.

Definition stream_len (parts : list (nat * bytes)) : nat := sum_list_with fst parts.

(** The first [need] bytes of the stream, which may straddle fragments. *)
Fixpoint read_prefix (parts : list (nat * bytes)) (need : nat) : bytes :=
  match parts with
  | [] => []
  | (n, f) :: parts =>
      if (need =? 0)%nat then [] else
      let k := Nat.min n need in take k f ++ read_prefix parts (need - k)
  end.

(** The copy loop: [skip] bytes of the stream are dropped, then [room] bytes
    are written. *)
Fixpoint copy_parts (parts : list (nat * bytes)) (skip room : nat) : bytes :=
  match parts with
  | [] => []
  | (n, f) :: parts =>
      if (room =? 0)%nat then [] else
      if (n <=? skip)%nat then copy_parts parts (skip - n) room else
      let k := Nat.min (n - skip) room in
      take k (drop skip f) ++ copy_parts parts 0 (room - k)
  end.

(** Message and new log time stamp. *)
Definition build_msg (parts : list (nat * bytes)) (max_message_bytes : Z)
    (drop_log : bool) (ts log_now : Z) : bytes * Z :=
  let slen := stream_len parts in
  if (slen <? 4)%nat then ([], ts) else
  let total := to_be32 (load_le (resize0 4 (read_prefix parts 4))) in
  if max_message_bytes <? total then
    ([], if drop_log then log_oversize_drop ts log_now else ts)
  else
    let total := if Z.of_nat (slen - 4) <? total then Z.of_nat (slen - 4) else total in
    (resize0 (Z.to_nat total) (copy_parts parts 4 (Z.to_nat total)), ts).

(** ** Assembly *)

Definition effective_data_count (m : IncomingMessage) : Z :=
  if 0 <? m_data_count m then m_data_count m else m_total_count m - 1.

Definition max_width (frags : list (option bytes)) : nat :=
  foldl (fun w f => match f with Some b => Nat.max w (length b) | None => w end) 0%nat frags.

(** Received parity fragments with their row numbers, in order. The loop runs
    to [parity_count], a wrapped [size_t]; only existing indices count. *)
Definition collect_parities (frags : list (option bytes)) (data_count : nat) : list (nat * bytes) :=
  omap (fun '(p, f) => match f with Some b => Some (p, b) | None => None end)
    (imap pair (drop data_count frags)).

(** Recovered fragments take the full width as their size. *)
Definition refill (m : IncomingMessage) (recovered : list (option bytes)) (width : nat)
    : IncomingMessage :=
  let n := length recovered in
  let fresh i := match m_fragments m !! i, recovered !! i with
                 | Some None, Some (Some b) => Some b | _, _ => None end in
  mkIncoming (m_message_id m) (m_total_count m) (m_data_count m)
    (imap (fun i f => match fresh i with Some b => Some b | None => f end) (m_fragments m))
    (imap (fun i s => match fresh i with Some _ => u16 (Z.of_nat width) | None => s end) (m_sizes m))
    (m_first_seen m).

Record Assembled := mkAssembled {
  as_message : IncomingMessage; as_ts : Z; as_deliver : option bytes }.

Definition deliver_message (m : IncomingMessage) (data_count : nat) (max_message_bytes : Z)
    (drop_log : bool) (ts log_now : Z) : res Assembled :=
  parts ← mapM (part_at m) (seq 0 data_count);
  let '(msg, ts) := build_msg parts max_message_bytes drop_log ts log_now in
  Ok (mkAssembled m ts (Some msg)).

Definition count_missing (data : list (option bytes)) : nat :=
  length (List.filter (fun f => negb (bool_decide (is_Some f))) data).

(** [as_deliver] is [None] when the function returns [false]. *)
Definition try_assemble (m : IncomingMessage) (max_message_bytes : Z)
    (drop_log : bool) (ts log_now : Z) : res Assembled :=
  let wait := Ok (mkAssembled m ts None) in
  if m_total_count m <? 2 then wait else
  let dc := effective_data_count m in
  let data_count := Z.to_nat dc in
  let parity_count := u64 (m_total_count m - dc) in
  data ← mapM (at_index (m_fragments m)) (seq 0 data_count);
  let multi := count_missing data in
  if (multi =? 0)%nat then
    deliver_message m data_count max_message_bytes drop_log ts log_now
  else if parity_count <? Z.of_nat multi then wait else
  let width := max_width (m_fragments m) in
  if (width =? 0)%nat then wait else
  let parities := collect_parities (m_fragments m) data_count in
  if (length parities <? multi)%nat then wait else
  match ReedSolomon.decode data parities width with
  | None => wait
  | Some data => deliver_message (refill m data width) data_count max_message_bytes drop_log ts log_now
  end.

(** ** Packet handler *)

(** First fragment of a message: the entry takes the counts of the header. *)
Definition init_incoming (h : PacketHeader) (now : Z) (m : IncomingMessage) : IncomingMessage :=
  if m_message_id m =? 0 then
    let cnt := Z.to_nat (fragment_count h) in
    mkIncoming (message_id h) (fragment_count h) (flags h) (replicate cnt None) (replicate cnt 0) now
  else m.

Definition store_fragment (h : PacketHeader) (payload : bytes) (m : IncomingMessage)
    : IncomingMessage :=
  let idx := Z.to_nat (fragment_index h) in
  match m_fragments m !! idx with
  | Some None =>
      mkIncoming (m_message_id m) (m_total_count m) (m_data_count m)
        (<[idx := Some payload]> (m_fragments m)) (<[idx := reserved h]> (m_sizes m)) (m_first_seen m)
  | _ => m
  end.

Definition set_incoming (k : Z) (m : IncomingMessage) (a : Assembly) : Assembly :=
  mkAssembly (<[k := m]> (m_incoming a)) (m_completed a) (m_oversize_log_ts a).

(** The second half of [handle_data], on the assembly state. *)
Definition collect (a : Assembly) (h : PacketHeader) (payload : bytes)
    (max_message_bytes : Z) (drop_log : bool) (now log_now : Z) : res (Assembly * list bytes) :=
  let idx := fragment_index h in
  let cnt := fragment_count h in
  let id := message_id h in
  if cnt =? 0 then Ok (a, []) else
  if bool_decide (is_Some (m_completed a !! id)) then Ok (a, []) else
  if cnt <=? idx then Ok (a, []) else
  let max_fragments := max_message_bytes / 64 + 8 in
  if max_fragments <? cnt then
    Ok (if drop_log
        then mkAssembly (m_incoming a) (m_completed a) (log_oversize_drop (m_oversize_log_ts a) log_now)
        else a, [])
  else
  let m := init_incoming h now (default new_incoming (m_incoming a !! id)) in
  if negb (m_total_count m =? cnt) then Ok (set_incoming id m a, []) else
  if (length (m_fragments m) <=? Z.to_nat idx)%nat then Ok (set_incoming id m a, []) else
  let m := store_fragment h payload m in
  r ← try_assemble m max_message_bytes drop_log (m_oversize_log_ts a) log_now;
  match as_deliver r with
  | None => Ok (mkAssembly (<[id := as_message r]> (m_incoming a)) (m_completed a) (as_ts r), [])
  | Some msg =>
      Ok (mkAssembly (delete id (m_incoming a)) (<[id := now]> (m_completed a)) (as_ts r), [msg])
  end.

Definition handle_data (p : Peer) (h : PacketHeader) (payload : bytes) (rtt_us : Z)
    (late_multiplier : F64.double) (max_message_bytes : Z) (now unix_ms log_now : Z)
    : res (Peer * list bytes) :=
  let transit_us := transit_time_us (clock p) (tick h) unix_ms in
  lt ← account_late (late p) transit_us rtt_us late_multiplier;
  let t := track_sequence (track p) (sequence h) now in
  '(a, out) ← collect (asm p) h payload max_message_bytes (m_drop_log (link p)) now log_now;
  Ok (set_asm a (set_track t (set_late lt p)), out).

(** ** The copy loops against the byte stream *)

Definition stream (parts : list (nat * bytes)) : bytes :=
  concat ((fun '(n, f) => take n f) <$> parts).

Definition parts_ok (parts : list (nat * bytes)) : Prop :=
  Forall (fun '(n, f) => (n <= length f)%nat) parts.

Lemma length_stream parts : parts_ok parts -> length (stream parts) = stream_len parts.
Proof.
  unfold stream, stream_len. induction 1 as [|[n f] parts Hn _ IH]; csimpl; [done|].
  rewrite length_app, IH, length_take. lia.
Qed.

Lemma read_prefix_stream parts need :
  parts_ok parts -> read_prefix parts need = take need (stream parts).
Proof.
  intros H. revert need. unfold stream.
  induction H as [|[n f] parts Hn _ IH]; intros need; csimpl; [by rewrite take_nil|].
  destruct (Nat.eqb_spec need 0) as [->|Hne]; [done|].
  rewrite take_app, take_take, length_take, IH. f_equal; [f_equal; lia|].
  destruct (decide (n <= need)%nat).
  - do 2 f_equal. lia.
  - replace (need - Nat.min n need)%nat with 0%nat by lia.
    by replace (need - Nat.min n (length f))%nat with 0%nat by lia.
Qed.

Lemma copy_parts_stream parts skip room :
  parts_ok parts -> copy_parts parts skip room = take room (drop skip (stream parts)).
Proof.
  intros H. revert skip room. unfold stream.
  induction H as [|[n f] parts Hn _ IH]; intros skip room; csimpl.
  { by rewrite drop_nil, take_nil. }
  destruct (Nat.eqb_spec room 0) as [->|Hne]; [done|].
  assert (length (take n f) = n) as Hl by (rewrite length_take; lia).
  destruct (Nat.leb_spec n skip) as [Hle|Hgt]; rewrite IH.
  - by rewrite (drop_app_ge (take n f)), Hl by lia.
  - rewrite (drop_app_le (take n f)) by lia. rewrite take_app, drop_0.
    assert (length (drop skip (take n f)) = n - skip)%nat as Hd by (rewrite length_drop; lia).
    rewrite Hd. f_equal.
    + replace (take n f) with (take (skip + (n - skip)) f) by (f_equal; lia).
      rewrite <- take_drop_commute, take_take. f_equal. lia.
    + destruct (decide (n - skip <= room)%nat).
      * do 2 f_equal. lia.
      * replace (room - (n - skip))%nat with 0%nat by lia.
        by replace (room - Nat.min (n - skip) room)%nat with 0%nat by lia.
Qed.

(** The message encoded by a byte stream: length prefix, then content. *)
Definition stream_message (max : Z) (s : bytes) : bytes :=
  if (length s <? 4)%nat then [] else
  let total := get32 s 0 in
  if max <? total then [] else take (Z.to_nat total) (drop 4 s).

Lemma build_msg_stream parts max dl ts now :
  parts_ok parts -> (build_msg parts max dl ts now).1 = stream_message max (stream parts).
Proof.
  intros Hp. unfold build_msg, stream_message. rewrite <- length_stream by done.
  destruct (Nat.ltb_spec (length (stream parts)) 4) as [|Hge]; [done|].
  rewrite read_prefix_stream, resize0_app by (done || (rewrite length_take; lia)).
  replace (4 - length (take 4 (stream parts)))%nat with 0%nat by (rewrite length_take; lia).
  cbn [replicate]. rewrite (right_id_L [] (++)). unfold get32, get. rewrite drop_0.
  set (total := to_be32 _). destruct (Z.ltb_spec max total) as [|Hmax]; [done|]. simpl.
  rewrite copy_parts_stream by done.
  destruct (Z.ltb_spec (Z.of_nat (length (stream parts) - 4)) total) as [Hlt|Hle].
  - rewrite Nat2Z.id. rewrite (take_ge (drop 4 _)) by (rewrite length_drop; lia).
    rewrite (take_ge (drop 4 _)) by (rewrite length_drop; lia).
    rewrite resize0_app by (rewrite length_drop; lia). rewrite length_drop, Nat.sub_diag.
    apply (right_id_L [] (++)).
  - pose proof (to_be32_width (load_le (take 4 (stream parts)))) as [H0 _]. fold total in H0.
    rewrite resize0_app by (rewrite length_take, length_drop; lia).
    rewrite length_take, length_drop.
    replace (Z.to_nat total - _)%nat with 0%nat by lia. apply (right_id_L [] (++)).
Qed.

(** The zero-copy assembly loops compute the message of the fragment
    stream: the length prefix (even when it straddles fragments) followed by
    that many bytes, cut at the end of the stream; oversized messages give the
    empty message. *)
Theorem build_msg_reference parts max dl ts now :
  parts_ok parts -> (build_msg parts max dl ts now).1 = stream_message max (stream parts).
Proof. apply build_msg_stream. Qed.

Lemma build_msg_reference_witness :
  (build_msg [(2%nat, [0; 0; 9]); (3%nat, [0; 2; 65]); (1%nat, [66; 67])] 100 true 0 0).1 =
  stream_message 100 [0; 0; 0; 2; 65; 66].
Proof. apply build_msg_reference. repeat constructor; simpl; lia. Defined.

(** ** Memory safety *)

Record incoming_ok (m : IncomingMessage) : Prop := {
  io_frags : length (m_fragments m) = Z.to_nat (m_total_count m);
  io_sizes : length (m_sizes m) = Z.to_nat (m_total_count m);
  io_data : 0 <= m_data_count m <= m_total_count m }.

Definition asm_ok (a : Assembly) : Prop := map_Forall (fun _ m => incoming_ok m) (m_incoming a).

(** What a header must satisfy for its fragment to be handled safely. *)
Definition header_sane (h : PacketHeader) : Prop :=
  0 <= flags h <= fragment_count h /\ 0 <= fragment_index h.

Lemma init_incoming_ok h now m : header_sane h -> incoming_ok m -> incoming_ok (init_incoming h now m).
Proof.
  intros [Hf _] Hm. unfold init_incoming. case_match; [|done].
  split; simpl; rewrite ?length_replicate; done.
Qed.

Lemma store_fragment_ok h payload m : incoming_ok m -> incoming_ok (store_fragment h payload m).
Proof.
  intros Hm. unfold store_fragment. repeat case_match; try done.
  destruct Hm. by split; simpl; rewrite ?length_insert.
Qed.

Lemma new_incoming_ok : incoming_ok new_incoming.
Proof. by split. Qed.

Lemma refill_ok m d w : incoming_ok m -> incoming_ok (refill m d w).
Proof. intros []. split; simpl; by rewrite ?length_imap. Qed.

(** Every fragment below [n] is there. *)
Definition full_upto (m : IncomingMessage) (n : nat) : Prop :=
  forall i, (i < n)%nat -> exists b, m_fragments m !! i = Some (Some b).

Lemma deliver_message_ok m n max dl ts now :
  incoming_ok m -> (n <= Z.to_nat (m_total_count m))%nat -> full_upto m n ->
  exists ts' msg, deliver_message m n max dl ts now = Ok (mkAssembled m ts' (Some msg)).
Proof.
  intros [Hf Hs _] Hn Hfull. unfold deliver_message.
  rewrite (mapM_Ok _ (fun i =>
    let f := match m_fragments m !! i with Some (Some b) => b | _ => [] end in
    (usable (default 0 (m_sizes m !! i)) f, f))).
  - simpl. destruct (build_msg _ _ _ _ _) as [msg ts']. eauto.
  - intros i Hi. apply elem_of_seq in Hi. unfold part_at.
    destruct (lookup_lt_is_Some_2 (m_sizes m) i) as [sz Hsz]; [lia|].
    destruct (Hfull i ltac:(lia)) as [b Hb].
    rewrite (at_index_lookup _ _ _ Hsz), (at_index_lookup _ _ _ Hb), Hsz, Hb. done.
Qed.

Lemma count_missing_0 data : count_missing data = 0%nat ->
  forall i, (i < length data)%nat -> exists b, data !! i = Some (Some b).
Proof.
  intros H i Hi. destruct (lookup_lt_is_Some_2 data i Hi) as [[b|] Ho]; [by exists b|].
  exfalso. unfold count_missing in H. apply nil_length_inv in H.
  assert (None ∈ List.filter (fun f => negb (bool_decide (is_Some f))) data) as Hin.
  { apply list_elem_of_In, filter_In. split; [apply list_elem_of_In, list_elem_of_lookup; eauto|].
    apply negb_true_iff, bool_decide_eq_false. by intros [? ?]. }
  rewrite H in Hin. set_solver.
Qed.

Lemma refill_full m data data' w n :
  data = take n (m_fragments m) -> length data' = length data ->
  (forall j, (j < length data)%nat -> exists b, data' !! j = Some (Some b)) ->
  (n <= length (m_fragments m))%nat -> full_upto (refill m data' w) n.
Proof.
  intros -> Hl Hall Hn i Hi. simpl. rewrite list_lookup_imap.
  rewrite length_take in Hall. destruct (Hall i) as [b Hb]; [lia|].
  destruct (lookup_lt_is_Some_2 (m_fragments m) i) as [[f|] Hf]; [lia|..]; rewrite Hf; simpl; [eauto|].
  rewrite Hb. eauto.
Qed.

Lemma try_assemble_ok m max dl ts now :
  incoming_ok m ->
  exists r, try_assemble m max dl ts now = Ok r /\ incoming_ok (as_message r).
Proof.
  intros Hm. unfold try_assemble. destruct (Z.ltb_spec (m_total_count m) 2) as [|H2]; [eauto|].
  assert (0 < effective_data_count m <= m_total_count m) as Hdc.
  { destruct Hm as [_ _ Hd]. unfold effective_data_count. case_bool; lia. }
  pose proof Hm as [Hf Hs _].
  rewrite mapM_at_index by lia. cbn [mbind res_bind].
  destruct (Nat.eqb_spec (count_missing (take (Z.to_nat (effective_data_count m)) (m_fragments m))) 0)
    as [H0|H0].
  { destruct (deliver_message_ok m (Z.to_nat (effective_data_count m)) max dl ts now) as (ts' & msg & ->);
      [done|lia| |eauto].
    intros i Hi. destruct (count_missing_0 _ H0 i) as [b Hb]; [rewrite length_take; lia|].
    exists b. by rewrite lookup_take_lt in Hb. }
  repeat (case_match; [by eauto|]). case_match eqn:Ed; [|by eauto].
  apply ReedSolomon.decode_fills in Ed as [Hl Hall].
  edestruct (deliver_message_ok (refill m l (max_width (m_fragments m)))) as (ts' & msg & ->);
    [by apply refill_ok| | |].
  3: { eexists. split; [done|]. by apply refill_ok. }
  - simpl. lia.
  - eapply refill_full; [done|done|done|lia].
Qed.

Lemma asm_ok_insert a k m c ts :
  asm_ok a -> incoming_ok m -> asm_ok (mkAssembly (<[k := m]> (m_incoming a)) c ts).
Proof. intros Ha Hm. by apply map_Forall_insert_2. Qed.

Lemma collect_ok a h payload max dl now log_now :
  asm_ok a -> header_sane h ->
  exists a' out, collect a h payload max dl now log_now = Ok (a', out) /\ asm_ok a'.
Proof.
  intros Ha Hh. unfold collect.
  destruct (_ =? 0); [by eauto|]. destruct (bool_decide _); [by eauto|].
  destruct (_ <=? _); [by eauto|].
  destruct (_ <? _); [eexists _, _; split; [done|]; by destruct dl|].
  assert (incoming_ok (init_incoming h now (default new_incoming (m_incoming a !! message_id h)))) as Hm.
  { apply init_incoming_ok; [done|]. destruct (m_incoming a !! message_id h) eqn:E; simpl.
    - by apply (Ha _ _ E).
    - apply new_incoming_ok. }
  revert Hm. generalize (init_incoming h now (default new_incoming (m_incoming a !! message_id h))).
  intros m Hm. destruct (negb _); [eexists _, _; split; [done|]; by apply asm_ok_insert|].
  destruct (_ <=? _)%nat; [eexists _, _; split; [done|]; by apply asm_ok_insert|].
  destruct (try_assemble_ok (store_fragment h payload m) max dl (m_oversize_log_ts a) log_now)
    as (r & -> & Hr); [by apply store_fragment_ok|]. simpl.
  destruct (as_deliver r); eexists _, _; (split; [done|]); [|by apply asm_ok_insert].
  by apply map_Forall_delete.
Qed.

(** C23. Memory safety of the assembly: as long as every header announces at
    most as many data fragments as fragments, no index leaves its vector, and
    the invariant of the message table is preserved. *)
Theorem collect_safe a h payload max dl now log_now :
  asm_ok a -> header_sane h ->
  exists a' out, collect a h payload max dl now log_now = Ok (a', out) /\ asm_ok a'.
Proof. apply collect_ok. Qed.

Definition demo_data (count dcount : Z) : PacketHeader :=
  mkHeader kMagic kVersion Data dcount 1 1 5 0 9 0 count 1 1 0 0.

Lemma collect_safe_witness :
  exists a' out, collect new_asm (demo_data 3 2) [7] 65536 true 0 0 = Ok (a', out) /\ asm_ok a'.
Proof.
  apply collect_safe; [by apply map_Forall_empty|]. unfold header_sane. simpl. lia.
Defined.

(** C26. When the handler reads outside the fragment vector. Take the first packet
    of a message, with any payload, whose index and fragment count pass the
    checks of the handler: if it announces at least two fragments and more data
    fragments than fragments, the assembly indexes past the end of the vector,
    and otherwise it does not fault. *)
Theorem collect_out_of_bounds a h payload max dl now log_now (Ha : asm_ok a)
    (Hin : m_incoming a !! message_id h = None) (Hdone : m_completed a !! message_id h = None)
    (Hidx : 0 <= fragment_index h < fragment_count h) (Hmax : fragment_count h <= max / 64 + 8) (Hflags : 0 <= flags h) :
  (2 <= fragment_count h < flags h -> collect a h payload max dl now log_now = Fault OutOfBounds) /\
  (~ 2 <= fragment_count h < flags h -> exists a' out, collect a h payload max dl now log_now = Ok (a', out)).
Proof.
  assert (collect a h payload max dl now log_now =
    let m := store_fragment h payload (init_incoming h now new_incoming) in
    r ← try_assemble m max dl (m_oversize_log_ts a) log_now;
    match as_deliver r with
    | None => Ok (mkAssembly (<[message_id h := as_message r]> (m_incoming a)) (m_completed a) (as_ts r), [])
    | Some msg => Ok (mkAssembly (delete (message_id h) (m_incoming a)) (<[message_id h := now]> (m_completed a)) (as_ts r), [msg])
    end) as Ec.
  { unfold collect. rewrite (proj2 (Z.eqb_neq _ _)) by lia. rewrite Hdone, Hin.
    rewrite (proj2 (Z.leb_gt _ _)) by lia. rewrite (proj2 (Z.ltb_ge _ _)) by lia. cbn [default bool_decide].
    rewrite bool_decide_false by (by intros [? ?]).
    assert (m_total_count (init_incoming h now new_incoming) = fragment_count h) as -> by done.
    assert (length (m_fragments (init_incoming h now new_incoming)) = Z.to_nat (fragment_count h)) as -> by apply length_replicate.
    rewrite Z.eqb_refl. cbn [negb]. by rewrite (proj2 (Nat.leb_gt _ _)) by lia. }
  split.
  - intros [H2 Hd]. rewrite Ec. cbv zeta. unfold store_fragment, init_incoming.
    cbn [m_message_id new_incoming Z.eqb m_fragments m_sizes]. rewrite lookup_replicate_2 by lia.
    unfold try_assemble. cbn [m_total_count m_data_count m_fragments]. rewrite (proj2 (Z.ltb_ge _ _)) by lia.
    unfold effective_data_count. cbn [m_data_count]. rewrite (proj2 (Z.ltb_lt _ _)) by lia.
    rewrite (mapM_at_index_out _ _ (Z.to_nat (fragment_count h))); [done|apply elem_of_seq; lia|].
    by rewrite length_insert, length_replicate.
  - intros Hn. destruct (decide (flags h <= fragment_count h)) as [Hle|Hgt].
    { destruct (collect_ok a h payload max dl now log_now Ha) as (a' & out & E & _); [split; lia|by eexists _, _]. }
    rewrite Ec. cbv zeta. unfold store_fragment, init_incoming.
    cbn [m_message_id new_incoming Z.eqb m_fragments m_sizes]. rewrite lookup_replicate_2 by lia.
    unfold try_assemble. cbn [m_total_count]. rewrite (proj2 (Z.ltb_lt _ _)) by lia. by eexists _, _.
Qed.

Lemma collect_out_of_bounds_witness :
  collect new_asm (demo_data 2 3) [7] 65536 true 0 0 = Fault OutOfBounds.
Proof.
  apply (collect_out_of_bounds new_asm (demo_data 2 3) [7] 65536 true 0 0);
    [by apply map_Forall_empty|reflexivity|reflexivity|cbn; lia|vm_compute; discriminate|cbn; lia|cbn; lia].
Defined.

(** ** Isolation of messages *)

Lemma collect_other a h payload max dl now log_now a' out k :
  collect a h payload max dl now log_now = Ok (a', out) -> k <> message_id h ->
  m_incoming a' !! k = m_incoming a !! k /\ m_completed a' !! k = m_completed a !! k.
Proof.
  intros H Hk. unfold collect, set_incoming in H.
  repeat (case_match; simplify_eq; [by rewrite ?lookup_insert_ne by done|]).
  repeat (case_match; simplify_eq; [done|]).
  repeat case_match; simplify_eq; try inv_bind H; repeat case_match; simplify_eq; simpl;
    rewrite ?lookup_insert_ne, ?lookup_delete_ne by done; done.
Qed.

End Reassembler.
