(* ===== verification/DataPath.v ===== *)
(** * End-to-end message delivery

    The fragmenter of one endpoint composed with the reassembler of the other.
    Packets may be lost, duplicated, reordered and interleaved with those of
    other messages. *)
From stdpp Require Import base list numbers option sets gmap strings.
From Stdlib Require Import ZArith Lia.
From S2P Require Import Prelude Wire GF256 ReedSolomon Float64 Maps.
From S2P Require Import Types Peer SeqTracker Report Fragmenter Reassembler.

Local Open Scope Z_scope.
Import Types Wire Peer SeqTracker Fragmenter Reassembler.

Module DataPath.

(** ** Generic facts on the assembly helpers *)

Lemma omap_cons_eq {A B} (f : A -> option B) x l :
  omap f (x :: l) = match f x with Some y => y :: omap f l | None => omap f l end.
Proof. done. Qed.

Lemma take_usable_resize0 s w :
  (length s <= w)%nat -> in_width 16 (Z.of_nat (length s)) ->
  take (usable (u16 (Z.of_nat (length s))) (resize0 w s)) (resize0 w s) = s.
Proof.
  intros Hl H16. unfold usable. rewrite u16_id, Nat2Z.id, length_resize0 by done.
  rewrite resize0_app by done. rewrite Nat.min_l by lia. apply take_app_length.
Qed.

Lemma take_usable_full b w :
  length b = w -> in_width 16 (Z.of_nat w) -> take (usable (u16 (Z.of_nat w)) b) b = b.
Proof.
  intros Hl H16. unfold usable. rewrite u16_id, Nat2Z.id by done. apply take_ge. lia.
Qed.

Lemma spans_cons full fp n :
  spans full fp (S n) = take fp full :: spans (drop fp full) fp n.
Proof.
  unfold spans. simpl. rewrite drop_0. f_equal. rewrite <- fmap_S_seq, <- list_fmap_compose.
  apply list_fmap_ext. intros i x _. simpl. by rewrite drop_drop.
Qed.

(** Zero padding only ever appears behind the message. *)
Lemma padded_spans fp n full xs :
  (0 < fp)%nat -> ((n - 1) * fp < length full <= n * fp)%nat ->
  Forall2 (fun s x => x = s \/ x = resize0 fp s) (spans full fp n) xs ->
  exists k, concat xs = full ++ replicate k 0.
Proof.
  intros Hf. revert full xs. induction n as [|n IH]; intros full xs Hl HF; [lia|].
  rewrite spans_cons in HF. inversion HF as [|s x ? xs' Hx HF' E1 E2]; subst. simpl.
  destruct n as [|n].
  - inversion HF'; subst. simpl. rewrite app_nil_r, take_ge in * by lia.
    destruct Hx as [->| ->]; [exists 0%nat; simpl; by rewrite app_nil_r|].
    exists (fp - length full)%nat. apply resize0_app. lia.
  - destruct (IH (drop fp full) xs') as [k Hk]; [rewrite length_drop; lia|done|].
    exists k. rewrite Hk. assert (x = take fp full) as ->.
    { destruct Hx as [->| ->]; [done|].
      assert (length (take fp full) = fp) as E by (rewrite length_take; lia).
      rewrite resize0_app by lia. rewrite E, Nat.sub_diag. apply app_nil_r. }
    by rewrite (assoc_L (++)), take_drop.
Qed.

Lemma count_missing_indices data : count_missing data = length (ReedSolomon.missing_indices data).
Proof.
  unfold count_missing, ReedSolomon.missing_indices.
  assert (forall pre, length (List.filter (fun f => negb (bool_decide (is_Some f))) data) =
    length (List.filter (ReedSolomon.is_missing (pre ++ data)) (seq (length pre) (length data)))) as H;
    [|apply (H [])].
  induction data as [|o data IH]; intros pre; simpl; [done|].
  specialize (IH (pre ++ [o])). rewrite <- (assoc_L (++)), length_app, Nat.add_1_r in IH. simpl in IH.
  unfold ReedSolomon.is_missing at 1. rewrite lookup_app_r, Nat.sub_diag by lia. simpl.
  destruct o as [b|]; simpl; by rewrite IH.
Qed.

Lemma max_width_const frags w :
  (forall f, Some f ∈ frags -> length f = w) -> (exists f, Some f ∈ frags) -> max_width frags = w.
Proof.
  unfold max_width. intros Hw He.
  assert (forall (frags : list (option bytes)) m, (m <= w)%nat -> (forall f, Some f ∈ frags -> length f = w) ->
    (m = w \/ exists f, Some f ∈ frags) ->
    foldl (fun w f => match f with Some b => Nat.max w (length b) | None => w end) m frags = w) as Hg.
  { clear. induction frags as [|o frags IH]; intros m Hm Hw He; simpl.
    - destruct He as [|[f Hf]]; [done|set_solver].
    - destruct o as [b|].
      + rewrite (Hw b) by left. apply IH; [lia|intros; apply Hw; by right|left; lia].
      + apply IH; [done|intros; apply Hw; by right|]. destruct He as [|[f Hf]]; [by left|].
        right. exists f. set_solver. }
  apply Hg; [lia|done|by right].
Qed.

(** ** What the fragmenter puts on the wire *)

Record sent (payload : bytes) (w n pc : nat) (id : Z) (frags : list Fragment) : Prop := {
  se_w : (0 < w)%nat /\ Z.of_nat w < 2 ^ 16;
  se_n : (0 < n)%nat;
  se_pc : (1 <= pc <= 3)%nat;
  se_cnt : Z.of_nat (n + pc) < 2 ^ 16;
  se_cover : ((n - 1) * w < length (prefixed payload) <= n * w)%nat;
  se_bytes : bytes_ok payload;
  se_len : Z.of_nat (length payload) < 2 ^ 32;
  se_id : 0 < id < 2 ^ 31;
  se_length : length frags = (n + pc)%nat;
  se_data : forall i s, spans (prefixed payload) w n !! i = Some s ->
    frags !! i = Some (mkFragment id (Z.of_nat i) (Z.of_nat (n + pc)) (Z.of_nat n)
                         (u16 (Z.of_nat (length s))) s w true);
  se_parity : forall p, (p < pc)%nat -> exists row,
    frags !! (n + p)%nat = Some (mkFragment id (Z.of_nat (n + p)) (Z.of_nat (n + pc)) (Z.of_nat n)
                                   (u16 (Z.of_nat w)) row w true) /\
    length row = w /\
    forall k, (k < w)%nat ->
      byte_at row k = ReedSolomon.parity_byte (spans (prefixed payload) w n) p k }.

Lemma prefixed_ok payload : bytes_ok payload -> bytes_ok (prefixed payload).
Proof. intros H. apply bytes_ok_app. split; [apply store_le_ok|done]. Qed.

Lemma length_prefixed payload : length (prefixed payload) = (4 + length payload)%nat.
Proof. unfold prefixed. by rewrite length_app, length_store_le. Qed.

Lemma spans_ok full fp n : bytes_ok full -> ReedSolomon.frags_ok (spans full fp n).
Proof.
  intros H. unfold spans. apply Forall_fmap, Forall_true. intros i.
  by apply bytes_ok_take, bytes_ok_drop.
Qed.

Lemma frag_payload_pos mtu : 4 < frag_payload mtu.
Proof. unfold frag_payload. case_bool; lia. Qed.

(** Data fragments of a message of [len] bytes at a given MTU. *)
Definition data_count (len : nat) (mtu : Z) : Z :=
  let fp := frag_payload mtu in (Z.of_nat len + 4 + fp - 1) / fp.

Lemma length_encode_row_ge fs p w buf :
  (w <= length (ReedSolomon.encode_row fs p w buf))%nat.
Proof.
  unfold ReedSolomon.encode_row. rewrite ReedSolomon.fold_mul_add_length.
  destruct (Nat.ltb_spec (length buf) w); rewrite ?length_app, length_replicate; lia.
Qed.

Lemma fragment_and_send_sent log2 st payload mtu scratch st' frags :
  bytes_ok payload -> Z.of_nat (length payload) < 2 ^ 32 -> in_width 32 (m_msg_id_out st) ->
  mtu < 2 ^ 16 -> data_count (length payload) mtu + 3 < 2 ^ 16 ->
  fragment_and_send log2 st payload mtu scratch = Ok (st', frags) ->
  exists pc id, sent payload (Z.to_nat (frag_payload mtu)) (Z.to_nat (data_count (length payload) mtu))
    pc id frags /\ id = (next_msg_id (m_msg_id_out st)).1.
Proof.
  intros Hb Hlen Hid Hmtu Hdc. unfold fragment_and_send.
  destruct (next_msg_id (m_msg_id_out st)) as [id out] eqn:Eid.
  pose proof (next_msg_id_spec _ _ _ Hid Eid) as [Hid' _].
  pose proof (frag_payload_pos mtu) as Hfp.
  assert (frag_payload mtu < 2 ^ 16) as Hfp' by (unfold frag_payload in *; revert Hfp; case_bool; lia).
  set (fp := Z.to_nat (frag_payload mtu)).
  pose proof (data_count_cover (length (prefixed payload)) fp ltac:(lia)
    ltac:(rewrite length_prefixed; lia)) as [Hn0 Hcov].
  rewrite (proj2 (Nat.eqb_neq _ _) Hn0).
  assert (((length (prefixed payload) + fp - 1) / fp)%nat = Z.to_nat (data_count (length payload) mtu))
    as En.
  { unfold data_count. rewrite length_prefixed. rewrite <- (Nat2Z.id (_ / _)). f_equal.
    rewrite Nat2Z.inj_div. f_equal; lia. }
  rewrite En in *. set (n := Z.to_nat (data_count (length payload) mtu)) in *.
  intros H. inv_bind H. apply parity_count_range in E. injection H as <- <-.
  set (sp := spans (prefixed payload) fp n).
  assert (length sp = n) as Hlsp by apply length_spans.
  exists (Z.to_nat a), id. split; [|done].
  rewrite !(u16_id (Z.of_nat n + a)), !(u16_id (Z.of_nat n)) by (unfold in_width; lia).
  replace (Z.of_nat n + a) with (Z.of_nat (n + Z.to_nat a)) by lia.
  split; try done; try lia.
  - unfold data_fragments, parity_fragments.
    rewrite length_app, length_imap, length_fmap, length_seq. by rewrite Hlsp.
  - intros i s Hs. pose proof (lookup_lt_Some _ _ _ Hs) as Hi. fold sp in Hs, Hi.
    unfold data_fragments. rewrite lookup_app_l by (by rewrite length_imap).
    rewrite list_lookup_imap, Hs. simpl. by rewrite u16_id by (unfold in_width; lia).
  - intros p Hp. eexists. split; [|split].
    + unfold data_fragments, parity_fragments.
      rewrite lookup_app_r by (rewrite length_imap; lia). rewrite length_imap, Hlsp.
      replace (n + p - n)%nat with p by lia.
      rewrite list_lookup_fmap, lookup_seq_lt by done. simpl.
      by rewrite (u16_id (Z.of_nat (n + p))) by (unfold in_width; lia).
    + rewrite ReedSolomon.encode_into_row, length_take by done.
      pose proof (length_encode_row_ge sp p fp (ReedSolomon.row_at scratch p)). lia.
    + intros k Hk. rewrite ReedSolomon.encode_into_row by done.
      change (ReedSolomon.parity_byte _ p k) with (ReedSolomon.parity_byte sp p k).
      rewrite <- (ReedSolomon.encode_row_spec sp p fp (ReedSolomon.row_at scratch p) k);
        [|by apply spans_ok, prefixed_ok|done].
      unfold byte_at. by rewrite lookup_take_lt.
Qed.

(** ** Assembly of one message *)

Section Message.
Context (payload : bytes) (w n pc : nat) (id : Z) (frags : list Fragment).
Context (Hsent : sent payload w n pc id frags).
Context (max : Z) (Hmax : Z.of_nat (length payload) <= max).

Let sp := spans (prefixed payload) w n.

(** Padded content of a fragment, as it travels. *)
Definition wire (f : Fragment) : bytes := resize0 (f_width f) (f_data f).

(** The table entry after the fragments of [S] have arrived. *)
Definition entry (S : gset nat) (first : Z) : IncomingMessage :=
  mkIncoming id (Z.of_nat (n + pc)) (Z.of_nat n)
    (imap (fun i f => if decide (i ∈ S) then Some (wire f) else None) frags)
    (imap (fun i f => if decide (i ∈ S) then f_real_size f else 0) frags) first.

Definition lost (S : gset nat) : list nat :=
  List.filter (fun i => negb (bool_decide (i ∈ S))) (seq 0 n).
Definition got (S : gset nat) : list nat :=
  List.filter (fun p => bool_decide ((n + p)%nat ∈ S)) (seq 0 pc).

(** Enough fragments to rebuild the message. *)
Definition enough (S : gset nat) : bool := (length (lost S) <=? length (got S))%nat.

Lemma length_sp : length sp = n.
Proof. apply length_spans. Qed.

Lemma span_len i s : sp !! i = Some s -> (length s <= w)%nat /\ in_width 16 (Z.of_nat (length s)).
Proof using Hsent.
  intros Hs. pose proof (lookup_lt_Some _ _ _ Hs) as Hi. rewrite length_sp in Hi.
  unfold sp in Hs. rewrite spans_lookup in Hs by done. injection Hs as <-.
  pose proof (se_w _ _ _ _ _ _ Hsent). rewrite length_take. unfold in_width. lia.
Qed.

(** *** Delivery from a complete entry *)

Lemma stream_message_prefixed k : stream_message max (prefixed payload ++ replicate k 0) = payload.
Proof using Hsent Hmax.
  unfold stream_message. rewrite length_app, length_prefixed.
  rewrite (proj2 (Nat.ltb_ge _ _)) by lia.
  unfold prefixed. rewrite <- (assoc_L (++)).
  assert (in_width 32 (Z.of_nat (length payload))) as Hw
    by (pose proof (se_len _ _ _ _ _ _ Hsent); unfold in_width; lia).
  assert (u32 (Z.land (Z.of_nat (length payload)) 0xFFFFFFFF) = Z.of_nat (length payload)) as ->.
  { change 0xFFFFFFFF with (Z.ones 32). rewrite Z.land_ones by lia.
    rewrite (Z.mod_small _ _ Hw). by apply u32_id. }
  change (store_le 4 (to_be32 (Z.of_nat (length payload))))
    with (Report.be32 (Z.of_nat (length payload))).
  set (post := payload ++ replicate k 0).
  assert (get32 (Report.be32 (Z.of_nat (length payload)) ++ post) 0 = Z.of_nat (length payload)) as ->
    by (by apply (Report.get32_at [])).
  rewrite (proj2 (Z.ltb_ge _ _)), Nat2Z.id by done. unfold post.
  rewrite drop_app_length' by (by rewrite Report.length_be32). apply take_app_length.
Qed.

Lemma deliver_spans m dl ts now :
  (forall i s, sp !! i = Some s -> exists sz b,
     m_sizes m !! i = Some sz /\ m_fragments m !! i = Some (Some b) /\
     (take (usable sz b) b = s \/ take (usable sz b) b = resize0 w s)) ->
  exists ts', deliver_message m n max dl ts now = Ok (mkAssembled m ts' (Some payload)).
Proof using Hsent Hmax.
  intros Hm. unfold deliver_message.
  set (g i := let f := match m_fragments m !! i with Some (Some b) => b | _ => [] end in
    (usable (default 0 (m_sizes m !! i)) f, f)).
  rewrite (mapM_Ok _ g).
  2: { intros i Hi. apply elem_of_seq in Hi. destruct (lookup_lt_is_Some_2 sp i) as [s Hs].
       { rewrite length_sp. lia. }
       destruct (Hm i s Hs) as (sz & b & E1 & E2 & _). unfold part_at, g.
       by rewrite (at_index_lookup _ _ _ E1), (at_index_lookup _ _ _ E2), E1, E2. }
  cbn [mbind res_bind].
  assert (parts_ok (g <$> seq 0 n)) as Hok.
  { apply Forall_fmap, Forall_true. intros i. unfold g, usable. simpl. lia. }
  assert (exists k, stream (g <$> seq 0 n) = prefixed payload ++ replicate k 0) as [k Hk].
  { unfold stream. rewrite <- list_fmap_compose.
    apply (padded_spans w n); [apply (se_w _ _ _ _ _ _ Hsent)|apply (se_cover _ _ _ _ _ _ Hsent)|].
    apply Forall2_same_length_lookup. fold sp. rewrite length_sp, length_fmap, length_seq.
    split; [done|]. intros i s x Hs Hx. rewrite list_lookup_fmap in Hx.
    destruct (seq 0 n !! i) eqn:Ei; [|done]. apply lookup_seq in Ei as [-> _].
    destruct (Hm i s Hs) as (sz & b & E1 & E2 & E3). simplify_eq/=. unfold g in *. simpl in *.
    rewrite E1, E2 in *. simpl in *. done. }
  pose proof (build_msg_stream (g <$> seq 0 n) max dl ts now Hok) as Hb.
  rewrite Hk, stream_message_prefixed in Hb.
  destruct (build_msg _ _ _ _ _) as [msg ts']. simpl in Hb. subst. eauto.
Qed.

(** *** The entry as the decoder sees it *)

Section Received.
Context (S : gset nat) (first : Z).
Context (HS : forall i, i ∈ S -> (i < n + pc)%nat).

Let data : list (option bytes) := take n (m_fragments (entry S first)).

Lemma entry_fragment i f : frags !! i = Some f ->
  m_fragments (entry S first) !! i = Some (if decide (i ∈ S) then Some (wire f) else None) /\
  m_sizes (entry S first) !! i = Some (if decide (i ∈ S) then f_real_size f else 0).
Proof. intros H. simpl. by rewrite !list_lookup_imap, H. Qed.

Lemma length_entry : length (m_fragments (entry S first)) = (n + pc)%nat.
Proof using Hsent. simpl. rewrite length_imap. apply (se_length _ _ _ _ _ _ Hsent). Qed.

Lemma length_data : length data = n.
Proof using Hsent. unfold data. rewrite length_take, length_entry. lia. Qed.

Lemma data_lookup i s : sp !! i = Some s ->
  data !! i = Some (if decide (i ∈ S) then Some (resize0 w s) else None).
Proof using Hsent.
  intros Hs. pose proof (lookup_lt_Some _ _ _ Hs) as Hi. rewrite length_sp in Hi.
  unfold data. rewrite lookup_take_lt by done.
  apply (se_data _ _ _ _ _ _ Hsent) in Hs. by apply entry_fragment in Hs as [-> _].
Qed.

Lemma data_missing : ReedSolomon.missing_indices data = lost S.
Proof using Hsent.
  unfold ReedSolomon.missing_indices, lost. rewrite length_data.
  apply List.filter_ext_in. intros i Hi. apply in_seq in Hi.
  destruct (lookup_lt_is_Some_2 sp i) as [s Hs]; [rewrite length_sp; lia|].
  unfold ReedSolomon.is_missing. rewrite (data_lookup i s Hs).
  destruct (decide (i ∈ S)); [by rewrite bool_decide_true|by rewrite bool_decide_false].
Qed.

Lemma data_consistent : ReedSolomon.consistent sp data w.
Proof using Hsent.
  split; [by rewrite length_data, length_sp|]. intros j x Hx.
  pose proof (lookup_lt_Some _ _ _ Hx) as Hj. rewrite length_data in Hj.
  destruct (lookup_lt_is_Some_2 sp j) as [s Hs]; [by rewrite length_sp|].
  rewrite (data_lookup j s Hs) in Hx. destruct (decide (j ∈ S)); simplify_eq.
  unfold ReedSolomon.row_at. rewrite Hs. simpl. split; [|intros; by apply byte_at_resize0].
  apply resize0_ok. pose proof (spans_ok (prefixed payload) w n
    (prefixed_ok _ (se_bytes _ _ _ _ _ _ Hsent))) as Hok.
  by apply (Forall_lookup_1 _ _ _ _ Hok Hs).
Qed.

(** Row [p] of the parities, padded. *)
Definition parity_wire (p : nat) : bytes :=
  match frags !! (n + p)%nat with Some f => wire f | None => [] end.

Lemma received_parities :
  collect_parities (m_fragments (entry S first)) n = (fun p => (p, parity_wire p)) <$> got S.
Proof using Hsent.
  unfold collect_parities, got.
  assert (drop n (m_fragments (entry S first)) =
    (fun p => if bool_decide ((n + p)%nat ∈ S) then Some (parity_wire p) else None) <$> seq 0 pc) as ->.
  { apply list_eq. intros p. rewrite lookup_drop, list_lookup_fmap.
    destruct (decide (p < pc)%nat) as [Hp|Hp].
    - destruct (se_parity _ _ _ _ _ _ Hsent p Hp) as (row & Hrow & _).
      rewrite lookup_seq_lt by done. unfold parity_wire. cbn [fmap option_fmap option_map].
      rewrite Nat.add_0_l, Hrow. apply entry_fragment in Hrow as [-> _].
      destruct (decide ((n + p)%nat ∈ S)); [by rewrite bool_decide_true|by rewrite bool_decide_false].
    - rewrite !lookup_ge_None_2; [done|rewrite length_seq; lia|rewrite length_entry; lia]. }
  rewrite imap_fmap.
  set (F := fun '(p, f) => match f with Some b => Some (p, b) | None => None end).
  set (G (p : nat) := if bool_decide ((n + p)%nat ∈ S) then Some (parity_wire p) else None).
  assert (forall a k, omap F (imap (fun i p => ((a + i)%nat, G p)) (seq a k)) =
    (fun p => (p, parity_wire p)) <$> List.filter (fun p => bool_decide ((n + p)%nat ∈ S)) (seq a k)) as Hg.
  { intros a k. revert a. induction k as [|k IH]; intros a; [done|]. cbn [seq]. rewrite imap_cons.
    rewrite omap_cons_eq. cbn [F]. specialize (IH (Datatypes.S a)).
    rewrite (imap_ext _ (fun i p => ((Datatypes.S a + i)%nat, G p)))
      by (intros; simpl; f_equal; lia).
    rewrite IH, Nat.add_0_r. cbn [List.filter]. unfold G. by case_bool_decide. }
  apply (Hg 0%nat pc).
Qed.

Lemma parity_wire_spec p : (p < pc)%nat ->
  bytes_ok (parity_wire p) /\
  forall k, (k < w)%nat -> byte_at (parity_wire p) k = ReedSolomon.parity_byte sp p k.
Proof using Hsent.
  intros Hp. destruct (se_parity _ _ _ _ _ _ Hsent p Hp) as (row & Hrow & Hl & Hk).
  unfold parity_wire. rewrite Hrow. unfold wire. cbn [f_width f_data]. split.
  - apply resize0_ok, Forall_lookup. intros k b Hb. pose proof (lookup_lt_Some _ _ _ Hb).
    rewrite byte_at_lookup in Hb by done. injection Hb as <-. rewrite Hk by lia.
    apply ReedSolomon.parity_byte_width, spans_ok, prefixed_ok, (se_bytes _ _ _ _ _ _ Hsent).
  - intros k Hkw. rewrite byte_at_resize0 by done. by apply Hk.
Qed.

Lemma elem_of_got p : p ∈ got S <-> (p < pc)%nat /\ (n + p)%nat ∈ S.
Proof.
  unfold got. rewrite list_elem_of_In, filter_In, in_seq, bool_decide_eq_true. intuition lia.
Qed.

Lemma NoDup_got : NoDup (got S).
Proof. apply NoDup_ListNoDup, List.NoDup_filter, NoDup_ListNoDup, NoDup_seq. Qed.

Lemma decode_received : (n <= 255)%nat -> (length (lost S) <= length (got S))%nat ->
  ReedSolomon.decode data (collect_parities (m_fragments (entry S first)) n) w =
  Some (ReedSolomon.repaired sp data w).
Proof using Hsent.
  intros Hn Henough. rewrite received_parities.
  pose proof (spans_ok (prefixed payload) w n (prefixed_ok _ (se_bytes _ _ _ _ _ _ Hsent))) as Hok.
  assert (((fun p => (p, parity_wire p)) <$> got S).*1 = got S) as Efst.
  { rewrite <- list_fmap_compose. apply list_fmap_id. }
  apply ReedSolomon.decode_complete.
  - done.
  - apply data_consistent.
  - intros pi par Hin. apply list_elem_of_fmap in Hin as (p & [= -> ->] & Hp).
    apply elem_of_got in Hp as [Hp _]. by apply parity_wire_spec.
  - by rewrite length_fmap, data_missing.
  - apply ReedSolomon.coef_regular_3.
    + by rewrite length_data.
    + rewrite Efst. apply NoDup_got.
    + rewrite Efst. intros p Hp. apply elem_of_got in Hp as [Hp _].
      pose proof (se_pc _ _ _ _ _ _ Hsent). lia.
    + by rewrite length_fmap, data_missing.
Qed.

Lemma entry_width : S <> ∅ -> max_width (m_fragments (entry S first)) = w.
Proof using Hsent HS.
  intros Hne.
  assert (forall i f, frags !! i = Some f -> length (wire f) = w) as Hw.
  { intros i f Hf. pose proof (lookup_lt_Some _ _ _ Hf) as Hi.
    rewrite (se_length _ _ _ _ _ _ Hsent) in Hi.
    unfold wire. rewrite length_resize0. destruct (decide (i < n)%nat) as [Hlt|Hge].
    - destruct (lookup_lt_is_Some_2 sp i) as [s Hs]; [by rewrite length_sp|].
      apply (se_data _ _ _ _ _ _ Hsent) in Hs. by simplify_eq.
    - destruct (se_parity _ _ _ _ _ _ Hsent (i - n)%nat) as (row & Hrow & _); [lia|].
      replace (n + (i - n))%nat with i in Hrow by lia. by simplify_eq. }
  apply max_width_const.
  - intros b Hb. apply list_elem_of_lookup in Hb as [i Hi]. simpl in Hi.
    rewrite list_lookup_imap in Hi. destruct (frags !! i) as [f|] eqn:Ef; [|done]. simpl in Hi.
    case_decide; simplify_eq. eauto.
  - apply set_choose_L in Hne as [i Hi]. pose proof (HS i Hi) as Hlt.
    destruct (lookup_lt_is_Some_2 frags i) as [f Hf]; [by rewrite (se_length _ _ _ _ _ _ Hsent)|].
    exists (wire f). apply list_elem_of_lookup. exists i.
    apply entry_fragment in Hf as [-> _]. by rewrite decide_True.
Qed.

(** A data fragment of the refilled entry is the original, possibly padded. *)
Lemma refilled_spans i s : sp !! i = Some s -> exists sz b,
  let m := refill (entry S first) (ReedSolomon.repaired sp data w) w in
  m_sizes m !! i = Some sz /\ m_fragments m !! i = Some (Some b) /\
  (take (usable sz b) b = s \/ take (usable sz b) b = resize0 w s).
Proof using Hsent.
  intros Hs. pose proof (se_data _ _ _ _ _ _ Hsent i s Hs) as Hf.
  destruct (span_len i s Hs) as [Hl H16].
  pose proof (entry_fragment i _ Hf) as [E1 E2]. unfold wire in E1. cbn [f_width f_data f_real_size] in E1, E2.
  assert (ReedSolomon.repaired sp data w !! i = Some (Some (resize0 w s))) as Hrep.
  { unfold ReedSolomon.repaired. rewrite list_lookup_imap, (data_lookup i s Hs). simpl.
    unfold ReedSolomon.row_at. rewrite Hs. by case_decide. }
  unfold refill. cbn [m_sizes m_fragments]. rewrite !list_lookup_imap, E1, E2, Hrep. simpl.
  destruct (decide (i ∈ S)).
  - eexists _, _. split_and!; [done|done|]. left. by apply take_usable_resize0.
  - eexists _, _. split_and!; [done|done|]. right.
    apply take_usable_full; [apply length_resize0|]. pose proof (se_w _ _ _ _ _ _ Hsent).
    unfold in_width. lia.
Qed.

Lemma complete_spans i s : lost S = [] -> sp !! i = Some s -> exists sz b,
  m_sizes (entry S first) !! i = Some sz /\ m_fragments (entry S first) !! i = Some (Some b) /\
  (take (usable sz b) b = s \/ take (usable sz b) b = resize0 w s).
Proof using Hsent Hmax HS.
  intros Hnil Hs. pose proof (se_data _ _ _ _ _ _ Hsent i s Hs) as Hf.
  destruct (span_len i s Hs) as [Hl H16]. apply entry_fragment in Hf as [-> ->].
  assert (i ∈ S) as Hin.
  { destruct (decide (i ∈ S)) as [|Hn]; [done|]. exfalso.
    assert (i ∈ lost S) as Hi; [|rewrite Hnil in Hi; set_solver].
    apply list_elem_of_In, filter_In. rewrite in_seq, bool_decide_false by done.
    apply lookup_lt_Some in Hs. rewrite length_sp in Hs. split; [lia|done]. }
  destruct (decide (i ∈ S)); [|done]. eexists _, _. split_and!; [done|done|]. left.
  by apply take_usable_resize0.
Qed.

(** Assembly succeeds exactly when enough fragments are there. *)
Lemma try_assemble_entry dl ts now : (n <= 255)%nat -> S <> ∅ ->
  if enough S
  then exists m ts', try_assemble (entry S first) max dl ts now = Ok (mkAssembled m ts' (Some payload))
  else try_assemble (entry S first) max dl ts now = Ok (mkAssembled (entry S first) ts None).
Proof using Hsent Hmax HS.
  intros Hn Hne. unfold try_assemble, enough.
  pose proof (se_n _ _ _ _ _ _ Hsent) as Hn0. pose proof (se_pc _ _ _ _ _ _ Hsent) as Hpc.
  assert (effective_data_count (entry S first) = Z.of_nat n) as Edc.
  { unfold effective_data_count. simpl. by rewrite (proj2 (Z.ltb_lt _ _)) by lia. }
  rewrite Edc, Nat2Z.id. rewrite (entry_width Hne).
  rewrite mapM_at_index by (rewrite length_entry; lia).
  change (m_total_count (entry S first)) with (Z.of_nat (n + pc)).
  rewrite (proj2 (Z.ltb_ge _ _)) by lia. cbn [mbind res_bind]. fold data.
  rewrite count_missing_indices, data_missing.
  assert (length (got S) <= pc)%nat as Hgot.
  { unfold got. etrans; [apply List.filter_length_le|by rewrite length_seq]. }
  destruct (Nat.eqb_spec (length (lost S)) 0) as [H0|H0].
  { rewrite H0. simpl. apply nil_length_inv in H0.
    destruct (deliver_spans (entry S first) dl ts now) as [ts' ->]; [|eauto].
    intros i s Hs. by apply complete_spans. }
  replace (u64 (Z.of_nat (n + pc) - Z.of_nat n)) with (Z.of_nat pc)
    by (rewrite u64_id; unfold in_width; lia).
  rewrite (proj2 (Nat.eqb_neq w 0)) by (pose proof (se_w _ _ _ _ _ _ Hsent); lia).
  assert (length (collect_parities (m_fragments (entry S first)) n) = length (got S)) as ->
    by (by rewrite received_parities, length_fmap).
  destruct (Nat.leb_spec (length (lost S)) (length (got S))) as [Hen|Hnen].
  - rewrite (proj2 (Z.ltb_ge _ _)), (proj2 (Nat.ltb_ge _ _)) by lia.
    rewrite (decode_received Hn Hen).
    destruct (deliver_spans (refill (entry S first) (ReedSolomon.repaired sp data w) w) dl ts now)
      as [ts' ->]; [apply refilled_spans|eauto].
  - case_match; [done|]. by rewrite (proj2 (Nat.ltb_lt _ _)).
Qed.

End Received.
(** *** One packet of the message *)

(** A datagram that carries fragment [f], whatever its sequence number, tick,
    type and addressing fields. *)
Record carries (f : Fragment) (h : PacketHeader) (pl : bytes) : Prop := {
  ca_id : message_id h = f_msg_id f;
  ca_idx : fragment_index h = f_idx f;
  ca_cnt : fragment_count h = f_cnt f;
  ca_flags : flags h = f_data_cnt f;
  ca_size : reserved h = f_real_size f;
  ca_payload : pl = wire f }.

Lemma frag_fields i f : frags !! i = Some f ->
  (i < n + pc)%nat /\ f_msg_id f = id /\ f_idx f = Z.of_nat i /\ f_cnt f = Z.of_nat (n + pc) /\
  f_data_cnt f = Z.of_nat n.
Proof using Hsent.
  intros Hf. pose proof (lookup_lt_Some _ _ _ Hf) as Hi.
  rewrite (se_length _ _ _ _ _ _ Hsent) in Hi. split; [done|].
  destruct (decide (i < n)%nat).
  - destruct (lookup_lt_is_Some_2 sp i) as [s Hs]; [by rewrite length_sp|].
    apply (se_data _ _ _ _ _ _ Hsent) in Hs. by simplify_eq.
  - destruct (se_parity _ _ _ _ _ _ Hsent (i - n)%nat) as (row & Hrow & _); [lia|].
    replace (n + (i - n))%nat with i in Hrow by lia. by simplify_eq.
Qed.

Lemma entry_init h now : message_id h = id -> fragment_count h = Z.of_nat (n + pc) ->
  flags h = Z.of_nat n -> init_incoming h now new_incoming = entry ∅ now.
Proof using Hsent.
  intros E1 E2 E3. unfold init_incoming, entry. simpl. rewrite E1, E2, E3, Nat2Z.id.
  pose proof (se_length _ _ _ _ _ _ Hsent) as Hl. f_equal; apply list_eq; intros i;
    rewrite list_lookup_imap; (destruct (frags !! i) as [f|] eqn:Ef; simpl;
    [apply lookup_replicate_2; apply lookup_lt_Some in Ef; lia
    |apply lookup_ge_None in Ef; apply lookup_replicate_None; lia]).
Qed.

Lemma entry_store S first i f h pl : frags !! i = Some f -> carries f h pl ->
  store_fragment h pl (entry S first) = entry (S ∪ {[i]}) first.
Proof using Hsent Hmax.
  intros Hf [_ Hidx _ _ Hsz ->]. pose proof (frag_fields i f Hf) as (_ & _ & Ei & _).
  unfold store_fragment. rewrite Hidx, Ei, Nat2Z.id.
  pose proof (entry_fragment S first i f Hf) as [-> _]. destruct (decide (i ∈ S)) as [Hin|Hin].
  - f_equal. assert (S ∪ {[i]} = S) as -> by set_solver. done.
  - assert (forall {A} (g : Fragment -> A) (d : A),
      <[i := g f]> (imap (fun j f => if decide (j ∈ S) then g f else d) frags) =
      imap (fun j f => if decide (j ∈ S ∪ {[i]}) then g f else d) frags) as Hins.
    { intros A g d. apply list_eq. intros j. destruct (decide (i = j)) as [<-|Hne].
      - rewrite list_lookup_insert_eq by (rewrite length_imap; by eapply lookup_lt_Some).
        rewrite list_lookup_imap, Hf. simpl. by rewrite decide_True by set_solver.
      - rewrite list_lookup_insert_ne, !list_lookup_imap by done.
        destruct (frags !! j); simpl; [|done]. f_equal.
        destruct (decide (j ∈ S)); [by rewrite decide_True by set_solver|].
        by rewrite decide_False by set_solver. }
    unfold entry. simpl. rewrite Hsz. f_equal; [apply (Hins _ (fun f => Some (wire f)))|apply Hins].
Qed.

(** What the table knows of the message while it is incomplete. *)
Definition holds (a : Assembly) (S : gset nat) : Prop :=
  m_completed a !! id = None /\
  (if decide (S = ∅) then m_incoming a !! id = None
   else exists first, m_incoming a !! id = Some (entry S first)).

Lemma init_held a S h now : holds a S -> message_id h = id ->
  fragment_count h = Z.of_nat (n + pc) -> flags h = Z.of_nat n ->
  exists first, init_incoming h now (default new_incoming (m_incoming a !! id)) = entry S first.
Proof using Hsent.
  intros [_ Hh] E1 E2 E3. destruct (decide (S = ∅)) as [->|Hne].
  - rewrite Hh. simpl. exists now. by apply entry_init.
  - destruct Hh as [first ->]. exists first. simpl. unfold init_incoming. cbn [entry m_message_id].
    rewrite (proj2 (Z.eqb_neq id 0)); [done|]. pose proof (se_id _ _ _ _ _ _ Hsent). lia.
Qed.

Context (Hfec : (n <= 255)%nat) (Hfrag : Z.of_nat (n + pc) <= max / 64 + 8).

Lemma collect_step a S i f h pl dl now log_now :
  holds a S -> (forall j, j ∈ S -> (j < n + pc)%nat) -> frags !! i = Some f -> carries f h pl ->
  exists a' out, collect a h pl max dl now log_now = Ok (a', out) /\
    if enough (S ∪ {[i]}) then is_Some (m_completed a' !! id) /\ out = [payload]
    else holds a' (S ∪ {[i]}) /\ out = [].
Proof using Hsent Hmax Hfec Hfrag.
  intros Hh HS Hf Hc. pose proof (frag_fields i f Hf) as (Hi & Eid & Eidx & Ecnt & Ed).
  pose proof Hc as [H1 H2 H3 H4 _ _]. rewrite Eid in H1. rewrite Eidx in H2. rewrite Ecnt in H3.
  rewrite Ed in H4. destruct (init_held a S h now Hh H1 H3 H4) as [first Einit].
  unfold collect. rewrite H1, H2, H3, Einit. destruct Hh as [Hcomp _].
  rewrite (proj2 (Z.eqb_neq _ _)) by lia.
  rewrite bool_decide_false by (rewrite Hcomp; by intros [? ?]).
  rewrite (proj2 (Z.leb_gt _ _)), (proj2 (Z.ltb_ge _ _)) by lia.
  change (m_total_count (entry S first)) with (Z.of_nat (n + pc)). rewrite Z.eqb_refl. cbn [negb].
  rewrite length_entry, Nat2Z.id. rewrite (proj2 (Nat.leb_gt _ _)) by lia.
  rewrite (entry_store S first i f h pl Hf Hc).
  pose proof (try_assemble_entry (S ∪ {[i]}) first ltac:(set_solver) dl (m_oversize_log_ts a) log_now
    Hfec ltac:(set_solver)) as Htry.
  destruct (enough (S ∪ {[i]})).
  - destruct Htry as (m & ts' & ->). cbn [mbind res_bind as_deliver]. eexists _, _. split; [done|].
    split; [|done]. cbn [m_completed]. rewrite lookup_insert_eq. eauto.
  - rewrite Htry. cbn [mbind res_bind as_deliver]. eexists _, _. split; [done|]. split; [|done].
    split; [done|]. rewrite decide_False by set_solver. exists first. cbn [m_incoming as_message].
    by rewrite lookup_insert_eq.
Qed.

End Message.
(** ** Runs of the receiver *)

(** One datagram with the readings of the clocks when it is handled. *)
Record Arrival := mkArrival {
  ar_header : PacketHeader; ar_payload : bytes; ar_rtt_us : Z;
  ar_now : Z; ar_unix_ms : Z; ar_log_now : Z }.

Section Runs.
Context (late_multiplier : F64.double) (max : Z).

Definition receive (p : Peer) (ev : Arrival) : res (Peer * list bytes) :=
  handle_data p (ar_header ev) (ar_payload ev) (ar_rtt_us ev) late_multiplier max
    (ar_now ev) (ar_unix_ms ev) (ar_log_now ev).

(** Deliveries are tagged with the message identifier of the packet that
    triggered them. *)
Fixpoint receive_all (p : Peer) (evs : list Arrival) : res (Peer * list (Z * bytes)) :=
  match evs with
  | [] => Ok (p, [])
  | ev :: evs =>
      '(p, out) ← receive p ev;
      '(p, outs) ← receive_all p evs;
      Ok (p, ((fun b => (message_id (ar_header ev), b)) <$> out) ++ outs)
  end.

Definition deliveries (id : Z) (outs : list (Z * bytes)) : list bytes :=
  snd <$> List.filter (fun o => o.1 =? id) outs.

(** Fragment indices of message [id] among the arrivals. *)
Definition indices (id : Z) (evs : list Arrival) : gset nat :=
  list_to_set ((fun ev => Z.to_nat (fragment_index (ar_header ev))) <$>
    List.filter (fun ev => message_id (ar_header ev) =? id) evs).

(** The lateness threshold is representable. *)
Definition threshold_ok (ev : Arrival) : Prop :=
  exists t, F64.cast_u64 (F64.mul late_multiplier
    (F64.of_Z (if 0 <? ar_rtt_us ev then ar_rtt_us ev else 10000))) = Ok t.

Definition event_ok (ev : Arrival) : Prop := header_sane (ar_header ev) /\ threshold_ok ev.

Lemma receive_collect p ev a' out : threshold_ok ev ->
  collect (asm p) (ar_header ev) (ar_payload ev) max (m_drop_log (link p))
    (ar_now ev) (ar_log_now ev) = Ok (a', out) ->
  exists p', receive p ev = Ok (p', out) /\ asm p' = a'.
Proof.
  intros [t Ht] Hc. unfold receive, handle_data, account_late. rewrite Ht, Hc.
  destruct (_ <=? _); simpl; eauto.
Qed.

Lemma deliveries_app id a b : deliveries id (a ++ b) = deliveries id a ++ deliveries id b.
Proof. unfold deliveries. by rewrite List.filter_app, fmap_app. Qed.

Lemma deliveries_tag id id' out :
  deliveries id ((fun b => (id', b)) <$> out) = if id' =? id then out else [].
Proof.
  unfold deliveries. destruct (Z.eqb_spec id' id) as [->|Hne].
  - induction out as [|b out IH]; [done|]. rewrite fmap_cons. cbn [List.filter fst].
    rewrite Z.eqb_refl, fmap_cons, IH. done.
  - induction out as [|b out IH]; [done|]. rewrite fmap_cons. cbn [List.filter fst].
    by rewrite (proj2 (Z.eqb_neq _ _) Hne).
Qed.

Lemma filter_length_mono {A} (P Q : A -> bool) l :
  (forall x, P x = true -> Q x = true) ->
  (length (List.filter P l) <= length (List.filter Q l))%nat.
Proof.
  intros H. induction l as [|x l IH]; simpl; [done|].
  destruct (P x) eqn:EP; [rewrite (H x EP); simpl; lia|]. destruct (Q x); simpl; lia.
Qed.

Lemma enough_mono n pc S T : S ⊆ T -> enough n pc S = true -> enough n pc T = true.
Proof.
  intros HST. unfold enough. rewrite !Nat.leb_le. intros H.
  assert (length (lost n T) <= length (lost n S))%nat.
  { apply filter_length_mono. intros i. rewrite !negb_true_iff, !bool_decide_eq_false. set_solver. }
  assert (length (got n pc S) <= length (got n pc T))%nat; [|lia].
  apply filter_length_mono. intros i. rewrite !bool_decide_eq_true. set_solver.
Qed.

(** A completed message produces nothing more. *)
Lemma collect_completed a h pl dl now log_now :
  is_Some (m_completed a !! message_id h) ->
  collect a h pl max dl now log_now = Ok (a, []).
Proof. intros H. unfold collect. case_match; [done|]. by rewrite bool_decide_true. Qed.

Lemma indices_cons id ev evs :
  indices id (ev :: evs) =
  (if message_id (ar_header ev) =? id then {[Z.to_nat (fragment_index (ar_header ev))]} else ∅)
  ∪ indices id evs.
Proof. unfold indices. simpl. destruct (_ =? _); simpl; [done|]. by rewrite (left_id_L ∅ (∪)). Qed.

Lemma completed_silent id evs p :
  is_Some (m_completed (asm p) !! id) -> asm_ok (asm p) -> Forall event_ok evs ->
  exists p' outs, receive_all p evs = Ok (p', outs) /\ deliveries id outs = [].
Proof.
  intros Hc Hok Hev. revert p Hc Hok. induction Hev as [|ev evs [Hs Ht] Hev IH]; intros p Hc Hok.
  { by eexists _, _. }
  destruct (collect_ok (asm p) (ar_header ev) (ar_payload ev) max (m_drop_log (link p))
    (ar_now ev) (ar_log_now ev) Hok Hs) as (a' & out & Ec & Hok').
  destruct (receive_collect p ev a' out Ht Ec) as (p' & Er & Ea).
  simpl. rewrite Er. cbn [mbind res_bind].
  assert (is_Some (m_completed (asm p') !! id) /\ (message_id (ar_header ev) =? id = true -> out = []))
    as [Hc' Ho].
  { rewrite Ea. destruct (Z.eqb_spec (message_id (ar_header ev)) id) as [<-|Hne].
    - rewrite collect_completed in Ec by done. injection Ec as <- <-. by split.
    - apply collect_other with (k := id) in Ec as [_ E2]; [|congruence]. by rewrite E2; split. }
  destruct (IH p' Hc' ltac:(by rewrite Ea)) as (p'' & outs & -> & Hd). cbn [mbind res_bind].
  eexists _, _. split; [done|]. rewrite deliveries_app, deliveries_tag, Hd, app_nil_r.
  case_match; auto.
Qed.

Section Delivery.
Context (payload : bytes) (w n pc : nat) (id : Z) (frags : list Fragment).
Context (Hsent : sent payload w n pc id frags) (Hmax : Z.of_nat (length payload) <= max).
Context (Hfec : (n <= 255)%nat) (Hfrag : Z.of_nat (n + pc) <= max / 64 + 8).

(** The arrivals of message [id] carry its fragments. *)
Definition genuine (ev : Arrival) : Prop :=
  message_id (ar_header ev) = id ->
  exists f, f ∈ frags /\ carries f (ar_header ev) (ar_payload ev).

Lemma receive_all_message evs p S :
  holds n pc id frags (asm p) S -> enough n pc S = false ->
  (forall j, j ∈ S -> (j < n + pc)%nat) ->
  asm_ok (asm p) -> Forall event_ok evs -> Forall genuine evs ->
  exists p' outs, receive_all p evs = Ok (p', outs) /\
    deliveries id outs = if enough n pc (S ∪ indices id evs) then [payload] else [].
Proof using Hsent Hmax Hfec Hfrag.
  intros Hh He HS Hok Hev Hgen. revert p S Hh He HS Hok.
  induction Hev as [|ev evs [Hs Ht] Hev IH]; intros p S Hh He HS Hok.
  { eexists _, _. split; [done|]. unfold indices. simpl. by rewrite (right_id_L ∅ (∪)), He. }
  apply Forall_cons in Hgen as [Hg Hgen]. rewrite indices_cons. simpl.
  destruct (Z.eqb_spec (message_id (ar_header ev)) id) as [Eid|Hne].
  - destruct (Hg Eid) as (f & Hf & Hc). apply list_elem_of_lookup in Hf as [i Hi].
    pose proof (frag_fields payload w n pc id frags Hsent i f Hi) as (Hlt & _ & Eidx & _).
    destruct (collect_step payload w n pc id frags Hsent max Hmax Hfec Hfrag (asm p) S i f
      (ar_header ev) (ar_payload ev) (m_drop_log (link p)) (ar_now ev) (ar_log_now ev) Hh HS Hi Hc)
      as (a' & out & Ec & Hstep).
    destruct (receive_collect p ev a' out Ht Ec) as (p' & -> & Ea). cbn [mbind res_bind].
    destruct (collect_ok (asm p) (ar_header ev) (ar_payload ev) max (m_drop_log (link p))
      (ar_now ev) (ar_log_now ev) Hok Hs) as (a'' & out'' & Ec'' & Hok').
    rewrite Ec in Ec''. injection Ec'' as <- <-.
    rewrite (ca_idx _ _ _ Hc), Eidx, Nat2Z.id.
    replace (S ∪ ({[i]} ∪ indices id evs)) with ((S ∪ {[i]}) ∪ indices id evs) by set_solver.
    destruct (enough n pc (S ∪ {[i]})) eqn:En.
    + destruct Hstep as [Hcomp ->]. subst a'.
      destruct (completed_silent id evs p' Hcomp Hok' Hev) as (p'' & outs & -> & Hd).
      cbn [mbind res_bind]. eexists _, _. split; [done|].
      rewrite deliveries_app, deliveries_tag, Eid, Z.eqb_refl, Hd.
      rewrite (enough_mono n pc (S ∪ {[i]})); [done|set_solver|done].
    + destruct Hstep as [Hh' ->]. subst a'.
      destruct (IH Hgen p' (S ∪ {[i]}) Hh' En ltac:(set_solver) Hok') as (p'' & outs & -> & Hd).
      cbn [mbind res_bind]. eexists _, _. split; [done|]. rewrite deliveries_app, Hd.
      by rewrite deliveries_tag, Eid, Z.eqb_refl.
  - rewrite (left_id_L ∅ (∪)).
    destruct (collect_ok (asm p) (ar_header ev) (ar_payload ev) max (m_drop_log (link p))
      (ar_now ev) (ar_log_now ev) Hok Hs) as (a' & out & Ec & Hok').
    destruct (receive_collect p ev a' out Ht Ec) as (p' & -> & Ea). cbn [mbind res_bind].
    assert (holds n pc id frags (asm p') S) as Hh'.
    { rewrite Ea. apply collect_other with (k := id) in Ec as [E1 E2]; [|congruence].
      unfold holds in *. by rewrite E1, E2. }
    subst a'. destruct (IH Hgen p' S Hh' He HS Hok') as (p'' & outs & -> & Hd).
    cbn [mbind res_bind]. eexists _, _. split; [done|].
    rewrite deliveries_app, deliveries_tag, Hd. by rewrite (proj2 (Z.eqb_neq _ _) Hne).
Qed.
End Delivery.
End Runs.

Lemma enough_empty n pc : (0 < n)%nat -> enough n pc ∅ = false.
Proof.
  intros Hn. unfold enough. apply Nat.leb_gt. unfold lost, got.
  assert (forall l, List.filter (fun p => bool_decide ((n + p)%nat ∈ (∅ : gset nat))) l = []) as ->.
  { induction l as [|x l IH]; cbn [List.filter]; [done|]. by rewrite bool_decide_false by set_solver. }
  destruct n as [|n]; [lia|]. cbn [seq List.filter]. rewrite bool_decide_false by set_solver. simpl. lia.
Qed.

(** C3. Delivery of a message of at most 255 data fragments (beyond that the
    coefficients of the parities repeat, see [ReedSolomon.same_parities]). A
    message within the receiver's limits is cut up by the fragmenter; its packets
    reach a receiver that has not seen the message's number, in any order, with
    duplicates and losses, mixed with packets of other messages whose fragment
    counts are consistent. Nothing faults, and over the run the receiver hands
    the message up exactly once and unchanged if at least as many parities
    arrived as data fragments are missing, and not at all otherwise. *)
Theorem message_delivered log2 st payload mtu scratch st' frags mult max p evs :
  fragment_and_send log2 st payload mtu scratch = Ok (st', frags) ->
  bytes_ok payload -> in_width 32 (m_msg_id_out st) -> mtu < 2 ^ 16 ->
  Z.of_nat (length payload) <= max -> max < 2 ^ 32 ->
  let n := Z.to_nat (data_count (length payload) mtu) in
  let id := (next_msg_id (m_msg_id_out st)).1 in
  (n <= 255)%nat -> Z.of_nat n + 3 <= max / 64 + 8 ->
  asm_ok (asm p) -> m_incoming (asm p) !! id = None -> m_completed (asm p) !! id = None ->
  Forall (event_ok mult) evs -> Forall (genuine id frags) evs ->
  exists p' outs, receive_all mult max p evs = Ok (p', outs) /\
    deliveries id outs =
      if enough n (length frags - n) (indices id evs) then [payload] else [].
Proof.
  intros Hsend Hb Hid Hmtu Hmax Hmax32 n id Hn Hfrag Hok Hinc Hcomp Hev Hgen.
  assert (0 <= data_count (length payload) mtu) as Hdc.
  { unfold data_count. pose proof (frag_payload_pos mtu). apply Z.div_pos; lia. }
  apply fragment_and_send_sent in Hsend as (pc & id' & Hsent & ->); [|done|lia|done|done|lia].
  fold id n in Hsent. pose proof (se_length _ _ _ _ _ _ Hsent) as Hl.
  pose proof (se_pc _ _ _ _ _ _ Hsent) as Hpc. rewrite Hl.
  replace (n + pc - n)%nat with pc by lia.
  rewrite <- (left_id_L ∅ (∪) (indices id evs)).
  eapply receive_all_message; try done; [lia|].
  apply enough_empty, (se_n _ _ _ _ _ _ Hsent).
Qed.

(** ** A concrete run *)

Definition packet_of (f : Fragment) (seq : Z) : Arrival :=
  mkArrival (mkHeader kMagic kVersion Data (f_data_cnt f) 1 1 seq 0 (f_msg_id f) (f_idx f) (f_cnt f)
               (Z.of_nat (f_width f)) (f_real_size f) 0 0) (wire f) 0 0 0 0.

Definition demo_payload : bytes := [10; 20; 30; 40; 50; 60; 70; 80; 90; 100].
Definition demo_frags : list Fragment :=
  match fragment_and_send id new_sending demo_payload 56 [] with Ok (_, fs) => fs | Fault _ => [] end.

(** Parity first, then the last data fragment twice, with a packet of another
    message in between; the first data fragment is lost. *)
Definition demo_frag (i : nat) : Fragment :=
  default (mkFragment 0 0 0 0 0 [] 0 false) (demo_frags !! i).
Definition demo_evs : list Arrival :=
  [packet_of (demo_frag 2) 0; mkArrival (demo_data 3 2) [7] 0 0 0 0;
   packet_of (demo_frag 1) 2; packet_of (demo_frag 1) 2].

Lemma demo_genuine i s : (i < 3)%nat -> genuine 1 demo_frags (packet_of (demo_frag i) s).
Proof.
  intros Hi _. exists (demo_frag i). split; [|by split].
  apply list_elem_of_lookup. exists i. destruct i as [|[|[|i]]]; [reflexivity..|lia].
Qed.

Lemma message_delivered_witness :
  exists p' outs, receive_all (F64.of_Z 4) 65536 new_peer demo_evs = Ok (p', outs) /\
    deliveries 1 outs = [demo_payload].
Proof.
  edestruct (message_delivered id new_sending demo_payload 56 []
      (mkSending 1 2 ∅ F64.zero) demo_frags (F64.of_Z 4) 65536 new_peer demo_evs)
    as (p' & outs & E1 & E2); [..|exists p', outs; split; [exact E1|exact E2]].
  - vm_compute. reflexivity.
  - eval_decide.
  - eval_decide.
  - done.
  - done.
  - done.
  - vm_compute. lia.
  - vm_compute. done.
  - by apply map_Forall_empty.
  - done.
  - done.
  - repeat apply Forall_cons_2; [..|apply Forall_nil_2];
      (split; [split; vm_compute; done|eexists; vm_compute; reflexivity]).
  - repeat apply Forall_cons_2; [apply demo_genuine; lia|done|apply demo_genuine; lia..|apply Forall_nil_2].
Defined.

End DataPath.
