(* ===== verification/Command.v ===== *)
(** * Ordered command channel (tight/src/command.cpp)

    Commands are delivered in sequence order; an out-of-order command waits at
    most three RTT for the gap before it. *)
From stdpp Require Import base list numbers option sets gmap strings sorting.
From Stdlib Require Import ZArith Lia.
From S2P Require Import Prelude Float64 Maps Types Peer.

Local Open Scope Z_scope.
Import Types Peer.

Module CommandChannel.

Definition kMaxWaitRtt : Z := 3.

(** [while ((it = held.find(next)) != end) { out.push_back; erase; ++next; }]:
    one held command leaves per turn. *)
Fixpoint drain (fuel : nat) (held : zmap bytes) (next : Z) : zmap bytes * Z * list bytes :=
  match fuel with
  | O => (held, next, [])
  | S fuel =>
      match held !! next with
      | None => (held, next, [])
      | Some payload =>
          let '(held, next, out) := drain fuel (delete next held) (u32 (next + 1)) in
          (held, next, payload :: out)
      end
  end.

Definition drain_locked (c : CommandState) : CommandState * list bytes :=
  let '(held, next, out) := drain (size (m_cmd_held c)) (m_cmd_held c) (m_cmd_next_expected c) in
  (mkCommand (m_cmd_seq_out c) next (m_cmd_initialized c) held (m_cmd_gap_since c), out).

Definition set_next (c : CommandState) (next : Z) : CommandState :=
  mkCommand (m_cmd_seq_out c) next (m_cmd_initialized c) (m_cmd_held c) (m_cmd_gap_since c).

Definition set_gap (c : CommandState) (since : Z) : CommandState :=
  mkCommand (m_cmd_seq_out c) (m_cmd_next_expected c) (m_cmd_initialized c) (m_cmd_held c) since.

(** Nanoseconds an incomplete sequence may wait. *)
Definition wait_ns (rtt_us : Z) : Z := kMaxWaitRtt * (if 0 <? rtt_us then rtt_us else 10000) * 1000.

Definition expire_locked (c : CommandState) (rtt_us now : Z) : CommandState * list bytes :=
  match first_entry (m_cmd_held c) with
  | None => (c, [])
  | Some (first, _) =>
      if now - m_cmd_gap_since c <? wait_ns rtt_us then (c, []) else
      let '(c, out) := drain_locked (set_next c first) in
      (if bool_decide (m_cmd_held c = ∅) then c else set_gap c now, out)
  end.

Definition handle (c : CommandState) (seq : Z) (payload : bytes) (rtt_us now : Z)
    : CommandState * list bytes :=
  if seq =? 0 then (c, []) else
  let c := if m_cmd_initialized c then c
           else mkCommand (m_cmd_seq_out c) seq true (m_cmd_held c) (m_cmd_gap_since c) in
  if seq <? m_cmd_next_expected c then (c, []) else
  if seq =? m_cmd_next_expected c then
    let '(c, out) := drain_locked (set_next c (u32 (m_cmd_next_expected c + 1))) in
    (c, payload :: out)
  else
    let c := if bool_decide (m_cmd_held c = ∅) then set_gap c now else c in
    let held := match m_cmd_held c !! seq with
                | Some _ => m_cmd_held c | None => <[seq := payload]> (m_cmd_held c) end in
    expire_locked (mkCommand (m_cmd_seq_out c) (m_cmd_next_expected c) (m_cmd_initialized c)
                     held (m_cmd_gap_since c)) rtt_us now.

Definition flush_expired (c : CommandState) (rtt_us now : Z) : CommandState * list bytes :=
  expire_locked c rtt_us now.

Definition reset (c : CommandState) : CommandState := mkCommand 1 0 false ∅ 0.

(** ** Runs of the channel *)

Inductive event :=
| Arrive (seq rtt_us now : Z)
| Tick (rtt_us now : Z).

Section Ordered.
(** What the sender put into each sequence number. *)
Context (pay : Z -> bytes).

Definition step (c : CommandState) (e : event) : CommandState * list bytes :=
  match e with
  | Arrive seq rtt_us now => handle c seq (pay seq) rtt_us now
  | Tick rtt_us now => flush_expired c rtt_us now
  end.

Fixpoint run (c : CommandState) (es : list event) : CommandState * list bytes :=
  match es with
  | [] => (c, [])
  | e :: es => let '(c, out) := step c e in
               let '(c, outs) := run c es in (c, out ++ outs)
  end.

Definition event_ok (e : event) : Prop :=
  match e with Arrive seq _ _ => 0 < seq < 2 ^ 32 - 1 | Tick _ _ => True end.

Definition arrived (e : event) : zset :=
  match e with Arrive seq _ _ => {[seq]} | Tick _ _ => ∅ end.

Definition all_arrived (es : list event) : zset := ⋃ (arrived <$> es).

(** ** Draining *)

Record held_ok (R : zset) (next : Z) (held : zmap bytes) : Prop := {
  ho_next : 0 <= next < 2 ^ 32;
  ho_held : forall s b, held !! s = Some b -> next <= s < 2 ^ 32 - 1 /\ s ∈ R /\ b = pay s }.

(** Draining delivers a run of consecutive held commands and stops at the
    first number that is not held. *)
Lemma drain_spec fuel R held next held' next' out :
  (size held <= fuel)%nat -> held_ok R next held -> drain fuel held next = (held', next', out) ->
  next <= next' < 2 ^ 32 /\ out = pay <$> seqZ next (next' - next) /\
  (forall s, next <= s < next' -> s ∈ R /\ is_Some (held !! s)) /\ held' !! next' = None /\
  held_ok R next' held' /\ (forall s, next' <= s -> held' !! s = held !! s).
Proof.
  revert held next held' next' out.
  induction fuel as [|fuel IH]; intros held next held' next' out Hf [Hn Hh]; simpl.
  - intros [= <- <- <-]. assert (held = ∅) as -> by (apply map_size_empty_iff; lia).
    rewrite Z.sub_diag. split_and!; try lia; done.
  - destruct (held !! next) as [b|] eqn:E.
    2: { intros [= <- <- <-]. rewrite Z.sub_diag. split_and!; try lia; done. }
    destruct (Hh _ _ E) as (Hlt & HR & ->).
    rewrite u32_id by (unfold in_width; lia).
    destruct (drain fuel (delete next held) (next + 1)) as [[h1 n1] o1] eqn:Ed.
    intros [= <- <- <-]. apply IH in Ed as (Hle & -> & Hs & Hnone & Hok & Hsame).
    + split_and!; [lia|lia| | |done|done|].
      * rewrite (seqZ_cons next) by lia. rewrite fmap_cons. do 3 f_equal; lia.
      * intros s Hss. destruct (decide (s = next)) as [->|]; [eauto|].
        destruct (Hs s ltac:(lia)) as [? Hi]. rewrite lookup_delete_ne in Hi by lia. done.
      * intros s Hss. rewrite Hsame by done. apply lookup_delete_ne. lia.
    + rewrite map_size_delete_Some by eauto. lia.
    + split; [lia|]. intros s b [Hne Hb]%lookup_delete_Some. apply Hh in Hb as (? & ? & ?).
      split_and!; [lia|lia|done|done].
Qed.

(** ** Invariant of the receiving side

    [R] is the set of sequence numbers received, [l] the numbers delivered so
    far, in delivery order. *)
Record ordered (R : zset) (l : list Z) (c : CommandState) : Prop := {
  or_held : held_ok R (m_cmd_next_expected c) (m_cmd_held c);
  or_gap : m_cmd_held c !! m_cmd_next_expected c = None;
  or_sorted : StronglySorted Z.lt l;
  or_below : forall s, s ∈ l -> s ∈ R /\ s < m_cmd_next_expected c }.

Definition fresh (c : CommandState) : Prop := m_cmd_initialized c = false /\ m_cmd_held c = ∅.

Lemma sorted_seqZ a k : StronglySorted Z.lt (seqZ a k).
Proof.
  destruct (decide (k <= 0)) as [|Hk]; [rewrite seqZ_nil by done; constructor|].
  assert (0 <= k) as Hk' by lia. clear Hk. revert a. revert k Hk'.
  apply (natlike_ind (fun k => forall a, StronglySorted Z.lt (seqZ a k))).
  - intros a. rewrite seqZ_nil by done. constructor.
  - intros k Hk IH a. rewrite (seqZ_cons a) by lia. replace (Z.pred (Z.succ k)) with k by lia.
    constructor; [apply IH|]. apply Forall_forall. intros x Hx. apply elem_of_seqZ in Hx. lia.
Qed.

Lemma sorted_app (l k : list Z) b :
  StronglySorted Z.lt l -> (forall s, s ∈ l -> s < b) ->
  StronglySorted Z.lt k -> (forall s, s ∈ k -> b <= s) -> StronglySorted Z.lt (l ++ k).
Proof.
  intros Hl Hb Hk Hc. induction Hl as [|x l Hl IH HF]; simpl; [done|].
  constructor; [apply IH; set_solver|]. apply Forall_app. split; [done|].
  apply Forall_forall. intros s Hs. specialize (Hb x ltac:(left)). specialize (Hc s Hs). lia.
Qed.

(** Delivering [next .. next'-1] after what was delivered below [next]. *)
Lemma ordered_deliver R l c next c' out :
  held_ok R next (m_cmd_held c) -> StronglySorted Z.lt l ->
  (forall s, s ∈ l -> s ∈ R /\ s < next) ->
  drain_locked (set_next c next) = (c', out) ->
  exists l', out = pay <$> l' /\ ordered R (l ++ l') c' /\
    (forall s, s ∈ l' -> next <= s) /\
    m_cmd_initialized c' = m_cmd_initialized c /\ m_cmd_gap_since c' = m_cmd_gap_since c.
Proof.
  intros Hok Hs Hb. unfold drain_locked. cbn [set_next m_cmd_held m_cmd_next_expected].
  destruct (drain _ _ _) as [[held' next'] o] eqn:E. intros [= <- <-].
  apply (drain_spec _ R) in E as (Hle & -> & Hin & Hnone & Hok' & _); [|done|done].
  exists (seqZ next (next' - next)). split; [done|]. split; [|split; [|done]].
  - split; simpl; [done|done| |].
    + apply (sorted_app _ _ next); [done|by intros s Hx; apply Hb|apply sorted_seqZ|].
      intros s Hx. apply elem_of_seqZ in Hx. lia.
    + intros s [Hx|Hx]%elem_of_app.
      * destruct (Hb s Hx). split; [done|lia].
      * apply elem_of_seqZ in Hx. destruct (Hin s ltac:(lia)). split; [done|lia].
  - intros s Hx. apply elem_of_seqZ in Hx. lia.
Qed.

Lemma ordered_gap R l c t : ordered R l c -> ordered R l (set_gap c t).
Proof. intros []. by split. Qed.

Lemma ordered_expire R l c rtt now c' out :
  ordered R l c -> m_cmd_initialized c = true -> expire_locked c rtt now = (c', out) ->
  exists l', out = pay <$> l' /\ ordered R (l ++ l') c' /\ m_cmd_initialized c' = true.
Proof.
  intros [Hh Hg Hs Hb] Hi. unfold expire_locked.
  assert (forall c', c' = c -> exists l', @nil bytes = pay <$> l' /\ ordered R (l ++ l') c' /\
    m_cmd_initialized c' = true) as Hsame.
  { intros ? ->. exists []. rewrite app_nil_r. split_and!; [done|by split|done]. }
  destruct (first_entry (m_cmd_held c)) as [[k x]|] eqn:Ef.
  2: { intros [= <- <-]. by apply Hsame. }
  apply first_entry_Some in Ef as [Ek Hmin].
  case_match; [intros [= <- <-]; by apply Hsame|].
  destruct (drain_locked (set_next c k)) as [c1 o1] eqn:E. intros [= <- <-].
  destruct Hh as [Hn Hh]. pose proof (Hh _ _ Ek) as (Hk & _ & _).
  apply (ordered_deliver R l) in E as (l' & -> & Ho & _ & Hi' & _); [|..|done|].
  - exists l'. split; [done|]. rewrite Hi in Hi'. case_match; (split; [|done]); [done|].
    by apply ordered_gap.
  - split; [lia|]. intros s b Hsb. destruct (Hh _ _ Hsb) as (? & ? & ?).
    specialize (Hmin s ltac:(eauto)). split_and!; [lia|lia|done|done].
  - intros s Hsl. destruct (Hb s Hsl). split; [done|lia].
Qed.

Lemma ordered_mono R R' l c : R ⊆ R' -> ordered R l c -> ordered R' l c.
Proof.
  intros HR [[Hn Hh] Hg Hs Hb]. split; [split; [done|]|done|done|].
  - intros s b E. apply Hh in E as (? & ? & ?). split_and!; try done; [lia|lia|set_solver].
  - intros s Hx. apply Hb in Hx. set_solver.
Qed.

(** A packet on an initialised channel. *)
Lemma ordered_handle R l c seq rtt now c' out :
  ordered R l c -> m_cmd_initialized c = true -> 0 < seq < 2 ^ 32 - 1 ->
  handle c seq (pay seq) rtt now = (c', out) ->
  exists l', out = pay <$> l' /\ ordered (R ∪ {[seq]}) (l ++ l') c' /\ m_cmd_initialized c' = true.
Proof.
  intros Ho Hi Hseq. apply (ordered_mono R (R ∪ {[seq]})) in Ho; [|set_solver].
  unfold handle. rewrite (proj2 (Z.eqb_neq seq 0)), Hi by lia.
  destruct Ho as [[Hn Hh] Hg Hs Hb].
  destruct (Z.ltb_spec seq (m_cmd_next_expected c)) as [Hlt|Hge].
  { intros [= <- <-]. exists []. rewrite app_nil_r. split_and!; [done|by split|done]. }
  destruct (Z.eqb_spec seq (m_cmd_next_expected c)) as [Heq|Hne].
  - rewrite u32_id by (unfold in_width; lia). rewrite <- Heq in *.
    destruct (drain_locked _) as [c1 o1] eqn:E. intros [= <- <-].
    apply (ordered_deliver (R ∪ {[seq]}) (l ++ [seq])) in E as (l' & -> & Ho & _ & Hi' & _).
    + exists (seq :: l'). rewrite <- (assoc_L (++)) in Ho. split_and!; [done|done|congruence].
    + split; [lia|]. intros s b Hsb. assert (s <> seq) by congruence.
      destruct (Hh _ _ Hsb) as (? & ? & ?). split_and!; [lia|lia|done|done].
    + apply (sorted_app _ _ seq); [done|by intros s Hx; apply Hb|by repeat constructor|].
      intros s Hx. set_solver by lia.
    + intros s [Hx| ->%list_elem_of_singleton]%elem_of_app; [|set_solver by lia].
      destruct (Hb s Hx). split; [done|lia].
  - intros E. set (c1 := if bool_decide (m_cmd_held c = ∅) then set_gap c now else c) in *.
    assert (m_cmd_held c1 = m_cmd_held c /\ m_cmd_next_expected c1 = m_cmd_next_expected c /\
      m_cmd_initialized c1 = true) as (Eh & En & Ei)
      by (unfold c1; case_bool_decide; simpl; split_and!; done).
    apply (ordered_expire (R ∪ {[seq]}) l) in E; [done| |done].
    split; simpl; rewrite ?Eh, ?En; [split; [done|]| |done|done].
    + intros s b Hsb. assert ((m_cmd_held c !! s = Some b) \/ (s = seq /\ b = pay seq)) as [Hx|[-> ->]].
      { destruct (m_cmd_held c !! seq); [by left|]. apply lookup_insert_Some in Hsb. naive_solver. }
      * by apply Hh.
      * split_and!; [lia|lia|set_solver|done].
    + destruct (m_cmd_held c !! seq); [done|]. by rewrite lookup_insert_ne.
Qed.

(** The first packet initialises the channel at its own number. *)
Lemma handle_fresh c seq rtt now :
  fresh c -> 0 < seq -> handle c seq (pay seq) rtt now =
  handle (mkCommand (m_cmd_seq_out c) seq true (m_cmd_held c) (m_cmd_gap_since c)) seq (pay seq) rtt now.
Proof. intros [Hi _] Hs. unfold handle. rewrite (proj2 (Z.eqb_neq seq 0)), Hi by lia. reflexivity. Qed.

Definition channel_ok (R : zset) (l : list Z) (c : CommandState) : Prop :=
  (fresh c /\ l = []) \/ (ordered R l c /\ m_cmd_initialized c = true).

Lemma channel_step R l c e c' out :
  channel_ok R l c -> event_ok e -> step c e = (c', out) ->
  exists l', out = pay <$> l' /\ channel_ok (R ∪ arrived e) (l ++ l') c'.
Proof.
  intros Hc He E. destruct e as [seq rtt now|rtt now]; simpl in *.
  - assert (exists l', out = pay <$> l' /\ ordered (R ∪ {[seq]}) (l ++ l') c' /\
      m_cmd_initialized c' = true) as (l' & ? & ? & ?).
    { destruct Hc as [[Hf ->]|[Ho Hi]]; [|by eapply ordered_handle].
      rewrite handle_fresh in E by (done || lia). destruct Hf as [_ Hh].
      eapply (ordered_handle R []) in E; [done| |done|done].
      split; simpl; rewrite ?Hh; [split; [lia|]; intros s b; by rewrite lookup_empty|done|constructor|].
      set_solver. }
    exists l'. split; [done|]. by right.
  - rewrite (right_id_L ∅ (∪)). destruct Hc as [[[Hi Hh] ->]|[Ho Hi]].
    + unfold flush_expired, expire_locked in E. rewrite Hh in E.
      rewrite (proj2 (first_entry_None _) eq_refl) in E. injection E as <- <-.
      exists []. split; [done|]. left. split; [by split|done].
    + unfold flush_expired in E. apply (ordered_expire R l) in E as (l' & ? & ? & ?); [|done|done].
      exists l'. split; [done|]. by right.
Qed.

Lemma channel_run R l c es c' outs :
  channel_ok R l c -> Forall event_ok es -> run c es = (c', outs) ->
  exists l', outs = pay <$> l' /\ channel_ok (R ∪ all_arrived es) (l ++ l') c'.
Proof.
  intros Hc He. revert R l c c' outs Hc. induction He as [|e es He Hes IH]; intros R l c c' outs Hc; simpl.
  - intros [= <- <-]. exists []. rewrite app_nil_r. unfold all_arrived. simpl.
    by rewrite (right_id_L ∅ (∪)).
  - destruct (step c e) as [c1 o1] eqn:E1. destruct (run c1 es) as [c2 o2] eqn:E2.
    intros [= <- <-]. destruct (channel_step R l c e c1 o1 Hc He E1) as (l1 & -> & H1).
    destruct (IH _ _ _ _ _ H1 E2) as (l2 & -> & H2). exists (l1 ++ l2).
    rewrite fmap_app, (assoc_L (++)). unfold all_arrived in *. simpl.
    by rewrite (assoc_L (∪)).
Qed.
End Ordered.

(** C19. Order and uniqueness of commands: whatever arrives, in any order, with
    any duplicates, losses and timing, the commands handed up are those of a
    strictly increasing list of received sequence numbers: each is delivered
    at most once, with the payload it was sent with, and never after a later
    one. *)
Theorem commands_in_order pay c es c' outs :
  fresh c -> Forall event_ok es -> run pay c es = (c', outs) ->
  exists l, outs = pay <$> l /\ StronglySorted Z.lt l /\ forall s, s ∈ l -> s ∈ all_arrived es.
Proof.
  intros Hf He E. destruct (channel_run pay ∅ [] c es c' outs) as (l & -> & Hc); [by left|done|done|].
  rewrite (left_id_L ∅ (∪)) in Hc. simpl in Hc. exists l. split; [done|].
  destruct Hc as [[_ ->]|[[_ _ Hs Hb] _]]; [split; [constructor|set_solver]|].
  split; [done|]. intros s Hx. by apply Hb.
Qed.

Lemma commands_in_order_witness :
  exists l, snd (run (fun s => [s]) new_cmd [Arrive 3 0 0; Arrive 6 0 0; Arrive 5 0 0; Arrive 4 0 1; Tick 0 2])
      = (fun s => [s]) <$> l /\ StronglySorted Z.lt l /\
    forall s, s ∈ l -> s ∈ all_arrived [Arrive 3 0 0; Arrive 6 0 0; Arrive 5 0 0; Arrive 4 0 1; Tick 0 2].
Proof.
  eapply (commands_in_order (fun s => [s]) new_cmd); [done| |apply surjective_pairing].
  repeat constructor; simpl; lia.
Defined.

(** ** Nothing is lost while no wait expires *)

Section Prompt.
Context (pay : Z -> bytes) (t0 first : Z).

Definition prompt (e : event) : Prop :=
  match e with
  | Arrive _ rtt_us now | Tick rtt_us now => t0 <= now < t0 + wait_ns rtt_us
  end.

(** Everything from [first] on is delivered up to the first number that has
    not arrived; the rest is held. *)
Record gapless (R : zset) (c : CommandState) : Prop := {
  ga_init : m_cmd_initialized c = true;
  ga_held : held_ok pay R (m_cmd_next_expected c) (m_cmd_held c);
  ga_first : first <= m_cmd_next_expected c;
  ga_all : forall s, s ∈ R -> m_cmd_next_expected c <= s -> is_Some (m_cmd_held c !! s);
  ga_next : m_cmd_next_expected c ∉ R;
  ga_below : forall s, first <= s < m_cmd_next_expected c -> s ∈ R;
  ga_since : m_cmd_held c <> ∅ -> t0 <= m_cmd_gap_since c }.

Lemma expire_prompt c rtt now :
  (m_cmd_held c <> ∅ -> t0 <= m_cmd_gap_since c) -> now < t0 + wait_ns rtt ->
  expire_locked c rtt now = (c, []).
Proof.
  intros Hg Hn. unfold expire_locked. destruct (first_entry _) as [[k x]|] eqn:E; [|done].
  rewrite (proj2 (Z.ltb_lt _ _)); [done|]. enough (t0 <= m_cmd_gap_since c) by lia. apply Hg.
  intros E0. rewrite E0 in E. rewrite (proj2 (first_entry_None _) eq_refl) in E. done.
Qed.

Lemma gapless_arrive R c seq rtt now c' out :
  gapless R c -> 0 < seq < 2 ^ 32 - 1 -> t0 <= now < t0 + wait_ns rtt ->
  handle c seq (pay seq) rtt now = (c', out) ->
  gapless (R ∪ {[seq]}) c' /\ m_cmd_next_expected c <= m_cmd_next_expected c' /\
  out = pay <$> seqZ (m_cmd_next_expected c) (m_cmd_next_expected c' - m_cmd_next_expected c).
Proof.
  intros [Hi [Hn Hh] Hf Ha Hx Hb Hg] Hseq Hnow. unfold handle.
  rewrite (proj2 (Z.eqb_neq seq 0)), Hi by lia.
  destruct (Z.ltb_spec seq (m_cmd_next_expected c)) as [Hlt|Hge].
  { intros [= <- <-]. rewrite Z.sub_diag. split; [|done].
    split; try done; [|set_solver by lia..]. split; [done|]. intros s b E. apply Hh in E. set_solver. }
  destruct (Z.eqb_spec seq (m_cmd_next_expected c)) as [Heq|Hne].
  - rewrite u32_id by (unfold in_width; lia). rewrite <- Heq in *.
    assert (m_cmd_held c !! seq = None) as Hnone.
    { destruct (m_cmd_held c !! seq) eqn:E; [|done]. by apply Hh in E as (_ & ? & _). }
    unfold drain_locked. cbn [set_next m_cmd_held m_cmd_next_expected].
    destruct (drain _ _ _) as [[held' next'] o] eqn:E. intros [= <- <-].
    apply (drain_spec pay _ (R ∪ {[seq]})) in E as (Hle & -> & Hin & Hn' & Hok & Hsame); [|done|].
    2: { split; [lia|]. intros s b Hsb. assert (s <> seq) by congruence.
         apply Hh in Hsb as (? & ? & ?). split_and!; [lia|lia|set_solver|done]. }
    cbn [m_cmd_next_expected]. split_and!; [|lia|].
    2: { rewrite (seqZ_cons seq) by lia. rewrite fmap_cons. do 3 f_equal; lia. }
    split; simpl; try done; [lia|..].
    + intros s HsR Hs. rewrite Hsame by done. apply Ha; [set_solver by lia|lia].
    + intros HR. destruct (decide (next' = seq)); [lia|].
      assert (is_Some (m_cmd_held c !! next')) as Hsome by (apply Ha; [set_solver|lia]).
      rewrite <- (Hsame next') in Hsome by lia. rewrite Hn' in Hsome. by destruct Hsome.
    + intros s Hs. destruct (decide (s < seq)); [set_solver by lia|].
      destruct (decide (s = seq)); [set_solver|]. by apply Hin; lia.
    + intros Hne'. apply Hg. intros E0. apply Hne'. apply map_eq. intros s. rewrite lookup_empty.
      destruct (decide (next' <= s)).
      * rewrite Hsame by done. by rewrite E0.
      * destruct (held' !! s) eqn:E; [|done]. apply Hok in E as (? & _). lia.
  - set (c1 := if bool_decide (m_cmd_held c = ∅) then set_gap c now else c).
    assert (m_cmd_held c1 = m_cmd_held c /\ m_cmd_next_expected c1 = m_cmd_next_expected c /\
      m_cmd_initialized c1 = true /\ t0 <= m_cmd_gap_since c1) as (Eh & En & Ei & Eg).
    { unfold c1. case_bool_decide; simpl; split_and!; try done; [lia|by apply Hg]. }
    intros E. rewrite expire_prompt in E; [|done|lia]. injection E as <- <-.
    simpl. rewrite Eh, En, Z.sub_diag. split; [|done].
    set (held := match m_cmd_held c !! seq with Some _ => _ | None => _ end).
    assert (forall s, is_Some (held !! s) <-> is_Some (m_cmd_held c !! s) \/ s = seq) as Hheld.
    { intros s. unfold held. destruct (m_cmd_held c !! seq) eqn:E; [naive_solver|].
      rewrite lookup_insert_is_Some. destruct (decide (seq = s)); naive_solver. }
    split; simpl; try done.
    + split; [lia|]. intros s b Hsb.
      assert ((m_cmd_held c !! s = Some b) \/ (s = seq /\ b = pay seq)) as [Hx'|[-> ->]].
      { unfold held in Hsb. destruct (m_cmd_held c !! seq); [by left|].
        apply lookup_insert_Some in Hsb. naive_solver. }
      * apply Hh in Hx' as (? & ? & ?). split_and!; [lia|lia|set_solver|done].
      * split_and!; [lia|lia|set_solver|done].
    + intros s HsR Hs. apply Hheld. destruct (decide (s = seq)); [by right|].
      left. apply Ha; [set_solver|lia].
    + set_solver by lia.
    + set_solver.
Qed.

Lemma gapless_run R c es c' outs :
  gapless R c -> Forall event_ok es -> Forall prompt es -> run pay c es = (c', outs) ->
  gapless (R ∪ all_arrived es) c' /\ m_cmd_next_expected c <= m_cmd_next_expected c' /\
  outs = pay <$> seqZ (m_cmd_next_expected c) (m_cmd_next_expected c' - m_cmd_next_expected c).
Proof.
  intros Hc He. revert R c c' outs Hc.
  induction He as [|e es He Hes IH]; intros R c c' outs Hc Hp; simpl.
  - intros [= <- <-]. unfold all_arrived. simpl. rewrite (right_id_L ∅ (∪)), Z.sub_diag. done.
  - apply Forall_cons in Hp as [Hp1 Hp].
    destruct (step pay c e) as [c1 o1] eqn:E1. destruct (run pay c1 es) as [c2 o2] eqn:E2.
    intros [= <- <-].
    assert (gapless (R ∪ arrived e) c1 /\ m_cmd_next_expected c <= m_cmd_next_expected c1 /\
      o1 = pay <$> seqZ (m_cmd_next_expected c) (m_cmd_next_expected c1 - m_cmd_next_expected c))
      as (Hc1 & Hle1 & ->).
    { destruct e as [seq rtt now|rtt now]; simpl in *; [by eapply gapless_arrive|].
      unfold flush_expired in E1. rewrite expire_prompt in E1; [|apply Hc|lia].
      injection E1 as <- <-. rewrite (right_id_L ∅ (∪)), Z.sub_diag. done. }
    destruct (IH _ _ _ _ Hc1 Hp E2) as (Hc2 & Hle2 & ->).
    unfold all_arrived in *. simpl. rewrite (assoc_L (∪)). split_and!; [done|lia|].
    rewrite <- fmap_app. f_equal.
    replace (m_cmd_next_expected c2 - m_cmd_next_expected c) with
      ((m_cmd_next_expected c1 - m_cmd_next_expected c) + (m_cmd_next_expected c2 - m_cmd_next_expected c1))
      by lia.
    rewrite seqZ_app by lia. do 2 f_equal. lia.
Qed.
End Prompt.

(** C20. Completeness of the command channel: as long as no gap outlives its
    three-RTT wait, the commands handed up are exactly those from the first
    arrival up to the first sequence number that has not arrived, in order. *)
Theorem commands_complete pay t0 c seq rtt now es c' outs :
  fresh c -> Forall event_ok (Arrive seq rtt now :: es) ->
  Forall (prompt t0) (Arrive seq rtt now :: es) ->
  run pay c (Arrive seq rtt now :: es) = (c', outs) ->
  exists k, outs = pay <$> seqZ seq k /\ 0 < k /\
    (forall s, seq <= s < seq + k -> s ∈ all_arrived (Arrive seq rtt now :: es)) /\
    seq + k ∉ all_arrived (Arrive seq rtt now :: es).
Proof.
  intros Hf He Hp E. pose proof He as He'. apply Forall_cons in He' as [Hs _]. simpl in Hs.
  assert (run pay c (Arrive seq rtt now :: es) =
    run pay (mkCommand (m_cmd_seq_out c) seq true (m_cmd_held c) (m_cmd_gap_since c))
      (Arrive seq rtt now :: es)) as Erun.
  { simpl. by rewrite handle_fresh by (done || lia). }
  rewrite Erun in E. destruct Hf as [_ Hh].
  apply (gapless_run pay t0 seq ∅) in E as (Hg & Hle & ->); [|..|done|done].
  2: { split; simpl; rewrite ?Hh; try done; [|set_solver..|lia].
       split; [lia|]. intros s b. by rewrite lookup_empty. }
  rewrite (left_id_L ∅ (∪)) in Hg. destruct Hg as [_ _ _ _ Hn Hb _]. simpl in *.
  exists (m_cmd_next_expected c' - seq).
  replace (seq + (m_cmd_next_expected c' - seq)) with (m_cmd_next_expected c') by lia.
  split_and!; [done| |done|done].
  destruct (decide (m_cmd_next_expected c' = seq)) as [Eq|]; [|lia]. rewrite Eq in Hn.
  exfalso. apply Hn. unfold all_arrived. simpl. set_solver.
Qed.

Lemma commands_complete_witness :
  exists k, snd (run (fun s => [s]) new_cmd [Arrive 3 0 0; Arrive 6 0 0; Arrive 5 0 0; Arrive 4 0 1])
      = (fun s => [s]) <$> seqZ 3 k /\ 0 < k /\
    (forall s, 3 <= s < 3 + k -> s ∈ all_arrived [Arrive 3 0 0; Arrive 6 0 0; Arrive 5 0 0; Arrive 4 0 1]) /\
    3 + k ∉ all_arrived [Arrive 3 0 0; Arrive 6 0 0; Arrive 5 0 0; Arrive 4 0 1].
Proof.
  eapply (commands_complete (fun s => [s]) 0 new_cmd); [done|..|apply surjective_pairing].
  - repeat constructor; simpl; lia.
  - repeat constructor; vm_compute; done.
Defined.

(** The channel has no memory of where the sender started: if command 2
    overtakes command 1, command 1 is dropped at once instead of waiting. *)
Theorem overtaken_first_command_dropped :
  let '(c, out2) := handle new_cmd 2 [2] 50000 0 in
  let '(c, out1) := handle c 1 [1] 50000 1 in
  out2 = [[2]] /\ out1 = [].
Proof. vm_compute. done. Qed.

End CommandChannel.
