(* ===== verification/Bandwidth.v ===== *)
(** * Bandwidth and RTT estimator (tight/src/bandwidth.cpp)

    The BBR-like estimator: a ring buffer of delivery-rate samples with a
    windowed maximum, a minimum filter and a smoothed RTT, and a pacing gain
    that lateness reports can only lower. *)
From stdpp Require Import base list numbers option sets.
From Stdlib Require Import ZArith Lia.
From S2P Require Import Prelude Float64.

Local Open Scope Z_scope.

Module Bandwidth.

Definition kWindowSize : nat := 10.
Definition kGainUp : F64.double := F64.lit 125 100.
Definition kGainDown : F64.double := F64.lit 75 100.
Definition kGainOne : F64.double := F64.of_Z 1.
Definition kQueueHigh : F64.double := F64.lit 15 10.
Definition kQueueLow : F64.double := F64.lit 12 10.
Definition kQueueTight : F64.double := F64.lit 11 10.
Definition kLateHigh : F64.double := F64.lit 10 100.
Definition kLateLow : F64.double := F64.lit 2 100.

Record Estimator := mkEstimator {
  m_window : list Z;
  m_window_pos : nat;
  m_window_count : nat;
  m_btl_bw : Z;
  m_floor : Z;
  m_gain : F64.double;
  m_last_late_ratio : F64.double;
  m_have_late : bool;
  m_late_rising : bool;
  m_rtt : Z;
  m_rt_prop : Z;
  m_prev_rtt : Z;
  m_have_prev_rtt : bool }.

Definition new (initial_bytes_per_second : Z) : Estimator :=
  let bw := if initial_bytes_per_second =? 0 then 1 else initial_bytes_per_second in
  mkEstimator (replicate kWindowSize 0) 0 0 bw bw kGainOne F64.zero false false 0 0 0 false.

(** Gain from the RTT trend alone. *)
Definition primary_gain (e : Estimator) : F64.double :=
  if (0 <? m_rt_prop e) && (0 <? m_rtt e) then
    let queue_ratio := F64.div (F64.of_Z (m_rtt e)) (F64.of_Z (m_rt_prop e)) in
    let rising := m_have_prev_rtt e && (m_prev_rtt e * 105 <? m_rtt e * 100) in
    if F64.leb kQueueHigh queue_ratio || (rising && F64.leb kQueueLow queue_ratio) then kGainDown
    else if F64.leb queue_ratio kQueueTight && negb rising then kGainUp
    else kGainOne
  else kGainOne.

Definition set_gain (e : Estimator) (g : F64.double) : Estimator :=
  mkEstimator (m_window e) (m_window_pos e) (m_window_count e) (m_btl_bw e) (m_floor e) g
    (m_last_late_ratio e) (m_have_late e) (m_late_rising e) (m_rtt e) (m_rt_prop e) (m_prev_rtt e)
    (m_have_prev_rtt e).

Definition recompute_gain (e : Estimator) : Estimator :=
  let gain := primary_gain e in
  let gain :=
    if m_have_late e then
      if F64.leb kLateHigh (m_last_late_ratio e) ||
         (m_late_rising e && F64.leb kLateLow (m_last_late_ratio e)) then F64.fmin gain kGainDown
      else if F64.ltb kLateLow (m_last_late_ratio e) then F64.fmin gain kGainOne
      else gain
    else gain in
  set_gain e gain.

(** The RTT filters of [on_ack]. *)
Definition feed_rtt (e : Estimator) (rtt : Z) : Estimator :=
  let rt_prop := if (m_rt_prop e =? 0) || (rtt <? m_rt_prop e) then rtt else m_rt_prop e in
  let first := m_rtt e =? 0 in
  mkEstimator (m_window e) (m_window_pos e) (m_window_count e) (m_btl_bw e) (m_floor e) (m_gain e)
    (m_last_late_ratio e) (m_have_late e) (m_late_rising e)
    (if first then rtt else Z.quot (m_rtt e * 7 + rtt) 8) rt_prop
    (if first then m_prev_rtt e else m_rtt e)
    (if first then m_have_prev_rtt e else true).

Definition rate_sample (bytes rtt : Z) : Z :=
  let sample := u64 (bytes * 1000000) / rtt in if sample =? 0 then 1 else sample.

(** Ring-buffer insertion and windowed maximum. *)
Definition feed_rate (e : Estimator) (sample : Z) : Estimator :=
  let window := <[m_window_pos e := sample]> (m_window e) in
  let pos := (S (m_window_pos e) mod kWindowSize)%nat in
  let count := if (m_window_count e <? kWindowSize)%nat then S (m_window_count e) else m_window_count e in
  let best := foldl Z.max 0 (take count window) in
  mkEstimator window pos count (if 0 <? best then best else m_btl_bw e) (m_floor e) (m_gain e)
    (m_last_late_ratio e) (m_have_late e) (m_late_rising e) (m_rtt e) (m_rt_prop e) (m_prev_rtt e)
    (m_have_prev_rtt e).

Definition on_ack (e : Estimator) (bytes rtt : Z) : Estimator :=
  if rtt <=? 0 then e else
  let e := recompute_gain (feed_rtt e rtt) in
  if bytes =? 0 then e else feed_rate e (rate_sample bytes rtt).

Definition on_late_ratio (e : Estimator) (late_ratio : F64.double) : Estimator :=
  let r := if F64.ltb late_ratio F64.zero then F64.zero else late_ratio in
  let r := if F64.ltb (F64.of_Z 1) r then F64.of_Z 1 else r in
  let rising := m_have_late e && F64.ltb (F64.add (m_last_late_ratio e) (F64.lit 1 1000)) r in
  recompute_gain
    (mkEstimator (m_window e) (m_window_pos e) (m_window_count e) (m_btl_bw e) (m_floor e) (m_gain e)
       r true rising (m_rtt e) (m_rt_prop e) (m_prev_rtt e) (m_have_prev_rtt e)).

Definition seed_bandwidth (e : Estimator) (bps : Z) : Estimator :=
  if bps =? 0 then e else
  mkEstimator (m_window e) (m_window_pos e) (m_window_count e) bps bps (m_gain e)
    (m_last_late_ratio e) (m_have_late e) (m_late_rising e) (m_rtt e) (m_rt_prop e) (m_prev_rtt e)
    (m_have_prev_rtt e).

Definition bytes_per_second (e : Estimator) : res Z :=
  paced ← F64.cast_u64 (F64.mul (F64.of_Z (m_btl_bw e)) (m_gain e));
  Ok (Z.max (m_floor e) paced).

Definition rtt (e : Estimator) : Z := m_rtt e.

(** ** Operations as events *)

Inductive op := OnAck (bytes rtt : Z) | OnLate (ratio : F64.double) | Seed (bps : Z).

Definition apply_op (e : Estimator) (o : op) : Estimator :=
  match o with
  | OnAck bytes rtt => on_ack e bytes rtt
  | OnLate r => on_late_ratio e r
  | Seed bps => seed_bandwidth e bps
  end.

Definition run (e : Estimator) (ops : list op) : Estimator := foldl apply_op e ops.

(** ** Pacing gain *)

Lemma primary_gain_cases e :
  primary_gain e = kGainDown \/ primary_gain e = kGainOne \/ primary_gain e = kGainUp.
Proof. unfold primary_gain. repeat case_match; auto. Qed.

(** Lateness is a veto: whatever the peer reports, the gain is one of 0.75,
    1 and 1.25 and never exceeds the gain the RTT trend alone would give. *)
Theorem late_ratio_only_lowers e :
  let g := m_gain (recompute_gain e) in
  (g = kGainDown \/ g = kGainOne \/ g = kGainUp) /\ F64.leb g (primary_gain e) = true.
Proof.
  unfold recompute_gain. cbn [m_gain set_gain].
  generalize (F64.leb kLateHigh (m_last_late_ratio e) ||
    (m_late_rising e && F64.leb kLateLow (m_last_late_ratio e))),
    (F64.ltb kLateLow (m_last_late_ratio e)), (m_have_late e).
  intros b1 b2 b3. destruct (primary_gain_cases e) as [->|[->| ->]];
    destruct b1, b2, b3; vm_compute; auto.
Qed.

(** ** Invariant *)

Record estimator_ok (e : Estimator) : Prop := {
  eo_window : length (m_window e) = kWindowSize;
  eo_pos : (m_window_pos e < kWindowSize)%nat;
  eo_count : (m_window_count e <= kWindowSize)%nat;
  eo_fill : (m_window_count e < kWindowSize)%nat -> m_window_pos e = m_window_count e;
  eo_bw : 0 < m_btl_bw e;
  eo_floor : 0 < m_floor e;
  eo_rtt : 0 <= m_rt_prop e <= m_rtt e;
  eo_both : m_rtt e = 0 <-> m_rt_prop e = 0 }.

Definition op_ok (o : op) : Prop :=
  match o with OnAck bytes _ => 0 <= bytes | OnLate _ => True | Seed bps => 0 <= bps end.

Lemma new_ok bps : 0 <= bps -> estimator_ok (new bps).
Proof.
  intros H. unfold new. split; simpl; unfold kWindowSize; try done; try lia; case_bool; lia.
Qed.

Lemma recompute_ok e : estimator_ok e -> estimator_ok (recompute_gain e).
Proof. intros []. by split. Qed.

Lemma smooth_between a b : 0 < a -> 0 < b -> Z.min a b <= Z.quot (a * 7 + b) 8 <= Z.max a b.
Proof.
  intros. rewrite Z.quot_div_nonneg by lia. split.
  - apply Z.div_le_lower_bound; lia.
  - apply Z.div_le_upper_bound; lia.
Qed.

Lemma feed_rtt_ok e r : estimator_ok e -> 0 < r -> estimator_ok (feed_rtt e r).
Proof.
  intros [] Hr. split; simpl; try done.
  - destruct (Z.eqb_spec (m_rtt e) 0) as [E0|E0].
    + assert (m_rt_prop e = 0) as E1 by tauto. rewrite E1, Z.eqb_refl. simpl. lia.
    + assert (m_rt_prop e <> 0) by tauto. pose proof (smooth_between (m_rtt e) r) as Hs.
      rewrite (proj2 (Z.eqb_neq _ _)) by done. simpl. case_bool; lia.
  - destruct (Z.eqb_spec (m_rtt e) 0) as [E0|E0].
    + assert (m_rt_prop e = 0) as E1 by tauto. rewrite E1, Z.eqb_refl. simpl. lia.
    + assert (m_rt_prop e <> 0) by tauto. pose proof (smooth_between (m_rtt e) r) as Hs.
      rewrite (proj2 (Z.eqb_neq _ _)) by done. simpl. case_bool; lia.
Qed.

Lemma foldl_max_ge l a x : x ∈ l \/ x <= a -> x <= foldl Z.max a l.
Proof.
  revert a. induction l as [|y l IH]; intros a H; simpl; [set_solver|].
  apply IH. destruct H as [[->|H]%elem_of_cons|H]; [right; lia|by left|right; lia].
Qed.

Lemma rate_sample_pos bytes r : 0 < r -> 0 < rate_sample bytes r.
Proof.
  intros Hr. unfold rate_sample. pose proof (u64_width (bytes * 1000000)) as [H0 _].
  pose proof (Z.div_pos _ _ H0 Hr). case_bool; lia.
Qed.

Lemma feed_rate_ok e s : estimator_ok e -> 0 < s -> estimator_ok (feed_rate e s).
Proof.
  intros [] Hs. split; unfold feed_rate;
    cbn [m_window m_window_pos m_window_count m_btl_bw m_floor m_rtt m_rt_prop]; try done.
  - by rewrite length_insert.
  - by apply Nat.mod_upper_bound.
  - destruct (Nat.ltb_spec (m_window_count e) kWindowSize); lia.
  - destruct (Nat.ltb_spec (m_window_count e) kWindowSize) as [Hlt|]; [|lia].
    intros H. rewrite (eo_fill0 Hlt). by apply Nat.mod_small.
  - case_bool; lia.
Qed.

Lemma on_ack_ok e bytes r : estimator_ok e -> estimator_ok (on_ack e bytes r).
Proof.
  intros He. unfold on_ack. destruct (Z.leb_spec r 0); [done|].
  assert (estimator_ok (recompute_gain (feed_rtt e r))) by (by apply recompute_ok, feed_rtt_ok).
  case_match; [done|]. apply feed_rate_ok; [done|]. by apply rate_sample_pos.
Qed.

Lemma apply_op_ok e o : estimator_ok e -> op_ok o -> estimator_ok (apply_op e o).
Proof.
  intros He Ho. destruct o as [bytes r|r|bps]; simpl in *.
  - by apply on_ack_ok.
  - apply recompute_ok. destruct He. by split.
  - unfold seed_bandwidth. destruct (Z.eqb_spec bps 0); [done|].
    destruct He. split; simpl; try done; lia.
Qed.

Lemma run_ok e ops : estimator_ok e -> Forall op_ok ops -> estimator_ok (run e ops).
Proof.
  intros He Ho. revert e He. induction Ho as [|o ops Ho Hos IH]; intros e He; simpl; [done|].
  by apply IH, apply_op_ok.
Qed.

(** Whatever is fed to the estimator, its invariant holds (the ring buffer
    stays in bounds, bandwidth and floor are positive, the minimum RTT never
    exceeds the smoothed one) and the pacing rate is never below the floor. *)
Theorem estimator_invariant initial ops :
  0 <= initial -> Forall op_ok ops ->
  let e := run (new initial) ops in
  estimator_ok e /\ forall bps, bytes_per_second e = Ok bps -> 0 < m_floor e <= bps.
Proof.
  intros Hi Ho e. assert (estimator_ok e) as He by (by apply run_ok, Ho; apply new_ok).
  split; [done|]. intros bps H. unfold bytes_per_second in H. inv_bind H. injection H as <-.
  pose proof (eo_floor e He). lia.
Qed.

Lemma estimator_invariant_witness :
  let e := run (new 1000) [OnAck 5000 20000; OnLate (F64.lit 5 100); Seed 7000; OnAck 0 30000] in
  estimator_ok e /\ forall bps, bytes_per_second e = Ok bps -> 0 < m_floor e <= bps.
Proof.
  apply (estimator_invariant 1000 [OnAck 5000 20000; OnLate (F64.lit 5 100); Seed 7000; OnAck 0 30000]);
    [lia|]. repeat constructor; simpl; lia.
Defined.

(** ** The ring buffer against the history of samples *)

Definition lastn (n : nat) (l : list Z) : list Z := drop (length l - n) l.

Lemma elem_of_lastn n l x : (0 < n)%nat -> x ∈ lastn n (l ++ [x]).
Proof.
  intros Hn. unfold lastn. rewrite length_app. simpl.
  rewrite drop_app_le by lia. set_solver.
Qed.

Definition max_of (l : list Z) : Z := foldl Z.max 0 l.

Lemma foldl_max_perm l l' a : l ≡ₚ l' -> foldl Z.max a l = foldl Z.max a l'.
Proof.
  intros H. revert a. induction H as [|x l l' _ IH|x y l|l1 l2 l3 _ IH1 _ IH2]; intros a; simpl.
  - done.
  - apply IH.
  - f_equal. lia.
  - by rewrite IH1.
Qed.

Record window_holds (hist : list Z) (e : Estimator) : Prop := {
  wh_ok : length (m_window e) = kWindowSize /\ (m_window_pos e < kWindowSize)%nat;
  wh_count : m_window_count e = (length hist `min` kWindowSize)%nat;
  wh_part : (length hist < kWindowSize)%nat ->
    m_window_pos e = length hist /\ take (length hist) (m_window e) = hist;
  wh_full : (kWindowSize <= length hist)%nat ->
    drop (m_window_pos e) (m_window e) ++ take (m_window_pos e) (m_window e) = lastn kWindowSize hist }.

(** Writing at the cursor drops the oldest sample. *)
Lemma ring_insert (w : list Z) pos s :
  length w = kWindowSize -> (pos < kWindowSize)%nat ->
  let w' := <[pos := s]> w in let pos' := (S pos mod kWindowSize)%nat in
  drop pos' w' ++ take pos' w' = tail (drop pos w ++ take pos w) ++ [s].
Proof.
  intros Hl Hp w' pos'. unfold w', pos'. rewrite insert_take_drop by lia.
  assert (length (take pos w) = pos) as Ht by (rewrite length_take; lia).
  assert (tail (drop pos w ++ take pos w) = drop (S pos) w ++ take pos w) as ->.
  { destruct (lookup_lt_is_Some_2 w pos) as [x Hx]; [lia|].
    by rewrite (drop_S w x pos Hx). }
  destruct (decide (S pos = kWindowSize)) as [E|E].
  - rewrite E, Nat.Div0.mod_same, drop_0. simpl. rewrite app_nil_r.
    rewrite (drop_ge w kWindowSize) by lia. done.
  - rewrite Nat.mod_small by lia.
    replace (S pos) with (length (take pos w) + 1)%nat by lia.
    rewrite drop_app_add, take_app_add, Ht. simpl. rewrite drop_0.
    rewrite Nat.add_1_r, <- (assoc_L (++)). done.
Qed.

Lemma feed_rate_holds hist e s :
  window_holds hist e -> window_holds (hist ++ [s]) (feed_rate e s).
Proof.
  intros [[Hl Hp] Hc Hpart Hfull]. unfold feed_rate.
  assert (length (hist ++ [s]) = S (length hist)) as Hlen by (rewrite length_app; simpl; lia).
  split; cbn [m_window m_window_pos m_window_count]; rewrite ?Hlen.
  - rewrite length_insert. split; [done|]. by apply Nat.mod_upper_bound.
  - rewrite Hc. destruct (Nat.ltb_spec (length hist `min` kWindowSize) kWindowSize); lia.
  - intros Hlt. destruct (Hpart ltac:(lia)) as [-> Ht]. split; [by apply Nat.mod_small|].
    rewrite insert_take_drop by lia. rewrite Ht.
    replace (S (length hist)) with (length hist + 1)%nat by lia.
    by rewrite take_app_add.
  - intros Hge. rewrite ring_insert by done. destruct (decide (length hist < kWindowSize)%nat) as [Hlt|Hge'].
    + destruct (Hpart Hlt) as [Hpos Ht]. assert (S (length hist) = kWindowSize) as E by lia.
      unfold lastn. rewrite Hlen, E, Nat.sub_diag, drop_0. f_equal.
      rewrite Hpos, Ht. destruct (lookup_lt_is_Some_2 (m_window e) (length hist)) as [x Hx]; [lia|].
      rewrite (drop_S _ x _ Hx), E. rewrite (drop_ge (m_window e)) by lia. done.
    + rewrite Hfull by lia. unfold lastn. rewrite Hlen.
      rewrite drop_app_le by lia. f_equal.
      replace (S (length hist) - kWindowSize)%nat with (1 + (length hist - kWindowSize))%nat by lia.
      rewrite Nat.add_comm, <- drop_drop. by destruct (drop _ hist).
Qed.

Lemma window_max hist e : window_holds hist e ->
  max_of (take (m_window_count e) (m_window e)) = max_of (lastn kWindowSize hist).
Proof.
  intros [[Hl Hp] Hc Hpart Hfull]. rewrite Hc.
  destruct (decide (length hist < kWindowSize)%nat) as [Hlt|Hge].
  - destruct (Hpart Hlt) as [_ Ht]. rewrite Nat.min_l, Ht by lia. unfold lastn.
    by replace (length hist - kWindowSize)%nat with 0%nat by lia.
  - rewrite Nat.min_r by lia. rewrite take_ge by lia. rewrite <- Hfull by lia.
    apply foldl_max_perm. by rewrite (comm (++)), take_drop.
Qed.

Lemma recompute_holds hist e r :
  window_holds hist e -> window_holds hist (recompute_gain (feed_rtt e r)).
Proof. intros []. by split. Qed.

Definition samples (acks : list (Z * Z)) : list Z := (fun '(b, r) => rate_sample b r) <$> acks.

Definition run_acks (e : Estimator) (acks : list (Z * Z)) : Estimator :=
  foldl (fun e '(b, r) => on_ack e b r) e acks.

Lemma run_acks_snoc e acks b r : run_acks e (acks ++ [(b, r)]) = on_ack (run_acks e acks) b r.
Proof. unfold run_acks. by rewrite foldl_app. Qed.

Lemma run_acks_holds bps acks :
  Forall (fun '(b, r) => 0 < b /\ 0 < r) acks ->
  window_holds (samples acks) (run_acks (new bps) acks) /\
  (acks <> [] -> m_btl_bw (run_acks (new bps) acks) = max_of (lastn kWindowSize (samples acks))).
Proof.
  induction acks as [|[b r] acks IH] using rev_ind; intros Ha.
  { split; [|done]. split; simpl; unfold kWindowSize; done || lia. }
  apply Forall_app in Ha as [Ha Hbr]. apply Forall_singleton in Hbr as [Hb Hr].
  destruct (IH Ha) as [Hw _]. clear IH. rewrite run_acks_snoc.
  unfold samples in *. rewrite fmap_app. change (_ <$> [(b, r)]) with [rate_sample b r].
  unfold on_ack. rewrite (proj2 (Z.leb_gt _ _)), (proj2 (Z.eqb_neq b 0)) by lia.
  apply (recompute_holds _ _ r) in Hw.
  set (e := recompute_gain (feed_rtt (run_acks (new bps) acks) r)) in *.
  apply (feed_rate_holds _ _ (rate_sample b r)) in Hw. split; [done|]. intros _.
  pose proof (window_max _ _ Hw) as Hm. rewrite <- Hm.
  change (m_btl_bw (feed_rate e (rate_sample b r))) with
    (if 0 <? max_of (take (m_window_count (feed_rate e (rate_sample b r)))
                       (m_window (feed_rate e (rate_sample b r))))
     then max_of (take (m_window_count (feed_rate e (rate_sample b r)))
                       (m_window (feed_rate e (rate_sample b r)))) else m_btl_bw e).
  rewrite (proj2 (Z.ltb_lt _ _)); [done|]. rewrite Hm.
  apply Z.lt_le_trans with (rate_sample b r); [by apply rate_sample_pos|].
  apply foldl_max_ge. left. apply elem_of_lastn. unfold kWindowSize. lia.
Qed.

(** The bottleneck bandwidth is the maximum of the last ten delivery-rate
    samples: the ring buffer implements a sliding window over the history. *)
Theorem btl_bw_windowed_max bps acks :
  Forall (fun '(b, r) => 0 < b /\ 0 < r) acks -> acks <> [] ->
  m_btl_bw (run_acks (new bps) acks) = max_of (lastn 10 (samples acks)).
Proof. intros Ha Hne. by apply (run_acks_holds bps acks Ha). Qed.

Lemma btl_bw_windowed_max_witness :
  m_btl_bw (run_acks (new 5) (replicate 3 (9000, 1000) ++ replicate 12 (500, 1000))) = 500000.
Proof.
  rewrite btl_bw_windowed_max; [vm_compute; reflexivity|repeat constructor; lia|done].
Defined.

End Bandwidth.
