(* ===== verification/Sha256.v ===== *)
(** * SHA-256, HMAC and HKDF (tight/src/crypto.cpp, lines 8-161)

    The streaming hash is proved equal to the padded, block-wise definition of
    FIPS 180-4, however the input is cut into updates. *)
From stdpp Require Import base list numbers option.
From Stdlib Require Import ZArith Lia.
From S2P Require Import Prelude.

Local Open Scope Z_scope.

Module Sha256.

(** Eight rows of eight, flattened. *)
Definition kSha256K : list Z := concat [
  [0x428a2f98; 0x71374491; 0xb5c0fbcf; 0xe9b5dba5; 0x3956c25b; 0x59f111f1; 0x923f82a4; 0xab1c5ed5];
  [0xd807aa98; 0x12835b01; 0x243185be; 0x550c7dc3; 0x72be5d74; 0x80deb1fe; 0x9bdc06a7; 0xc19bf174];
  [0xe49b69c1; 0xefbe4786; 0x0fc19dc6; 0x240ca1cc; 0x2de92c6f; 0x4a7484aa; 0x5cb0a9dc; 0x76f988da];
  [0x983e5152; 0xa831c66d; 0xb00327c8; 0xbf597fc7; 0xc6e00bf3; 0xd5a79147; 0x06ca6351; 0x14292967];
  [0x27b70a85; 0x2e1b2138; 0x4d2c6dfc; 0x53380d13; 0x650a7354; 0x766a0abb; 0x81c2c92e; 0x92722c85];
  [0xa2bfe8a1; 0xa81a664b; 0xc24b8b70; 0xc76c51a3; 0xd192e819; 0xd6990624; 0xf40e3585; 0x106aa070];
  [0x19a4c116; 0x1e376c08; 0x2748774c; 0x34b0bcb5; 0x391c0cb3; 0x4ed8aa4a; 0x5b9cca4f; 0x682e6ff3];
  [0x748f82ee; 0x78a5636f; 0x84c87814; 0x8cc70208; 0x90befffa; 0xa4506ceb; 0xbef9a3f7; 0xc67178f2] ].

Definition rotr32 (x n : Z) : Z := Z.lor (Z.shiftr x n) (u32 (Z.shiftl x (32 - n))).

Definition word (block : bytes) (i : nat) : Z :=
  Z.lor (Z.lor (Z.lor (Z.shiftl (byte_at block (i * 4)) 24) (Z.shiftl (byte_at block (i * 4 + 1)) 16))
           (Z.shiftl (byte_at block (i * 4 + 2)) 8)) (byte_at block (i * 4 + 3)).

(** Message schedule: words 16 to 63 are appended one by one. *)
Definition next_word (w : list Z) : Z :=
  let i := length w in
  let w15 := byte_at w (i - 15) in
  let w2 := byte_at w (i - 2) in
  let s0 := Z.lxor (Z.lxor (rotr32 w15 7) (rotr32 w15 18)) (Z.shiftr w15 3) in
  let s1 := Z.lxor (Z.lxor (rotr32 w2 17) (rotr32 w2 19)) (Z.shiftr w2 10) in
  u32 (byte_at w (i - 16) + s0 + byte_at w (i - 7) + s1).

Fixpoint extend (n : nat) (w : list Z) : list Z :=
  match n with O => w | S n => extend n (w ++ [next_word w]) end.

Definition schedule (block : bytes) : list Z := extend 48 (word block <$> seq 0 16).

Record Vars := mkVars { va : Z; vb : Z; vc : Z; vd : Z; ve : Z; vf : Z; vg : Z; vh : Z }.

Definition not32 (x : Z) : Z := Z.lxor x 0xFFFFFFFF.

Definition round (w : list Z) (v : Vars) (i : nat) : Vars :=
  let e := ve v in
  let a := va v in
  let s1 := Z.lxor (Z.lxor (rotr32 e 6) (rotr32 e 11)) (rotr32 e 25) in
  let ch := Z.lxor (Z.land e (vf v)) (Z.land (not32 e) (vg v)) in
  let t1 := u32 (vh v + s1 + ch + byte_at kSha256K i + byte_at w i) in
  let s0 := Z.lxor (Z.lxor (rotr32 a 2) (rotr32 a 13)) (rotr32 a 22) in
  let maj := Z.lxor (Z.lxor (Z.land a (vb v)) (Z.land a (vc v))) (Z.land (vb v) (vc v)) in
  let t2 := u32 (s0 + maj) in
  mkVars (u32 (t1 + t2)) a (vb v) (vc v) (u32 (vd v + t1)) e (vf v) (vg v).

Definition compress (h : Vars) (block : bytes) : Vars :=
  let v := foldl (round (schedule block)) h (seq 0 64) in
  mkVars (u32 (va h + va v)) (u32 (vb h + vb v)) (u32 (vc h + vc v)) (u32 (vd h + vd v))
         (u32 (ve h + ve v)) (u32 (vf h + vf v)) (u32 (vg h + vg v)) (u32 (vh h + vh v)).

(** [buf] holds the [buf_len] bytes not compressed yet. *)
Record Sha256Ctx := mkCtx { h : Vars; buf : bytes; total_len : Z }.

Definition h0 : Vars :=
  mkVars 0x6a09e667 0xbb67ae85 0x3c6ef372 0xa54ff53a 0x510e527f 0x9b05688c 0x1f83d9ab 0x5be0cd19.
Definition new_ctx : Sha256Ctx := mkCtx h0 [] 0.

(** The copy loop of [update]; every turn consumes at least one byte. *)
Fixpoint update_loop (fuel : nat) (h : Vars) (buf data : bytes) : Vars * bytes :=
  match fuel with
  | O => (h, buf)
  | S fuel =>
      if (length data =? 0)%nat then (h, buf) else
      let n := Nat.min (64 - length buf) (length data) in
      let buf := buf ++ take n data in
      let data := drop n data in
      if (length buf =? 64)%nat then update_loop fuel (compress h buf) [] data
      else update_loop fuel h buf data
  end.

Definition update (c : Sha256Ctx) (data : bytes) : Sha256Ctx :=
  let '(h', buf') := update_loop (length data) (h c) (buf c) data in
  mkCtx h' buf' (u64 (total_len c + Z.of_nat (length data))).

(** [while (buf_len != 56) update(&zero, 1)]. *)
Fixpoint pad_zeros (fuel : nat) (c : Sha256Ctx) : Sha256Ctx :=
  match fuel with
  | O => c
  | S fuel => if (length (buf c) =? 56)%nat then c else pad_zeros fuel (update c [0])
  end.

Definition be64 (v : Z) : bytes :=
  (fun i => Z.land (Z.shiftr v (56 - Z.of_nat i * 8)) 0xFF) <$> seq 0 8.

Definition be32 (v : Z) : bytes :=
  [Z.land (Z.shiftr v 24) 0xFF; Z.land (Z.shiftr v 16) 0xFF; Z.land (Z.shiftr v 8) 0xFF; Z.land v 0xFF].

Definition digest (v : Vars) : bytes :=
  be32 (va v) ++ be32 (vb v) ++ be32 (vc v) ++ be32 (vd v) ++
  be32 (ve v) ++ be32 (vf v) ++ be32 (vg v) ++ be32 (vh v).

Definition finish (c : Sha256Ctx) : bytes :=
  let bit_len := u64 (total_len c * 8) in
  let c := update c [0x80] in
  let c := pad_zeros 64 c in
  let c := update c (be64 bit_len) in
  digest (h c).

Definition sha256 (data : bytes) : bytes := finish (update new_ctx data).

Definition hmac_sha256 (key msg : bytes) : bytes :=
  let k0 := if (64 <? length key)%nat then resize0 64 (sha256 key) else resize0 64 key in
  let ipad := (fun k => Z.lxor k 0x36) <$> k0 in
  let opad := (fun k => Z.lxor k 0x5C) <$> k0 in
  let inner_out := finish (update (update new_ctx ipad) msg) in
  finish (update (update new_ctx opad) inner_out).

Definition hkdf_sha256 (ikm salt info : bytes) : bytes :=
  let salt := if (length salt =? 0)%nat then replicate 32 0 else salt in
  let prk := hmac_sha256 salt ikm in
  hmac_sha256 prk (info ++ [1]).

(** ** Streaming equals block-wise hashing *)

(** Reference: compress the full 64-byte blocks of a message. *)
Fixpoint blocks (fuel : nat) (h : Vars) (data : bytes) : Vars * bytes :=
  match fuel with
  | O => (h, data)
  | S fuel => if (length data <? 64)%nat then (h, data)
              else blocks fuel (compress h (take 64 data)) (drop 64 data)
  end.

Definition hash_blocks (h : Vars) (data : bytes) : Vars * bytes := blocks (length data) h data.

Lemma blocks_fuel fuel fuel' h data :
  (length data <= fuel)%nat -> (length data <= fuel')%nat -> blocks fuel h data = blocks fuel' h data.
Proof.
  revert fuel' h data. induction fuel as [|fuel IH]; intros fuel' h data H1 H2; simpl.
  - destruct data; [|simpl in H1; lia]. by destruct fuel'.
  - destruct fuel' as [|fuel']; simpl.
    + destruct data; [done|simpl in H2; lia].
    + destruct (Nat.ltb_spec (length data) 64); [done|].
      apply IH; rewrite length_drop; lia.
Qed.

Lemma hash_blocks_short h data : (length data < 64)%nat -> hash_blocks h data = (h, data).
Proof.
  intros H. unfold hash_blocks. destruct data as [|b data]; [done|]. cbn [length blocks].
  by rewrite (proj2 (Nat.ltb_lt _ _)).
Qed.

Lemma hash_blocks_step h data : (64 <= length data)%nat ->
  hash_blocks h data = hash_blocks (compress h (take 64 data)) (drop 64 data).
Proof.
  intros H. unfold hash_blocks. destruct (length data) as [|n] eqn:E; [lia|]. cbn [blocks].
  rewrite (proj2 (Nat.ltb_ge _ _)) by lia. apply blocks_fuel; rewrite length_drop; lia.
Qed.

Lemma update_loop_blocks fuel h buf data :
  (length buf < 64)%nat -> (length data <= fuel)%nat ->
  update_loop fuel h buf data = hash_blocks h (buf ++ data).
Proof.
  revert h buf data. induction fuel as [|fuel IH]; intros h buf data Hb Hf; cbn [update_loop].
  - destruct data; [|simpl in Hf; lia]. rewrite app_nil_r. by rewrite hash_blocks_short.
  - destruct (Nat.eqb_spec (length data) 0) as [E|E].
    { apply nil_length_inv in E as ->. rewrite app_nil_r. by rewrite hash_blocks_short. }
    rewrite length_app, length_take.
    destruct (decide (64 - length buf <= length data)%nat) as [Hle|Hgt].
    + replace (Nat.min (64 - length buf) (length data)) with (64 - length buf)%nat by lia.
      replace (length buf + Nat.min (64 - length buf) (length data))%nat with 64%nat by lia.
      rewrite Nat.eqb_refl, IH by (rewrite ?length_drop; simpl; lia).
      rewrite (hash_blocks_step h (buf ++ data)) by (rewrite length_app; lia).
      rewrite take_app, drop_app, (take_ge buf), (drop_ge buf) by lia. done.
    + replace (Nat.min (64 - length buf) (length data)) with (length data) by lia.
      rewrite (take_ge data), (drop_ge data) by lia.
      rewrite (proj2 (Nat.eqb_neq _ _)) by lia.
      rewrite IH by (rewrite ?length_app; simpl; lia). by rewrite app_nil_r.
Qed.

Lemma hash_blocks_rest h data : (length (hash_blocks h data).2 < 64)%nat.
Proof.
  remember (length data) as n eqn:E. revert h data E. induction n as [n IH] using lt_wf_ind.
  intros h data ->. destruct (decide (length data < 64)%nat).
  - by rewrite hash_blocks_short.
  - rewrite hash_blocks_step by lia. eapply IH; [|done]. rewrite length_drop. lia.
Qed.

Lemma hash_blocks_app h a b :
  hash_blocks h (a ++ b) = let '(h', r) := hash_blocks h a in hash_blocks h' (r ++ b).
Proof.
  remember (length a) as n eqn:E. revert h a E. induction n as [n IH] using lt_wf_ind.
  intros h a ->. destruct (decide (length a < 64)%nat) as [Hlt|Hge].
  - by rewrite (hash_blocks_short h a).
  - rewrite (hash_blocks_step h a), (hash_blocks_step h (a ++ b)) by (rewrite ?length_app; lia).
    rewrite take_app_le, drop_app_le by lia. eapply IH; [|done]. rewrite length_drop. lia.
Qed.

(** The context after the bytes [msg], whatever the updates were. *)
Definition absorbed (msg : bytes) (c : Sha256Ctx) : Prop :=
  hash_blocks h0 msg = (h c, buf c) /\ total_len c = u64 (Z.of_nat (length msg)).

Lemma absorbed_new : absorbed [] new_ctx.
Proof. done. Qed.

Lemma absorbed_buf msg c : absorbed msg c -> (length (buf c) < 64)%nat.
Proof. intros [H _]. pose proof (hash_blocks_rest h0 msg) as Hr. by rewrite H in Hr. Qed.

Lemma absorbed_update msg c data : absorbed msg c -> absorbed (msg ++ data) (update c data).
Proof.
  intros Ha. pose proof (absorbed_buf msg c Ha) as Hb. destruct Ha as [Hh Hl]. unfold update.
  rewrite update_loop_blocks by (done || lia).
  destruct (hash_blocks (h c) (buf c ++ data)) as [h' r] eqn:E. split; simpl.
  - by rewrite hash_blocks_app, Hh.
  - rewrite Hl, length_app, Nat2Z.inj_add. unfold u64. apply Zplus_mod_idemp_l.
Qed.

Lemma hash_blocks_length h msg : (length (hash_blocks h msg).2 = length msg mod 64)%nat.
Proof.
  remember (length msg) as n eqn:E. revert h msg E. induction n as [n IH] using lt_wf_ind.
  intros h msg ->. destruct (decide (length msg < 64)%nat).
  - rewrite hash_blocks_short by done. by rewrite Nat.mod_small.
  - rewrite hash_blocks_step by lia. 
    rewrite (IH (length (drop 64 msg)) ltac:(rewrite length_drop; lia) _ _ eq_refl).
    rewrite length_drop. rewrite <- (Nat.Div0.mod_add (length msg - 64) 1). f_equal. lia.
Qed.

Lemma absorbed_buf_length msg c : absorbed msg c -> length (buf c) = (length msg mod 64)%nat.
Proof. intros [H _]. rewrite <- (hash_blocks_length h0 msg), H. done. Qed.

Lemma pad_zeros_absorbed fuel msg c :
  absorbed msg c -> ((56 + 64 - length msg mod 64) mod 64 <= fuel)%nat ->
  absorbed (msg ++ replicate ((56 + 64 - length msg mod 64) mod 64)%nat 0) (pad_zeros fuel c).
Proof.
  revert msg c. induction fuel as [|fuel IH]; intros msg c Ha Hf.
  - replace ((56 + 64 - length msg mod 64) mod 64)%nat with 0%nat by lia.
    cbn [replicate]. by rewrite app_nil_r.
  - cbn [pad_zeros]. rewrite (absorbed_buf_length msg c Ha).
    pose proof (Nat.mod_upper_bound (length msg) 64 ltac:(lia)) as Hm.
    destruct (Nat.eqb_spec (length msg mod 64) 56) as [E|E].
    { rewrite E. cbn -[Nat.modulo]. by rewrite app_nil_r. }
    assert ((56 + 64 - length msg mod 64) mod 64 =
      S ((56 + 64 - length (msg ++ [0%Z]) mod 64) mod 64))%nat as Ez.
    { rewrite length_app. cbn [length].
      assert ((length msg + 1) mod 64 = if decide (length msg mod 64 = 63) then 0 else length msg mod 64 + 1)%nat as ->.
      { rewrite <- Nat.Div0.add_mod_idemp_l. case_decide as E63; [by rewrite E63|].
        apply Nat.mod_small. lia. }
      case_decide as E63; [by rewrite E63|].
      clear Hf. generalize dependent (length msg mod 64)%nat. intros m Hm E E63.
      destruct (decide (m < 56)%nat).
      - replace (56 + 64 - m)%nat with (56 - m + 1 * 64)%nat by lia.
        replace (56 + 64 - (m + 1))%nat with (55 - m + 1 * 64)%nat by lia.
        rewrite !Nat.Div0.mod_add, !Nat.mod_small by lia. lia.
      - rewrite !Nat.mod_small by lia. lia. }
    rewrite Ez in *. specialize (IH (msg ++ [0]) (update c [0]) (absorbed_update _ _ _ Ha) ltac:(lia)).
    rewrite <- (assoc_L (++)) in IH. done.
Qed.

(** The padded message of FIPS 180-4. *)
Definition padded (msg : bytes) : bytes :=
  msg ++ [0x80] ++ replicate ((56 + 64 - (length msg + 1) mod 64) mod 64)%nat 0
    ++ be64 (8 * Z.of_nat (length msg)).

Lemma padded_blocks msg : (length (padded msg) mod 64 = 0)%nat.
Proof.
  unfold padded. rewrite !length_app, length_replicate.
  change (length (be64 (8 * Z.of_nat (length msg)))) with 8%nat. change (length [128]) with 1%nat.
  pose proof (Nat.mod_upper_bound (length msg + 1) 64 ltac:(lia)) as Hm.
  pose proof (Nat.div_mod_eq (length msg + 1) 64) as Ed.
  set (m := ((length msg + 1) mod 64)%nat) in *. set (q := ((length msg + 1) / 64)%nat) in *.
  destruct (decide (m <= 56)%nat).
  - replace (56 + 64 - m)%nat with (56 - m + 1 * 64)%nat by lia.
    rewrite Nat.Div0.mod_add, (Nat.mod_small (56 - m)) by lia.
    replace (length msg + (1 + (56 - m + 8)))%nat with ((q + 1) * 64)%nat by lia.
    apply Nat.Div0.mod_mul.
  - rewrite (Nat.mod_small (56 + 64 - m)) by lia.
    replace (length msg + (1 + (56 + 64 - m + 8)))%nat with ((q + 2) * 64)%nat by lia.
    apply Nat.Div0.mod_mul.
Qed.

Lemma absorbed_finish msg c1 c2 c3 :
  absorbed msg c1 -> c2 = update c1 [0x80] -> c3 = pad_zeros 64 c2 ->
  absorbed (padded msg) (update c3 (be64 (8 * Z.of_nat (length msg)))).
Proof.
  intros Ha E2 E3. apply (absorbed_update _ _ [0x80]) in Ha. rewrite <- E2 in Ha.
  pose proof (Nat.mod_upper_bound (56 + 64 - length (msg ++ [128%Z]) mod 64) 64 ltac:(lia)) as Hz.
  apply (pad_zeros_absorbed 64) in Ha; [|lia]. rewrite <- E3 in Ha.
  apply (absorbed_update _ _ (be64 (8 * Z.of_nat (length msg)))) in Ha.
  rewrite <- !(assoc_L (++)) in Ha. unfold padded.
  replace (length msg + 1)%nat with (length (msg ++ [128%Z])) by (rewrite length_app; done). exact Ha.
Qed.

Lemma finish_steps c : exists c2 c3, c2 = update c [0x80] /\ c3 = pad_zeros 64 c2 /\
  finish c = digest (h (update c3 (be64 (u64 (total_len c * 8))))).
Proof. eexists _, _. split; [reflexivity|]. split; reflexivity. Qed.

Lemma finish_absorbed msg c :
  absorbed msg c -> Z.of_nat (length msg) < 2 ^ 61 ->
  finish c = digest (hash_blocks h0 (padded msg)).1.
Proof.
  intros Ha Hl. destruct (finish_steps c) as (c2 & c3 & E2 & E3 & ->).
  assert (u64 (total_len c * 8) = 8 * Z.of_nat (length msg)) as ->.
  { destruct Ha as [_ ->]. rewrite !u64_id; [lia|..]; unfold in_width; rewrite ?u64_id; unfold in_width; lia. }
  destruct (absorbed_finish msg c c2 c3 Ha E2 E3) as [Hh _].
  destruct (hash_blocks h0 (padded msg)) as [hh r]. injection Hh as Eh _. cbn [fst]. rewrite Eh. reflexivity.
Qed.

(** Streaming correctness of the hash: for any message below 2^61 bytes,
    cut into two updates at any point, the result is the digest of the
    FIPS 180-4 padded message, hashed block by block. *)
Theorem sha256_streaming a b :
  Z.of_nat (length (a ++ b)) < 2 ^ 61 ->
  finish (update (update new_ctx a) b) = digest (hash_blocks h0 (padded (a ++ b))).1 /\
  sha256 (a ++ b) = digest (hash_blocks h0 (padded (a ++ b))).1 /\
  (hash_blocks h0 (padded (a ++ b))).2 = [].
Proof.
  intros Hl. split_and!.
  - apply finish_absorbed; [|done]. apply absorbed_update.
    change a with ([] ++ a) at 1. apply absorbed_update, absorbed_new.
  - apply (finish_absorbed (a ++ b)); [|done].
    change (a ++ b) with ([] ++ (a ++ b)) at 1. apply absorbed_update, absorbed_new.
  - apply nil_length_inv. by rewrite hash_blocks_length, padded_blocks.
Qed.

Lemma sha256_streaming_witness :
  finish (update (update new_ctx [97]) [98; 99]) = sha256 [97; 98; 99].
Proof.
  destruct (sha256_streaming [97] [98; 99]) as (E1 & E2 & _); [done|].
  rewrite E1. symmetry. exact E2.
Defined.

(** ** Published test vectors *)

(** FIPS 180-4, the message "abc". *)
Example sha256_abc : sha256 [97; 98; 99] =
  [0xba; 0x78; 0x16; 0xbf; 0x8f; 0x01; 0xcf; 0xea; 0x41; 0x41; 0x40; 0xde; 0x5d; 0xae; 0x22; 0x23;
   0xb0; 0x03; 0x61; 0xa3; 0x96; 0x17; 0x7a; 0x9c; 0xb4; 0x10; 0xff; 0x61; 0xf2; 0x00; 0x15; 0xad].
Proof. vm_compute. reflexivity. Qed.

(** RFC 4231, test case 2: key "Jefe", data "what do ya want for nothing?". *)
Example hmac_rfc4231_2 :
  hmac_sha256 [0x4a; 0x65; 0x66; 0x65]
    [0x77; 0x68; 0x61; 0x74; 0x20; 0x64; 0x6f; 0x20; 0x79; 0x61; 0x20; 0x77; 0x61; 0x6e; 0x74; 0x20;
     0x66; 0x6f; 0x72; 0x20; 0x6e; 0x6f; 0x74; 0x68; 0x69; 0x6e; 0x67; 0x3f] =
  [0x5b; 0xdc; 0xc1; 0x46; 0xbf; 0x60; 0x75; 0x4e; 0x6a; 0x04; 0x24; 0x26; 0x08; 0x95; 0x75; 0xc7;
   0x5a; 0x00; 0x3f; 0x08; 0x9d; 0x27; 0x39; 0x83; 0x9d; 0xec; 0x58; 0xb9; 0x64; 0xec; 0x38; 0x43].
Proof. vm_compute. reflexivity. Qed.

End Sha256.
