(* ===== verification/Aes.v ===== *)
(** * AES-256 (tight/src/crypto.cpp, lines 410-532)

    The field arithmetic, the S-box computed at start-up, the key schedule and
    the block encryption. *)
From stdpp Require Import base list numbers option.
From Stdlib Require Import ZArith Lia.
From S2P Require Import Prelude GF256.

Local Open Scope Z_scope.

Module Aes.

(** [while (b)]: eight turns are enough for a byte. *)
Fixpoint aes_mul_loop (fuel : nat) (a b r : Z) : Z :=
  match fuel with
  | O => r
  | S fuel =>
      if b =? 0 then r else
      let r := if Z.land b 1 =? 0 then r else Z.lxor r a in
      let a := u8 (Z.lxor (Z.shiftl a 1) (if Z.land a 0x80 =? 0 then 0 else 0x1B)) in
      aes_mul_loop fuel a (Z.shiftr b 1) r
  end.

Definition aes_mul (a b : Z) : Z := aes_mul_loop 8 a b 0.

(** Square-and-multiply with exponent 254; eight turns. *)
Fixpoint aes_pow_loop (fuel : nat) (result base e : Z) : Z :=
  match fuel with
  | O => result
  | S fuel =>
      if e =? 0 then result else
      aes_pow_loop fuel (if Z.land e 1 =? 0 then result else aes_mul result base)
        (aes_mul base base) (Z.shiftr e 1)
  end.

Definition aes_inv (a : Z) : Z := if a =? 0 then 0 else aes_pow_loop 8 1 a 254.

Definition rotl8 (y n : Z) : Z := u8 (Z.lor (Z.shiftl y n) (Z.shiftr y (8 - n))).

Definition sbox_entry (x : Z) : Z :=
  let y := aes_inv x in
  u8 (Z.lxor (Z.lxor (Z.lxor (Z.lxor (Z.lxor 0x63 y) (rotl8 y 1)) (rotl8 y 2)) (rotl8 y 3)) (rotl8 y 4)).

(** [AesTables], evaluated once. *)
Definition sbox_table : list Z := Eval vm_compute in (fun x => sbox_entry (Z.of_nat x)) <$> seq 0 256.

Definition sbox (x : Z) : Z := byte_at sbox_table (Z.to_nat x).

(** ** Key schedule *)

Definition be_word (b0 b1 b2 b3 : Z) : Z :=
  Z.lor (Z.lor (Z.lor (Z.shiftl b0 24) (Z.shiftl b1 16)) (Z.shiftl b2 8)) b3.

Definition octet (t n : Z) : Z := Z.land (Z.shiftr t n) 0xFF.

Definition key_word (key : bytes) (i : nat) : Z :=
  be_word (byte_at key (i * 4)) (byte_at key (i * 4 + 1)) (byte_at key (i * 4 + 2))
    (byte_at key (i * 4 + 3)).

(** Words [i, i+1, ...] are appended; [rcon] changes every eighth word. *)
Fixpoint expand (n : nat) (w : list Z) (rcon : Z) : list Z :=
  match n with
  | O => w
  | S n =>
      let i := length w in
      let t := byte_at w (i - 1) in
      let '(t, rcon) :=
        if (i mod 8 =? 0)%nat then
          (Z.lxor (be_word (sbox (octet t 16)) (sbox (octet t 8)) (sbox (octet t 0)) (sbox (octet t 24))) rcon,
           u32 (Z.shiftl (aes_mul (u8 (Z.shiftr rcon 24)) 2) 24))
        else if (i mod 8 =? 4)%nat then
          (be_word (sbox (octet t 24)) (sbox (octet t 16)) (sbox (octet t 8)) (sbox (octet t 0)), rcon)
        else (t, rcon) in
      expand n (w ++ [Z.lxor (byte_at w (i - 8)) t]) rcon
  end.

Definition round_key (w : list Z) (r : nat) : bytes :=
  seq 0 4 ≫= (fun c => let word := byte_at w (r * 4 + c) in
                       [octet word 24; octet word 16; octet word 8; octet word 0]).

(** [rk[15][16]]. *)
Definition Aes256 (key : bytes) : list bytes :=
  let w := expand 52 (key_word key <$> seq 0 8) 0x01000000 in
  round_key w <$> seq 0 15.

(** ** Block encryption *)

Definition add_key (s k : bytes) : bytes := imap (fun i b => Z.lxor b (byte_at k i)) s.

Definition sub_shift (s : bytes) : bytes :=
  let t i := sbox (byte_at s i) in
  [t 0; t 5; t 10; t 15; t 4; t 9; t 14; t 3; t 8; t 13; t 2; t 7; t 12; t 1; t 6; t 11]%nat.

Definition mix_column (s : bytes) (c : nat) : bytes :=
  let a0 := byte_at s (c * 4) in
  let a1 := byte_at s (c * 4 + 1) in
  let a2 := byte_at s (c * 4 + 2) in
  let a3 := byte_at s (c * 4 + 3) in
  [Z.lxor (Z.lxor (Z.lxor (aes_mul a0 2) (aes_mul a1 3)) a2) a3;
   Z.lxor (Z.lxor (Z.lxor a0 (aes_mul a1 2)) (aes_mul a2 3)) a3;
   Z.lxor (Z.lxor (Z.lxor a0 a1) (aes_mul a2 2)) (aes_mul a3 3);
   Z.lxor (Z.lxor (Z.lxor (aes_mul a0 3) a1) a2) (aes_mul a3 2)].

Definition mix_columns (s : bytes) : bytes := seq 0 4 ≫= mix_column s.

Definition key_at (rk : list bytes) (r : nat) : bytes := default [] (rk !! r).

Definition encrypt_block (rk : list bytes) (input : bytes) : bytes :=
  let s := add_key input (key_at rk 0) in
  let s := foldl (fun s r => add_key (mix_columns (sub_shift s)) (key_at rk r)) s (seq 1 13) in
  add_key (sub_shift s) (key_at rk 14).

Global Arguments expand : simpl never.
Global Arguments Aes256 : simpl never.
Global Arguments encrypt_block : simpl never.

(** ** Field arithmetic against polynomial multiplication *)

(** Carry-less product of two bytes, reduced modulo x^8 + x^4 + x^3 + x + 1. *)
Fixpoint clmul (n : nat) (a b : Z) : Z :=
  match n with
  | O => 0
  | S n => Z.lxor (clmul n a b) (if Z.testbit b (Z.of_nat n) then Z.shiftl a (Z.of_nat n) else 0)
  end.

Fixpoint reduce (n : nat) (v : Z) : Z :=
  match n with
  | O => v
  | S n => reduce n (if Z.testbit v (Z.of_nat n + 8) then Z.lxor v (Z.shiftl 0x11B (Z.of_nat n)) else v)
  end.

Definition poly_mul (a b : Z) : Z := reduce 7 (clmul 8 a b).

Lemma aes_mul_check :
  forallb (fun a => forallb (fun b => aes_mul a b =? poly_mul a b) GF.all_bytes) GF.all_bytes = true.
Proof. vm_compute. reflexivity. Qed.

Lemma aes_inv_check :
  forallb (fun a => (a =? 0) || (poly_mul a (aes_inv a) =? 1)) GF.all_bytes = true.
Proof. vm_compute. reflexivity. Qed.

(** The AES field: [aes_mul] is polynomial multiplication modulo
    x^8 + x^4 + x^3 + x + 1 on all pairs of bytes, and [aes_inv] the
    multiplicative inverse of a nonzero byte. *)
Theorem aes_field_correct a b : in_width 8 a -> in_width 8 b ->
  aes_mul a b = poly_mul a b /\ (a <> 0 -> poly_mul a (aes_inv a) = 1).
Proof.
  intros Ha Hb. split.
  - apply Z.eqb_eq. by apply (GF.forall_bytes2 (fun a b => aes_mul a b =? poly_mul a b) aes_mul_check).
  - intros Hne. pose proof (GF.forall_bytes _ aes_inv_check a Ha) as H. cbv beta in H.
    apply orb_true_iff in H as [H|H]; apply Z.eqb_eq in H; [contradiction|exact H].
Qed.

Lemma aes_field_correct_witness : aes_mul 0x57 0x83 = poly_mul 0x57 0x83 /\ poly_mul 0x57 (aes_inv 0x57) = 1.
Proof.
  destruct (aes_field_correct 0x57 0x83) as [H1 H2]; [eval_decide..|]. split; [done|by apply H2].
Defined.

(** The S-box is a permutation of the bytes. *)
Lemma sbox_inj a b : in_width 8 a -> in_width 8 b -> sbox a = sbox b -> a = b.
Proof.
  intros Ha Hb H.
  assert (forallb (fun a => forallb (fun b => negb (sbox a =? sbox b) || (a =? b)) GF.all_bytes)
    GF.all_bytes = true) as Hc by (vm_compute; reflexivity).
  pose proof (GF.forall_bytes2 _ Hc a b Ha Hb) as E. cbv beta in E.
  apply orb_true_iff in E as [E|E]; [|by apply Z.eqb_eq].
  apply negb_true_iff, Z.eqb_neq in E. contradiction.
Qed.

Lemma length_encrypt_block rk input : length (encrypt_block rk input) = 16%nat.
Proof. unfold encrypt_block, add_key. by rewrite length_imap. Qed.

(** FIPS 197, appendix C.3. *)
Example aes256_fips197 :
  encrypt_block (Aes256 (Z.of_nat <$> seq 0 32)) ((fun i => Z.of_nat i * 17) <$> seq 0 16) =
  [0x8e; 0xa2; 0xb7; 0xca; 0x51; 0x67; 0x45; 0xbf; 0xea; 0xfc; 0x49; 0x90; 0x4b; 0x49; 0x60; 0x89].
Proof. vm_compute. reflexivity. Qed.

End Aes.
