(* ===== verification/Gcm.v ===== *)
(** * AES-256-GCM (tight/src/crypto.cpp, lines 534-649)

    GHASH, the counter mode and the authenticated encryption built on them. *)
From stdpp Require Import base list numbers option sets.
From Stdlib Require Import ZArith Lia Btauto.
From S2P Require Import Prelude Sha256 Aes.

Local Open Scope Z_scope.
Import Aes.

Module Gcm.

Definition kGcmNonceSize : nat := 12.
Definition kGcmTagSize : nat := 16.

Definition xor_bytes (a b : bytes) : bytes := imap (fun i x => Z.lxor x (byte_at b i)) a.

(** One bit to the right across the bytes, with reduction. *)
Definition shift_right (v : bytes) : bytes :=
  imap (fun j b => if (j =? 0)%nat then Z.shiftr b 1
                   else u8 (Z.lor (Z.shiftr b 1) (Z.shiftl (byte_at v (j - 1)) 7))) v.

Definition ghash_shift (v : bytes) : bytes :=
  let lsb := negb (Z.land (byte_at v 15) 1 =? 0) in
  let v := shift_right v in
  if lsb then imap (fun j b => if (j =? 0)%nat then Z.lxor b 0xE1 else b) v else v.

Definition ghash_bit (x : bytes) (i : nat) : bool :=
  negb (Z.land (Z.shiftr (byte_at x (i / 8)) (7 - Z.of_nat (i mod 8))) 1 =? 0).

Definition ghash_step (x : bytes) (st : bytes * bytes) (i : nat) : bytes * bytes :=
  let '(z, v) := st in
  (if ghash_bit x i then xor_bytes z v else z, ghash_shift v).

Definition ghash_mul (x y : bytes) : bytes :=
  (foldl (ghash_step x) (replicate 16 0, y) (seq 0 128)).1.

(** Absorbs 16-byte blocks, the last one zero-padded. *)
Fixpoint ghash_update_loop (fuel : nat) (x h data : bytes) : bytes :=
  match fuel with
  | O => x
  | S fuel =>
      if (length data =? 0)%nat then x else
      let block := resize0 16 (take 16 data) in
      ghash_update_loop fuel (ghash_mul (xor_bytes x block) h) h (drop 16 data)
  end.

Definition ghash_update (x h data : bytes) : bytes := ghash_update_loop (length data) x h data.

Definition gcm_compute_tag (rk : list bytes) (j0 aad ct : bytes) : bytes :=
  let h := encrypt_block rk (replicate 16 0) in
  let x := ghash_update (replicate 16 0) h aad in
  let x := ghash_update x h ct in
  let len_block := Sha256.be64 (u64 (Z.of_nat (length aad) * 8)) ++
                   Sha256.be64 (u64 (Z.of_nat (length ct) * 8)) in
  let x := ghash_update x h len_block in
  xor_bytes x (encrypt_block rk j0).

(** [for (i = 15; i >= 12; --i) if (++ctr\[i\] != 0) break;] *)
Fixpoint incr_from (n : nat) (i : nat) (ctr : bytes) : bytes :=
  match n with
  | O => ctr
  | S n =>
      let b := u8 (byte_at ctr i + 1) in
      let ctr := <[i := b]> ctr in
      if b =? 0 then incr_from n (i - 1) ctr else ctr
  end.

Definition inc32 (ctr : bytes) : bytes := incr_from 4 15 ctr.

Fixpoint gcm_crypt_loop (fuel : nat) (rk : list bytes) (ctr input : bytes) : bytes :=
  match fuel with
  | O => []
  | S fuel =>
      if (length input =? 0)%nat then [] else
      let ctr := inc32 ctr in
      let ks := encrypt_block rk ctr in
      xor_bytes (take 16 input) ks ++ gcm_crypt_loop fuel rk ctr (drop 16 input)
  end.

Definition aes256_gcm_crypt (rk : list bytes) (j0 input : bytes) : bytes :=
  gcm_crypt_loop (length input) rk j0 input.

Definition make_j0 (nonce : bytes) : bytes := <[15%nat := 1]> (resize0 16 (take kGcmNonceSize nonce)).

(** Ciphertext and tag. *)
Definition aes256_gcm_encrypt (key nonce aad plaintext : bytes) : bytes * bytes :=
  let rk := Aes256 key in
  let j0 := make_j0 nonce in
  let ciphertext := aes256_gcm_crypt rk j0 plaintext in
  (ciphertext, gcm_compute_tag rk j0 aad ciphertext).

(** Accumulated difference of the constant-time comparison. *)
Definition tag_diff (expect tag : bytes) : Z :=
  foldl (fun d i => Z.lor d (u8 (Z.lxor (byte_at expect i) (byte_at tag i)))) 0 (seq 0 16).

Definition aes256_gcm_decrypt (key nonce aad ciphertext tag : bytes) : option bytes :=
  let rk := Aes256 key in
  let j0 := make_j0 nonce in
  let expect := gcm_compute_tag rk j0 aad ciphertext in
  if negb (tag_diff expect tag =? 0) then None
  else Some (aes256_gcm_crypt rk j0 ciphertext).

(** ** Round trip and authentication *)

Lemma length_xor_bytes a b : length (xor_bytes a b) = length a.
Proof. unfold xor_bytes. by rewrite length_imap. Qed.

Lemma byte_at_xor a b i : (i < length a)%nat ->
  byte_at (xor_bytes a b) i = Z.lxor (byte_at a i) (byte_at b i).
Proof.
  intros Hi. unfold xor_bytes. unfold byte_at at 1. rewrite list_lookup_imap.
  rewrite (byte_at_lookup a i Hi). done.
Qed.

Lemma xor_bytes_invol a b : xor_bytes (xor_bytes a b) b = a.
Proof.
  apply bytes_eq; [by rewrite !length_xor_bytes|]. intros i Hi. rewrite !length_xor_bytes in Hi.
  rewrite !byte_at_xor by (rewrite ?length_xor_bytes; done).
  by rewrite Z.lxor_assoc, Z.lxor_nilpotent, Z.lxor_0_r.
Qed.

Lemma gcm_crypt_length fuel rk ctr input :
  (length input <= fuel)%nat -> length (gcm_crypt_loop fuel rk ctr input) = length input.
Proof.
  revert ctr input. induction fuel as [|fuel IH]; intros ctr input Hf; cbn [gcm_crypt_loop].
  { destruct input; [done|simpl in Hf; lia]. }
  destruct (Nat.eqb_spec (length input) 0) as [->|Hne]; [done|].
  rewrite length_app, length_xor_bytes, length_take, IH by (rewrite length_drop; lia).
  rewrite length_drop. lia.
Qed.

Lemma gcm_crypt_fuel fuel fuel' rk ctr input :
  (length input <= fuel)%nat -> (length input <= fuel')%nat ->
  gcm_crypt_loop fuel rk ctr input = gcm_crypt_loop fuel' rk ctr input.
Proof.
  revert fuel' ctr input. induction fuel as [|fuel IH]; intros fuel' ctr input H1 H2.
  { destruct input; [by destruct fuel'|simpl in H1; lia]. }
  destruct fuel' as [|fuel']; [destruct input; [done|simpl in H2; lia]|]. cbn [gcm_crypt_loop].
  case_match; [done|]. f_equal. apply IH; rewrite length_drop; lia.
Qed.

(** The key stream does not depend on the text: encrypting twice is the
    identity. *)
Lemma gcm_crypt_invol fuel rk ctr input :
  (length input <= fuel)%nat ->
  gcm_crypt_loop fuel rk ctr (gcm_crypt_loop fuel rk ctr input) = input.
Proof.
  revert ctr input. induction fuel as [|fuel IH]; intros ctr input Hf.
  { destruct input; [done|simpl in Hf; lia]. }
  cbn [gcm_crypt_loop]. destruct (Nat.eqb_spec (length input) 0) as [E|Hne].
  { by apply nil_length_inv in E as ->. }
  set (ks := encrypt_block rk (inc32 ctr)).
  assert (length (xor_bytes (take 16 input) ks) = Nat.min 16 (length input)) as Hx
    by (by rewrite length_xor_bytes, length_take).
  rewrite length_app, Hx. rewrite (proj2 (Nat.eqb_neq _ _)) by lia.
  destruct (decide (16 <= length input)%nat) as [Hge|Hlt].
  - rewrite take_app_length', drop_app_length' by (rewrite Hx; lia).
    rewrite xor_bytes_invol, IH by (rewrite length_drop; lia). apply take_drop.
  - rewrite (drop_ge input) by lia.
    assert (gcm_crypt_loop fuel rk (inc32 ctr) [] = []) as -> by (by destruct fuel).
    rewrite app_nil_r, (take_ge (xor_bytes _ _)), (drop_ge (xor_bytes _ _)) by (rewrite Hx; lia).
    rewrite xor_bytes_invol, take_ge by lia.
    assert (gcm_crypt_loop fuel rk (inc32 ctr) [] = []) as -> by (by destruct fuel).
    apply app_nil_r.
Qed.

Lemma length_gcm_crypt rk j0 input : length (aes256_gcm_crypt rk j0 input) = length input.
Proof. by apply gcm_crypt_length. Qed.

Lemma tag_diff_foldl l expect tag d :
  foldl (fun d i => Z.lor d (u8 (Z.lxor (byte_at expect i) (byte_at tag i)))) d l = 0 <->
  d = 0 /\ forall i, i ∈ l -> u8 (Z.lxor (byte_at expect i) (byte_at tag i)) = 0.
Proof.
  revert d. induction l as [|i l IH]; intros d; simpl; [set_solver|].
  rewrite IH, Z.lor_eq_0_iff. set_solver.
Qed.

(** The comparison accepts exactly equal tags. *)
Lemma tag_diff_spec expect tag :
  bytes_ok expect -> bytes_ok tag -> length expect = 16%nat -> length tag = 16%nat ->
  tag_diff expect tag = 0 <-> expect = tag.
Proof.
  intros He Ht Le Lt. unfold tag_diff. rewrite tag_diff_foldl. split.
  - intros [_ H]. apply bytes_eq; [lia|]. intros i Hi.
    specialize (H i ltac:(apply elem_of_seq; lia)).
    rewrite u8_id in H by (apply lxor_width; [lia|by apply byte_at_width..]).
    by apply Z.lxor_eq.
  - intros ->. split; [done|]. intros i _. by rewrite Z.lxor_nilpotent.
Qed.

Lemma tag_diff_refl t : tag_diff t t = 0.
Proof.
  unfold tag_diff. apply tag_diff_foldl. split; [done|]. intros i _. by rewrite Z.lxor_nilpotent.
Qed.

Lemma open_seal key nonce aad pt :
  let '(ct, tag) := aes256_gcm_encrypt key nonce aad pt in
  aes256_gcm_decrypt key nonce aad ct tag = Some pt.
Proof.
  unfold aes256_gcm_encrypt, aes256_gcm_decrypt. rewrite tag_diff_refl. simpl negb.
  cbv iota. f_equal. unfold aes256_gcm_crypt at 1. rewrite length_gcm_crypt. by apply gcm_crypt_invol.
Qed.

(** Authenticated encryption round trip: what [aes256_gcm_encrypt] produces,
    [aes256_gcm_decrypt] accepts and turns back into the plaintext, for every
    key, nonce, additional data and plaintext; the ciphertext has the length
    of the plaintext. *)
Theorem gcm_roundtrip key nonce aad pt :
  let '(ct, tag) := aes256_gcm_encrypt key nonce aad pt in
  length ct = length pt /\ aes256_gcm_decrypt key nonce aad ct tag = Some pt.
Proof.
  pose proof (open_seal key nonce aad pt) as H. unfold aes256_gcm_encrypt in *.
  split; [apply length_gcm_crypt|exact H].
Qed.

(** ** Tags are byte strings *)

Lemma sbox_width x : in_width 8 (sbox x).
Proof. apply byte_at_width. eval_decide. Qed.

Lemma round_key_ok w r : bytes_ok (round_key w r).
Proof.
  unfold round_key. simpl. repeat constructor; apply land_255_width.
Qed.

Lemma key_at_ok key r : bytes_ok (key_at (Aes256 key) r).
Proof.
  unfold key_at, Aes256. rewrite list_lookup_fmap.
  generalize (expand 52 (key_word key <$> seq 0 8) 0x01000000). intros w.
  destruct (seq 0 15 !! r); [apply round_key_ok|apply bytes_ok_nil].
Qed.

Lemma xor_bytes_ok a b : bytes_ok a -> bytes_ok b -> bytes_ok (xor_bytes a b).
Proof.
  intros Ha Hb. apply Forall_lookup. intros i x Hx. unfold xor_bytes in Hx.
  rewrite list_lookup_imap in Hx. destruct (a !! i) eqn:E; simplify_eq/=.
  apply lxor_width; [lia|by apply (bytes_ok_lookup a i)|by apply byte_at_width].
Qed.

Lemma encrypt_block_ok key input : bytes_ok (encrypt_block (Aes256 key) input).
Proof.
  unfold encrypt_block. apply xor_bytes_ok; [|apply key_at_ok].
  unfold sub_shift. repeat constructor; apply sbox_width.
Qed.

Lemma shift_right_ok v : bytes_ok v -> bytes_ok (shift_right v).
Proof.
  intros Hv. apply Forall_lookup. intros i x Hx. unfold shift_right in Hx.
  rewrite list_lookup_imap in Hx. destruct (v !! i) eqn:E; simplify_eq/=.
  case_match; [|apply u8_width]. apply shiftr_width; [lia|by apply (bytes_ok_lookup v i)|lia].
Qed.

Lemma ghash_shift_ok v : bytes_ok v -> bytes_ok (ghash_shift v).
Proof.
  intros Hv. unfold ghash_shift. apply shift_right_ok in Hv. case_match; [|done].
  apply Forall_lookup. intros i x Hx. rewrite list_lookup_imap in Hx.
  destruct (shift_right v !! i) eqn:E; simplify_eq/=.
  assert (in_width 8 z) by (by apply (bytes_ok_lookup (shift_right v) i)). case_match; [|done].
  apply lxor_width; [lia|done|eval_decide].
Qed.

Lemma ghash_mul_ok x y : bytes_ok y -> bytes_ok (ghash_mul x y).
Proof.
  intros Hy. unfold ghash_mul.
  assert (forall l z v, bytes_ok z -> bytes_ok v -> bytes_ok (foldl (ghash_step x) (z, v) l).1) as H.
  { induction l as [|i l IH]; intros z v Hz Hv; simpl; [done|].
    apply IH; [|by apply ghash_shift_ok]. case_match; [by apply xor_bytes_ok|done]. }
  apply H; [apply bytes_ok_replicate|done].
Qed.

Lemma ghash_update_ok fuel x h data :
  bytes_ok x -> bytes_ok h -> bytes_ok (ghash_update_loop fuel x h data).
Proof.
  intros Hx Hh. revert x data Hx. induction fuel as [|fuel IH]; intros x data Hx; simpl; [done|].
  case_match; [done|]. apply IH. by apply ghash_mul_ok.
Qed.

Lemma length_ghash_shift v : length (ghash_shift v) = length v.
Proof. unfold ghash_shift, shift_right. case_match; by rewrite ?length_imap. Qed.

Lemma length_ghash_mul x y : length (ghash_mul x y) = 16%nat.
Proof.
  unfold ghash_mul.
  assert (forall l z v, length z = 16%nat -> length (foldl (ghash_step x) (z, v) l).1 = 16%nat) as H.
  { induction l as [|i l IH]; intros z v Hz; simpl; [done|].
    apply IH. case_match; by rewrite ?length_xor_bytes. }
  by apply H.
Qed.

Lemma length_ghash_update fuel x h data :
  length x = 16%nat -> length (ghash_update_loop fuel x h data) = 16%nat.
Proof.
  revert x data. induction fuel as [|fuel IH]; intros x data Hx; cbn [ghash_update_loop]; [done|].
  case_match; [done|]. apply IH, length_ghash_mul.
Qed.

Lemma tag_ok key j0 aad ct :
  bytes_ok (gcm_compute_tag (Aes256 key) j0 aad ct) /\
  length (gcm_compute_tag (Aes256 key) j0 aad ct) = 16%nat.
Proof.
  unfold gcm_compute_tag, ghash_update. split.
  - apply xor_bytes_ok; [|apply encrypt_block_ok].
    repeat (apply ghash_update_ok; [|apply encrypt_block_ok]). apply bytes_ok_replicate.
  - rewrite length_xor_bytes. by repeat apply length_ghash_update.
Qed.

(** Authentication: decryption succeeds exactly when the received tag is
    the tag of the received ciphertext and additional data under the session
    key; any other 16-byte tag is rejected. *)
Theorem gcm_rejects_wrong_tag key nonce aad ct tag :
  bytes_ok tag -> length tag = 16%nat ->
  (exists pt, aes256_gcm_decrypt key nonce aad ct tag = Some pt) <->
  tag = gcm_compute_tag (Aes256 key) (make_j0 nonce) aad ct.
Proof.
  intros Ht Hl. unfold aes256_gcm_decrypt.
  destruct (tag_ok key (make_j0 nonce) aad ct) as [Ho Hlen].
  pose proof (tag_diff_spec _ tag Ho Ht Hlen Hl) as Hd.
  destruct (Z.eqb_spec (tag_diff (gcm_compute_tag (Aes256 key) (make_j0 nonce) aad ct) tag) 0) as [E|E];
    simpl negb; cbv iota.
  - split; [intros _; symmetry; by apply Hd|eauto].
  - split; [by intros [? ?]|]. intros ->. exfalso. apply E, tag_diff_refl.
Qed.

Lemma gcm_rejects_wrong_tag_witness :
  aes256_gcm_decrypt (replicate 32 1) (replicate 12 2) [3] [4] (replicate 16 0) = None.
Proof.
  destruct (aes256_gcm_decrypt (replicate 32 1) (replicate 12 2) [3] [4] (replicate 16 0)) eqn:E; [|done].
  destruct (gcm_rejects_wrong_tag (replicate 32 1) (replicate 12 2) [3] [4] (replicate 16 0)) as [H _];
    [apply bytes_ok_replicate|done|].
  specialize (H (ex_intro _ _ E)). vm_compute in H. discriminate.
Defined.

(** ** The counter *)

Definition be_val (bs : bytes) : Z := load_le (rev bs).

Lemma be_val4 a b c d : bytes_ok [a; b; c; d] -> be_val [a; b; c; d] = a * 2 ^ 24 + b * 2 ^ 16 + c * 2 ^ 8 + d.
Proof.
  intros H. apply Forall_cons in H as [Ha H]. apply Forall_cons in H as [Hb H].
  apply Forall_cons in H as [Hc H]. apply Forall_cons in H as [Hd _].
  unfold be_val. cbn [rev app]. rewrite !load_le_cons by done. simpl. lia.
Qed.

Lemma inc_low a b c d : bytes_ok [a; b; c; d] ->
  incr_from 4 3 [a; b; c; d] =
  if d <? 255 then [a; b; c; d + 1] else
  if c <? 255 then [a; b; c + 1; 0] else
  if b <? 255 then [a; b + 1; 0; 0] else
  if a <? 255 then [a + 1; 0; 0; 0] else [0; 0; 0; 0].
Proof.
  intros H. apply Forall_cons in H as [Ha H]. apply Forall_cons in H as [Hb H].
  apply Forall_cons in H as [Hc H]. apply Forall_cons in H as [Hd _].
  assert (forall x, in_width 8 x -> u8 (x + 1) = if x <? 255 then x + 1 else 0) as Hu.
  { intros x Hx. unfold in_width in Hx. destruct (Z.ltb_spec x 255).
    - apply u8_id. unfold in_width. lia.
    - by replace x with 255 by lia. }
  assert (forall x, in_width 8 x -> ((if x <? 255 then x + 1 else 0) =? 0) = negb (x <? 255)) as Hz.
  { intros x Hx. unfold in_width in Hx. destruct (Z.ltb_spec x 255); simpl; [|done].
    apply Z.eqb_neq. lia. }
  cbn [incr_from]. unfold byte_at. cbn. rewrite (Hu d), Hz by done.
  destruct (d <? 255); cbn; [done|]. rewrite (Hu c), Hz by done.
  destruct (c <? 255); cbn; [done|]. rewrite (Hu b), Hz by done.
  destruct (b <? 255); cbn; [done|]. rewrite (Hu a), Hz by done.
  destruct (a <? 255); cbn; done.
Qed.

Lemma incr_from_app n i pre ctr :
  (n <= S i)%nat -> (i < length ctr)%nat ->
  incr_from n (length pre + i) (pre ++ ctr) = pre ++ incr_from n i ctr.
Proof.
  revert i ctr. induction n as [|n IH]; intros i ctr Hn Hi; cbn [incr_from]; [done|].
  assert (byte_at (pre ++ ctr) (length pre + i) = byte_at ctr i) as ->.
  { unfold byte_at. rewrite lookup_app_r by lia. do 2 f_equal. lia. }
  rewrite insert_app_r. case_match; [|done]. destruct n as [|n]; [done|].
  replace (length pre + i - 1)%nat with (length pre + (i - 1))%nat by lia.
  apply IH; rewrite ?length_insert; lia.
Qed.

(** The counter block: the last four bytes are a big-endian 32-bit counter
    that [inc32] increments modulo 2^32, and the nonce part is untouched. *)
Theorem inc32_counter ctr :
  bytes_ok ctr -> length ctr = 16%nat ->
  take 12 (inc32 ctr) = take 12 ctr /\
  be_val (drop 12 (inc32 ctr)) = (be_val (drop 12 ctr) + 1) mod 2 ^ 32.
Proof.
  intros Hok Hl.
  assert (length (take 12 ctr) = 12%nat) as Hpre by (rewrite length_take; lia).
  assert (length (drop 12 ctr) = 4%nat) as Hpost by (rewrite length_drop; lia).
  assert (inc32 ctr = take 12 ctr ++ incr_from 4 3 (drop 12 ctr)) as E.
  { unfold inc32. rewrite <- (take_drop 12 ctr) at 1.
    replace 15%nat with (length (take 12 ctr) + 3)%nat by lia. apply incr_from_app; lia. }
  rewrite E. split; [by rewrite take_app_length' by lia|]. rewrite drop_app_length' by lia.
  apply (bytes_ok_drop 12) in Hok. clear E Hl Hpre.
  destruct (drop 12 ctr) as [|a [|b [|c [|d [|? ?]]]]]; try discriminate. clear Hpost.
  rewrite inc_low by done. pose proof Hok as Hw. rewrite be_val4 by done.
  apply Forall_cons in Hw as [Ha Hw]. apply Forall_cons in Hw as [Hb Hw].
  apply Forall_cons in Hw as [Hc Hw]. apply Forall_cons in Hw as [Hd _]. unfold in_width in *.
  destruct (Z.ltb_spec d 255); [|destruct (Z.ltb_spec c 255); [|destruct (Z.ltb_spec b 255);
    [|destruct (Z.ltb_spec a 255)]]];
    (rewrite be_val4; [|repeat constructor; unfold in_width; lia]);
    try (rewrite Z.mod_small by lia; lia).
  replace a with 255 by lia. replace b with 255 by lia. replace c with 255 by lia.
  by replace d with 255 by lia.
Qed.

Lemma inc32_counter_witness :
  be_val (drop 12 (inc32 (replicate 12 7 ++ [0; 0; 255; 255]))) = 65536.
Proof.
  destruct (inc32_counter (replicate 12 7 ++ [0; 0; 255; 255])) as [_ E]; [eval_decide|done|].
  rewrite E. vm_compute. reflexivity.
Defined.

(** ** GHASH against the 128-bit definition *)

(** Multiplication of 128-bit blocks of NIST SP 800-38D, algorithm 1, with bit
    0 the most significant one. *)
Definition kGhashR : Z := Z.shiftl 0xE1 120.

Definition spec_step (x : Z) (st : Z * Z) (i : nat) : Z * Z :=
  let '(z, v) := st in
  (if Z.testbit x (127 - Z.of_nat i) then Z.lxor z v else z,
   if Z.testbit v 0 then Z.lxor (Z.shiftr v 1) kGhashR else Z.shiftr v 1).

Definition spec_mul (x y : Z) : Z := (foldl (spec_step x) (0, y) (seq 0 128)).1.

(** Bit [k] of a 16-byte big-endian block. *)
Lemma testbit_be bs k : bytes_ok bs -> length bs = 16%nat -> 0 <= k < 128 ->
  Z.testbit (be_val bs) k = Z.testbit (byte_at bs (15 - Z.to_nat (k / 8))) (k mod 8).
Proof.
  intros Hok Hl Hk. unfold be_val.
  rewrite testbit_load_le by ((apply List.Forall_rev; done) || lia). f_equal.
  assert (0 <= k / 8 < 16) by (split; [apply Z.div_pos; lia|apply Z.div_lt_upper_bound; lia]).
  unfold byte_at. rewrite List.rev_alt. fold (reverse bs).
  rewrite reverse_lookup by lia. do 2 f_equal. lia.
Qed.

Lemma be_val_width bs : bytes_ok bs -> length bs = 16%nat -> in_width 128 (be_val bs).
Proof.
  intros Hok Hl. unfold be_val. change 128 with (8 * Z.of_nat 16). rewrite <- Hl, <- (length_rev bs).
  apply load_le_width. by apply List.Forall_rev.
Qed.

(** Equality of a block value with a 128-bit number, bit by bit. *)
Lemma be_val_bits bs v : bytes_ok bs -> length bs = 16%nat -> in_width 128 v ->
  (forall j r, (j < 16)%nat -> 0 <= r < 8 ->
     Z.testbit (byte_at bs (15 - j)) r = Z.testbit v (8 * Z.of_nat j + r)) ->
  be_val bs = v.
Proof.
  intros Hok Hl Hv H. apply Z.bits_inj'. intros k Hk. destruct (Z.ltb_spec k 128) as [Hlt|Hge].
  - rewrite testbit_be by (done || lia).
    assert (0 <= k / 8 < 16) by (split; [apply Z.div_pos; lia|apply Z.div_lt_upper_bound; lia]).
    pose proof (Z.mod_pos_bound k 8). rewrite H by lia. f_equal.
    rewrite Z2Nat.id by lia. pose proof (Z.div_mod k 8). lia.
  - rewrite (testbit_above 128) by (by apply be_val_width || lia). by rewrite (testbit_above 128).
Qed.

Lemma be_bit bs j r : bytes_ok bs -> length bs = 16%nat -> (j < 16)%nat -> 0 <= r < 8 ->
  Z.testbit (be_val bs) (8 * Z.of_nat j + r) = Z.testbit (byte_at bs (15 - j)) r.
Proof.
  intros Hok Hl Hj Hr. rewrite testbit_be by (done || lia).
  replace ((8 * Z.of_nat j + r) / 8) with (Z.of_nat j)
    by (rewrite Z.mul_comm, Z.div_add_l, Z.div_small by lia; lia).
  replace ((8 * Z.of_nat j + r) mod 8) with r
    by (rewrite Z.add_comm, Z.mul_comm, Z.mod_add, Z.mod_small by lia; done).
  by rewrite Nat2Z.id.
Qed.

Lemma be_val_xor a b : bytes_ok a -> bytes_ok b -> length a = 16%nat -> length b = 16%nat ->
  be_val (xor_bytes a b) = Z.lxor (be_val a) (be_val b).
Proof.
  intros Ha Hb La Lb. apply be_val_bits; [by apply xor_bytes_ok|by rewrite length_xor_bytes|
    apply lxor_width; [lia|by apply be_val_width..]|].
  intros j r Hj Hr. rewrite byte_at_xor by lia. by rewrite !Z.lxor_spec, !be_bit.
Qed.

Lemma byte_at_imap_z (f : nat -> Z -> Z) l i : (i < length l)%nat ->
  byte_at (imap f l) i = f i (byte_at l i).
Proof.
  intros Hi. unfold byte_at at 1. rewrite list_lookup_imap, (byte_at_lookup l i Hi). done.
Qed.

Lemma be_val_shift v : bytes_ok v -> length v = 16%nat ->
  be_val (shift_right v) = Z.shiftr (be_val v) 1.
Proof.
  intros Hv Hl. apply be_val_bits; [by apply shift_right_ok|by unfold shift_right; rewrite length_imap|
    apply shiftr_width; [lia|by apply be_val_width|lia]|].
  intros j r Hj Hr. unfold shift_right. rewrite byte_at_imap_z by lia. rewrite Z.shiftr_spec by lia.
  pose proof (byte_at_width v (15 - j) Hv) as Hw.
  destruct (decide (r < 7)) as [Hr7|Hr7].
  - replace (8 * Z.of_nat j + r + 1) with (8 * Z.of_nat j + (r + 1)) by lia.
    rewrite be_bit by (done || lia). case_match.
    + by rewrite Z.shiftr_spec by lia.
    + unfold u8. bit_norm. rewrite (proj2 (Z.ltb_lt _ _)) by lia. btauto.
  - replace r with 7 in * by lia. destruct (Nat.eqb_spec (15 - j) 0) as [E|E].
    + rewrite Z.shiftr_spec by lia. rewrite (testbit_above 8) by (done || lia).
      rewrite (testbit_above 128); [done|by apply be_val_width|lia].
    + replace (8 * Z.of_nat j + 7 + 1) with (8 * Z.of_nat (S j) + 0) by lia.
      rewrite be_bit by (done || lia). unfold u8. bit_norm.
      replace (15 - S j)%nat with (15 - j - 1)%nat by lia. reflexivity.
Qed.

Lemma be_val_reduce v : bytes_ok v -> length v = 16%nat ->
  be_val (imap (fun j b => if (j =? 0)%nat then Z.lxor b 0xE1 else b) v) = Z.lxor (be_val v) kGhashR.
Proof.
  intros Hv Hl.
  assert (imap (fun j b => if (j =? 0)%nat then Z.lxor b 0xE1 else b) v =
    xor_bytes v (0xE1 :: replicate 15 0)) as ->.
  { unfold xor_bytes. apply imap_ext. intros i x Hi. destruct i as [|i]; [done|].
    cbn [Nat.eqb]. unfold byte_at. cbn [lookup list_lookup].
    destruct (replicate 15 0 !! i) as [z|] eqn:E.
    - apply lookup_replicate in E as [-> _]. by rewrite Z.lxor_0_r.
    - by rewrite Z.lxor_0_r. }
  rewrite be_val_xor; [|done|eval_decide|done|done]. f_equal.
Qed.

Lemma ghash_shift_spec v : bytes_ok v -> length v = 16%nat ->
  be_val (ghash_shift v) =
  if Z.testbit (be_val v) 0 then Z.lxor (Z.shiftr (be_val v) 1) kGhashR else Z.shiftr (be_val v) 1.
Proof.
  intros Hv Hl. unfold ghash_shift.
  assert (negb (Z.land (byte_at v 15) 1 =? 0) = Z.testbit (be_val v) 0) as ->.
  { change 0 with (8 * Z.of_nat 0 + 0) at 2. rewrite be_bit by (done || lia).
    change 1 with (Z.ones 1). rewrite Z.land_ones by lia. change (15 - 0)%nat with 15%nat.
    change (2 ^ 1) with 2. rewrite Z.bit0_odd, Zmod_odd.
    destruct (Z.odd (byte_at v 15)); done. }
  pose proof (shift_right_ok v Hv).
  assert (length (shift_right v) = 16%nat) by (unfold shift_right; by rewrite length_imap).
  case_match; [|by apply be_val_shift]. by rewrite be_val_reduce, be_val_shift.
Qed.

Lemma ghash_bit_spec x i : bytes_ok x -> length x = 16%nat -> (i < 128)%nat ->
  ghash_bit x i = Z.testbit (be_val x) (127 - Z.of_nat i).
Proof.
  intros Hx Hl Hi. unfold ghash_bit.
  pose proof (Nat.div_mod_eq i 8) as Ed. pose proof (Nat.mod_upper_bound i 8 ltac:(lia)) as Hm.
  assert (i / 8 < 16)%nat by lia.
  replace (127 - Z.of_nat i) with (8 * Z.of_nat (15 - i / 8) + (7 - Z.of_nat (i mod 8))) by lia.
  rewrite be_bit by (done || lia). replace (15 - (15 - i / 8))%nat with (i / 8)%nat by lia.
  change 1 with (Z.ones 1). rewrite Z.land_ones by lia. change (2 ^ 1) with 2.
  rewrite Zmod_odd, <- Z.bit0_odd, Z.shiftr_spec by lia.
  replace (0 + (7 - Z.of_nat (i mod 8))) with (7 - Z.of_nat (i mod 8)) by lia.
  by destruct (Z.testbit _ _).
Qed.

(** GHASH multiplication: on 16-byte blocks the byte-wise loop computes the
    product of NIST SP 800-38D, algorithm 1, over 128-bit values. *)
Theorem ghash_mul_spec x y :
  bytes_ok x -> bytes_ok y -> length x = 16%nat -> length y = 16%nat ->
  be_val (ghash_mul x y) = spec_mul (be_val x) (be_val y).
Proof.
  intros Hx Hy Lx Ly. unfold ghash_mul, spec_mul.
  assert (forall l z v, (forall i, i ∈ l -> (i < 128)%nat) ->
    bytes_ok z -> bytes_ok v -> length z = 16%nat -> length v = 16%nat ->
    be_val (foldl (ghash_step x) (z, v) l).1 = (foldl (spec_step (be_val x)) (be_val z, be_val v) l).1) as H.
  { induction l as [|i l IH]; intros z v Hl Hz Hv Lz Lv; cbn [foldl ghash_step spec_step]; [done|].
    rewrite <- ghash_bit_spec by (done || (apply Hl; left)). rewrite <- ghash_shift_spec by done.
    pose proof (ghash_shift_ok v Hv). pose proof (length_ghash_shift v).
    destruct (ghash_bit x i).
    - rewrite <- be_val_xor by done. apply IH; [set_solver|by apply xor_bytes_ok|done|
        by rewrite length_xor_bytes|congruence].
    - apply IH; [set_solver|done|done|done|congruence]. }
  rewrite H; [done|intros i Hi; apply elem_of_seq in Hi; lia|apply bytes_ok_replicate|done|done|done].
Qed.

Lemma ghash_mul_spec_witness :
  be_val (ghash_mul (replicate 16 0x5A) (replicate 16 0xC3)) =
  spec_mul (be_val (replicate 16 0x5A)) (be_val (replicate 16 0xC3)).
Proof. apply ghash_mul_spec; [eval_decide..|done|done]. Defined.

End Gcm.
