(* ===== verification/X25519.v ===== *)
(** * X25519 (tight/src/crypto.cpp, lines 163-408)

    Field arithmetic modulo 2^255 - 19 on five 51-bit limbs with explicit
    64- and 128-bit wrap-around, the inversion chain, and the Montgomery
    ladder. The limb code is proved to compute the ladder of RFC 7748 over the
    integers modulo the prime, with no overflow on the way. *)
From stdpp Require Import base list numbers option.
From Stdlib Require Import ZArith Lia Btauto Ring.
From S2P Require Import Prelude.

Local Open Scope Z_scope.

Module X25519.

Record Fe := mkFe { l0 : Z; l1 : Z; l2 : Z; l3 : Z; l4 : Z }.

Definition kMask51 : Z := Z.shiftl 1 51 - 1.
Definition lo51 (x : Z) : Z := Z.land x kMask51.

Definition load_le64 (s : bytes) (off : nat) : Z := load_le (take 8 (drop off s)).

Definition fe_frombytes (s : bytes) : Fe :=
  mkFe (lo51 (load_le64 s 0)) (lo51 (Z.shiftr (load_le64 s 6) 3)) (lo51 (Z.shiftr (load_le64 s 12) 6))
       (lo51 (Z.shiftr (load_le64 s 19) 1)) (lo51 (Z.shiftr (load_le64 s 24) 12)).

(** One carry pass of [fe_tobytes]. *)
Definition carry_pass (h : Fe) : Fe :=
  let c := Z.shiftr (l0 h) 51 in let h0 := lo51 (l0 h) in let h1 := u64 (l1 h + c) in
  let c := Z.shiftr h1 51 in let h1 := lo51 h1 in let h2 := u64 (l2 h + c) in
  let c := Z.shiftr h2 51 in let h2 := lo51 h2 in let h3 := u64 (l3 h + c) in
  let c := Z.shiftr h3 51 in let h3 := lo51 h3 in let h4 := u64 (l4 h + c) in
  let c := Z.shiftr h4 51 in let h4 := lo51 h4 in let h0 := u64 (h0 + u64 (19 * c)) in
  mkFe h0 h1 h2 h3 h4.

(** [t = h - p - borrow] on one limb: difference and new borrow. *)
Definition sub_limb (h p borrow : Z) : Z * Z :=
  let t := h - p - borrow in (lo51 (u64 t), if t <? 0 then 1 else 0).

(** Constant-time choice between [h] ([borrow = 1]) and [m]. *)
Definition select (keep h m : Z) : Z := Z.lor (Z.land keep h) (Z.land (Z.lxor keep (2 ^ 64 - 1)) m).

Definition cond_sub (h : Fe) : Fe :=
  let '(m0, b) := sub_limb (l0 h) (kMask51 - 18) 0 in
  let '(m1, b) := sub_limb (l1 h) kMask51 b in
  let '(m2, b) := sub_limb (l2 h) kMask51 b in
  let '(m3, b) := sub_limb (l3 h) kMask51 b in
  let '(m4, b) := sub_limb (l4 h) kMask51 b in
  let keep := u64 (- b) in
  mkFe (select keep (l0 h) m0) (select keep (l1 h) m1) (select keep (l2 h) m2)
       (select keep (l3 h) m3) (select keep (l4 h) m4).

(** Packing of 51-bit limbs into 32 bytes. *)
Definition pack (o : Fe) : bytes :=
  let a := l0 o in let b := l1 o in let c := l2 o in let d := l3 o in let e := l4 o in
  [u8 a; u8 (Z.shiftr a 8); u8 (Z.shiftr a 16); u8 (Z.shiftr a 24); u8 (Z.shiftr a 32);
   u8 (Z.shiftr a 40); u8 (Z.lor (Z.shiftr a 48) (Z.shiftl b 3)); u8 (Z.shiftr b 5);
   u8 (Z.shiftr b 13); u8 (Z.shiftr b 21); u8 (Z.shiftr b 29); u8 (Z.shiftr b 37);
   u8 (Z.lor (Z.shiftr b 45) (Z.shiftl c 6)); u8 (Z.shiftr c 2); u8 (Z.shiftr c 10);
   u8 (Z.shiftr c 18); u8 (Z.shiftr c 26); u8 (Z.shiftr c 34); u8 (Z.shiftr c 42);
   u8 (Z.lor (Z.shiftr c 50) (Z.shiftl d 1)); u8 (Z.shiftr d 7); u8 (Z.shiftr d 15);
   u8 (Z.shiftr d 23); u8 (Z.shiftr d 31); u8 (Z.shiftr d 39);
   u8 (Z.lor (Z.shiftr d 47) (Z.shiftl e 4)); u8 (Z.shiftr e 4); u8 (Z.shiftr e 12);
   u8 (Z.shiftr e 20); u8 (Z.shiftr e 28); u8 (Z.shiftr e 36); u8 (Z.shiftr e 44)].

Definition fe_tobytes (h : Fe) : bytes := pack (cond_sub (carry_pass (carry_pass (carry_pass h)))).

Definition fe_add (f g : Fe) : Fe :=
  mkFe (u64 (l0 f + l0 g)) (u64 (l1 f + l1 g)) (u64 (l2 f + l2 g)) (u64 (l3 f + l3 g)) (u64 (l4 f + l4 g)).

Definition fe_sub (f g : Fe) : Fe :=
  mkFe (u64 (l0 f + 0xFFFFFFFFFFFDA - l0 g)) (u64 (l1 f + 0xFFFFFFFFFFFFE - l1 g))
       (u64 (l2 f + 0xFFFFFFFFFFFFE - l2 g)) (u64 (l3 f + 0xFFFFFFFFFFFFE - l3 g))
       (u64 (l4 f + 0xFFFFFFFFFFFFE - l4 g)).

(** The carry chain shared by the two products: 128-bit accumulators, 64-bit
    carries. *)
Definition carry128 (r0 r1 r2 r3 r4 : Z) : Fe :=
  let c := u64 (Z.shiftr r0 51) in let r0 := lo51 r0 in let r1 := u128 (r1 + c) in
  let c := u64 (Z.shiftr r1 51) in let r1 := lo51 r1 in let r2 := u128 (r2 + c) in
  let c := u64 (Z.shiftr r2 51) in let r2 := lo51 r2 in let r3 := u128 (r3 + c) in
  let c := u64 (Z.shiftr r3 51) in let r3 := lo51 r3 in let r4 := u128 (r4 + c) in
  let c := u64 (Z.shiftr r4 51) in let r4 := lo51 r4 in let r0 := u128 (r0 + u64 (19 * c)) in
  let c := u64 (Z.shiftr r0 51) in let r0 := lo51 r0 in let r1 := u128 (r1 + c) in
  mkFe (u64 r0) (u64 r1) (u64 r2) (u64 r3) (u64 r4).

Definition fe_mul (f g : Fe) : Fe :=
  let f0 := l0 f in let f1 := l1 f in let f2 := l2 f in let f3 := l3 f in let f4 := l4 f in
  let g0 := l0 g in let g1 := l1 g in let g2 := l2 g in let g3 := l3 g in let g4 := l4 g in
  carry128
    (u128 (f0 * g0 + 19 * (f1 * g4 + f2 * g3 + f3 * g2 + f4 * g1)))
    (u128 (f0 * g1 + f1 * g0 + 19 * (f2 * g4 + f3 * g3 + f4 * g2)))
    (u128 (f0 * g2 + f1 * g1 + f2 * g0 + 19 * (f3 * g4 + f4 * g3)))
    (u128 (f0 * g3 + f1 * g2 + f2 * g1 + f3 * g0 + 19 * (f4 * g4)))
    (u128 (f0 * g4 + f1 * g3 + f2 * g2 + f3 * g1 + f4 * g0)).

Definition fe_sq (f : Fe) : Fe := fe_mul f f.

Definition fe_mul_scalar (f : Fe) (s : Z) : Fe :=
  carry128 (u128 (l0 f * s)) (u128 (l1 f * s)) (u128 (l2 f * s)) (u128 (l3 f * s)) (u128 (l4 f * s)).

Definition fe_sq_n (f : Fe) (n : nat) : Fe := Nat.iter n fe_sq f.

Definition fe_inv (z : Fe) : Fe :=
  let z2 := fe_sq z in
  let z8 := fe_sq_n z2 2 in
  let z9 := fe_mul z z8 in
  let z11 := fe_mul z2 z9 in
  let z22 := fe_sq z11 in
  let z_5_0 := fe_mul z9 z22 in
  let z_10_0 := fe_mul (fe_sq_n z_5_0 5) z_5_0 in
  let z_20_0 := fe_mul (fe_sq_n z_10_0 10) z_10_0 in
  let z_40_0 := fe_mul (fe_sq_n z_20_0 20) z_20_0 in
  let z_50_0 := fe_mul (fe_sq_n z_40_0 10) z_10_0 in
  let z_100_0 := fe_mul (fe_sq_n z_50_0 50) z_50_0 in
  let z_200_0 := fe_mul (fe_sq_n z_100_0 100) z_100_0 in
  let z_250_0 := fe_mul (fe_sq_n z_200_0 50) z_50_0 in
  fe_mul (fe_sq_n z_250_0 5) z11.

Definition swap_limb (mask f g : Z) : Z * Z :=
  let t := Z.land mask (Z.lxor f g) in (Z.lxor f t, Z.lxor g t).

Definition fe_cswap (f g : Fe) (swap : Z) : Fe * Fe :=
  let mask := u64 (0 - swap) in
  let '(f0, g0) := swap_limb mask (l0 f) (l0 g) in
  let '(f1, g1) := swap_limb mask (l1 f) (l1 g) in
  let '(f2, g2) := swap_limb mask (l2 f) (l2 g) in
  let '(f3, g3) := swap_limb mask (l3 f) (l3 g) in
  let '(f4, g4) := swap_limb mask (l4 f) (l4 g) in
  (mkFe f0 f1 f2 f3 f4, mkFe g0 g1 g2 g3 g4).

Record Ladder := mkLadder { x2 : Fe; z2 : Fe; x3 : Fe; z3 : Fe; swap : Z }.

Definition clamp (private_key : bytes) : bytes :=
  let e := <[0%nat := Z.land (byte_at private_key 0) 248]> private_key in
  <[31%nat := Z.lor (Z.land (byte_at e 31) 127) 64]> e.

Definition key_bit (e : bytes) (t : nat) : Z :=
  Z.land (Z.shiftr (byte_at e (t / 8)) (Z.of_nat (t mod 8))) 1.

Definition ladder_step (x1 : Fe) (e : bytes) (s : Ladder) (t : nat) : Ladder :=
  let kt := key_bit e t in
  let sw := Z.lxor (swap s) kt in
  let '(x2, x3) := fe_cswap (x2 s) (x3 s) sw in
  let '(z2, z3) := fe_cswap (z2 s) (z3 s) sw in
  let a := fe_add x2 z2 in
  let aa := fe_sq a in
  let b := fe_sub x2 z2 in
  let bb := fe_sq b in
  let e2 := fe_sub aa bb in
  let c := fe_add x3 z3 in
  let d := fe_sub x3 z3 in
  let da := fe_mul d a in
  let cb := fe_mul c b in
  let da_cb := fe_add da cb in
  let da_cb2 := fe_sub da cb in
  mkLadder (fe_mul aa bb) (fe_mul e2 (fe_add aa (fe_mul_scalar e2 121665)))
    (fe_sq da_cb) (fe_mul x1 (fe_sq da_cb2)) kt.

Definition fe_one : Fe := mkFe 1 0 0 0 0.
Definition fe_zero : Fe := mkFe 0 0 0 0 0.

(** The output bytes and the low-order check. *)
Definition x25519 (private_key peer_public_key : bytes) : bytes * bool :=
  let e := clamp private_key in
  let x1 := fe_frombytes peer_public_key in
  let s := foldl (ladder_step x1 e) (mkLadder fe_one fe_zero x1 fe_one 0) (rev (seq 0 255)) in
  let '(x2, _) := fe_cswap (x2 s) (x3 s) (swap s) in
  let '(z2, _) := fe_cswap (z2 s) (z3 s) (swap s) in
  let out := fe_tobytes (fe_mul x2 (fe_inv z2)) in
  (out, negb (foldl Z.lor 0 out =? 0)).

(** [x25519_generate] with the bytes drawn from [std::random_device]. *)
Definition x25519_generate (random : bytes) : bytes * bytes :=
  let private_key := u8 <$> random in
  (private_key, (x25519 private_key (9 :: replicate 31 0)).1).

(** ** Values of limb vectors *)

Definition P : Z := 2 ^ 255 - 19.

Definition feval (f : Fe) : Z :=
  l0 f + 2 ^ 51 * l1 f + 2 ^ 102 * l2 f + 2 ^ 153 * l3 f + 2 ^ 204 * l4 f.

(** All limbs below [b]. *)
Definition below (b : Z) (f : Fe) : Prop :=
  0 <= l0 f < b /\ 0 <= l1 f < b /\ 0 <= l2 f < b /\ 0 <= l3 f < b /\ 0 <= l4 f < b.

(** Bound of the results of products, and bound under which products do not
    overflow. *)
Definition kTight : Z := 2 ^ 51 + 2 ^ 15.
Definition kLoose : Z := 2 ^ 54.

Definition eqm (a b : Z) : Prop := a mod P = b mod P.

Lemma P_pos : 0 < P. Proof. done. Qed.

Global Instance eqm_equiv : Equivalence eqm.
Proof. split; unfold eqm; congruence. Qed.

Global Instance eqm_add : Proper (eqm ==> eqm ==> eqm) Z.add.
Proof. intros a a' Ha b b' Hb. unfold eqm in *. rewrite Zplus_mod, Ha, Hb, <- Zplus_mod. done. Qed.
Global Instance eqm_sub : Proper (eqm ==> eqm ==> eqm) Z.sub.
Proof. intros a a' Ha b b' Hb. unfold eqm in *. rewrite Zminus_mod, Ha, Hb, <- Zminus_mod. done. Qed.
Global Instance eqm_mul : Proper (eqm ==> eqm ==> eqm) Z.mul.
Proof. intros a a' Ha b b' Hb. unfold eqm in *. rewrite Zmult_mod, Ha, Hb, <- Zmult_mod. done. Qed.

Lemma eqm_pow a b n : eqm a b -> eqm (a ^ n) (b ^ n).
Proof.
  intros H. destruct (decide (0 <= n)) as [Hn|Hn]; [|by rewrite !Z.pow_neg_r by lia].
  revert n Hn. apply natlike_ind; [by rewrite !Z.pow_0_r|].
  intros n Hn IH. rewrite !Z.pow_succ_r by lia. by rewrite IH, H.
Qed.

Lemma eqm_plus_P a k : eqm (a + k * P) a.
Proof. unfold eqm. apply Z_mod_plus_full. Qed.

Lemma eqm_of a b k : a = b + k * P -> eqm a b.
Proof. intros ->. apply eqm_plus_P. Qed.

Lemma lo51_mod x : lo51 x = x mod 2 ^ 51.
Proof. unfold lo51, kMask51. change (Z.shiftl 1 51 - 1) with (Z.ones 51). by apply Z.land_ones. Qed.

(** One carry: quotient and remainder by 2^51. *)
Lemma carry_split x : x = 2 ^ 51 * Z.shiftr x 51 + lo51 x /\ 0 <= lo51 x < 2 ^ 51.
Proof.
  rewrite lo51_mod, Z.shiftr_div_pow2 by lia. split; [apply Z.div_mod; lia|apply Z.mod_pos_bound; lia].
Qed.

Ltac split_carry x c r :=
  let E := fresh "E" in let B := fresh "B" in
  destruct (carry_split x) as [E B]; set (c := Z.shiftr x 51) in *; set (r := lo51 x) in *;
  clearbody c r.

(** ** The carry chain *)

Lemma carry128_spec r0 r1 r2 r3 r4 :
  0 <= r0 < 77 * 2 ^ 108 -> 0 <= r1 < 77 * 2 ^ 108 -> 0 <= r2 < 77 * 2 ^ 108 -> 0 <= r3 < 77 * 2 ^ 108 ->
  0 <= r4 < 5 * 2 ^ 108 ->
  let f := carry128 r0 r1 r2 r3 r4 in
  below kTight f /\
  eqm (feval f) (r0 + 2 ^ 51 * r1 + 2 ^ 102 * r2 + 2 ^ 153 * r3 + 2 ^ 204 * r4).
Proof.
  intros H0 H1 H2 H3 H4. unfold carry128.
  split_carry r0 c0 m0. rewrite (u64_id c0) by (unfold in_width; lia).
  rewrite (u128_id (r1 + c0)) by (unfold in_width; lia).
  split_carry (r1 + c0) c1 m1. rewrite (u64_id c1) by (unfold in_width; lia).
  rewrite (u128_id (r2 + c1)) by (unfold in_width; lia).
  split_carry (r2 + c1) c2 m2. rewrite (u64_id c2) by (unfold in_width; lia).
  rewrite (u128_id (r3 + c2)) by (unfold in_width; lia).
  split_carry (r3 + c2) c3 m3. rewrite (u64_id c3) by (unfold in_width; lia).
  rewrite (u128_id (r4 + c3)) by (unfold in_width; lia).
  split_carry (r4 + c3) c4 m4. rewrite (u64_id c4), (u64_id (19 * c4)) by (unfold in_width; lia).
  rewrite (u128_id (m0 + 19 * c4)) by (unfold in_width; lia).
  split_carry (m0 + 19 * c4) c5 n0. rewrite (u64_id c5) by (unfold in_width; lia).
  rewrite (u128_id (m1 + c5)) by (unfold in_width; lia).
  rewrite !u64_id by (unfold in_width; lia).
  split.
  - unfold below, kTight. cbn [l0 l1 l2 l3 l4]. lia.
  - symmetry. apply (eqm_of _ _ c4). unfold feval, P. cbn [l0 l1 l2 l3 l4]. lia.
Qed.

(** A product of two loose limbs, and the accumulators of [fe_mul]. *)
Definition prod_ok (x : Z) : Prop := 0 <= x < 2 ^ 108.

Lemma prod_bound a b : 0 <= a < kLoose -> 0 <= b < kLoose -> prod_ok (a * b).
Proof.
  unfold kLoose, prod_ok. intros. change (2 ^ 108) with (2 ^ 54 * 2 ^ 54). split; [lia|].
  apply Z.mul_lt_mono_nonneg; lia.
Qed.

Lemma accumulators a b c d e :
  prod_ok a -> prod_ok b -> prod_ok c -> prod_ok d -> prod_ok e ->
  0 <= a + 19 * (b + c + d + e) < 77 * 2 ^ 108 /\ 0 <= a + b + 19 * (c + d + e) < 77 * 2 ^ 108 /\
  0 <= a + b + c + 19 * (d + e) < 77 * 2 ^ 108 /\ 0 <= a + b + c + d + 19 * e < 77 * 2 ^ 108 /\
  0 <= a + b + c + d + e < 5 * 2 ^ 108.
Proof. unfold prod_ok. lia. Qed.

Lemma u128_small x : 0 <= x < 77 * 2 ^ 108 -> u128 x = x.
Proof. intros. apply u128_id. unfold in_width. lia. Qed.

Lemma fe_mul_ok f g :
  below kLoose f -> below kLoose g ->
  below kTight (fe_mul f g) /\ eqm (feval (fe_mul f g)) (feval f * feval g).
Proof.
  intros (F0 & F1 & F2 & F3 & F4) (G0 & G1 & G2 & G3 & G4). unfold fe_mul.
  destruct (accumulators (l0 f * l0 g) (l1 f * l4 g) (l2 f * l3 g) (l3 f * l2 g) (l4 f * l1 g))
    as (A0 & _); [by apply prod_bound..|].
  destruct (accumulators (l0 f * l1 g) (l1 f * l0 g) (l2 f * l4 g) (l3 f * l3 g) (l4 f * l2 g))
    as (_ & A1 & _); [by apply prod_bound..|].
  destruct (accumulators (l0 f * l2 g) (l1 f * l1 g) (l2 f * l0 g) (l3 f * l4 g) (l4 f * l3 g))
    as (_ & _ & A2 & _); [by apply prod_bound..|].
  destruct (accumulators (l0 f * l3 g) (l1 f * l2 g) (l2 f * l1 g) (l3 f * l0 g) (l4 f * l4 g))
    as (_ & _ & _ & A3 & _); [by apply prod_bound..|].
  destruct (accumulators (l0 f * l4 g) (l1 f * l3 g) (l2 f * l2 g) (l3 f * l1 g) (l4 f * l0 g))
    as (_ & _ & _ & _ & A4); [by apply prod_bound..|].
  clear F0 F1 F2 F3 F4 G0 G1 G2 G3 G4.
  rewrite (u128_small _ A0), (u128_small _ A1), (u128_small _ A2), (u128_small _ A3).
  rewrite u128_id by (unfold in_width; lia).
  destruct (carry128_spec _ _ _ _ _ A0 A1 A2 A3 A4) as [HB HE]. split; [exact HB|].
  rewrite HE.
  apply (eqm_of _ _ (- ((l1 f * l4 g + l2 f * l3 g + l3 f * l2 g + l4 f * l1 g) +
    2 ^ 51 * (l2 f * l4 g + l3 f * l3 g + l4 f * l2 g) +
    2 ^ 102 * (l3 f * l4 g + l4 f * l3 g) + 2 ^ 153 * (l4 f * l4 g)))).
  unfold feval, P. ring.
Qed.

(** Field multiplication: for limbs up to 54 bits no 64- or 128-bit
    intermediate overflows, the result is reduced to limbs just above 51 bits,
    and its value is the product modulo 2^255 - 19. *)
Theorem fe_mul_correct f g :
  below kLoose f -> below kLoose g ->
  below kTight (fe_mul f g) /\ feval (fe_mul f g) mod P = (feval f * feval g) mod P.
Proof. apply fe_mul_ok. Qed.

Lemma fe_mul_correct_witness :
  feval (fe_mul (mkFe (2 ^ 54 - 1) 3 5 7 (2 ^ 53)) (mkFe 11 13 17 19 (2 ^ 54 - 1))) mod P =
  (feval (mkFe (2 ^ 54 - 1) 3 5 7 (2 ^ 53)) * feval (mkFe 11 13 17 19 (2 ^ 54 - 1))) mod P.
Proof. apply fe_mul_correct; unfold below, kLoose; cbn [l0 l1 l2 l3 l4]; lia. Defined.

(** ** Addition, subtraction, scalar product *)

Lemma below_mono a b f : a <= b -> below a f -> below b f.
Proof. unfold below. lia. Qed.

Lemma tight_loose f : below kTight f -> below kLoose f.
Proof. apply below_mono. unfold kTight, kLoose. lia. Qed.

Lemma fe_add_ok f g : below kTight f -> below kTight g ->
  below kLoose (fe_add f g) /\ eqm (feval (fe_add f g)) (feval f + feval g).
Proof.
  unfold below, kTight, kLoose. intros Hf Hg. unfold fe_add, feval. cbn [l0 l1 l2 l3 l4].
  rewrite !u64_id by (unfold in_width; lia). split; [lia|]. apply (eqm_of _ _ 0). lia.
Qed.

Lemma fe_sub_ok f g : below kTight f -> below kTight g ->
  below kLoose (fe_sub f g) /\ eqm (feval (fe_sub f g)) (feval f - feval g).
Proof.
  unfold below, kTight, kLoose. intros Hf Hg. unfold fe_sub, feval. cbn [l0 l1 l2 l3 l4].
  rewrite !u64_id by (unfold in_width; lia). split; [lia|].
  apply (eqm_of _ _ 2). unfold P. lia.
Qed.

Lemma fe_mul_scalar_ok f s : below kLoose f -> 0 <= s < 2 ^ 54 ->
  below kTight (fe_mul_scalar f s) /\ eqm (feval (fe_mul_scalar f s)) (s * feval f).
Proof.
  intros (F0 & F1 & F2 & F3 & F4) Hs. unfold fe_mul_scalar.
  assert (forall x, 0 <= x < kLoose -> 0 <= x * s < 2 ^ 108) as Hb by (intros; by apply prod_bound).
  pose proof (Hb _ F0). pose proof (Hb _ F1). pose proof (Hb _ F2). pose proof (Hb _ F3).
  pose proof (Hb _ F4). clear Hb. rewrite !u128_id by (unfold in_width; lia).
  edestruct carry128_spec as [HB HE]; [..|split; [exact HB|]]; [lia..|].
  rewrite HE. apply (eqm_of _ _ 0). unfold feval. ring.
Qed.

(** ** Inversion *)

(** [f] holds the [n]-th power of [v]. *)
Definition powers (v : Z) (n : Z) (f : Fe) : Prop := 0 <= n /\ below kTight f /\ eqm (feval f) (v ^ n).

Lemma powers_mul v a b f g : powers v a f -> powers v b g -> powers v (a + b) (fe_mul f g).
Proof.
  intros (Ha & Bf & Ef) (Hb & Bg & Eg). apply tight_loose in Bf, Bg.
  destruct (fe_mul_ok f g Bf Bg) as [HB HE]. split; [lia|]. split; [done|].
  rewrite HE, Ef, Eg, Z.pow_add_r by lia. done.
Qed.

Lemma powers_sq v a f : powers v a f -> powers v (2 * a) (fe_sq f).
Proof. intros H. replace (2 * a) with (a + a) by lia. by apply powers_mul. Qed.

Lemma powers_sq_n v a f n : powers v a f -> powers v (a * 2 ^ Z.of_nat n) (fe_sq_n f n).
Proof.
  intros H. unfold fe_sq_n. induction n as [|n IH]; simpl Nat.iter; [by rewrite Z.mul_1_r|].
  apply powers_sq in IH. replace (a * 2 ^ Z.of_nat (S n)) with (2 * (a * 2 ^ Z.of_nat n)); [done|].
  rewrite Nat2Z.inj_succ, Z.pow_succ_r by lia. lia.
Qed.

Lemma powers_eq v a b f : powers v a f -> a = b -> powers v b f.
Proof. intros H <-. done. Qed.

Lemma fe_inv_ok z : below kTight z -> powers (feval z) (P - 2) (fe_inv z).
Proof.
  intros Hz. unfold fe_inv. set (v := feval z).
  assert (powers v 1 z) as H1 by (split; [lia|]; split; [done|]; rewrite Z.pow_1_r; done).
  assert (powers v 2 (fe_sq z)) as H2 by (by apply (powers_sq v 1)).
  set (w2 := fe_sq z) in *. clearbody w2.
  assert (powers v 8 (fe_sq_n w2 2)) as H8 by (eapply powers_eq; [by apply powers_sq_n|done]).
  set (w8 := fe_sq_n w2 2) in *. clearbody w8.
  assert (powers v 9 (fe_mul z w8)) as H9 by (by apply (powers_mul v 1 8)).
  set (w9 := fe_mul z w8) in *. clearbody w9.
  assert (powers v 11 (fe_mul w2 w9)) as H11 by (by apply (powers_mul v 2 9)).
  set (w11 := fe_mul w2 w9) in *. clearbody w11.
  assert (powers v 22 (fe_sq w11)) as H22 by (by apply (powers_sq v 11)).
  set (w22 := fe_sq w11) in *. clearbody w22.
  assert (powers v 31 (fe_mul w9 w22)) as H5 by (by apply (powers_mul v 9 22)).
  set (w5 := fe_mul w9 w22) in *. clearbody w5. clear H1 H2 H8 H9 H22 w2 w8 w9 w22.
  assert (forall n m k f g, powers v (2 ^ n - 1) f -> powers v (2 ^ Z.of_nat m - 1) g -> 0 <= n ->
    k = n + Z.of_nat m -> powers v (2 ^ k - 1) (fe_mul (fe_sq_n f m) g)) as Hchain.
  { intros n m k f g Hf Hg Hn ->. eapply powers_eq; [apply powers_mul; [by apply powers_sq_n|exact Hg]|].
    rewrite Z.pow_add_r by lia. lia. }
  assert (powers v (2 ^ 10 - 1) (fe_mul (fe_sq_n w5 5) w5)) as H10 by (exact (Hchain 5 5%nat 10 _ _ H5 H5 ltac:(lia) eq_refl)).
  set (w10 := fe_mul (fe_sq_n w5 5) w5) in *. clearbody w10.
  assert (powers v (2 ^ 20 - 1) (fe_mul (fe_sq_n w10 10) w10)) as H20 by (exact (Hchain 10 10%nat 20 _ _ H10 H10 ltac:(lia) eq_refl)).
  set (w20 := fe_mul (fe_sq_n w10 10) w10) in *. clearbody w20.
  assert (powers v (2 ^ 40 - 1) (fe_mul (fe_sq_n w20 20) w20)) as H40 by (exact (Hchain 20 20%nat 40 _ _ H20 H20 ltac:(lia) eq_refl)).
  set (w40 := fe_mul (fe_sq_n w20 20) w20) in *. clearbody w40.
  assert (powers v (2 ^ 50 - 1) (fe_mul (fe_sq_n w40 10) w10)) as H50 by (exact (Hchain 40 10%nat 50 _ _ H40 H10 ltac:(lia) eq_refl)).
  set (w50 := fe_mul (fe_sq_n w40 10) w10) in *. clearbody w50.
  assert (powers v (2 ^ 100 - 1) (fe_mul (fe_sq_n w50 50) w50)) as H100 by (exact (Hchain 50 50%nat 100 _ _ H50 H50 ltac:(lia) eq_refl)).
  set (w100 := fe_mul (fe_sq_n w50 50) w50) in *. clearbody w100.
  assert (powers v (2 ^ 200 - 1) (fe_mul (fe_sq_n w100 100) w100)) as H200 by (exact (Hchain 100 100%nat 200 _ _ H100 H100 ltac:(lia) eq_refl)).
  set (w200 := fe_mul (fe_sq_n w100 100) w100) in *. clearbody w200.
  assert (powers v (2 ^ 250 - 1) (fe_mul (fe_sq_n w200 50) w50)) as H250 by (exact (Hchain 200 50%nat 250 _ _ H200 H50 ltac:(lia) eq_refl)).
  set (w250 := fe_mul (fe_sq_n w200 50) w50) in *. clearbody w250.
  eapply powers_eq; [apply powers_mul; [apply powers_sq_n; exact H250|exact H11]|].
  vm_compute. reflexivity.
Qed.

(** ** Conditional swap *)

Lemma swap_limb_spec b f g : in_width 64 f -> in_width 64 g ->
  swap_limb (u64 (0 - (if b : bool then 1 else 0))) f g = if b then (g, f) else (f, g).
Proof.
  intros Hf Hg. unfold swap_limb. destruct b.
  - change (u64 (0 - 1)) with (Z.ones 64).
    assert (Z.land (Z.ones 64) (Z.lxor f g) = Z.lxor f g) as ->.
    { rewrite Z.land_comm, Z.land_ones by lia. apply wrap_id, lxor_width; [lia|done|done]. }
    f_equal; apply Z.bits_inj'; intros i Hi; rewrite !Z.lxor_spec; btauto.
  - change (u64 (0 - 0)) with 0. by rewrite Z.land_0_l, !Z.lxor_0_r.
Qed.

Lemma fe_cswap_ok b f g : below kTight f -> below kTight g ->
  fe_cswap f g (if b : bool then 1 else 0) = if b then (g, f) else (f, g).
Proof.
  unfold below, kTight. intros Hf Hg. unfold fe_cswap.
  rewrite !swap_limb_spec by (unfold in_width; lia). destruct f, g. by destruct b.
Qed.

(** ** Decoding *)

Lemma load_le64_spec s off : bytes_ok s -> load_le64 s off = Z.shiftr (load_le s) (8 * Z.of_nat off) mod 2 ^ 64.
Proof.
  intros Hs. apply Z.bits_inj'. intros i Hi. unfold load_le64.
  rewrite testbit_load_le by (auto with width || lia).
  bit_norm. rewrite testbit_load_le by (done || lia).
  replace ((i + 8 * Z.of_nat off) / 8) with (i / 8 + Z.of_nat off)
    by (rewrite (Z.mul_comm 8), Z.div_add by lia; done).
  replace ((i + 8 * Z.of_nat off) mod 8) with (i mod 8)
    by (rewrite (Z.mul_comm 8), Z.mod_add by lia; done).
  pose proof (Z.div_pos i 8 ltac:(lia) ltac:(lia)).
  replace (Z.to_nat (i / 8 + Z.of_nat off)) with (off + Z.to_nat (i / 8))%nat by lia.
  unfold byte_at. destruct (Z.ltb_spec i 64) as [Hlt|Hge].
  - assert (i / 8 < 8) by (apply Z.div_lt_upper_bound; lia).
    rewrite lookup_take_lt by lia. by rewrite lookup_drop.
  - assert (8 <= i / 8) by (apply Z.div_le_lower_bound; lia).
    rewrite lookup_take_ge by lia. simpl. apply Z.testbit_0_l.
Qed.

Lemma limb_spec s off sh : bytes_ok s -> 0 <= sh <= 13 ->
  lo51 (Z.shiftr (load_le64 s off) sh) = (load_le s / 2 ^ (8 * Z.of_nat off + sh)) mod 2 ^ 51.
Proof.
  intros Hs Hsh. rewrite lo51_mod, load_le64_spec by done. rewrite <- Z.shiftr_div_pow2 by lia.
  apply Z.bits_inj'. intros i Hi. bit_norm. destruct (Z.ltb_spec i 51); [|done]. simpl.
  rewrite (proj2 (Z.ltb_lt _ _)) by lia. simpl. f_equal. lia.
Qed.

Lemma fe_frombytes_ok s : bytes_ok s ->
  below kTight (fe_frombytes s) /\ feval (fe_frombytes s) = load_le s mod 2 ^ 255.
Proof.
  intros Hs. unfold fe_frombytes.
  replace (lo51 (load_le64 s 0)) with (lo51 (Z.shiftr (load_le64 s 0) 0)) by (by rewrite Z.shiftr_0_r).
  rewrite !limb_spec by (done || lia).
  change (8 * Z.of_nat 0 + 0) with 0. change (8 * Z.of_nat 6 + 3) with 51.
  change (8 * Z.of_nat 12 + 6) with 102. change (8 * Z.of_nat 19 + 1) with 153.
  change (8 * Z.of_nat 24 + 12) with 204.
  set (N := load_le s). split.
  - unfold below, kTight. cbn [l0 l1 l2 l3 l4].
    assert (forall x, 0 <= x mod 2 ^ 51 < 2 ^ 51 + 2 ^ 15) as H.
    { intros x. pose proof (Z.mod_pos_bound x (2 ^ 51) ltac:(lia)). lia. }
    repeat split; apply H.
  - unfold feval. cbn [l0 l1 l2 l3 l4].
    assert (forall a, 0 <= a -> N mod 2 ^ (a + 51) = N mod 2 ^ a + 2 ^ a * ((N / 2 ^ a) mod 2 ^ 51)) as Hs51.
    { intros a Ha. rewrite Z.pow_add_r by lia. apply Z.rem_mul_r; lia. }
    pose proof (Hs51 204 ltac:(lia)) as E4. pose proof (Hs51 153 ltac:(lia)) as E3.
    pose proof (Hs51 102 ltac:(lia)) as E2. pose proof (Hs51 51 ltac:(lia)) as E1.
    change (204 + 51) with 255 in E4. change (153 + 51) with 204 in E3.
    change (102 + 51) with 153 in E2. change (51 + 51) with 102 in E1. rewrite E4, E3, E2, E1.
    change (2 ^ 0) with 1. rewrite Z.div_1_r. lia.
Qed.

(** ** Encoding *)

Lemma carry_pass_ok B h : 2 ^ 51 <= B <= 2 ^ 51 + 2 ^ 16 -> below B h ->
  let h' := carry_pass h in
  eqm (feval h') (feval h) /\
  0 <= l0 h' < 2 ^ 51 + 19 /\ 0 <= l1 h' < 2 ^ 51 /\ 0 <= l2 h' < 2 ^ 51 /\
  0 <= l3 h' < 2 ^ 51 /\ 0 <= l4 h' < 2 ^ 51 /\
  (l0 h < 2 ^ 51 + 19 -> l1 h < 2 ^ 51 -> l2 h < 2 ^ 51 -> l3 h < 2 ^ 51 -> l4 h < 2 ^ 51 ->
   l0 h' < 2 ^ 51).
Proof.
  unfold below. intros HB (H0 & H1 & H2 & H3 & H4). unfold carry_pass.
  split_carry (l0 h) c0 m0. rewrite (u64_id (l1 h + c0)) by (unfold in_width; lia).
  split_carry (l1 h + c0) c1 m1. rewrite (u64_id (l2 h + c1)) by (unfold in_width; lia).
  split_carry (l2 h + c1) c2 m2. rewrite (u64_id (l3 h + c2)) by (unfold in_width; lia).
  split_carry (l3 h + c2) c3 m3. rewrite (u64_id (l4 h + c3)) by (unfold in_width; lia).
  split_carry (l4 h + c3) c4 m4. rewrite (u64_id (19 * c4)) by (unfold in_width; lia).
  rewrite (u64_id (m0 + 19 * c4)) by (unfold in_width; lia). cbn [l0 l1 l2 l3 l4].
  split; [|lia]. symmetry. apply (eqm_of _ _ c4). unfold feval, P. cbn [l0 l1 l2 l3 l4]. lia.
Qed.

(** Three passes bring every limb below 2^51. *)
Lemma carry3_ok h : below kTight h ->
  let h' := carry_pass (carry_pass (carry_pass h)) in
  below (2 ^ 51) h' /\ eqm (feval h') (feval h).
Proof.
  intros H. apply (carry_pass_ok kTight) in H; [|unfold kTight; lia].
  set (h1 := carry_pass h) in *. clearbody h1. destruct H as (E1 & Q1 & ? & ? & ? & ? & _).
  destruct (carry_pass_ok (2 ^ 51 + 2 ^ 16) h1) as (E2 & Q2 & ? & ? & ? & ? & Q2'); [lia|unfold below; lia|].
  set (h2 := carry_pass h1) in *. clearbody h2.
  destruct (carry_pass_ok (2 ^ 51) h2) as (E3 & Q3 & ? & ? & ? & ? & Q3'); [lia|unfold below; lia|].
  split; [unfold below; lia|]. by rewrite E3, E2, E1.
Qed.

Lemma sub_limb_spec h p b m b' : 0 <= h < 2 ^ 51 -> 0 <= p < 2 ^ 51 -> 0 <= b <= 1 ->
  sub_limb h p b = (m, b') -> m = h - p - b + 2 ^ 51 * b' /\ 0 <= m < 2 ^ 51 /\ 0 <= b' <= 1.
Proof.
  intros Hh Hp Hb. unfold sub_limb. intros [= <- <-]. rewrite lo51_mod.
  assert (u64 (h - p - b) mod 2 ^ 51 = (h - p - b) mod 2 ^ 51) as ->.
  { unfold u64. replace (2 ^ 64) with (2 ^ 51 * 2 ^ 13) by done. rewrite Z.rem_mul_r by lia.
    rewrite Z.mul_comm, Z.mod_add, Z.mod_mod by lia. done. }
  destruct (Z.ltb_spec (h - p - b) 0).
  - rewrite <- (Z_mod_plus_full _ 1), Z.mul_1_l, Z.mod_small by lia. lia.
  - rewrite Z.mod_small by lia. lia.
Qed.

Lemma select_spec b h m : in_width 64 h -> in_width 64 m -> 0 <= b <= 1 ->
  select (u64 (- b)) h m = if b =? 1 then h else m.
Proof.
  intros Hh Hm Hb. unfold select. assert (b = 0 \/ b = 1) as [->| ->] by lia.
  - change (u64 (- 0)) with 0. rewrite Z.land_0_l, Z.lxor_0_l. simpl (0 =? 1). cbv iota.
    change (2 ^ 64 - 1) with (Z.ones 64). rewrite Z.land_comm, Z.land_ones by lia.
    rewrite Z.lor_0_l. by apply wrap_id.
  - change (u64 (- (1))) with (Z.ones 64). change (2 ^ 64 - 1) with (Z.ones 64).
    rewrite Z.lxor_nilpotent, Z.land_0_l, Z.lor_0_r, Z.land_comm, Z.land_ones by lia.
    by apply wrap_id.
Qed.

Lemma cond_sub_ok h : below (2 ^ 51) h ->
  below (2 ^ 51) (cond_sub h) /\ feval (cond_sub h) = feval h mod P.
Proof.
  intros (H0 & H1 & H2 & H3 & H4). unfold cond_sub.
  change (kMask51 - 18) with (2 ^ 51 - 19). change kMask51 with (2 ^ 51 - 1).
  destruct (sub_limb (l0 h) _ 0) as [m0 b0] eqn:E0.
  apply sub_limb_spec in E0 as (E0 & M0 & B0); [|lia..].
  destruct (sub_limb (l1 h) _ b0) as [m1 b1] eqn:E1.
  apply sub_limb_spec in E1 as (E1 & M1 & B1); [|lia..].
  destruct (sub_limb (l2 h) _ b1) as [m2 b2] eqn:E2.
  apply sub_limb_spec in E2 as (E2 & M2 & B2); [|lia..].
  destruct (sub_limb (l3 h) _ b2) as [m3 b3] eqn:E3.
  apply sub_limb_spec in E3 as (E3 & M3 & B3); [|lia..].
  destruct (sub_limb (l4 h) _ b3) as [m4 b4] eqn:E4.
  apply sub_limb_spec in E4 as (E4 & M4 & B4); [|lia..].
  rewrite !select_spec by (unfold in_width; lia).
  assert (feval h - P = m0 + 2 ^ 51 * m1 + 2 ^ 102 * m2 + 2 ^ 153 * m3 + 2 ^ 204 * m4 - 2 ^ 255 * b4) as Es
    by (unfold feval, P; lia).
  assert (0 <= feval h < 2 ^ 255) as Hv by (unfold feval; lia).
  destruct (Z.eqb_spec b4 1) as [Eb|Eb].
  - split; [unfold below; cbn [l0 l1 l2 l3 l4]; lia|]. destruct h. cbn [l0 l1 l2 l3 l4] in *.
    rewrite Z.mod_small; [done|]. split; [lia|]. lia.
  - replace b4 with 0 in * by lia. split; [unfold below; cbn [l0 l1 l2 l3 l4]; lia|].
    unfold feval at 1. cbn [l0 l1 l2 l3 l4].
    rewrite <- (Z_mod_plus_full (feval h) (-1)), Z.mod_small; [lia|]. unfold P in *. lia.
Qed.

(** Octets of a shifted limb. *)
Lemma octet_step x s s' : 0 <= s -> s' = s + 8 ->
  Z.shiftr x s = u8 (Z.shiftr x s) + 256 * Z.shiftr x s'.
Proof.
  intros Hs ->. rewrite <- (Z.shiftr_shiftr x s 8) by lia. rewrite (Z.shiftr_div_pow2 _ 8) by lia.
  unfold u8. change (2 ^ 8) with 256. pose proof (Z.div_mod (Z.shiftr x s) 256 ltac:(lia)). lia.
Qed.

(** A byte that straddles two limbs. *)
Lemma octet_mix x s y k k' : 0 <= s -> 0 <= k <= 8 -> 0 <= Z.shiftr x s < 2 ^ k -> k' = 8 - k ->
  u8 (Z.lor (Z.shiftr x s) (Z.shiftl y k)) = Z.shiftr x s + 2 ^ k * (y mod 2 ^ k') /\
  y = y mod 2 ^ k' + 2 ^ k' * Z.shiftr y k'.
Proof.
  intros Hs Hk Hx ->. set (a := Z.shiftr x s) in *. clearbody a. split.
  - assert (in_width k a) as Hw by exact Hx.
    assert (Z.lor a (Z.shiftl y k) = a + 2 ^ k * y) as ->.
    { apply lor_shiftl_add; [lia|done]. }
    unfold u8. replace (2 ^ 8) with (2 ^ k * 2 ^ (8 - k)) by (rewrite <- Z.pow_add_r by lia; f_equal; lia).
    rewrite Z.rem_mul_r by (apply Z.pow_nonzero || apply Z.pow_pos_nonneg; lia).
    rewrite Z.mul_comm, Z.mod_add, Z.mod_small, Z.div_add by (lia || (apply Z.pow_nonzero; lia)).
    rewrite (Z.div_small a) by lia. rewrite Z.add_0_l. lia.
  - rewrite Z.shiftr_div_pow2 by lia. pose proof (Z.div_mod y (2 ^ (8 - k))). 
    assert (0 < 2 ^ (8 - k)) by (apply Z.pow_pos_nonneg; lia). lia.
Qed.

Lemma shiftr_bound x s k : 0 <= s -> 0 <= k -> 0 <= x < 2 ^ (s + k) -> 0 <= Z.shiftr x s < 2 ^ k.
Proof.
  intros Hs Hk Hx. rewrite Z.shiftr_div_pow2 by done. assert (0 < 2 ^ s) by (apply Z.pow_pos_nonneg; lia).
  split; [apply Z.div_pos; lia|]. apply Z.div_lt_upper_bound; [lia|]. rewrite <- Z.pow_add_r by lia. lia.
Qed.

Lemma pack_ok o : below (2 ^ 51) o ->
  bytes_ok (pack o) /\ length (pack o) = 32%nat /\ load_le (pack o) = feval o.
Proof.
  intros (H0 & H1 & H2 & H3 & H4).
  assert (bytes_ok (pack o)) as Hok by (unfold pack; repeat constructor; apply u8_width).
  split; [done|]. split; [done|]. unfold pack, feval in *.
  set (a := l0 o) in *. set (b := l1 o) in *. set (c := l2 o) in *. set (d := l3 o) in *.
  set (e := l4 o) in *. clearbody a b c d e.
  rewrite !load_le_cons by apply u8_width. change (load_le []) with 0.
  pose proof (octet_step a 0 8 ltac:(lia) eq_refl) as A0. rewrite Z.shiftr_0_r in A0.
  pose proof (octet_step a 8 16 ltac:(lia) eq_refl) as A1. pose proof (octet_step a 16 24 ltac:(lia) eq_refl) as A2.
  pose proof (octet_step a 24 32 ltac:(lia) eq_refl) as A3. pose proof (octet_step a 32 40 ltac:(lia) eq_refl) as A4.
  pose proof (octet_step a 40 48 ltac:(lia) eq_refl) as A5.
  destruct (octet_mix a 48 b 3 5 ltac:(lia) ltac:(lia) (shiftr_bound a 48 3 ltac:(lia) ltac:(lia) H0)
    eq_refl) as [M1 B0].
  pose proof (octet_step b 5 13 ltac:(lia) eq_refl) as B1. pose proof (octet_step b 13 21 ltac:(lia) eq_refl) as B2.
  pose proof (octet_step b 21 29 ltac:(lia) eq_refl) as B3. pose proof (octet_step b 29 37 ltac:(lia) eq_refl) as B4.
  pose proof (octet_step b 37 45 ltac:(lia) eq_refl) as B5.
  destruct (octet_mix b 45 c 6 2 ltac:(lia) ltac:(lia) (shiftr_bound b 45 6 ltac:(lia) ltac:(lia) H1)
    eq_refl) as [M2 C0].
  pose proof (octet_step c 2 10 ltac:(lia) eq_refl) as C1. pose proof (octet_step c 10 18 ltac:(lia) eq_refl) as C2.
  pose proof (octet_step c 18 26 ltac:(lia) eq_refl) as C3. pose proof (octet_step c 26 34 ltac:(lia) eq_refl) as C4.
  pose proof (octet_step c 34 42 ltac:(lia) eq_refl) as C5. pose proof (octet_step c 42 50 ltac:(lia) eq_refl) as C6.
  destruct (octet_mix c 50 d 1 7 ltac:(lia) ltac:(lia) (shiftr_bound c 50 1 ltac:(lia) ltac:(lia) H2)
    eq_refl) as [M3 D0].
  pose proof (octet_step d 7 15 ltac:(lia) eq_refl) as D1. pose proof (octet_step d 15 23 ltac:(lia) eq_refl) as D2.
  pose proof (octet_step d 23 31 ltac:(lia) eq_refl) as D3. pose proof (octet_step d 31 39 ltac:(lia) eq_refl) as D4.
  pose proof (octet_step d 39 47 ltac:(lia) eq_refl) as D5.
  destruct (octet_mix d 47 e 4 4 ltac:(lia) ltac:(lia) (shiftr_bound d 47 4 ltac:(lia) ltac:(lia) H3)
    eq_refl) as [M4 E0].
  pose proof (octet_step e 4 12 ltac:(lia) eq_refl) as E1. pose proof (octet_step e 12 20 ltac:(lia) eq_refl) as E2.
  pose proof (octet_step e 20 28 ltac:(lia) eq_refl) as E3. pose proof (octet_step e 28 36 ltac:(lia) eq_refl) as E4.
  pose proof (octet_step e 36 44 ltac:(lia) eq_refl) as E5.
  assert (u8 (Z.shiftr e 44) = Z.shiftr e 44) as E6
    by (apply u8_id; pose proof (shiftr_bound e 44 7 ltac:(lia) ltac:(lia) H4); unfold in_width; lia).
  rewrite M1, M2, M3, M4, E6. clear M1 M2 M3 M4 E6 Hok H0 H1 H2 H3 H4. lia.
Qed.

Lemma fe_tobytes_ok h : below kTight h -> fe_tobytes h = store_le 32 (feval h mod P).
Proof.
  intros H. unfold fe_tobytes. destruct (carry3_ok h H) as [Hb He].
  destruct (cond_sub_ok _ Hb) as [Hc Hv]. destruct (pack_ok _ Hc) as (Hok & Hl & Hld).
  rewrite <- (store_load_le _ Hok), Hl, Hld, Hv. by rewrite He.
Qed.

(** Canonical encoding: the output bytes are the little-endian encoding of
    the representative in [0, p) of the field element, for every element with
    nearly reduced limbs. *)
Theorem fe_tobytes_canonical h :
  below kTight h -> fe_tobytes h = store_le 32 (feval h mod P).
Proof. apply fe_tobytes_ok. Qed.

Lemma fe_tobytes_canonical_witness :
  fe_tobytes (mkFe (2 ^ 51 - 1) (2 ^ 51 - 1) (2 ^ 51 - 1) (2 ^ 51 - 1) (2 ^ 51 - 1)) =
  store_le 32 (feval (mkFe (2 ^ 51 - 1) (2 ^ 51 - 1) (2 ^ 51 - 1) (2 ^ 51 - 1) (2 ^ 51 - 1)) mod P).
Proof. apply fe_tobytes_canonical. unfold below, kTight. cbn [l0 l1 l2 l3 l4]. lia. Defined.

(** ** The ladder of RFC 7748 over the integers modulo p *)

Record Spec := mkSpec { sx2 : Z; sz2 : Z; sx3 : Z; sz3 : Z; sswap : bool }.

Definition rfc_step (u k : Z) (s : Spec) (t : nat) : Spec :=
  let kt := Z.testbit k (Z.of_nat t) in
  let sw := xorb (sswap s) kt in
  let '(x2, x3) := if sw then (sx3 s, sx2 s) else (sx2 s, sx3 s) in
  let '(z2, z3) := if sw then (sz3 s, sz2 s) else (sz2 s, sz3 s) in
  let A := (x2 + z2) mod P in
  let AA := (A * A) mod P in
  let B := (x2 - z2) mod P in
  let BB := (B * B) mod P in
  let E := (AA - BB) mod P in
  let C := (x3 + z3) mod P in
  let D := (x3 - z3) mod P in
  let DA := (D * A) mod P in
  let CB := (C * B) mod P in
  mkSpec ((AA * BB) mod P) ((E * (AA + 121665 * E)) mod P)
    (((DA + CB) * (DA + CB)) mod P) ((u * ((DA - CB) * (DA - CB))) mod P) kt.

Definition rfc_x25519 (k u : Z) : Z :=
  let s := foldl (rfc_step u k) (mkSpec 1 0 u 1 false) (rev (seq 0 255)) in
  let x2 := if sswap s then sx3 s else sx2 s in
  let z2 := if sswap s then sz3 s else sz2 s in
  (x2 * z2 ^ (P - 2)) mod P.

(** ** Refinement *)

(** A limb vector with nearly reduced limbs representing [v]. *)
Definition represents (f : Fe) (v : Z) : Prop := below kTight f /\ eqm (feval f) v.

Record refines (s : Ladder) (r : Spec) : Prop := {
  re_x2 : represents (x2 s) (sx2 r); re_z2 : represents (z2 s) (sz2 r);
  re_x3 : represents (x3 s) (sx3 r); re_z3 : represents (z3 s) (sz3 r);
  re_swap : swap s = if sswap r then 1 else 0 }.

Lemma eqm_mod a : eqm (a mod P) a.
Proof. unfold eqm. apply Z.mod_mod. done. Qed.

(** Loose representation: operands of a product. *)
Definition represents' (f : Fe) (v : Z) : Prop := below kLoose f /\ eqm (feval f) v.

Lemma rep_loose f v : represents f v -> represents' f v.
Proof. intros [H E]. split; [by apply tight_loose|done]. Qed.

Lemma rep_mul f g a b : represents' f a -> represents' g b -> represents (fe_mul f g) (a * b).
Proof.
  intros [Bf Ef] [Bg Eg]. destruct (fe_mul_ok f g Bf Bg) as [HB HE]. split; [done|].
  by rewrite HE, Ef, Eg.
Qed.

Lemma rep_add f g a b : represents f a -> represents g b -> represents' (fe_add f g) (a + b).
Proof.
  intros [Bf Ef] [Bg Eg]. destruct (fe_add_ok f g Bf Bg) as [HB HE]. split; [done|].
  by rewrite HE, Ef, Eg.
Qed.

Lemma rep_sub f g a b : represents f a -> represents g b -> represents' (fe_sub f g) (a - b).
Proof.
  intros [Bf Ef] [Bg Eg]. destruct (fe_sub_ok f g Bf Bg) as [HB HE]. split; [done|].
  by rewrite HE, Ef, Eg.
Qed.

Lemma rep_scalar f a : represents' f a -> represents (fe_mul_scalar f 121665) (121665 * a).
Proof.
  intros [Bf Ef]. destruct (fe_mul_scalar_ok f 121665 Bf) as [HB HE]; [lia|]. split; [done|].
  by rewrite HE, Ef.
Qed.

Lemma rep_mod f a : represents f a -> represents f (a mod P).
Proof. intros [B E]. split; [done|]. by rewrite eqm_mod. Qed.

Lemma rep_mod' f a : represents' f a -> represents' f (a mod P).
Proof. intros [B E]. split; [done|]. by rewrite eqm_mod. Qed.

Lemma rep_cswap b f g u v : represents f u -> represents g v ->
  exists f' g', fe_cswap f g (if b : bool then 1 else 0) = (f', g') /\
    represents f' (if b then v else u) /\ represents g' (if b then u else v).
Proof.
  intros Hf Hg. rewrite fe_cswap_ok by (apply Hf || apply Hg). destruct b; by eexists _, _.
Qed.

Lemma key_bit_spec e t : bytes_ok e ->
  key_bit e t = if Z.testbit (load_le e) (Z.of_nat t) then 1 else 0.
Proof.
  intros He. unfold key_bit. rewrite testbit_load_le by (done || lia).
  change 8 with (Z.of_nat 8). rewrite <- Nat2Z.inj_div, <- Nat2Z.inj_mod, Nat2Z.id.
  change 1 with (Z.ones 1) at 1. rewrite Z.land_ones by lia. change (2 ^ 1) with 2.
  rewrite Zmod_odd, <- Z.bit0_odd, Z.shiftr_spec by lia. done.
Qed.

Lemma xor_swap a b : Z.lxor (if a : bool then 1 else 0) (if b : bool then 1 else 0) =
  if xorb a b then 1 else 0.
Proof. by destruct a, b. Qed.

Lemma ladder_refines x1 u e s r t : bytes_ok e -> represents x1 u -> refines s r ->
  refines (ladder_step x1 e s t) (rfc_step u (load_le e) r t).
Proof.
  intros He Hx1 [H2 Hz2 H3 Hz3 Hs]. unfold ladder_step, rfc_step.
  rewrite (key_bit_spec e t He), Hs, xor_swap.
  set (kt := Z.testbit (load_le e) (Z.of_nat t)). set (sw := xorb (sswap r) kt).
  destruct (rep_cswap sw _ _ _ _ H2 H3) as (f2 & f3 & -> & Rf2 & Rf3).
  destruct (rep_cswap sw _ _ _ _ Hz2 Hz3) as (g2 & g3 & -> & Rg2 & Rg3).
  replace (if sw then (sx3 r, sx2 r) else (sx2 r, sx3 r)) with
    ((if sw then sx3 r else sx2 r), (if sw then sx2 r else sx3 r)) by (by destruct sw).
  replace (if sw then (sz3 r, sz2 r) else (sz2 r, sz3 r)) with
    ((if sw then sz3 r else sz2 r), (if sw then sz2 r else sz3 r)) by (by destruct sw).
  generalize dependent (if sw then sx3 r else sx2 r). generalize dependent (if sw then sx2 r else sx3 r).
  generalize dependent (if sw then sz3 r else sz2 r). generalize dependent (if sw then sz2 r else sz3 r).
  intros w3 Rg3 w2 Rg2 v3 Rf3 v2 Rf2.
  pose proof (rep_mod' _ _ (rep_add _ _ _ _ Rf2 Rg2)) as RA.
  pose proof (rep_mod _ _ (rep_mul _ _ _ _ RA RA)) as RAA.
  pose proof (rep_mod' _ _ (rep_sub _ _ _ _ Rf2 Rg2)) as RB.
  pose proof (rep_mod _ _ (rep_mul _ _ _ _ RB RB)) as RBB.
  pose proof (rep_mod' _ _ (rep_sub _ _ _ _ RAA RBB)) as RE.
  pose proof (rep_mod' _ _ (rep_add _ _ _ _ Rf3 Rg3)) as RC.
  pose proof (rep_mod' _ _ (rep_sub _ _ _ _ Rf3 Rg3)) as RD.
  pose proof (rep_mod _ _ (rep_mul _ _ _ _ RD RA)) as RDA.
  pose proof (rep_mod _ _ (rep_mul _ _ _ _ RC RB)) as RCB.
  pose proof (rep_add _ _ _ _ RDA RCB) as RS. pose proof (rep_sub _ _ _ _ RDA RCB) as RT.
  split; cbn [x2 z2 x3 z3 swap sx2 sz2 sx3 sz3 sswap].
  - apply rep_mod, rep_mul; by apply rep_loose.
  - apply rep_mod, rep_mul; [done|]. apply rep_add; [done|]. by apply rep_scalar.
  - apply rep_mod. by apply rep_mul.
  - apply rep_mod, rep_mul; [by apply rep_loose|]. apply rep_loose. by apply rep_mul.
  - done.
Qed.

Lemma ladder_run_refines x1 u e ts s r : bytes_ok e -> represents x1 u -> refines s r ->
  refines (foldl (ladder_step x1 e) s ts) (foldl (rfc_step u (load_le e)) r ts).
Proof.
  intros He Hx. revert s r. induction ts as [|t ts IH]; intros s r H; simpl; [done|].
  by apply IH, ladder_refines.
Qed.

Lemma clamp_ok k : bytes_ok k -> bytes_ok (clamp k).
Proof.
  intros H. unfold clamp.
  assert (bytes_ok (<[0%nat := Z.land (byte_at k 0) 248]> k)) as H1.
  { apply Forall_insert; [done|]. apply land_width_l; [lia|by apply byte_at_width|lia]. }
  apply Forall_insert; [done|]. apply lor_width; [lia| |eval_decide].
  apply land_width_l; [lia|by apply byte_at_width|lia].
Qed.

Lemma foldl_lor_0 l d : Forall (fun x => 0 <= x) l -> 0 <= d ->
  foldl Z.lor d l = 0 <-> d = 0 /\ Forall (fun x => x = 0) l.
Proof.
  intros Hl. revert d. induction Hl as [|x l Hx Hl IH]; intros d Hd; simpl.
  - split; [by intros ->|tauto].
  - specialize (IH (Z.lor d x) ltac:(apply Z.lor_nonneg; lia)). rewrite Forall_cons_iff.
    rewrite Z.lor_eq_0_iff in IH. tauto.
Qed.

Lemma store_le_zero n v : Forall (fun x => x = 0) (store_le n v) <-> v mod 2 ^ (8 * Z.of_nat n) = 0.
Proof.
  split.
  - intros H. rewrite <- load_store_le. revert H. generalize (store_le n v). intros l.
    induction 1 as [|x l -> _ IH]; simpl; [done|]. by rewrite IH.
  - intros H. assert (store_le n v = store_le n 0) as ->.
    { apply load_le_inj; [apply store_le_ok..|by rewrite !length_store_le|].
      by rewrite !load_store_le, H, Z.mod_0_l by (apply Z.pow_nonzero; lia). }
    clear. induction n as [|n IH]; simpl; constructor; [done|]. apply IH.
Qed.

(** C14. X25519: for all 32-byte keys, the limb implementation returns the
    little-endian encoding of the RFC 7748 ladder over the integers modulo
    2^255 - 19, applied to the clamped scalar and the masked u-coordinate, and
    reports failure exactly when that result is zero. *)
Theorem x25519_correct sk pk : bytes_ok sk -> bytes_ok pk ->
  let R := rfc_x25519 (load_le (clamp sk)) (load_le pk mod 2 ^ 255) in
  x25519 sk pk = (store_le 32 R, negb (R =? 0)).
Proof.
  intros Hsk Hpk R. unfold x25519.
  destruct (fe_frombytes_ok pk Hpk) as [Bx Ex]. set (x1 := fe_frombytes pk) in *.
  assert (represents x1 (load_le pk mod 2 ^ 255)) as Rx by (split; [done|]; by rewrite Ex).
  assert (below kTight fe_one /\ below kTight fe_zero) as [B1 B0]
    by (unfold below, kTight, fe_one, fe_zero; cbn [l0 l1 l2 l3 l4]; lia).
  assert (refines (mkLadder fe_one fe_zero x1 fe_one 0) (mkSpec 1 0 (load_le pk mod 2 ^ 255) 1 false)) as Hinit.
  { split; cbn [x2 z2 x3 z3 swap sx2 sz2 sx3 sz3 sswap]; done. }
  pose proof (ladder_run_refines x1 _ (clamp sk) (rev (seq 0 255)) _ _ (clamp_ok sk Hsk) Rx Hinit) as Hr.
  unfold rfc_x25519 in R. revert R.
  generalize dependent (foldl (ladder_step x1 (clamp sk)) (mkLadder fe_one fe_zero x1 fe_one 0) (rev (seq 0 255))).
  generalize (foldl (rfc_step (load_le pk mod 2 ^ 255) (load_le (clamp sk)))
    (mkSpec 1 0 (load_le pk mod 2 ^ 255) 1 false) (rev (seq 0 255))).
  intros r s [H2 Hz2 H3 Hz3 Hs] R. rewrite Hs.
  destruct (rep_cswap (sswap r) _ _ _ _ H2 H3) as (f2 & f3 & -> & Rf2 & _).
  destruct (rep_cswap (sswap r) _ _ _ _ Hz2 Hz3) as (g2 & g3 & -> & [Bg Eg] & _).
  destruct (fe_inv_ok g2 Bg) as (_ & Bi & Ei).
  assert (represents' (fe_inv g2) ((if sswap r then sz3 r else sz2 r) ^ (P - 2))) as Ri.
  { split; [by apply tight_loose|]. rewrite Ei. by apply eqm_pow. }
  destruct (rep_mul _ _ _ _ (rep_loose _ _ Rf2) Ri) as [Bm Em].
  rewrite (fe_tobytes_ok _ Bm), Em. fold R. f_equal.
  assert (0 <= R < 2 ^ 256) as HR.
  { pose proof (Z.mod_pos_bound ((if sswap r then sx3 r else sx2 r) *
      (if sswap r then sz3 r else sz2 r) ^ (P - 2)) P P_pos) as Hb. fold R in Hb. unfold P in Hb. lia. }
  f_equal. apply eq_true_iff_eq. rewrite !Z.eqb_eq.
  rewrite foldl_lor_0; [|eapply List.Forall_impl, store_le_ok; by intros x [? _]|lia].
  rewrite store_le_zero. change (8 * Z.of_nat 32) with 256. rewrite (Z.mod_small R) by done. tauto.
Qed.

Lemma x25519_correct_witness :
  x25519 (replicate 32 1) (9 :: replicate 31 0) =
  (let R := rfc_x25519 (load_le (clamp (replicate 32 1))) (load_le (9 :: replicate 31 0) mod 2 ^ 255) in
   (store_le 32 R, negb (R =? 0))).
Proof. apply x25519_correct; eval_decide. Defined.

End X25519.
