(* ===== verification/BlockingQueue.v ===== *)
(** * Bounded blocking queue (tight/include/tight/blocking_queue.hpp)

    The queue between the reactor, the encoder and the sender: a singly linked
    list of heap nodes with head and tail pointers, whose removed nodes go to a
    free list of at most 64 nodes. The model keeps the heap of nodes and the
    pointers; an access through a null or freed pointer is a [Fault]. Every
    operation runs under the queue's mutex, so it is one atomic step; a wait on
    a condition variable is a step that is not enabled ([Blocked]).

    The queue refines a bounded FIFO; [QueueOps] and [QueueLaws] state what it
    promises to the transport. *)
From stdpp Require Import base list numbers option sets gmap infinite.
From Stdlib Require Import ZArith Lia.
From S2P Require Import Prelude.

Local Open Scope Z_scope.

(** ** The promise: a bounded FIFO *)

Record fifo (T : Type) := mkFifo { cap : Z; items : list T; closed : bool }.
Arguments mkFifo {_} _ _ _.
Arguments cap {_} _.
Arguments items {_} _.
Arguments closed {_} _.

Definition full {T} (f : fifo T) : bool := (0 <? cap f) && (cap f <=? Z.of_nat (length (items f))).
Definition set_items {T} (l : list T) (f : fifo T) : fifo T := mkFifo (cap f) l (closed f).

(** Appending to a FIFO that is neither closed nor full. *)
Definition offer {T} (x : T) (f : fifo T) : fifo T * bool :=
  if closed f || full f then (f, false) else (set_items (items f ++ [x]) f, true).

Definition next_item {T} (f : fifo T) : fifo T * option T :=
  match items f with [] => (f, None) | x :: l => (set_items l f, Some x) end.

(** Operations of a queue that its clients use without waiting. *)
Class QueueOps (Q : Type -> Type) := {
  q_new : forall {T}, Z -> Q T;
  q_try_push : forall {T}, Q T -> T -> res (Q T * bool);
  q_poll : forall {T}, Q T -> res (Q T * option T);
  q_close : forall {T}, Q T -> Q T;
  q_holds : forall {T}, Q T -> fifo T -> Prop }.

(** What they promise: the queue always holds the items a FIFO would. *)
Class QueueLaws (Q : Type -> Type) {ops : QueueOps Q} := {
  q_new_law : forall {T} c, 0 <= c -> q_holds (q_new (T := T) c) (mkFifo c [] false);
  q_try_push_law : forall {T} (q : Q T) f x, q_holds q f -> Z.of_nat (length (items f)) < 2 ^ 64 - 1 ->
    exists q', q_try_push q x = Ok (q', (offer x f).2) /\ q_holds q' (offer x f).1;
  q_poll_law : forall {T} (q : Q T) f, q_holds q f ->
    exists q', q_poll q = Ok (q', (next_item f).2) /\ q_holds q' (next_item f).1;
  q_close_law : forall {T} (q : Q T) f, q_holds q f ->
    q_holds (q_close q) (mkFifo (cap f) (items f) true) }.

Module BlockingQueue.

Section Queue.
Context {T : Type}.

Record Node := mkNode { item : option T; next : option nat }.

Record queue := mkQueue {
  m_capacity : Z;
  m_size : Z;
  m_head : option nat;
  m_tail : option nat;
  m_free_nodes : option nat;
  m_free_count : Z;
  m_closed : bool;
  heap : gmap nat Node }.

Definition new (capacity : Z) : queue := mkQueue capacity 0 None None None 0 false ∅.

(** [*p]. *)
Definition deref (h : gmap nat Node) (p : option nat) : res (nat * Node) :=
  match p with
  | None => Fault BadPointer
  | Some a => match h !! a with Some n => Ok (a, n) | None => Fault BadPointer end
  end.

Definition obtain_node_locked (q : queue) : res (queue * nat) :=
  match m_free_nodes q with
  | Some _ =>
      '(a, node) ← deref (heap q) (m_free_nodes q);
      Ok (mkQueue (m_capacity q) (m_size q) (m_head q) (m_tail q) (next node)
            (u64 (m_free_count q - 1)) (m_closed q) (<[a := mkNode (item node) None]> (heap q)), a)
  | None =>
      let a := fresh (dom (heap q)) in
      Ok (mkQueue (m_capacity q) (m_size q) (m_head q) (m_tail q) (m_free_nodes q)
            (m_free_count q) (m_closed q) (<[a := mkNode None None]> (heap q)), a)
  end.

(** [node->item.emplace(std::move(item))]. *)
Definition emplace (a : nat) (x : T) (q : queue) : res queue :=
  '(a, node) ← deref (heap q) (Some a);
  Ok (mkQueue (m_capacity q) (m_size q) (m_head q) (m_tail q) (m_free_nodes q) (m_free_count q)
        (m_closed q) (<[a := mkNode (Some x) (next node)]> (heap q))).

Definition recycle_node_locked (a : nat) (q : queue) : res queue :=
  '(a, node) ← deref (heap q) (Some a);
  Ok (if m_free_count q <? 64
      then mkQueue (m_capacity q) (m_size q) (m_head q) (m_tail q) (Some a)
             (u64 (m_free_count q + 1)) (m_closed q)
             (<[a := mkNode None (m_free_nodes q)]> (heap q))
      else mkQueue (m_capacity q) (m_size q) (m_head q) (m_tail q) (m_free_nodes q)
             (m_free_count q) (m_closed q) (delete a (heap q))).

Definition link_tail (a : nat) (q : queue) : res queue :=
  match m_tail q with
  | Some _ =>
      '(t, tn) ← deref (heap q) (m_tail q);
      Ok (mkQueue (m_capacity q) (u64 (m_size q + 1)) (m_head q) (Some a) (m_free_nodes q)
            (m_free_count q) (m_closed q) (<[t := mkNode (item tn) (Some a)]> (heap q)))
  | None =>
      Ok (mkQueue (m_capacity q) (u64 (m_size q + 1)) (Some a) (Some a) (m_free_nodes q)
            (m_free_count q) (m_closed q) (heap q))
  end.

Definition unlink_head_locked (q : queue) : res (queue * option T) :=
  '(a, node) ← deref (heap q) (m_head q);
  let q := mkQueue (m_capacity q) (u64 (m_size q - 1)) (next node)
             (match next node with None => None | Some _ => m_tail q end) (m_free_nodes q)
             (m_free_count q) (m_closed q) (heap q) in
  match item node with
  | None => Fault BadPointer
  | Some x => q ← recycle_node_locked a q; Ok (q, Some x)
  end.

(** The node is obtained, filled and linked at the tail. *)
Definition append (q : queue) (x : T) : res queue :=
  '(q, a) ← obtain_node_locked q;
  q ← emplace a x q;
  link_tail a q.

Definition over (q : queue) : bool := (0 <? m_capacity q) && (m_capacity q <=? m_size q).

(** Outcome of a call: [Blocked] when it has to wait. *)
Inductive outcome :=
  | Blocked
  | Accepted (b : bool)
  | Taken (o : option T)
  | Done
  | Count (n : Z)
  | IsClosed (b : bool).

Definition push (q : queue) (x : T) : res (queue * outcome) :=
  if m_closed q then Ok (q, Accepted false) else
  if over q then Ok (q, Blocked) else
  q ← append q x; Ok (q, Accepted true).

Definition try_push (q : queue) (x : T) : res (queue * bool) :=
  if m_closed q || over q then Ok (q, false) else
  q ← append q x; Ok (q, true).

Definition take (q : queue) : res (queue * outcome) :=
  if (m_size q =? 0) && negb (m_closed q) then Ok (q, Blocked) else
  if m_closed q && (m_size q =? 0) then Ok (q, Taken None) else
  '(q, o) ← unlink_head_locked q; Ok (q, Taken o).

(** [timeout] elapsed when the predicate is still false. *)
Definition take_for (q : queue) : res (queue * option T) :=
  if ((m_size q =? 0) && negb (m_closed q)) || (m_closed q && (m_size q =? 0)) then Ok (q, None) else
  unlink_head_locked q.

Definition poll (q : queue) : res (queue * option T) :=
  if m_size q =? 0 then Ok (q, None) else unlink_head_locked q.

Definition close (q : queue) : queue :=
  mkQueue (m_capacity q) (m_size q) (m_head q) (m_tail q) (m_free_nodes q) (m_free_count q) true (heap q).

Definition is_closed (q : queue) : bool := m_closed q.
Definition size (q : queue) : Z := m_size q.

(** The destructor's walk; [fuel] bounds the number of nodes. *)
Fixpoint drain_list (fuel : nat) (h : gmap nat Node) (p : option nat) : res (gmap nat Node) :=
  match p, fuel with
  | None, _ => Ok h
  | Some _, O => Fault BadPointer
  | Some _, S fuel => '(a, n) ← deref h p; drain_list fuel (delete a h) (next n)
  end.

Definition destroy (q : queue) : res (gmap nat Node) :=
  h ← drain_list (S (base.size (heap q))) (heap q) (m_head q);
  drain_list (S (base.size (heap q))) h (m_free_nodes q).


(** ** Representation *)

(** The nodes reached from [p] in heap [h], with their contents. *)
Fixpoint chain (h : gmap nat Node) (p : option nat) (l : list (nat * option T)) : Prop :=
  match l with
  | [] => p = None
  | (a, x) :: l => p = Some a /\ exists nx, h !! a = Some (mkNode x nx) /\ chain h nx l
  end.

Definition full_nodes (ps : list nat) (l : list T) : list (nat * option T) := zip ps (Some <$> l).
Definition empty_nodes (fs : list nat) : list (nat * option T) := (fun a => (a, None)) <$> fs.

(** The queue holds the items [l]: [ps] are the linked nodes, [fs] the free
    ones, [ex] nodes detached by the operation under way, and the heap has no
    other node (nothing leaks). *)
Record layout (q : queue) (l : list T) (ps fs ex : list nat) : Prop := {
  lay_len : length ps = length l;
  lay_head : chain (heap q) (m_head q) (full_nodes ps l);
  lay_tail : m_tail q = last ps;
  lay_free : chain (heap q) (m_free_nodes q) (empty_nodes fs);
  lay_nodup : NoDup (ps ++ fs ++ ex);
  lay_dom : forall a, is_Some (heap q !! a) <-> a ∈ ps ++ fs ++ ex;
  lay_size : m_size q = Z.of_nat (length l);
  lay_count : m_free_count q = Z.of_nat (length fs);
  lay_free_max : (length fs <= 64)%nat;
  lay_bound : Z.of_nat (length l) < 2 ^ 64 }.

Definition represents (q : queue) (f : fifo T) : Prop :=
  m_capacity q = cap f /\ m_closed q = closed f /\ exists ps fs, layout q (items f) ps fs [].

(** Operations leave capacity and the closed flag alone. *)
Definition same_guard (q q' : queue) : Prop :=
  m_capacity q' = m_capacity q /\ m_closed q' = m_closed q.

Lemma chain_frame h h' p l :
  (forall a, a ∈ l.*1 -> h' !! a = h !! a) -> chain h p l -> chain h' p l.
Proof.
  revert p. induction l as [|[a x] l IH]; intros p Hf H; simpl in *; [done|].
  destruct H as [-> (nx & Ha & H)]. split; [done|]. exists nx. split.
  - rewrite Hf; [done|set_solver].
  - apply IH; [|done]. intros b Hb. apply Hf. set_solver.
Qed.

Lemma full_nodes_fst ps l : length ps = length l -> (full_nodes ps l).*1 = ps.
Proof. intros H. unfold full_nodes. apply fst_zip. rewrite length_fmap. lia. Qed.

Lemma empty_nodes_fst fs : (empty_nodes fs).*1 = fs.
Proof. unfold empty_nodes. rewrite <- list_fmap_compose. apply list_fmap_id. Qed.

(** Relinking the last node of a chain to a node outside it. *)
Lemma chain_snoc h p l t x a y :
  chain h p (l ++ [(t, x)]) -> NoDup ((l ++ [(t, x)]).*1) -> a ∉ (l ++ [(t, x)]).*1 ->
  h !! a = Some (mkNode y None) ->
  chain (<[t := mkNode x (Some a)]> h) p (l ++ [(t, x); (a, y)]).
Proof.
  revert p. induction l as [|[b z] l IH]; intros p H Hnd Ha Hy; simpl in *.
  - destruct H as [-> _]. split; [done|]. exists (Some a). rewrite lookup_insert_eq.
    split; [done|]. split; [done|]. exists None. rewrite lookup_insert_ne by set_solver. done.
  - destruct H as [-> (nx & Hb & H)]. apply NoDup_cons in Hnd as [Hb' Hnd]. split; [done|].
    exists nx. rewrite fmap_app in Hb'. rewrite lookup_insert_ne by set_solver.
    split; [done|]. apply IH; [done|done| |done]. by apply not_elem_of_cons in Ha as [_ Ha].
Qed.

Lemma chain_last h p l t x : chain h p (l ++ [(t, x)]) -> exists nx, h !! t = Some (mkNode x nx).
Proof.
  revert p. induction l as [|[b z] l IH]; intros p H; simpl in *.
  - destruct H as [_ (nx & H & _)]. eauto.
  - destruct H as [_ (nx & _ & H)]. eauto.
Qed.

Lemma layout_new c : layout (new c) [] [] [] [].
Proof.
  split; simpl; try done; try lia; [constructor|].
  intros a. rewrite lookup_empty. split; [by intros []|]. intros H. by apply not_elem_of_nil in H.
Qed.

Lemma layout_fresh q l ps fs ex a : layout q l ps fs ex -> a ∉ ps ++ fs ++ ex <-> heap q !! a = None.
Proof. intros H. rewrite <- (lay_dom _ _ _ _ _ H), <- eq_None_not_Some. done. Qed.

Lemma layout_outside q l ps fs ex a : layout q l ps fs (a :: ex) ->
  a ∉ (full_nodes ps l).*1 /\ a ∉ (empty_nodes fs).*1.
Proof.
  intros L. rewrite full_nodes_fst, empty_nodes_fst by apply L.
  pose proof (lay_nodup _ _ _ _ _ L) as Hnd. apply NoDup_app in Hnd as (_ & H1 & H2).
  apply NoDup_app in H2 as (_ & H2 & _). split; intros Hin.
  - apply (H1 a Hin). rewrite elem_of_app. right. left.
  - apply (H2 a Hin). left.
Qed.

Lemma chain_insert h p l a n : a ∉ l.*1 -> chain h p l -> chain (<[a := n]> h) p l.
Proof. intros Ha. apply chain_frame. intros b Hb. apply lookup_insert_ne. by intros ->. Qed.

Lemma chain_delete h p l a : a ∉ l.*1 -> chain h p l -> chain (delete a h) p l.
Proof. intros Ha. apply chain_frame. intros b Hb. apply lookup_delete_ne. by intros ->. Qed.

(** Writing to a detached node. *)
Lemma layout_detached q l ps fs a n : layout q l ps fs [a] ->
  layout (mkQueue (m_capacity q) (m_size q) (m_head q) (m_tail q) (m_free_nodes q)
            (m_free_count q) (m_closed q) (<[a := n]> (heap q))) l ps fs [a].
Proof.
  intros L. pose proof (layout_outside _ _ _ _ _ _ L) as [H1 H2].
  destruct L. split; simpl; try done; [by apply chain_insert..|].
  intros b. rewrite lookup_insert_is_Some', lay_dom0. split; [|by auto].
  intros [<-|]; [set_solver|done].
Qed.

(** A new node starts detached. *)
Lemma layout_insert q l ps fs a n : layout q l ps fs [] -> a ∉ ps ++ fs ++ [] ->
  layout (mkQueue (m_capacity q) (m_size q) (m_head q) (m_tail q) (m_free_nodes q)
            (m_free_count q) (m_closed q) (<[a := n]> (heap q))) l ps fs [a].
Proof.
  intros L. rewrite app_nil_r. intros Ha. destruct L. rewrite app_nil_r in *.
  apply not_elem_of_app in Ha as [H1 H2].
  split; simpl; try done.
  - apply chain_insert; [|done]. by rewrite full_nodes_fst.
  - apply chain_insert; [|done]. by rewrite empty_nodes_fst.
  - rewrite app_assoc. apply NoDup_app. split; [done|]. split; [|apply NoDup_singleton].
    intros b Hb. rewrite list_elem_of_singleton. intros ->. apply elem_of_app in Hb as []; done.
  - intros b. rewrite lookup_insert_is_Some', lay_dom0. set_solver.
Qed.

(** The first free node, or a new one, is detached. *)
Lemma obtain_layout q l ps fs : layout q l ps fs [] ->
  exists q' a fs', obtain_node_locked q = Ok (q', a) /\ layout q' l ps fs' [a] /\
    heap q' !! a = Some (mkNode None None) /\ same_guard q q'.
Proof.
  intros L. unfold obtain_node_locked. pose proof (lay_free _ _ _ _ _ L) as Hf.
  pose proof (lay_count _ _ _ _ _ L) as Hc. pose proof (lay_free_max _ _ _ _ _ L) as Hm.
  pose proof (lay_nodup _ _ _ _ _ L) as Hnd.
  destruct fs as [|a fs]; simpl in Hf.
  - rewrite Hf. set (a := fresh (dom (heap q))).
    assert (heap q !! a = None) as Ha by (apply not_elem_of_dom, is_fresh).
    eexists _, a, []. split; [done|]. split; [|split; [apply lookup_insert_eq|done]].
    rewrite <- Hf. apply (layout_insert _ _ _ _ _ _ L). by apply (layout_fresh _ _ _ _ _ _ L).
  - destruct Hf as [-> (nx & Ha & Hf)]. simpl. rewrite Ha. simpl. eexists _, a, fs.
    split; [done|]. split; [|split; [apply lookup_insert_eq|done]]. simpl in Hc, Hm.
    assert (ps ++ (a :: fs) ++ [] ≡ₚ ps ++ fs ++ [a]) as HP.
    { rewrite app_nil_r. by rewrite (Permutation_cons_append fs a). }
    destruct L. split; simpl; try done.
    + eapply chain_frame; [|done]. rewrite full_nodes_fst by done. intros b Hb.
      apply lookup_insert_ne. intros <-. apply NoDup_app in Hnd as (_ & Hd & _).
      apply (Hd a Hb). by left.
    + eapply chain_frame; [|done]. rewrite empty_nodes_fst. intros b Hb.
      apply lookup_insert_ne. intros <-. apply NoDup_app in Hnd as (_ & _ & Hn).
      simpl in Hn. apply NoDup_cons in Hn as [Hn _]. rewrite app_nil_r in Hn. by apply Hn.
    + by rewrite <- HP.
    + intros b. rewrite <- HP, <- lay_dom0, lookup_insert_is_Some'. split; [|by auto].
      intros [<-|]; [by rewrite Ha|done].
    + rewrite Hc, u64_id; unfold in_width; lia.
    + lia.
Qed.

(** Filling a detached node. *)
Lemma emplace_layout q l ps fs a n x : layout q l ps fs [a] -> heap q !! a = Some n ->
  exists q', emplace a x q = Ok q' /\ layout q' l ps fs [a] /\
    heap q' !! a = Some (mkNode (Some x) (next n)) /\ same_guard q q'.
Proof.
  intros L Ha. unfold emplace, deref. rewrite Ha. simpl. eexists. split; [done|].
  split; [|split; [apply lookup_insert_eq|done]]. by apply layout_detached.
Qed.

(** Linking a detached node at the tail. *)
Lemma link_layout q l ps fs a x : layout q l ps fs [a] -> heap q !! a = Some (mkNode (Some x) None) ->
  Z.of_nat (length l) < 2 ^ 64 - 1 ->
  exists q', link_tail a q = Ok q' /\ layout q' (l ++ [x]) (ps ++ [a]) fs [] /\ same_guard q q'.
Proof.
  intros L Ha Hb. unfold link_tail. pose proof (lay_tail _ _ _ _ _ L) as Ht.
  pose proof (lay_nodup _ _ _ _ _ L) as Hnd. pose proof (lay_len _ _ _ _ _ L) as Hlen.
  pose proof (lay_head _ _ _ _ _ L) as Hh.
  assert (ps ++ fs ++ [a] ≡ₚ (ps ++ [a]) ++ fs ++ []) as HP.
  { rewrite app_nil_r, <- app_assoc. by rewrite (Permutation_app_comm fs [a]). }
  assert (u64 (m_size q + 1) = Z.of_nat (length (l ++ [x]))) as Hs.
  { rewrite (lay_size _ _ _ _ _ L), length_app. simpl. rewrite u64_id; unfold in_width; lia. }
  destruct ps as [|t ps' _] using rev_ind.
  - simpl in Ht. rewrite Ht. destruct l; [|done]. eexists. split; [done|]. split; [|done].
    destruct L. split; simpl in *; try done; [|by rewrite <- HP|by setoid_rewrite <- HP].
    eauto.
  - rewrite last_snoc in Ht. rewrite Ht.
    destruct l as [|y l' _] using rev_ind; [rewrite length_app in Hlen; simpl in Hlen; lia|].
    rewrite !length_app in Hlen. simpl in Hlen.
    assert (full_nodes (ps' ++ [t]) (l' ++ [y]) = full_nodes ps' l' ++ [(t, Some y)]) as Efn.
    { unfold full_nodes. rewrite fmap_app, zip_with_app by (rewrite length_fmap; lia). done. }
    rewrite Efn in Hh. pose proof (chain_last _ _ _ _ _ Hh) as [nt Hnt].
    simpl. rewrite Hnt. simpl. eexists. split; [done|]. split; [|done].
    assert (NoDup (ps' ++ [t]) /\ a ∉ ps' ++ [t] /\ t ∉ fs) as (Nd & Na & Nt).
    { apply NoDup_app in Hnd as (N1 & N2 & N3). split; [done|]. split.
      - intros Hin. apply (N2 a Hin). set_solver.
      - intros Hin. apply (N2 t); set_solver. }
    assert (((full_nodes ps' l' ++ [(t, Some y)]).*1) = ps' ++ [t]) as Ef
      by (rewrite fmap_app, full_nodes_fst by lia; done).
    destruct L. split; simpl in *; try done.
    + rewrite !length_app. simpl. lia.
    + replace (full_nodes ((ps' ++ [t]) ++ [a]) ((l' ++ [y]) ++ [x]))
        with (full_nodes ps' l' ++ [(t, Some y); (a, Some x)]).
      { by apply chain_snoc; rewrite ?Ef. }
      unfold full_nodes. rewrite <- !app_assoc, !fmap_app, zip_with_app by (rewrite length_fmap; lia). done.
    + by rewrite last_snoc.
    + eapply chain_frame; [|done]. rewrite empty_nodes_fst. intros b Hb'.
      apply lookup_insert_ne. by intros ->.
    + by rewrite <- HP.
    + intros b. rewrite <- HP, <- lay_dom0, lookup_insert_is_Some'. split; [|by auto].
      intros [<-|]; [by rewrite Hnt|done].
    + rewrite length_app. simpl. lia.
Qed.

(** Returning a detached node: to the free list, or to the allocator. *)
Lemma recycle_layout q l ps fs a : layout q l ps fs [a] ->
  exists q' fs', recycle_node_locked a q = Ok q' /\ layout q' l ps fs' [] /\ same_guard q q'.
Proof.
  intros L. pose proof (layout_outside _ _ _ _ _ _ L) as [H1 H2].
  destruct (proj2 (lay_dom _ _ _ _ _ L a)) as [n Ha]; [set_solver|].
  unfold recycle_node_locked, deref. rewrite Ha. cbn [mbind res_bind].
  pose proof (lay_count _ _ _ _ _ L) as Hc. rewrite Hc.
  assert (ps ++ fs ++ [a] ≡ₚ ps ++ (a :: fs) ++ []) as HP.
  { rewrite app_nil_r. by rewrite (Permutation_cons_append fs a). }
  destruct (Z.ltb_spec (Z.of_nat (length fs)) 64) as [Hlt|Hge].
  - eexists _, (a :: fs). split; [done|]. split; [|done]. destruct L. split; simpl; try done.
    + by apply chain_insert.
    + split; [done|]. exists (m_free_nodes q). rewrite lookup_insert_eq. split; [done|]. by apply chain_insert.
    + by rewrite HP in lay_nodup0.
    + intros b. rewrite lookup_insert_is_Some', lay_dom0, HP. split; [|by auto].
      intros [<-|]; [set_solver|done].
    + rewrite u64_id; unfold in_width; lia.
    + lia.
  - eexists _, fs. split; [done|]. split; [|done]. destruct L. rewrite app_assoc in *.
    split; simpl; rewrite ?app_nil_r; try done; [by apply chain_delete..| |].
    + by apply NoDup_app in lay_nodup0 as (? & _).
    + intros b. rewrite lookup_delete_is_Some, lay_dom0.
      apply NoDup_app in lay_nodup0 as (_ & Hd & _). set_solver.
Qed.

(** Removing the head. *)
Lemma unlink_layout q x l ps fs : layout q (x :: l) ps fs [] ->
  exists q' ps' fs', unlink_head_locked q = Ok (q', Some x) /\ layout q' l ps' fs' [] /\ same_guard q q'.
Proof.
  intros L. pose proof (lay_len _ _ _ _ _ L) as Hlen. destruct ps as [|a ps]; [done|].
  pose proof (lay_head _ _ _ _ _ L) as [Hh (nx & Ha & Hc)].
  unfold unlink_head_locked, deref. rewrite Hh, Ha. cbn [mbind res_bind item next].
  set (q1 := mkQueue _ _ _ _ _ _ _ _).
  assert (layout q1 l ps fs [a]) as L1.
  { assert ((a :: ps) ++ fs ++ [] ≡ₚ ps ++ fs ++ [a]) as HP.
    { simpl. rewrite app_nil_r, app_assoc. apply Permutation_cons_append. }
    destruct L. split; simpl in *; try done; try lia.
    - destruct nx as [b|].
      + rewrite lay_tail0. destruct ps; [|done]. destruct l; done.
      + destruct ps; [done|]. destruct l; [done|]. by destruct Hc as [? _].
    - by rewrite HP in lay_nodup0.
    - intros b. by rewrite lay_dom0, HP.
    - rewrite lay_size0, u64_id; unfold in_width; lia. }
  destruct (recycle_layout _ _ _ _ _ L1) as (q' & fs' & -> & L' & G).
  cbn [mbind res_bind]. by eexists _, _, _.
Qed.

Lemma append_layout q l ps fs x : layout q l ps fs [] -> Z.of_nat (length l) < 2 ^ 64 - 1 ->
  exists q' ps' fs', append q x = Ok q' /\ layout q' (l ++ [x]) ps' fs' [] /\ same_guard q q'.
Proof.
  intros L Hb. unfold append.
  destruct (obtain_layout _ _ _ _ L) as (q1 & a & fs1 & -> & L1 & Ha1 & G1). cbn [mbind res_bind].
  destruct (emplace_layout _ _ _ _ _ _ x L1 Ha1) as (q2 & -> & L2 & Ha2 & G2). cbn [mbind res_bind].
  destruct (link_layout _ _ _ _ _ _ L2 Ha2 Hb) as (q3 & -> & L3 & G3).
  eexists _, _, _. split; [done|]. split; [done|]. unfold same_guard in *. intuition congruence.
Qed.

Section Represented.
Context (q : queue) (f : fifo T) (R : represents q f).

Lemma represents_size : m_size q = Z.of_nat (length (items f)).
Proof using R. destruct R as (_ & _ & ps & fs & L). apply L. Qed.

Lemma represents_over : over q = full f.
Proof using R. unfold over, full. destruct R as (-> & _). by rewrite represents_size. Qed.

Lemma append_represents x : Z.of_nat (length (items f)) < 2 ^ 64 - 1 ->
  exists q', append q x = Ok q' /\ represents q' (set_items (items f ++ [x]) f).
Proof using R.
  intros Hb. destruct R as (Hc & Hcl & ps & fs & L).
  destruct (append_layout _ _ _ _ x L Hb) as (q' & ps' & fs' & -> & L' & E1 & E2).
  eexists. split; [done|]. split_and!; simpl; [congruence|congruence|eauto].
Qed.

Lemma unlink_represents x l : items f = x :: l ->
  exists q', unlink_head_locked q = Ok (q', Some x) /\ represents q' (set_items l f).
Proof using R.
  intros E. destruct R as (Hc & Hcl & ps & fs & L). rewrite E in L.
  destruct (unlink_layout _ _ _ _ _ L) as (q' & ps' & fs' & -> & L' & E1 & E2).
  eexists. split; [done|]. split_and!; simpl; [congruence|congruence|eauto].
Qed.

Lemma try_push_represents x : Z.of_nat (length (items f)) < 2 ^ 64 - 1 ->
  exists q', try_push q x = Ok (q', (offer x f).2) /\ represents q' (offer x f).1.
Proof using R.
  intros Hb. unfold try_push, offer. rewrite represents_over.
  destruct R as (_ & -> & _). destruct (closed f || full f); [by exists q|].
  destruct (append_represents x Hb) as (q' & -> & R'). by exists q'.
Qed.

Lemma poll_represents :
  exists q', poll q = Ok (q', (next_item f).2) /\ represents q' (next_item f).1.
Proof using R.
  unfold poll, next_item. rewrite represents_size. destruct (items f) as [|x l] eqn:E; [by exists q|].
  destruct (unlink_represents x l E) as (q' & -> & R'). by exists q'.
Qed.

Lemma close_represents : represents (close q) (mkFifo (cap f) (items f) true).
Proof using R.
  destruct R as (Hc & Hcl & ps & fs & L). split; [done|]. split; [done|]. exists ps, fs.
  destruct L. by split.
Qed.
End Represented.

(** ** Runs *)

Inductive op := Push (x : T) | TryPush (x : T) | Take | TakeFor | Poll | Close | Closed | Size.

Definition step (q : queue) (o : op) : res (queue * outcome) :=
  match o with
  | Push x => push q x
  | TryPush x => '(q, b) ← try_push q x; Ok (q, Accepted b)
  | Take => take q
  | TakeFor => '(q, o) ← take_for q; Ok (q, Taken o)
  | Poll => '(q, o) ← poll q; Ok (q, Taken o)
  | Close => Ok (close q, Done)
  | Closed => Ok (q, IsClosed (is_closed q))
  | Size => Ok (q, Count (size q))
  end.

Fixpoint run (q : queue) (os : list op) : res (queue * list outcome) :=
  match os with
  | [] => Ok (q, [])
  | o :: os => '(q, out) ← step q o; '(q, outs) ← run q os; Ok (q, out :: outs)
  end.

(** The same operations on a FIFO. *)
Definition spec_step (f : fifo T) (o : op) : fifo T * outcome :=
  match o with
  | Push x => if closed f then (f, Accepted false) else if full f then (f, Blocked)
              else (set_items (items f ++ [x]) f, Accepted true)
  | TryPush x => let '(f, b) := offer x f in (f, Accepted b)
  | Take => match items f with
            | [] => (f, if closed f then Taken None else Blocked)
            | x :: l => (set_items l f, Taken (Some x))
            end
  | TakeFor | Poll => let '(f, o) := next_item f in (f, Taken o)
  | Close => (mkFifo (cap f) (items f) true, Done)
  | Closed => (f, IsClosed (closed f))
  | Size => (f, Count (Z.of_nat (length (items f))))
  end.

Fixpoint spec_run (f : fifo T) (os : list op) : fifo T * list outcome :=
  match os with
  | [] => (f, [])
  | o :: os => let '(f, out) := spec_step f o in let '(f, outs) := spec_run f os in (f, out :: outs)
  end.

Lemma step_refines q f o : represents q f -> Z.of_nat (length (items f)) < 2 ^ 64 - 1 ->
  exists q', step q o = Ok (q', (spec_step f o).2) /\ represents q' (spec_step f o).1.
Proof.
  intros R Hb. pose proof R as (_ & Hcl & _). pose proof (represents_size q f R) as Hs.
  destruct o as [x|x| | | | | |]; simpl.
  - unfold push. rewrite (represents_over q f R), Hcl. destruct (closed f); [by exists q|].
    destruct (full f); [by exists q|]. destruct (append_represents q f R x Hb) as (q' & -> & R').
    by exists q'.
  - destruct (try_push_represents q f R x Hb) as (q' & -> & R'). destruct (offer x f). by exists q'.
  - unfold take. rewrite Hs, Hcl. destruct (items f) as [|x l] eqn:E; simpl.
    + destruct (closed f); by exists q.
    + rewrite andb_false_r. destruct (unlink_represents q f R x l E) as (q' & -> & R'). by exists q'.
  - unfold take_for, next_item. rewrite Hs, Hcl. destruct (items f) as [|x l] eqn:E; simpl.
    + destruct (closed f); by exists q.
    + rewrite andb_false_r. destruct (unlink_represents q f R x l E) as (q' & -> & R'). by exists q'.
  - destruct (poll_represents q f R) as (q' & -> & R'). destruct (next_item f). by exists q'.
  - exists (close q). split; [done|]. by apply close_represents.
  - exists q. unfold is_closed. by rewrite Hcl.
  - exists q. unfold size. by rewrite Hs.
Qed.

Lemma spec_step_length f o :
  (length (items (spec_step f o).1) <= length (items f) + 1)%nat.
Proof.
  destruct f as [c l cl], o; unfold spec_step, offer, next_item; cbn [items cap closed];
    repeat case_match; simplify_eq/=; rewrite ?length_app; simpl; lia.
Qed.

Lemma run_refines os q f : represents q f -> Z.of_nat (length (items f) + length os) < 2 ^ 64 ->
  exists q', run q os = Ok (q', (spec_run f os).2) /\ represents q' (spec_run f os).1.
Proof.
  revert q f. induction os as [|o os IH]; intros q f R Hb; simpl; [by exists q|].
  simpl in Hb. destruct (step_refines q f o R) as (q1 & -> & R1); [lia|].
  pose proof (spec_step_length f o) as Hl. destruct (spec_step f o) as [f1 out]. simpl in *.
  destruct (IH q1 f1 R1) as (q2 & -> & R2); [lia|]. destruct (spec_run f1 os). by exists q2.
Qed.

(** The destructor's walk frees a whole chain. *)
Lemma drain_chain fuel h p l : chain h p l -> NoDup l.*1 -> (length l <= fuel)%nat ->
  exists h', drain_list fuel h p = Ok h' /\ forall b, h' !! b = if decide (b ∈ l.*1) then None else h !! b.
Proof.
  revert fuel h p. induction l as [|[a x] l IH]; intros fuel h p H Hnd Hf;
    rewrite ?fmap_cons in *; cbn [chain length fst] in *.
  - subst p. exists h. split; [by destruct fuel|]. intros b. case_decide as Hb; [|done].
    by apply not_elem_of_nil in Hb.
  - destruct H as [-> (nx & Ha & H)]. destruct fuel as [|fuel]; [lia|]. simpl. rewrite Ha. simpl.
    apply NoDup_cons in Hnd as [Hn Hnd].
    destruct (IH fuel (delete a h) nx) as (h' & -> & Hh'); [by apply chain_delete|done|lia|].
    exists h'. split; [done|]. intros b. rewrite Hh'. destruct (decide (b = a)) as [->|Hne].
    + rewrite lookup_delete_eq. repeat case_decide; try done; set_solver.
    + rewrite lookup_delete_ne by done. repeat case_decide; try done; set_solver.
Qed.

Lemma size_nodes h (l : list nat) : NoDup l -> (forall a, is_Some (h !! a) <-> a ∈ l) ->
  base.size (h : gmap nat Node) = length l.
Proof.
  intros Hnd Hd. rewrite <- (size_dom (D := gset nat)). rewrite <- (size_list_to_set (C := gset nat) l Hnd).
  f_equal. apply set_eq. intros a. by rewrite elem_of_dom, Hd, elem_of_list_to_set.
Qed.

Lemma destroy_frees q f : represents q f -> destroy q = Ok ∅.
Proof.
  intros (_ & _ & ps & fs & L). unfold destroy.
  pose proof (lay_nodup _ _ _ _ _ L) as Hnd. pose proof (lay_dom _ _ _ _ _ L) as Hd.
  rewrite (size_nodes (heap q) _ Hnd Hd). rewrite app_nil_r in *.
  pose proof Hnd as (N1 & N2 & N3)%NoDup_app. pose proof (lay_len _ _ _ _ _ L) as Hl.
  rewrite length_app.
  destruct (drain_chain (S (length ps + length fs)) (heap q) (m_head q) (full_nodes ps (items f)))
    as (h1 & -> & H1); [apply L|by rewrite full_nodes_fst| |].
  { rewrite <- (length_fmap fst), full_nodes_fst by done. lia. }
  cbn [mbind res_bind]. rewrite full_nodes_fst in H1 by done.
  destruct (drain_chain (S (length ps + length fs)) h1 (m_free_nodes q) (empty_nodes fs))
    as (h2 & -> & H2); [|by rewrite empty_nodes_fst|unfold empty_nodes; rewrite length_fmap; lia|].
  { eapply chain_frame; [|apply L]. rewrite empty_nodes_fst. intros b Hb. rewrite H1.
    rewrite decide_False; [done|]. intros Hp. by apply (N2 b Hp). }
  f_equal. apply map_eq. intros b. rewrite lookup_empty, H2, H1, empty_nodes_fst.
  repeat case_decide; try done. apply eq_None_not_Some. rewrite Hd, elem_of_app. tauto.
Qed.
End Queue.
Arguments Node : clear implicits.
Arguments queue : clear implicits.
Arguments outcome : clear implicits.
Arguments op : clear implicits.

(** C18. The linked queue refines a bounded FIFO: for every sequence of calls on
    a new queue, each call returns what the FIFO of the same capacity returns
    (acceptance, the item, "must wait"), no call follows a null or freed
    pointer, and destroying the queue afterwards frees every node exactly once. *)
Theorem queue_refines_fifo {T} c (os : list (op T)) :
  0 <= c -> Z.of_nat (length os) < 2 ^ 64 ->
  exists q, run (new c) os = Ok (q, (spec_run (mkFifo c [] false) os).2) /\
    size q = Z.of_nat (length (items (spec_run (mkFifo c [] false) os).1)) /\
    destroy q = Ok ∅.
Proof.
  intros Hc Hl. destruct (run_refines os (new c) (mkFifo c [] false)) as (q & E & R); [|done|].
  { split_and!; [done|done|]. exists [], []. apply layout_new. }
  exists q. split; [done|]. split; [by apply represents_size|by eapply destroy_frees].
Qed.

Lemma queue_refines_fifo_witness :
  exists q, run (new 2) [Push 1; TryPush 2; TryPush 3; Push 4; Poll; Push 5; Take; Close; Take; Take; Push 6]
    = Ok (q, [Accepted true; Accepted true; Accepted false; Blocked; Taken (Some 1); Accepted true;
              Taken (Some 2); Done; Taken (Some 5); Taken None; Accepted false]) /\
    size q = 0 /\ destroy q = Ok ∅.
Proof.
  apply (queue_refines_fifo 2 [Push 1; TryPush 2; TryPush 3; Push 4; Poll; Push 5; Take; Close; Take;
    Take; Push 6]); [lia|done].
Defined.

(** The linked queue keeps the promise. *)
Global Instance queue_ops : QueueOps queue := {
  q_new := @new; q_try_push := @try_push; q_poll := @poll; q_close := @close;
  q_holds := @represents }.

Global Instance queue_laws : QueueLaws queue.
Proof.
  split; intros T.
  - intros c Hc. split_and!; [done|done|]. exists [], []. apply layout_new.
  - intros q f x R. by apply try_push_represents.
  - intros q f. apply poll_represents.
  - intros q f. apply close_represents.
Qed.
End BlockingQueue.
