(* ===== verification/BufferPool.v ===== *)
(** * Pooled datagram buffers (tight/src/buffer_pool.hpp)

    The allocator of [PooledBytes]: requests of at most 2048 bytes are served
    from a per-thread free list of 2048-byte blocks. The model keeps the raw
    heap (block address to block size) and the free list of every thread;
    releasing a block that is not allocated is a [Fault]. A block may be
    released by another thread than the one that allocated it. *)
From stdpp Require Import base list numbers option sets gmap infinite.
From Stdlib Require Import ZArith Lia.
From S2P Require Import Prelude.

Local Open Scope Z_scope.

Module BufferPool.

Definition kPoolBlockSize : Z := 2048.
Definition kPoolMaxFreePerThread : Z := 16.

(** [pool_free_list()]: one vector per thread. *)
Record memory := mkMemory {
  free_lists : gmap nat (list nat);
  blocks : gmap nat Z }.

Definition pool_free_list (m : memory) (thread : nat) : list nat := default [] (free_lists m !! thread).

Definition operator_new (m : memory) (size : Z) : memory * nat :=
  let p := fresh (dom (blocks m)) in
  (mkMemory (free_lists m) (<[p := size]> (blocks m)), p).

Definition operator_delete (m : memory) (p : nat) : res memory :=
  match blocks m !! p with
  | Some _ => Ok (mkMemory (free_lists m) (delete p (blocks m)))
  | None => Fault BadPointer
  end.

(** [sizeof(T)] is 1: the pool holds bytes. *)
Definition allocate (m : memory) (thread : nat) (n : Z) : memory * nat :=
  if n <=? kPoolBlockSize then
    match last (pool_free_list m thread) with
    | Some p =>
        let l := pool_free_list m thread in
        (mkMemory (<[thread := take (length l - 1) l]> (free_lists m)) (blocks m), p)
    | None => operator_new m kPoolBlockSize
    end
  else operator_new m n.

Definition deallocate (m : memory) (thread : nat) (p : nat) (n : Z) : res memory :=
  let l := pool_free_list m thread in
  if (n <=? kPoolBlockSize) && (Z.of_nat (length l) <? kPoolMaxFreePerThread)
  then Ok (mkMemory (<[thread := l ++ [p]]> (free_lists m)) (blocks m))
  else operator_delete m p.

(** ** Clients

    A container returns a block with the size it asked for, once. [live] maps
    the blocks in use to the requested sizes. *)
Inductive op := Alloc (thread : nat) (n : Z) | Free (thread : nat) (p : nat).

Definition client : Type := memory * gmap nat Z.

Definition step (c : client) (o : op) : res client :=
  let '(m, live) := c in
  match o with
  | Alloc t n => let '(m, p) := allocate m t n in Ok (m, <[p := n]> live)
  | Free t p => match live !! p with
                | Some n => m ← deallocate m t p n; Ok (m, delete p live)
                | None => Ok (m, live)
                end
  end.

Fixpoint run (c : client) (os : list op) : res client :=
  match os with [] => Ok c | o :: os => c ← step c o; run c os end.

Definition initial : client := (mkMemory ∅ ∅, ∅).

(** Every block is live or in exactly one free list; pooled blocks have the
    pool's size; a live block is large enough for its request. *)
Record pool_ok (c : client) : Prop := {
  po_free : forall t p, p ∈ pool_free_list c.1 t -> blocks c.1 !! p = Some kPoolBlockSize /\ c.2 !! p = None;
  po_nodup : forall t, NoDup (pool_free_list c.1 t);
  po_disjoint : forall t t' p, p ∈ pool_free_list c.1 t -> p ∈ pool_free_list c.1 t' -> t = t';
  po_live : forall p n, c.2 !! p = Some n ->
    blocks c.1 !! p = Some (if n <=? kPoolBlockSize then kPoolBlockSize else n);
  po_owned : forall p, is_Some (blocks c.1 !! p) -> is_Some (c.2 !! p) \/ exists t, p ∈ pool_free_list c.1 t;
  po_bound : forall t, Z.of_nat (length (pool_free_list c.1 t)) <= kPoolMaxFreePerThread }.

Lemma free_list_insert m t l b t' :
  pool_free_list (mkMemory (<[t := l]> (free_lists m)) b) t' = if decide (t' = t) then l else pool_free_list m t'.
Proof.
  unfold pool_free_list. simpl. destruct (decide (t' = t)) as [->|Hne].
  - by rewrite lookup_insert_eq.
  - by rewrite lookup_insert_ne.
Qed.

Lemma pool_new_ok m live n : pool_ok (m, live) ->
  let '(m', p) := operator_new m (if n <=? kPoolBlockSize then kPoolBlockSize else n) in
  pool_ok (m', <[p := n]> live).
Proof.
  intros [H1 H2 H3 H4 H5 H6]. unfold operator_new. set (p := fresh (dom (blocks m))).
  assert (blocks m !! p = None) as Hp by apply not_elem_of_dom, is_fresh.
  simpl in *. split; simpl; try done.
  - intros t q Hq. destruct (H1 t q Hq) as [Hb Hl]. assert (q <> p) by congruence.
    by rewrite !lookup_insert_ne by done.
  - intros q k. destruct (decide (q = p)) as [->|Hne].
    + rewrite !lookup_insert_eq. by intros [= ->].
    + rewrite !lookup_insert_ne by done. apply H4.
  - intros q. destruct (decide (q = p)) as [->|Hne].
    + rewrite !lookup_insert_eq. intros _. left. eauto.
    + rewrite !lookup_insert_ne by done. apply H5.
Qed.

Lemma reuse_ok m live t n l p : pool_ok (m, live) -> n <= kPoolBlockSize ->
  pool_free_list m t = l ++ [p] ->
  pool_ok (mkMemory (<[t := l]> (free_lists m)) (blocks m), <[p := n]> live).
Proof.
  intros [H1 H2 H3 H4 H5 H6] Hn El. simpl in *.
  assert (p ∈ pool_free_list m t) as Hp by (rewrite El; set_solver).
  assert (p ∉ l) as Hpl.
  { pose proof (H2 t) as Hnd. rewrite El in Hnd. apply NoDup_app in Hnd as (_ & Hd & _).
    intros Hin. apply (Hd p Hin). by left. }
  assert (forall t' q, q ∈ (if decide (t' = t) then l else pool_free_list m t') ->
    q ∈ pool_free_list m t' /\ q <> p) as Hsub.
  { intros t' q. case_decide as E; [subst|]; intros Hq.
    - rewrite El. split; [set_solver|by intros ->].
    - split; [done|]. intros ->. apply E. by apply (H3 t' t p). }
  split; simpl; try setoid_rewrite free_list_insert; try done.
  - intros t' q Hq. destruct (Hsub t' q Hq) as [Hq' Hne]. destruct (H1 t' q Hq').
    by rewrite lookup_insert_ne by done.
  - intros t'. case_decide; [subst|done]. pose proof (H2 t) as Hnd. rewrite El in Hnd.
    by apply NoDup_app in Hnd as (? & _).
  - intros t1 t2 q [Hq1 _]%Hsub [Hq2 _]%Hsub. by apply (H3 t1 t2 q).
  - intros q k. destruct (decide (q = p)) as [->|Hne].
    + rewrite lookup_insert_eq. intros [= <-]. destruct (H1 t p Hp) as [-> _].
      by rewrite (proj2 (Z.leb_le _ _) Hn).
    + rewrite lookup_insert_ne by done. apply H4.
  - intros q Hq. destruct (decide (q = p)) as [->|Hne]; [left; rewrite lookup_insert_eq; eauto|].
    rewrite lookup_insert_ne by done. destruct (H5 q Hq) as [?|[t' Ht']]; [by left|]. right.
    exists t'. case_decide; [subst|done]. rewrite El in Ht'. set_solver.
  - intros t'. case_decide; [subst|done]. pose proof (H6 t) as Hb. rewrite El, length_app in Hb. lia.
Qed.

Lemma keep_ok m live t n p : pool_ok (m, live) -> live !! p = Some n -> n <= kPoolBlockSize ->
  Z.of_nat (length (pool_free_list m t)) < kPoolMaxFreePerThread ->
  pool_ok (mkMemory (<[t := pool_free_list m t ++ [p]]> (free_lists m)) (blocks m), delete p live).
Proof.
  intros [H1 H2 H3 H4 H5 H6] Hp Hn Hb. simpl in *.
  assert (forall t', p ∉ pool_free_list m t') as Hout.
  { intros t' Hin. destruct (H1 t' p Hin) as [_ E]. congruence. }
  assert (forall t' q, q ∈ (if decide (t' = t) then pool_free_list m t ++ [p] else pool_free_list m t') <->
    q ∈ pool_free_list m t' \/ (q = p /\ t' = t)) as Hin.
  { intros t' q. case_decide; [subst|]; set_solver. }
  split; simpl; try setoid_rewrite free_list_insert.
  - intros t' q [Hq|[-> ->]]%Hin.
    + destruct (H1 t' q Hq) as [? ?]. split; [done|]. rewrite lookup_delete_None. by right.
    + rewrite lookup_delete_eq. split; [|done]. rewrite (H4 p n Hp).
      by rewrite (proj2 (Z.leb_le _ _) Hn).
  - intros t'. case_decide; [subst|done]. apply NoDup_app. split; [done|].
    split; [|apply NoDup_singleton]. intros q Hq. rewrite list_elem_of_singleton. intros ->. by apply (Hout t).
  - intros t1 t2 q [Hq1|[-> ->]]%Hin [Hq2|[E1 E2]]%Hin; subst; try done.
    + by apply (H3 t1 t2 q).
    + by destruct (Hout t1).
    + by destruct (Hout t2).
  - intros q k [_ Hq]%lookup_delete_Some. by apply H4.
  - intros q Hq. destruct (decide (q = p)) as [->|Hne].
    + right. exists t. apply Hin. by right.
    + rewrite lookup_delete_ne by done. destruct (H5 q Hq) as [?|[t' Ht']]; [by left|].
      right. exists t'. apply Hin. by left.
  - intros t'. case_decide; [subst|done]. rewrite length_app. simpl. lia.
Qed.

Lemma delete_ok m live n p : pool_ok (m, live) -> live !! p = Some n ->
  exists m', operator_delete m p = Ok m' /\ pool_ok (m', delete p live).
Proof.
  intros [H1 H2 H3 H4 H5 H6] Hp. simpl in *. unfold operator_delete. rewrite (H4 p n Hp).
  eexists. split; [done|]. split; simpl; try done.
  - intros t q Hq. destruct (H1 t q Hq) as [? ?]. rewrite !lookup_delete_ne by congruence. done.
  - intros q k [Hne Hq]%lookup_delete_Some. rewrite lookup_delete_ne by done. by apply H4.
  - intros q [Hne Hq]%lookup_delete_is_Some. rewrite lookup_delete_ne by done. by apply H5.
Qed.

Lemma step_ok c o : pool_ok c -> exists c', step c o = Ok c' /\ pool_ok c'.
Proof.
  destruct c as [m live]. intros Hok. destruct o as [t n|t p]; simpl.
  - unfold allocate. pose proof (pool_new_ok m live n Hok) as Hnew.
    destruct (Z.leb_spec n kPoolBlockSize) as [Hn|Hn].
    + destruct (pool_free_list m t) as [|p l _] eqn:El using rev_ind; [by eexists|].
      rewrite last_snoc, length_app. simpl. rewrite Nat.add_sub, take_app_length.
      eexists. split; [done|]. by apply reuse_ok.
    + by eexists.
  - destruct (live !! p) as [n|] eqn:Ep; [|by eexists]. unfold deallocate.
    destruct (Z.leb_spec n kPoolBlockSize) as [Hn|Hn]; simpl;
      [destruct (Z.ltb_spec (Z.of_nat (length (pool_free_list m t))) kPoolMaxFreePerThread) as [Hl|Hl]|].
    + eexists. split; [done|]. by apply (keep_ok _ _ _ n).
    + destruct (delete_ok m live n p Hok Ep) as (m' & -> & ?). by eexists.
    + destruct (delete_ok m live n p Hok Ep) as (m' & -> & ?). by eexists.
Qed.

Lemma initial_ok : pool_ok initial.
Proof.
  split; simpl; try done.
  - intros t p H. by apply not_elem_of_nil in H.
  - intros t. constructor.
  - intros t t' p H. by apply not_elem_of_nil in H.
  - intros p [? H]. done.
Qed.

(** C25. Pool safety: whatever the threads allocate and release, no release hits
    a block that is not allocated; every buffer in use is a block of its own of
    at least the requested size; no buffer in use is in a free list; and each
    thread caches at most 16 blocks. *)
Theorem pool_safe os : exists m live, run initial os = Ok (m, live) /\
  (forall p n, live !! p = Some n -> exists size, blocks m !! p = Some size /\ n <= size) /\
  (forall t p, p ∈ pool_free_list m t -> live !! p = None) /\
  (forall t, Z.of_nat (length (pool_free_list m t)) <= kPoolMaxFreePerThread).
Proof.
  assert (forall c, pool_ok c -> exists c', run c os = Ok c' /\ pool_ok c') as Hrun.
  { induction os as [|o os IH]; intros c Hc; simpl; [by exists c|].
    destruct (step_ok c o Hc) as (c' & -> & Hc'). by apply IH. }
  destruct (Hrun initial initial_ok) as ([m live] & E & [H1 H2 H3 H4 H5 H6]).
  exists m, live. simpl in *. split; [done|]. split_and!.
  - intros p n Hp. rewrite (H4 p n Hp). eexists. split; [done|]. destruct (Z.leb_spec n kPoolBlockSize); lia.
  - intros t p Hp. by destruct (H1 t p Hp).
  - apply H6.
Qed.

End BufferPool.
