(* ===== verification/Packets.v ===== *)
(** * Sealed packets and session keys (tight/src/transport.cpp)

    The cryptographic envelope of the transport: the GCM nonce of a packet, the
    wire packet built from a header and a payload, the inverse performed on
    reception, and the session key both ends derive. *)
From stdpp Require Import base list numbers option strings.
From Stdlib Require Import ZArith Lia Btauto.
From S2P Require Import Prelude Crc Wire Codec Float64 Types Peer Sha256 Aes Gcm X25519.

Local Open Scope Z_scope.
Import Types Wire PacketCodec Peer Gcm.

Module Packets.

(** ** Buffers *)

(** [std::memcpy] to [buf + off]; writing past the end is a fault. *)
Definition memcpy_to (buf : bytes) (off : nat) (bs : bytes) : res bytes :=
  if (off + length bs <=? length buf)%nat then Ok (put buf off bs) else Fault OutOfBounds.

Definition bytes_of_string (s : string) : bytes :=
  (fun c => Z.of_N (Ascii.N_of_ascii c)) <$> String.list_ascii_of_string s.

(** ** Nonces *)

Definition build_nonce (header : PacketHeader) : bytes :=
  let n := replicate kGcmNonceSize 0 in
  let n := put32 0 (client_id header) n in
  if decide (type header = Command) then
    put8 8 (type_code (type header)) (put32 4 (sequence header) n)
  else
    put8 10 (type_code (type header))
      (put16 8 (fragment_index header) (put32 4 (message_id header) n)).

(** ** Sealing *)

Definition build_wire_packet (encryption_enabled : bool) (c : CryptoState)
    (header : PacketHeader) (payload : bytes) : res bytes :=
  let encrypted := encryption_enabled && m_crypto_ready c in
  let wire_header :=
    if encrypted then set_flags_size header (Z.lor (flags header) kFlagEncrypted)
                        (u16 (Z.of_nat (length payload + kGcmTagSize)))
    else header in
  let size := (kHeaderSize + Z.to_nat (payload_size wire_header))%nat in
  let datagram := encode_header_to wire_header (replicate size 0) in
  datagram ←
    (if negb encrypted then
       match payload with [] => Ok datagram | _ => memcpy_to datagram kHeaderSize payload end
     else
       let nonce := build_nonce wire_header in
       let '(ct, tag) := aes256_gcm_encrypt (m_crypto_key c) nonce
                           (take (kHeaderSize - 4) datagram) payload in
       datagram ← memcpy_to datagram kHeaderSize ct;
       memcpy_to datagram (kHeaderSize + length payload) tag);
  Ok (finalize_crc datagram size).

(** [None] is the [false] result. *)
Definition decrypt_payload (c : CryptoState) (header : PacketHeader) (payload : bytes)
    : option (PacketHeader * bytes) :=
  if negb (m_crypto_ready c) then None else
  if (length payload <? kGcmTagSize)%nat then None else
  let ct_len := (length payload - kGcmTagSize)%nat in
  let nonce := build_nonce header in
  let aad := (encode_to header [] (replicate kHeaderSize 0)).1 in
  match aes256_gcm_decrypt (m_crypto_key c) nonce (take (kHeaderSize - 4) aad)
          (take ct_len payload) (drop ct_len payload) with
  | None => None
  | Some pt =>
      Some (set_flags_size header (Z.land (flags header) (Z.lxor kFlagEncrypted 0xFFFF))
              (u16 (Z.of_nat ct_len)), pt)
  end.

(** The first part of [handle_packet]: encrypted payloads are opened before
    dispatch, the others pass as they are. *)
Definition open_payload (c : CryptoState) (header : PacketHeader) (payload : bytes)
    : option (PacketHeader * bytes) :=
  if negb (Z.land (flags header) kFlagEncrypted =? 0) then decrypt_payload c header payload
  else Some (header, payload).

(** ** Session keys *)

(** Bytes of a 32-bit value, least significant first. *)
Definition salt_word (v : Z) : bytes :=
  (fun i => u8 (Z.land (Z.shiftr v (Z.of_nat i * 8)) 0xFF)) <$> seq 0 4.

Definition session_salt (local peer : Z) : bytes :=
  salt_word (Z.min local peer) ++ salt_word (Z.max local peer).

Definition derive_session_key (private_key peer_pub : bytes) (local_client_id peer_client_id : Z)
    (c : CryptoState) : CryptoState :=
  let '(shared, ok) := X25519.x25519 private_key peer_pub in
  if negb ok then c else
  mkCrypto true (Sha256.hkdf_sha256 shared (session_salt local_client_id peer_client_id)
                   (bytes_of_string "tight-data-key-v1")).

(** ** The nonce identifies the packet *)

Definition sealed_type (t : PacketType) : Prop := t = Data \/ t = Parity \/ t = Command.

(** The fields a nonce is built from. *)
Definition packet_key (h : PacketHeader) : PacketType * Z * Z * Z :=
  if decide (type h = Command) then (type h, client_id h, sequence h, 0)
  else (type h, client_id h, message_id h, fragment_index h).

Lemma build_nonce_spec h : build_nonce h =
  store_le 4 (to_be32 (client_id h)) ++
  (if decide (type h = Command)
   then store_le 4 (to_be32 (sequence h)) ++ store_le 1 (type_code (type h)) ++ [0; 0; 0]
   else store_le 4 (to_be32 (message_id h)) ++ store_le 2 (to_be16 (fragment_index h)) ++
        store_le 1 (type_code (type h)) ++ [0]).
Proof. unfold build_nonce. case_decide; reflexivity. Qed.

Lemma store_le_inj n a b : in_width (8 * Z.of_nat n) a -> in_width (8 * Z.of_nat n) b ->
  store_le n a = store_le n b -> a = b.
Proof.
  intros Ha Hb E. apply (f_equal load_le) in E. rewrite !load_store_le in E.
  by rewrite !wrap_id in E.
Qed.

Lemma store_be32_inj a b : in_width 32 a -> in_width 32 b ->
  store_le 4 (to_be32 a) = store_le 4 (to_be32 b) -> a = b.
Proof.
  intros Ha Hb E. apply store_le_inj in E; [|apply to_be32_width..].
  rewrite <- (to_be32_involutive a), <- (to_be32_involutive b) by done. by rewrite E.
Qed.

Lemma store_be16_inj a b : in_width 16 a -> in_width 16 b ->
  store_le 2 (to_be16 a) = store_le 2 (to_be16 b) -> a = b.
Proof.
  intros Ha Hb E. apply store_le_inj in E; [|apply to_be16_width..].
  rewrite <- (to_be16_involutive a), <- (to_be16_involutive b) by done. by rewrite E.
Qed.

Lemma nonce_injective h1 h2 :
  header_wf h1 -> header_wf h2 -> sealed_type (type h1) -> sealed_type (type h2) ->
  build_nonce h1 = build_nonce h2 -> packet_key h1 = packet_key h2.
Proof.
  intros (?&?&?&?&C1&?&S1&?&M1&F1&_) (?&?&?&?&C2&?&S2&?&M2&F2&_) T1 T2.
  rewrite !build_nonce_spec. unfold packet_key. intros E.
  apply app_inj_1 in E as [Ec E]; [|by rewrite !length_store_le].
  apply store_be32_inj in Ec; [|done..].
  destruct (decide (type h1 = Command)) as [D1|D1], (decide (type h2 = Command)) as [D2|D2].
  - apply app_inj_1 in E as [Es _]; [|by rewrite !length_store_le].
    apply store_be32_inj in Es; [|done..]. congruence.
  - exfalso. rewrite !app_assoc in E.
    apply (f_equal (fun l => l !! 6%nat)) in E. clear -E T2 D1 D2.
    rewrite D1 in E. destruct T2 as [T|[T|T]]; rewrite ?T in E; [..|done]; vm_compute in E; done.
  - exfalso. rewrite !app_assoc in E.
    apply (f_equal (fun l => l !! 6%nat)) in E. clear -E T1 D1 D2.
    rewrite D2 in E. destruct T1 as [T|[T|T]]; rewrite ?T in E; [..|done]; vm_compute in E; done.
  - apply app_inj_1 in E as [Em E]; [|by rewrite !length_store_le].
    apply app_inj_1 in E as [Ei E]; [|by rewrite !length_store_le].
    apply store_be32_inj in Em; [|done..]. apply store_be16_inj in Ei; [|done..].
    assert (type h1 = type h2) as Et; [|congruence].
    destruct T1 as [T1|[T1|T1]], T2 as [T2|[T2|T2]]; rewrite T1, T2 in *; done.
Qed.

(** ** What is built, and how it is opened *)

Lemma gcm_crypt_ok fuel key ctr input : bytes_ok input ->
  bytes_ok (gcm_crypt_loop fuel (Aes.Aes256 key) ctr input).
Proof.
  revert ctr input. induction fuel as [|fuel IH]; intros ctr input H; cbn [gcm_crypt_loop]; [constructor|].
  case_match; [constructor|]. apply bytes_ok_app. split; [|auto with width].
  apply xor_bytes_ok; [auto with width|apply encrypt_block_ok].
Qed.

Definition sealed_header (h : PacketHeader) (n : nat) : PacketHeader :=
  set_flags_size h (Z.lor (flags h) kFlagEncrypted) (u16 (Z.of_nat (n + kGcmTagSize))).

Lemma memcpy_end pre bs n : (length bs <= n)%nat ->
  memcpy_to (pre ++ replicate n 0) (length pre) bs = Ok ((pre ++ bs) ++ replicate (n - length bs) 0).
Proof.
  intros H. unfold memcpy_to. rewrite length_app, length_replicate.
  rewrite (proj2 (Nat.leb_le _ _)) by lia. rewrite put_acc by (rewrite ?length_replicate; done).
  by rewrite drop_replicate.
Qed.

Lemma encode_blank h n : encode_header_to h (replicate (kHeaderSize + n) 0) =
  (header_bytes h ++ replicate 4 0) ++ replicate n 0.
Proof.
  rewrite encode_header_to_spec by (rewrite length_replicate; unfold kHeaderSize; lia).
  rewrite drop_replicate, app_assoc. do 2 f_equal. unfold kHeaderSize. lia.
Qed.

Lemma blank_length h : length (header_bytes h ++ replicate 4 0) = kHeaderSize.
Proof. by rewrite length_app, length_header_bytes. Qed.

(** The last step fills in the checksum. *)
Lemma finalize_encode h body :
  finalize_crc ((header_bytes h ++ replicate 4 0) ++ body) (kHeaderSize + length body) = encode h body.
Proof.
  rewrite encode_spec, <- app_assoc. apply finalize_crc_spec; [apply length_header_bytes|done].
Qed.

Lemma build_plain enc c h payload : enc && m_crypto_ready c = false ->
  payload_size h = Z.of_nat (length payload) ->
  build_wire_packet enc c h payload = Ok (encode h payload).
Proof.
  intros E Hs. unfold build_wire_packet. rewrite E. cbn [negb]. rewrite Hs, Nat2Z.id, encode_blank.
  rewrite <- finalize_encode. destruct payload as [|b r] eqn:Ep; [done|]. rewrite <- Ep.
  rewrite <- (blank_length h) at 1. rewrite memcpy_end by done. cbn [mbind res_bind].
  by rewrite Nat.sub_diag, app_nil_r.
Qed.

Lemma build_sealed enc c h payload : enc && m_crypto_ready c = true ->
  Z.of_nat (length payload + kGcmTagSize) < 2 ^ 16 ->
  build_wire_packet enc c h payload =
  let wh := sealed_header h (length payload) in
  let '(ct, tag) := aes256_gcm_encrypt (m_crypto_key c) (build_nonce wh) (header_bytes wh) payload in
  Ok (encode wh (ct ++ tag)).
Proof.
  intros E Hl. unfold build_wire_packet. rewrite E. cbn [negb].
  fold (sealed_header h (length payload)). set (wh := sealed_header h (length payload)).
  assert (Z.to_nat (payload_size wh) = length payload + kGcmTagSize)%nat as ->.
  { unfold wh. cbn [payload_size sealed_header set_flags_size]. rewrite u16_id; [lia|].
    unfold in_width. lia. }
  rewrite encode_blank.
  assert (take (kHeaderSize - 4) ((header_bytes wh ++ replicate 4 0) ++
    replicate (length payload + kGcmTagSize) 0) = header_bytes wh) as ->.
  { rewrite <- app_assoc. apply take_app_length'. by rewrite length_header_bytes. }
  unfold aes256_gcm_encrypt. cbv zeta iota.
  set (ct := aes256_gcm_crypt _ _ _).
  assert (length ct = length payload) as Hct by apply length_gcm_crypt.
  pose proof (tag_ok (m_crypto_key c) (make_j0 (build_nonce wh)) (header_bytes wh) ct) as [_ Ht].
  set (tag := gcm_compute_tag _ _ _ ct) in *. clearbody tag ct.
  rewrite <- (blank_length wh) at 1. rewrite memcpy_end by lia. cbn [mbind res_bind].
  assert (kHeaderSize + length payload = length ((header_bytes wh ++ replicate 4 0%Z) ++ ct))%nat as ->
    by (rewrite length_app, blank_length; lia).
  rewrite memcpy_end by (unfold kGcmTagSize; lia). cbn [mbind res_bind].
  replace (length payload + kGcmTagSize - length ct - length tag)%nat with 0%nat
    by (unfold kGcmTagSize; lia).
  rewrite app_nil_r, <- app_assoc, <- finalize_encode. do 2 f_equal.
  rewrite length_app. unfold kGcmTagSize. lia.
Qed.

Lemma header_bytes_checksum h c : header_bytes (set_checksum h c) = header_bytes h.
Proof. done. Qed.

Lemma decrypt_sealed c h cs ct tag pt : m_crypto_ready c = true -> length tag = kGcmTagSize ->
  aes256_gcm_decrypt (m_crypto_key c) (build_nonce h) (header_bytes h) ct tag = Some pt ->
  decrypt_payload c (set_checksum h cs) (ct ++ tag) =
  Some (set_flags_size (set_checksum h cs) (Z.land (flags h) (Z.lxor kFlagEncrypted 0xFFFF))
          (u16 (Z.of_nat (length ct))), pt).
Proof.
  intros Hr Ht Hd. unfold decrypt_payload. rewrite Hr, length_app. cbn [negb].
  rewrite (proj2 (Nat.ltb_ge _ _)) by lia. rewrite Ht, Nat.add_sub, take_app_length, drop_app_length.
  assert (take (kHeaderSize - 4) (encode_to (set_checksum h cs) [] (replicate kHeaderSize 0)).1 = header_bytes h) as ->.
  { unfold encode_to. rewrite encode_header_to_spec by (by rewrite length_replicate).
    rewrite drop_replicate. cbn [fst Nat.sub]. rewrite (finalize_crc_spec _ _ []) by
      (done || apply length_header_bytes). apply take_app_length'. by rewrite length_header_bytes. }
  change (build_nonce (set_checksum h cs)) with (build_nonce h). by rewrite Hd.
Qed.

Lemma sealed_flags f : in_width 15 f ->
  in_width 16 (Z.lor f kFlagEncrypted) /\ Z.land (Z.lor f kFlagEncrypted) kFlagEncrypted <> 0 /\
  Z.land (Z.lor f kFlagEncrypted) (Z.lxor kFlagEncrypted 0xFFFF) = f.
Proof.
  intros Hf. split_and!.
  - apply lor_width; [lia|by eapply in_width_mono; [|exact Hf]|eval_decide].
  - intros E. apply (f_equal (fun x => Z.testbit x 15)) in E. rewrite Z.land_spec, Z.lor_spec in E.
    by destruct (Z.testbit f 15).
  - change (Z.lxor kFlagEncrypted 0xFFFF) with (Z.ones 15). rewrite Z.land_ones by lia.
    change kFlagEncrypted with (Z.shiftl 1 15). rewrite lor_shiftl_add by (done || lia).
    rewrite Z.mul_comm, Z.mod_add by lia. by apply wrap_id.
Qed.

Lemma plain_flags f : in_width 15 f -> Z.land f kFlagEncrypted = 0.
Proof.
  intros Hf. apply Z.bits_inj'. intros i Hi. change kFlagEncrypted with (Z.shiftl 1 15). bit_norm.
  destruct (Z.ltb_spec i 15); [rewrite (Z.testbit_neg_r 1) by lia; btauto|].
  rewrite (testbit_above 15 f) by (done || lia). btauto.
Qed.

(** A header as the sender fills it in. *)
Record sendable (h : PacketHeader) (payload : bytes) : Prop := {
  sd_wf : header_wf h;
  sd_magic : magic h = kMagic;
  sd_version : version h = kVersion;
  sd_flags : in_width 15 (flags h);
  sd_size : payload_size h = Z.of_nat (length payload);
  sd_fits : Z.of_nat (length payload + kGcmTagSize) < 2 ^ 16;
  sd_bytes : bytes_ok payload }.

(** The receiver can open what the sender seals: either nothing is sealed, or
    both hold the same key. *)
Definition compatible (enc : bool) (s r : CryptoState) : Prop :=
  enc && m_crypto_ready s = true -> m_crypto_ready r = true /\ m_crypto_key r = m_crypto_key s.

(** Decoding a datagram and opening its payload. *)
Definition receive_datagram (c : CryptoState) (d : bytes) : option (PacketHeader * bytes) :=
  '(h, payload) ← decode d; open_payload c h payload.

Lemma decode_own h payload : header_wf h -> magic h = kMagic -> version h = kVersion ->
  bytes_ok payload -> payload_size h = Z.of_nat (length payload) ->
  decode (encode h payload) = Some (set_checksum h (datagram_crc h payload), payload).
Proof.
  intros Hwf Hm Hv Hb Hs. rewrite encode_spec.
  pose proof (decode_layout h (datagram_crc h payload) payload [] Hwf Hm Hv
    (datagram_crc_width h payload Hb) Hs) as E.
  rewrite app_nil_r, Z.eqb_refl in E. exact E.
Qed.

Lemma open_plain h payload : sendable h payload -> forall c,
  receive_datagram c (encode h payload) = Some (set_checksum h (datagram_crc h payload), payload).
Proof.
  intros [Hwf Hm Hv Hf Hs Hfit Hb] c. unfold receive_datagram.
  rewrite decode_own by done. cbn [mbind option_bind]. unfold open_payload.
  change (flags (set_checksum h _)) with (flags h). by rewrite plain_flags.
Qed.

Lemma sealed_wf h n : header_wf h -> in_width 15 (flags h) -> Z.of_nat (n + kGcmTagSize) < 2 ^ 16 ->
  header_wf (sealed_header h n).
Proof.
  intros Hwf Hf Hn. pose proof (sealed_flags (flags h) Hf) as [W _].
  unfold header_wf, sealed_header, set_flags_size in *. simpl in *. intuition auto with width.
Qed.

Lemma open_sealed h payload : sendable h payload -> forall s r,
  m_crypto_ready r = true -> m_crypto_key r = m_crypto_key s ->
  let wh := sealed_header h (length payload) in
  let '(ct, tag) := aes256_gcm_encrypt (m_crypto_key s) (build_nonce wh) (header_bytes wh) payload in
  exists cs, receive_datagram r (encode wh (ct ++ tag)) = Some (set_checksum h cs, payload).
Proof.
  intros [Hwf Hm Hv Hf Hs Hfit Hb] s r Hr Hk wh.
  pose proof (open_seal (m_crypto_key s) (build_nonce wh) (header_bytes wh) payload) as Ho.
  unfold aes256_gcm_encrypt in *. cbv zeta iota in *. set (ct := aes256_gcm_crypt _ _ _) in *.
  assert (length ct = length payload) as Hct by apply length_gcm_crypt.
  assert (bytes_ok ct) as Hcb by (by apply gcm_crypt_ok).
  pose proof (tag_ok (m_crypto_key s) (make_j0 (build_nonce wh)) (header_bytes wh) ct) as [Htb Ht].
  set (tag := gcm_compute_tag _ _ _ ct) in *. clearbody tag ct.
  pose proof (sealed_flags (flags h) Hf) as (_ & Hne & Hback).
  assert (bytes_ok (ct ++ tag)) as Hok by (by apply bytes_ok_app).
  exists (datagram_crc wh (ct ++ tag)). unfold receive_datagram.
  rewrite decode_own; [|by apply sealed_wf|done..|].
  2: { unfold wh. cbn [payload_size sealed_header set_flags_size]. rewrite u16_id; [|unfold in_width; lia].
       rewrite length_app. unfold kGcmTagSize in *. lia. }
  cbn [mbind option_bind]. unfold open_payload.
  change (flags (set_checksum wh _)) with (Z.lor (flags h) kFlagEncrypted).
  rewrite (proj2 (Z.eqb_neq _ _) Hne). cbn [negb].
  rewrite (decrypt_sealed r wh _ ct tag payload) by (done || by rewrite Hk). f_equal. f_equal.
  change (flags wh) with (Z.lor (flags h) kFlagEncrypted). rewrite Hback, Hct.
  rewrite u16_id by (unfold in_width, kGcmTagSize in *; lia). rewrite <- Hs. by destruct h.
Qed.

Lemma sealed_roundtrip enc s r h payload :
  sendable h payload -> compatible enc s r ->
  exists d cs, build_wire_packet enc s h payload = Ok d /\
    receive_datagram r d = Some (set_checksum h cs, payload).
Proof.
  intros Hsd Hc. destruct (enc && m_crypto_ready s) eqn:E.
  - destruct (Hc E) as [Hr Hk]. rewrite (build_sealed enc s h payload E) by apply Hsd.
    pose proof (open_sealed h payload Hsd s r Hr Hk) as Ho.
    unfold aes256_gcm_encrypt in *. destruct Ho as [cs Ho]. by eexists _, cs.
  - rewrite (build_plain enc s h payload E) by apply Hsd. eexists _, _. split; [done|]. by apply open_plain.
Qed.

Lemma built_length enc c h payload d :
  payload_size h = Z.of_nat (length payload) -> Z.of_nat (length payload + kGcmTagSize) < 2 ^ 16 ->
  build_wire_packet enc c h payload = Ok d ->
  length d = (kHeaderSize + length payload + if enc && m_crypto_ready c then kGcmTagSize else 0)%nat.
Proof.
  intros Hs Hl. destruct (enc && m_crypto_ready c) eqn:E.
  - rewrite (build_sealed enc c h payload E Hl). unfold aes256_gcm_encrypt. cbv zeta iota.
    set (wh := sealed_header h (length payload)).
    pose proof (tag_ok (m_crypto_key c) (make_j0 (build_nonce wh)) (header_bytes wh)
      (aes256_gcm_crypt (Aes.Aes256 (m_crypto_key c)) (make_j0 (build_nonce wh)) payload)) as [_ Ht].
    intros Eq. apply (f_equal (fun r => match r with Ok d => length d | Fault _ => 0%nat end)) in Eq.
    cbv beta iota in Eq. rewrite <- Eq, length_encode, length_app, length_gcm_crypt, Ht.
    unfold kHeaderSize, kGcmTagSize. lia.
  - rewrite (build_plain enc c h payload E Hs). intros [= <-]. rewrite length_encode.
    unfold kHeaderSize. lia.
Qed.

(** C8. Wire round trip: a packet built by [build_wire_packet], sealed with
    AES-256-GCM when the link is encrypted, is accepted by a receiver that
    holds the same key, which recovers the header (with its checksum) and the
    payload unchanged. The datagram is 48 bytes longer than the payload, and 16
    more when sealed. *)
Theorem wire_roundtrip enc s r h payload :
  sendable h payload -> compatible enc s r ->
  exists d cs, build_wire_packet enc s h payload = Ok d /\
    receive_datagram r d = Some (set_checksum h cs, payload) /\
    length d = (48 + length payload + if enc && m_crypto_ready s then 16 else 0)%nat.
Proof.
  intros Hs Hc. destruct (sealed_roundtrip enc s r h payload Hs Hc) as (d & cs & Hb & Hr).
  exists d, cs. split_and!; [done|done|]. by eapply built_length in Hb; [|apply Hs..].
Qed.

Definition demo_packet : PacketHeader := mkHeader kMagic kVersion Data 2 7 9 1 0 3 0 3 4 4 0 0.
Definition demo_key : CryptoState := mkCrypto true (replicate 32 5).

Lemma wire_roundtrip_witness : exists d cs,
  build_wire_packet true demo_key demo_packet [1; 2; 3; 4] = Ok d /\
  receive_datagram demo_key d = Some (set_checksum demo_packet cs, [1; 2; 3; 4]) /\
  length d = 68%nat.
Proof.
  apply (wire_roundtrip true demo_key demo_key demo_packet [1; 2; 3; 4]).
  - split; [eval_decide|done|done|eval_decide|done|done|eval_decide].
  - done.
Defined.

(** Nonces separate packets: two sealable packets of one sender have the
    same GCM nonce only if they agree in type, client and either the command
    sequence number or the message id and fragment index. *)
Theorem nonce_separates h1 h2 :
  header_wf h1 -> header_wf h2 -> sealed_type (type h1) -> sealed_type (type h2) ->
  packet_key h1 <> packet_key h2 -> build_nonce h1 <> build_nonce h2.
Proof. intros W1 W2 T1 T2 Hne E. apply Hne. by apply nonce_injective. Qed.

Lemma nonce_separates_witness :
  build_nonce demo_packet <> build_nonce (mkHeader kMagic kVersion Command 0 7 9 3 0 0 0 0 4 0 0 0).
Proof.
  apply nonce_separates; [eval_decide|eval_decide|by left|by right; right|]. vm_compute. done.
Defined.

(** ** Both ends derive the same key *)

Lemma session_salt_comm a b : session_salt a b = session_salt b a.
Proof. unfold session_salt. by rewrite Z.min_comm, Z.max_comm. Qed.

(** Key agreement: when the two X25519 exchanges give the same secret, both
    ends end with the same cipher state, whichever end has the smaller client
    id; they accept or reject the exchange together. *)
Theorem session_keys_agree skA pkA idA skB pkB idB c :
  X25519.x25519 skA pkB = X25519.x25519 skB pkA ->
  derive_session_key skA pkB idA idB c = derive_session_key skB pkA idB idA c.
Proof. intros E. unfold derive_session_key. by rewrite E, session_salt_comm. Qed.

Lemma session_keys_agree_witness :
  derive_session_key (replicate 32 1) (replicate 32 9) 4 7 new_crypto =
  derive_session_key (replicate 32 1) (replicate 32 9) 7 4 new_crypto.
Proof. by apply session_keys_agree. Defined.

End Packets.
