(* ===== verification/Endpoint.v ===== *)
(** * One peer's protocol engine (tight/src/transport.cpp)

    The handlers of [TightTransport::Impl] that act on one peer: what a received
    packet does, what the periodic duties send, how fragments and commands
    become packets. A handler runs in a small state monad over the peer, the
    bandwidth estimator and the list of effects it produced, in order; the
    endpoint's configuration, identity and clock readings are the environment.
    The clocks are read once per handler. The result of the outbound queue's
    [try_push] is ignored by every sender in the source, so a handler emits
    [Enqueue] and the queue itself is handled where the effects are performed
    ([Transport]). *)
From stdpp Require Import base list numbers option strings gmap.
From Stdlib Require Import ZArith Lia.
From S2P Require Import Prelude Wire Codec Float64 Maps Types Peer.
From S2P Require Import Report Fragmenter Reassembler Command Bandwidth X25519 Packets.

Local Open Scope Z_scope.
Import Types Wire PacketCodec Peer Packets.

Module Endpoint.

(** ** Environment, state, effects *)

Record Env := mkEnv {
  config : TightConfig;
  sock_open : bool;
  lite : bool;
  m_local_client_id : Z;
  m_local_session_id : Z;
  private_key : bytes;
  public_key : bytes;
  m_message_cb : bool;
  m_peer_cb : bool;
  m_command_cb : bool;
  now : Z;
  unix_millis : Z;
  log_now : Z }.

(** What leaves a handler: a datagram for the outbound queue, a datagram given
    to the socket at once, a callback. *)
Inductive Effect :=
  | Enqueue (datagram : bytes)
  | SendTo (to : AddrKey) (datagram : bytes)
  | OnMessage (id : string) (payload : bytes)
  | OnPeer (ev : PeerEvent)
  | OnCommand (id : string) (payload : bytes).

Record St := mkSt { peer : Peer; m_bandwidth : Bandwidth.Estimator; out : list Effect }.

Definition H (A : Type) : Type := St -> res (A * St).

Global Instance H_ret : MRet H := fun A a s => Ok (a, s).
Global Instance H_bind : MBind H := fun A B f m s =>
  match m s with Ok (a, s) => f a s | Fault e => Fault e end.

Definition get_peer : H Peer := fun s => Ok (peer s, s).
Definition get_bw : H Bandwidth.Estimator := fun s => Ok (m_bandwidth s, s).
Definition put_peer (p : Peer) : H unit := fun s => Ok (tt, mkSt p (m_bandwidth s) (out s)).
Definition put_bw (b : Bandwidth.Estimator) : H unit := fun s => Ok (tt, mkSt (peer s) b (out s)).
Definition emit (e : Effect) : H unit := fun s => Ok (tt, mkSt (peer s) (m_bandwidth s) (out s ++ [e])).
Definition lift {A} (r : res A) : H A := fun s => match r with Ok a => Ok (a, s) | Fault e => Fault e end.
Definition skip : H unit := mret tt.
Definition when (b : bool) (m : H unit) : H unit := if b then m else skip.

Fixpoint for_each {A} (l : list A) (f : A -> H unit) : H unit :=
  match l with [] => skip | x :: l => f x ;; for_each l f end.

(** Assignments to the link's fields. *)
Definition put_id v (l : LinkInfo) : LinkInfo :=
  mkLink v (m_sockaddr l) (m_addr_set l) (m_role l) (m_state l) (m_peer_client_id l)
    (m_peer_session_id l) (m_last_recv l) (m_last_heartbeat_sent l) (m_last_handshake_sent l)
    (m_last_report_sent l) (m_sender_rtt_us l) (m_reconnect l) (m_drop_log l) (m_retransmit l)
    (m_peer_retransmit l).
Definition put_sockaddr v (l : LinkInfo) : LinkInfo :=
  mkLink (m_id l) v (m_addr_set l) (m_role l) (m_state l) (m_peer_client_id l)
    (m_peer_session_id l) (m_last_recv l) (m_last_heartbeat_sent l) (m_last_handshake_sent l)
    (m_last_report_sent l) (m_sender_rtt_us l) (m_reconnect l) (m_drop_log l) (m_retransmit l)
    (m_peer_retransmit l).
Definition put_addr_set v (l : LinkInfo) : LinkInfo :=
  mkLink (m_id l) (m_sockaddr l) v (m_role l) (m_state l) (m_peer_client_id l)
    (m_peer_session_id l) (m_last_recv l) (m_last_heartbeat_sent l) (m_last_handshake_sent l)
    (m_last_report_sent l) (m_sender_rtt_us l) (m_reconnect l) (m_drop_log l) (m_retransmit l)
    (m_peer_retransmit l).
Definition put_role v (l : LinkInfo) : LinkInfo :=
  mkLink (m_id l) (m_sockaddr l) (m_addr_set l) v (m_state l) (m_peer_client_id l)
    (m_peer_session_id l) (m_last_recv l) (m_last_heartbeat_sent l) (m_last_handshake_sent l)
    (m_last_report_sent l) (m_sender_rtt_us l) (m_reconnect l) (m_drop_log l) (m_retransmit l)
    (m_peer_retransmit l).
Definition put_state v (l : LinkInfo) : LinkInfo :=
  mkLink (m_id l) (m_sockaddr l) (m_addr_set l) (m_role l) v (m_peer_client_id l)
    (m_peer_session_id l) (m_last_recv l) (m_last_heartbeat_sent l) (m_last_handshake_sent l)
    (m_last_report_sent l) (m_sender_rtt_us l) (m_reconnect l) (m_drop_log l) (m_retransmit l)
    (m_peer_retransmit l).
Definition put_peer_client_id v (l : LinkInfo) : LinkInfo :=
  mkLink (m_id l) (m_sockaddr l) (m_addr_set l) (m_role l) (m_state l) v (m_peer_session_id
    l) (m_last_recv l) (m_last_heartbeat_sent l) (m_last_handshake_sent l) (m_last_report_sent
    l) (m_sender_rtt_us l) (m_reconnect l) (m_drop_log l) (m_retransmit l) (m_peer_retransmit
    l).
Definition put_peer_session_id v (l : LinkInfo) : LinkInfo :=
  mkLink (m_id l) (m_sockaddr l) (m_addr_set l) (m_role l) (m_state l) (m_peer_client_id l)
    v (m_last_recv l) (m_last_heartbeat_sent l) (m_last_handshake_sent l) (m_last_report_sent
    l) (m_sender_rtt_us l) (m_reconnect l) (m_drop_log l) (m_retransmit l) (m_peer_retransmit
    l).
Definition put_last_recv v (l : LinkInfo) : LinkInfo :=
  mkLink (m_id l) (m_sockaddr l) (m_addr_set l) (m_role l) (m_state l) (m_peer_client_id l)
    (m_peer_session_id l) v (m_last_heartbeat_sent l) (m_last_handshake_sent l)
    (m_last_report_sent l) (m_sender_rtt_us l) (m_reconnect l) (m_drop_log l) (m_retransmit l)
    (m_peer_retransmit l).
Definition put_last_heartbeat_sent v (l : LinkInfo) : LinkInfo :=
  mkLink (m_id l) (m_sockaddr l) (m_addr_set l) (m_role l) (m_state l) (m_peer_client_id l)
    (m_peer_session_id l) (m_last_recv l) v (m_last_handshake_sent l) (m_last_report_sent l)
    (m_sender_rtt_us l) (m_reconnect l) (m_drop_log l) (m_retransmit l) (m_peer_retransmit l).
Definition put_last_handshake_sent v (l : LinkInfo) : LinkInfo :=
  mkLink (m_id l) (m_sockaddr l) (m_addr_set l) (m_role l) (m_state l) (m_peer_client_id l)
    (m_peer_session_id l) (m_last_recv l) (m_last_heartbeat_sent l) v (m_last_report_sent l)
    (m_sender_rtt_us l) (m_reconnect l) (m_drop_log l) (m_retransmit l) (m_peer_retransmit l).
Definition put_last_report_sent v (l : LinkInfo) : LinkInfo :=
  mkLink (m_id l) (m_sockaddr l) (m_addr_set l) (m_role l) (m_state l) (m_peer_client_id l)
    (m_peer_session_id l) (m_last_recv l) (m_last_heartbeat_sent l) (m_last_handshake_sent l)
    v (m_sender_rtt_us l) (m_reconnect l) (m_drop_log l) (m_retransmit l) (m_peer_retransmit
    l).
Definition put_sender_rtt_us v (l : LinkInfo) : LinkInfo :=
  mkLink (m_id l) (m_sockaddr l) (m_addr_set l) (m_role l) (m_state l) (m_peer_client_id l)
    (m_peer_session_id l) (m_last_recv l) (m_last_heartbeat_sent l) (m_last_handshake_sent l)
    (m_last_report_sent l) v (m_reconnect l) (m_drop_log l) (m_retransmit l)
    (m_peer_retransmit l).
Definition put_reconnect v (l : LinkInfo) : LinkInfo :=
  mkLink (m_id l) (m_sockaddr l) (m_addr_set l) (m_role l) (m_state l) (m_peer_client_id l)
    (m_peer_session_id l) (m_last_recv l) (m_last_heartbeat_sent l) (m_last_handshake_sent l)
    (m_last_report_sent l) (m_sender_rtt_us l) v (m_drop_log l) (m_retransmit l)
    (m_peer_retransmit l).
Definition put_drop_log v (l : LinkInfo) : LinkInfo :=
  mkLink (m_id l) (m_sockaddr l) (m_addr_set l) (m_role l) (m_state l) (m_peer_client_id l)
    (m_peer_session_id l) (m_last_recv l) (m_last_heartbeat_sent l) (m_last_handshake_sent l)
    (m_last_report_sent l) (m_sender_rtt_us l) (m_reconnect l) v (m_retransmit l)
    (m_peer_retransmit l).
Definition put_retransmit v (l : LinkInfo) : LinkInfo :=
  mkLink (m_id l) (m_sockaddr l) (m_addr_set l) (m_role l) (m_state l) (m_peer_client_id l)
    (m_peer_session_id l) (m_last_recv l) (m_last_heartbeat_sent l) (m_last_handshake_sent l)
    (m_last_report_sent l) (m_sender_rtt_us l) (m_reconnect l) (m_drop_log l) v
    (m_peer_retransmit l).
Definition put_peer_retransmit v (l : LinkInfo) : LinkInfo :=
  mkLink (m_id l) (m_sockaddr l) (m_addr_set l) (m_role l) (m_state l) (m_peer_client_id l)
    (m_peer_session_id l) (m_last_recv l) (m_last_heartbeat_sent l) (m_last_handshake_sent l)
    (m_last_report_sent l) (m_sender_rtt_us l) (m_reconnect l) (m_drop_log l) (m_retransmit l)
    v.

Definition modify_link (f : LinkInfo -> LinkInfo) : H unit :=
  p ← get_peer; put_peer (set_link (f (link p)) p).

Definition modify_bw (f : Bandwidth.Estimator -> Bandwidth.Estimator) : H unit :=
  b ← get_bw; put_bw (f b).

Section Handlers.
Context (E : Env).

(** Low 32 bits of the wall clock, in every header. *)
Definition tick_now : Z := Z.land (unix_millis E) 0xFFFFFFFF.

(** [static_cast<std::uint32_t>(m_bandwidth.rtt().count())]. *)
Definition rtt_us (b : Bandwidth.Estimator) : Z := u32 (Bandwidth.rtt b).

Definition max_message_bytes : Z :=
  Z.max (8 * 1024) (Z.min (Types.max_message_bytes (config E)) (10 * 1024 * 1024)).

(** ** Callbacks *)

Definition fire_peer_event (new_state : LinkState) : H unit :=
  p ← get_peer;
  when (m_peer_cb E)
    (emit (OnPeer (mkPeerEvent (m_id (link p)) (m_role (link p)) new_state (m_peer_client_id (link p))))).

Definition fire_command (payload : bytes) : H unit :=
  p ← get_peer; when (m_command_cb E) (emit (OnCommand (m_id (link p)) payload)).

Definition deliver_message (payload : bytes) : H unit :=
  p ← get_peer; when (m_message_cb E) (emit (OnMessage (m_id (link p)) payload)).

(** ** Sending *)

Definition send_raw (datagram : bytes) : H unit :=
  p ← get_peer;
  when (m_addr_set (link p) && sock_open E) (emit (Enqueue datagram)).

(** Header of a control packet: everything the senders below leave at zero. *)
Definition base_header (t : PacketType) (seq ack size : Z) : PacketHeader :=
  mkHeader kMagic kVersion t 0 (m_local_client_id E) (m_local_session_id E) seq ack 0 0 0 size 0
    tick_now 0.

(** [auto& ps = m_pending\[seq\]] followed by the assignments. *)
Definition store_pending (seq : Z) (h : PacketHeader) (payload : bytes) (last_send bytes : Z)
    (s : Sending) : Sending :=
  mkSending (m_sequence_out s) (m_msg_id_out s)
    (<[seq := mkPending h payload last_send bytes
               (match m_pending s !! seq with Some ps => m_retries ps | None => 0 end)]> (m_pending s))
    (m_peer_late_ratio s).

(** [m_pending\[seq\].m_bytes = n]. *)
Definition store_bytes (seq n : Z) (s : Sending) : Sending :=
  let ps := default (mkPending empty_header [] 0 0 0) (m_pending s !! seq) in
  mkSending (m_sequence_out s) (m_msg_id_out s)
    (<[seq := mkPending (m_header ps) (m_payload ps) (m_last_send ps) n (m_retries ps)]> (m_pending s))
    (m_peer_late_ratio s).

Definition modify_sending (f : Sending -> Sending) : H unit :=
  p ← get_peer; put_peer (set_sending (f (sending p)) p).

(** [m_sequence_out++]. *)
Definition next_sequence : H Z :=
  p ← get_peer;
  let s := sending p in
  put_peer (set_sending (mkSending (u32 (m_sequence_out s + 1)) (m_msg_id_out s) (m_pending s)
                           (m_peer_late_ratio s)) p) ;;
  mret (m_sequence_out s).

Definition send_control (t : PacketType) (payload : bytes) (ackable : bool) : H unit :=
  seq ← (if ackable then next_sequence else mret 0);
  let header := base_header t seq 0 (u16 (Z.of_nat (length payload))) in
  let datagram := encode header payload in
  send_raw datagram ;;
  when ackable
    (modify_sending (store_pending seq header payload (now E) (Z.of_nat (length datagram)))).

Definition send_ack_packet (ack : Z) : H unit :=
  send_raw (encode (base_header Ack 0 ack 0) []).

(** Payload of a handshake: role, id, token, public key, capability flags. *)
Definition handshake_payload : bytes :=
  let cfg := config E in
  let id := bytes_of_string (cfg_id cfg) in
  let id_size := u16 (Z.min (Z.of_nat (length id)) 65535) in
  [role_code (role cfg); u8 (Z.land (Z.shiftr id_size 8) 0xFF); u8 (Z.land id_size 0xFF)] ++
  take (Z.to_nat id_size) id ++ bytes_of_string (token cfg) ++
  (if encryption_enabled cfg then public_key E else []) ++
  [if retransmit_enabled cfg then 1 else 0].

Definition send_handshake : H unit :=
  modify_link (put_last_handshake_sent (now E)) ;;
  send_control Handshake handshake_payload true.

(** Payload sizes of a speed-test train; [fuel] bounds the packets. *)
Fixpoint probe_sizes (fuel : nat) (frag total sent : Z) : list Z :=
  match fuel with
  | O => []
  | S fuel =>
      if sent <? total then
        let n := Z.min frag (total - sent) in n :: probe_sizes fuel frag total (sent + n)
      else []
  end.

Definition probe_frag : Z :=
  if Z.of_nat kHeaderSize <? mtu (config E) then mtu (config E) - Z.of_nat kHeaderSize else 1152.

Definition probe_packet (n : Z) : bytes :=
  encode (base_header Probe 0 0 (u16 n)) (replicate (Z.to_nat n) 0).

Definition send_speed_test : H unit :=
  if negb (speed_test_enabled (config E)) then skip else
  p ← get_peer;
  if negb (m_addr_set (link p)) || negb (sock_open E) then skip else
  let total := speed_test_bytes (config E) in
  for_each (probe_sizes (Z.to_nat total) probe_frag total 0)
    (fun n => emit (SendTo (m_sockaddr (link p)) (probe_packet n))).

(** One fragment becomes a packet. *)
Definition data_header (f : Fragmenter.Fragment) (seq size : Z) : PacketHeader :=
  mkHeader kMagic kVersion
    (if Fragmenter.f_idx f + 1 =? Fragmenter.f_cnt f then Parity else Data)
    (Fragmenter.f_data_cnt f) (m_local_client_id E) (m_local_session_id E) seq 0
    (Fragmenter.f_msg_id f) (Fragmenter.f_idx f) (Fragmenter.f_cnt f) size
    (Fragmenter.f_real_size f) tick_now 0.

Definition send_data_packet (f : Fragmenter.Fragment) : H unit :=
  let payload := resize0 (Fragmenter.f_width f) (Fragmenter.f_data f) in
  let is_data := negb (Fragmenter.f_idx f + 1 =? Fragmenter.f_cnt f) in
  let is_acked_data := Fragmenter.f_ackable f && is_data in
  p ← get_peer;
  let keep_pending := is_acked_data && retransmit_enabled (config E) && m_peer_retransmit (link p) in
  seq ← (if is_acked_data then next_sequence else mret 0);
  let header := data_header f seq (u16 (Z.of_nat (length payload))) in
  when keep_pending (modify_sending (store_pending seq header payload (now E) 0)) ;;
  datagram ← lift (build_wire_packet (encryption_enabled (config E)) (crypto p) header payload);
  send_raw datagram ;;
  when keep_pending (modify_sending (store_bytes seq (Z.of_nat (length datagram)))).

(** The encoder's task for one message; [log2] is the C library's, [scratch]
    the contents of the reused parity buffers. *)
Definition fragment_and_send (log2 : F64.double -> F64.double) (scratch : list bytes)
    (payload : bytes) : H unit :=
  p ← get_peer;
  '(s, frags) ← lift (Fragmenter.fragment_and_send log2 (sending p) payload (mtu (config E)) scratch);
  put_peer (set_sending s p) ;;
  for_each frags send_data_packet.

(** The part of [send_command] that acts on the peer it found; [false] when
    the link is not online. *)
Definition send_command_to (payload : bytes) : H bool :=
  p ← get_peer;
  if negb (bool_decide (m_state (link p) = Types.Online)) then mret false else
  let c := cmd p in
  put_peer (set_cmd (mkCommand (u32 (m_cmd_seq_out c + 1)) (m_cmd_next_expected c)
                       (m_cmd_initialized c) (m_cmd_held c) (m_cmd_gap_since c)) p) ;;
  let header := base_header Command (m_cmd_seq_out c) 0 (u16 (Z.of_nat (length payload))) in
  datagram ← lift (build_wire_packet (encryption_enabled (config E)) (crypto p) header payload);
  send_raw datagram ;;
  mret true.

(** ** Clock synchronisation *)

Definition sync_clock (tick arrival_ms : Z) : H unit :=
  if tick =? 0 then skip else
  b ← get_bw;
  p ← get_peer;
  let c := clock p in
  let rtt := Bandwidth.rtt b in
  if rtt <=? 0 then
    put_peer (set_clock (mkClock (m_clock_offset_us c) (m_clock_synced c) true tick arrival_ms) p)
  else
    let arrival_low := Z.land arrival_ms 0xFFFFFFFF in
    let sample_us := s32 (u32 (tick - arrival_low)) * 1000 - Z.quot rtt 2 in
    let offset := if m_clock_synced c then Z.quot (m_clock_offset_us c * 7 + sample_us) 8
                  else sample_us in
    put_peer (set_clock (mkClock offset true false (m_hs_tick c) (m_hs_arrival_ms c)) p).

Definition try_sync_clock : H unit :=
  p ← get_peer;
  when (m_clock_pending (clock p)) (sync_clock (m_hs_tick (clock p)) (m_hs_arrival_ms (clock p))).

Definition feed_rtt_from_tick (tick : Z) : H unit :=
  p ← get_peer;
  let transit_us := transit_time_us (clock p) tick (unix_millis E) in
  if (transit_us <? 0) || (10000000 <? transit_us) then skip else
  modify_bw (fun b => Bandwidth.on_ack b 0 (transit_us * 2)).

(** ** Handshake *)

Definition string_of_bytes (bs : bytes) : string :=
  String.string_of_list_ascii ((fun b => Ascii.ascii_of_N (Z.to_N b)) <$> bs).

Definition reset_commands : H unit :=
  p ← get_peer; put_peer (set_cmd (CommandChannel.reset (cmd p)) p).

Definition derive_key (peer_pub : bytes) (peer_client_id : Z) : H unit :=
  p ← get_peer;
  put_peer (set_crypto (derive_session_key (private_key E) peer_pub (m_local_client_id E)
                          peer_client_id (crypto p)) p).

Definition set_state (s : LinkState) : H unit := modify_link (put_state s).

(** Tail of a handshake payload after role and id: token, key and flags. *)
Record HandshakeTail := mkTail {
  tail_flags : option bool;
  tail_pub : option bytes;
  tail_token : bytes }.

Definition split_tail (rest : bytes) : HandshakeTail :=
  let flags := match last rest with Some b => Some (negb (Z.land b 1 =? 0)) | None => None end in
  let rest := take (length rest - 1) rest in
  if encryption_enabled (config E) && (32 <=? length rest)%nat then
    mkTail flags (Some (drop (length rest - 32) rest)) (take (length rest - 32) rest)
  else mkTail flags None rest.

Definition ack_payload : bytes :=
  (if encryption_enabled (config E) then public_key E else []) ++
  [if retransmit_enabled (config E) then 1 else 0].

Definition handle_handshake (header : PacketHeader) (payload : bytes) : H unit :=
  if (length payload <? 3)%nat then skip else
  role_byte ← lift (at_index payload 0);
  b1 ← lift (at_index payload 1);
  b2 ← lift (at_index payload 2);
  let id_size := Z.lor (u16 (Z.shiftl b1 8)) b2 in
  let body := Z.to_nat (3 + id_size) in
  if (length payload <? body)%nat then skip else
  let peer_id := string_of_bytes (take (Z.to_nat id_size) (drop 3 payload)) in
  let t := split_tail (drop body payload) in
  match tail_flags t with
  | Some b => modify_link (put_peer_retransmit b)
  | None => skip
  end ;;
  if negb (bool_decide (string_of_bytes (tail_token t) = token (config E))) then skip else
  sync_clock (tick header) (unix_millis E) ;;
  reset_commands ;;
  when (0 <? id_size) (modify_link (put_id peer_id)) ;;
  modify_link (put_role (if role_byte =? role_code Node then Node else Leaf)) ;;
  match tail_pub t with
  | Some pub => derive_key pub (client_id header)
  | None => skip
  end ;;
  p ← get_peer;
  when (negb (m_reconnect (link p)) && m_addr_set (link p)) (send_handshake) ;;
  p ← get_peer;
  when (negb (bool_decide (m_state (link p) = Established)) &&
        negb (bool_decide (m_state (link p) = Types.Online)))
    (set_state Established ;; fire_peer_event Established) ;;
  send_control HandshakeAck ack_payload true.

Definition handle_handshake_ack (header : PacketHeader) (payload : bytes) : H unit :=
  sync_clock (tick header) (unix_millis E) ;;
  reset_commands ;;
  match last payload with
  | None => skip
  | Some b =>
      modify_link (put_peer_retransmit (negb (Z.land b 1 =? 0))) ;;
      let tail := (length payload - 1)%nat in
      when (encryption_enabled (config E) && (32 <=? tail)%nat)
        (derive_key (take 32 (drop (tail - 32) payload)) (client_id header))
  end ;;
  p ← get_peer;
  if bool_decide (m_state (link p) = Types.Online) then skip else
  when (bool_decide (m_state (link p) = Types.Handshake) || bool_decide (m_state (link p) = Established))
    (send_control Online [] true ;;
     set_state Types.Online ;;
     fire_peer_event Types.Online ;;
     send_speed_test).

Definition handle_online : H unit :=
  p ← get_peer;
  when (negb (bool_decide (m_state (link p) = Types.Online)))
    (set_state Types.Online ;; fire_peer_event Types.Online ;; send_speed_test).

(** ** Link maintenance *)

Definition handle_heartbeat (header : PacketHeader) (payload : bytes) : H unit :=
  when (4 <=? length payload)%nat
    (modify_link (put_sender_rtt_us (to_be32 (load_le (take 4 payload))))) ;;
  sync_clock (tick header) (unix_millis E) ;;
  feed_rtt_from_tick (tick header).

Definition handle_probe (header : PacketHeader) : H unit :=
  p ← get_peer;
  pr ← lift (finalize_probe_train (probe p) (now E));
  let first := if m_probe_count pr =? 0 then now E else m_probe_first pr in
  put_peer (set_probe (mkProbe first (now E)
    (u64 (m_probe_bytes pr + (Z.of_nat kHeaderSize + payload_size header)))
    (u32 (m_probe_count pr + 1)) (m_probe_bw_bps pr)) p).

Definition handle_bye : H unit :=
  p ← get_peer;
  when (negb (bool_decide (m_state (link p) = Closed)))
    (set_state Closed ;; fire_peer_event Closed).

(** ** Data, commands, acknowledgements, reports *)

Definition handle_data (header : PacketHeader) (payload : bytes) : H unit :=
  b ← get_bw;
  p ← get_peer;
  '(p, msgs) ← lift (Reassembler.handle_data p header payload (rtt_us b)
                       (late_rtt_multiplier (config E)) max_message_bytes (now E) (unix_millis E)
                       (log_now E));
  put_peer p ;;
  for_each msgs (deliver_message).

Definition handle_command (header : PacketHeader) (payload : bytes) : H unit :=
  b ← get_bw;
  p ← get_peer;
  let '(c, ready) := CommandChannel.handle (cmd p) (sequence header) payload (rtt_us b) (now E) in
  put_peer (set_cmd c p) ;;
  for_each ready (fire_command).

Definition handle_ack (header : PacketHeader) : H unit :=
  let ack := acknowledgment header in
  if ack =? 0 then skip else
  p ← get_peer;
  let s := sending p in
  match m_pending s !! ack with
  | None => skip
  | Some ps =>
      put_peer (set_sending (mkSending (m_sequence_out s) (m_msg_id_out s) (delete ack (m_pending s))
                               (m_peer_late_ratio s)) p) ;;
      let rtt := Z.quot (now E - m_last_send ps) 1000 in
      modify_bw (fun b => Bandwidth.on_ack b (m_bytes ps) (if rtt <? 0 then 0 else rtt)) ;;
      try_sync_clock
  end.

Definition handle_report (header : PacketHeader) (payload : bytes) : H unit :=
  feed_rtt_from_tick (tick header) ;;
  p ← get_peer;
  let '(s, resends, probe_bw) := Report.handle (sending p) payload (now E) in
  put_peer (set_sending s p) ;;
  for_each resends (fun '(h, pl) =>
    d ← lift (build_wire_packet (encryption_enabled (config E)) (crypto p) h pl); send_raw d) ;;
  modify_bw (fun b => Bandwidth.on_late_ratio b (m_peer_late_ratio s)) ;;
  when (0 <? probe_bw) (modify_bw (fun b => Bandwidth.seed_bandwidth b probe_bw)).

(** ** Dispatch *)

(** The acknowledged packet types. *)
Definition wants_ack (t : PacketType) : bool :=
  match t with Handshake | HandshakeAck | Online => true | _ => false end.

Definition dispatch (header : PacketHeader) (payload : bytes) : H unit :=
  match type header with
  | Handshake => handle_handshake header payload
  | HandshakeAck => handle_handshake_ack header payload
  | Online => handle_online
  | Heartbeat => handle_heartbeat header payload
  | Bye => handle_bye
  | Data | Parity => handle_data header payload
  | Ack => handle_ack header
  | Wire.Report => handle_report header payload
  | Probe => handle_probe header
  | Command => handle_command header payload
  | UnknownType _ => skip
  end.

(** [handle_packet] once the peer has been found. *)
Definition handle_packet (header : PacketHeader) (payload : bytes) : H unit :=
  modify_link (put_last_recv (now E)) ;;
  p ← get_peer;
  when ((m_peer_client_id (link p) =? 0) && negb (client_id header =? 0))
    (modify_link (put_peer_client_id (client_id header))) ;;
  when ((m_peer_session_id (link p) =? 0) && negb (session_id header =? 0))
    (modify_link (put_peer_session_id (session_id header))) ;;
  match open_payload (crypto p) header payload with
  | None => skip
  | Some (header, payload) =>
      dispatch header payload ;;
      when (wants_ack (type header)) (send_ack_packet (sequence header))
  end.

(** ** Periodic duties *)

Definition linked (s : LinkState) : bool :=
  bool_decide (s = Established) || bool_decide (s = Types.Online).

(** Body of [send_handshakes]. *)
Definition tick_handshake : H unit :=
  p ← get_peer;
  when (bool_decide (m_state (link p) = Types.Handshake) && bool_decide (m_pending (sending p) = ∅))
    (send_handshake).

(** Body of [send_heartbeats]. *)
Definition tick_heartbeat : H unit :=
  p ← get_peer;
  b ← get_bw;
  when (linked (m_state (link p)) && negb (now E - m_last_heartbeat_sent (link p) <? ms (heartbeat (config E))))
    (send_control Heartbeat (store_le 4 (to_be32 (rtt_us b))) false ;;
     modify_link (put_last_heartbeat_sent (now E))).

(** Body of [send_reports]. *)
Definition tick_report : H unit :=
  p ← get_peer;
  when (linked (m_state (link p)) && negb (now E - m_last_report_sent (link p) <? ms (report_interval (config E))))
    ('(p, payload) ← lift (Report.build_payload p (now E) (report_interval (config E)));
     put_peer p ;;
     send_raw (encode (base_header Wire.Report 0 0 (u16 (Z.of_nat (length payload)))) payload) ;;
     modify_link (put_last_report_sent (now E))).

(** Entries younger than the dead timeout. *)
Definition fresh_entry (since : Z) : bool := negb (ms (dead_timeout (config E)) <=? now E - since).

Definition expire_asm (a : Assembly) : Assembly :=
  mkAssembly (filter (fun '(_, m) => fresh_entry (m_first_seen m) = true) (m_incoming a))
    (filter (fun '(_, since) => fresh_entry since = true) (m_completed a)) (m_oversize_log_ts a).

(** Body of [check_offline]. *)
Definition tick_offline : H unit :=
  p ← get_peer;
  put_peer (set_asm (expire_asm (asm p)) p) ;;
  when (linked (m_state (link p)) && (ms (dead_timeout (config E)) <=? now E - m_last_recv (link p)))
    (set_state Closed ;;
     modify_sending (fun s => mkSending (m_sequence_out s) (m_msg_id_out s) ∅ (m_peer_late_ratio s)) ;;
     fire_peer_event Closed ;;
     when (m_reconnect (link p))
       (set_state Types.Handshake ;;
        modify_link (put_last_handshake_sent (now E - ms (retransmit_timeout (config E)))) ;;
        modify_link (put_last_recv (now E)))).

(** Body of [flush_commands]. *)
Definition tick_commands : H unit :=
  b ← get_bw;
  p ← get_peer;
  let '(c, ready) := CommandChannel.flush_expired (cmd p) (rtt_us b) (now E) in
  put_peer (set_cmd c p) ;;
  for_each ready (fire_command).

(** Body of [send_byes]: the destructor's farewell, straight to the socket. *)
Definition send_bye : H unit :=
  p ← get_peer;
  when (negb (bool_decide (m_state (link p) = Closed)) && m_addr_set (link p))
    (emit (SendTo (m_sockaddr (link p))
       (encode (mkHeader kMagic kVersion Bye 0 (m_local_client_id E) (m_local_session_id E)
                  0 0 0 0 0 0 0 0 0) [])) ;;
     set_state Closed).

End Handlers.
End Endpoint.
