(* ===== verification/Link.v ===== *)
(** * The link state machine (tight/src/transport.cpp)

    What the packet handlers do to the state of a link and which peer events
    they raise. [calm] handlers neither change the state nor raise an event;
    [does] describes one that performs a transition. Both are total statements:
    the handler returns. *)
From stdpp Require Import base list numbers option strings gmap.
From Stdlib Require Import ZArith Lia.
From S2P Require Import Prelude Wire Codec Float64 Maps Types Peer.
From S2P Require Import Report Fragmenter Reassembler Command Bandwidth Packets Endpoint.

Local Open Scope Z_scope.
Import Types Wire PacketCodec Peer Packets Endpoint.

Module Link.

Definition st (s : St) : LinkState := m_state (link (peer s)).

(** States announced by the peer callbacks among the effects. *)
Definition evs (l : list Effect) : list LinkState :=
  omap (fun e => match e with OnPeer ev => Some (ev_state ev) | _ => None end) l.

Lemma evs_app l1 l2 : evs (l1 ++ l2) = evs l1 ++ evs l2.
Proof. apply omap_app. Qed.

(** ** Rules *)

Definition does {A} (R : LinkState -> LinkState -> list LinkState -> Prop) (m : H A) (s : St) : Prop :=
  exists a s' l, m s = Ok (a, s') /\ out s' = out s ++ l /\ R (st s) (st s') (evs l).

Definition stays (x y : LinkState) (es : list LinkState) : Prop := y = x /\ es = [].

Definition calm {A} (m : H A) : Prop := forall s, does stays m s.

Lemma calm_ret {A} (a : A) : calm (mret a).
Proof. intros s. exists a, s, []. by rewrite app_nil_r. Qed.

Lemma calm_skip : calm skip.
Proof. apply calm_ret. Qed.

Lemma does_bind {A B} R (m : H A) (f : A -> H B) s : calm m ->
  (forall a s', st s' = st s -> does R (f a) s') -> does R (m ≫= f) s.
Proof.
  intros Hm Hf. destruct (Hm s) as (a & s1 & l1 & E1 & O1 & Hst & He).
  destruct (Hf a s1 Hst) as (b & s2 & l2 & E2 & O2 & HR).
  exists b, s2, (l1 ++ l2). split; [|split].
  - unfold mbind, H_bind. by rewrite E1.
  - by rewrite O2, O1, app_assoc.
  - by rewrite evs_app, He, <- Hst.
Qed.

Lemma does_then {A B} R (m : H A) (k : H B) s : does R m s -> calm k -> does R (m ;; k) s.
Proof.
  intros (a & s1 & l1 & E1 & O1 & HR) Hk. destruct (Hk s1) as (b & s2 & l2 & E2 & O2 & Hst & He).
  exists b, s2, (l1 ++ l2). split; [|split].
  - unfold mbind, H_bind. by rewrite E1.
  - by rewrite O2, O1, app_assoc.
  - by rewrite evs_app, He, app_nil_r, Hst.
Qed.

Lemma does_then2 {A B C} R (m : H A) (k1 : H B) (k2 : H C) s :
  does R (m ;; k1) s -> calm k2 -> does R (m ;; (k1 ;; k2)) s.
Proof.
  intros Hm Hk. destruct (does_then R (m ;; k1) k2 s Hm Hk) as (a & s' & l & E & O & HR).
  exists a, s', l. split; [|done]. rewrite <- E. unfold mbind, H_bind. by destruct (m s) as [[]|].
Qed.

Lemma calm_bind {A B} (m : H A) (f : A -> H B) : calm m -> (forall a, calm (f a)) -> calm (m ≫= f).
Proof. intros Hm Hf s. apply does_bind; [done|]. intros a s' _. apply Hf. Qed.

(** Reading the peer: the continuation sees the peer of the current state. *)
Lemma does_get_peer {B} R (f : Peer -> H B) s : does R (f (peer s)) s -> does R (get_peer ≫= f) s.
Proof. done. Qed.

Lemma calm_get_peer : calm get_peer.
Proof. intros s. exists (peer s), s, []. by rewrite app_nil_r. Qed.
Lemma calm_get_bw : calm get_bw.
Proof. intros s. exists (m_bandwidth s), s, []. by rewrite app_nil_r. Qed.
Lemma calm_put_bw b : calm (put_bw b).
Proof. intros s. eexists _, _, []. by rewrite app_nil_r. Qed.
Lemma calm_modify_bw f : calm (modify_bw f).
Proof. apply calm_bind; [apply calm_get_bw|]. intros. apply calm_put_bw. Qed.

Lemma calm_emit e : evs [e] = [] -> calm (emit e).
Proof. intros He s. by eexists _, _, [e]. Qed.

Lemma calm_when b (m : H unit) : calm m -> calm (when b m).
Proof. intros Hm. destruct b; [done|apply calm_skip]. Qed.

Lemma calm_if {A} b (m k : H A) : calm m -> calm k -> calm (if b : bool then m else k).
Proof. by destruct b. Qed.

Lemma calm_for_each {A} (l : list A) f : (forall x, calm (f x)) -> calm (for_each l f).
Proof. intros Hf. induction l; simpl; [apply calm_skip|]. by apply calm_bind. Qed.

(** Updates that leave the link's state alone. *)
Lemma calm_update (f : Peer -> Peer) :
  (forall p, m_state (link (f p)) = m_state (link p)) -> calm (p ← get_peer; put_peer (f p)).
Proof.
  intros Hf s. exists tt, (mkSt (f (peer s)) (m_bandwidth s) (out s)), []. rewrite app_nil_r.
  split; [done|]. split; [done|]. split; [apply Hf|done].
Qed.

Lemma does_put {B} R p (k : H B) s :
  m_state (link p) = st s -> calm k -> R = stays -> does R (put_peer p ;; k) s.
Proof.
  intros Hp Hk ->. destruct (Hk (mkSt p (m_bandwidth s) (out s))) as (b & s' & l & E & O & Hst & He).
  exists b, s', l. split; [done|]. split; [done|]. split; [|done]. by rewrite Hst.
Qed.

Lemma calm_update_then {B} (f : Peer -> Peer) (k : Peer -> H B) :
  (forall p, m_state (link (f p)) = m_state (link p)) -> (forall p, calm (k p)) ->
  calm (p ← get_peer; put_peer (f p) ;; k p).
Proof. intros Hf Hk s. apply does_get_peer, does_put; [apply Hf|apply Hk|done]. Qed.

Lemma calm_modify_link f : (forall l, m_state (f l) = m_state l) -> calm (modify_link f).
Proof. intros Hf. apply (calm_update (fun p => set_link (f (link p)) p)). intros p. apply Hf. Qed.

Lemma calm_modify_sending f : calm (modify_sending f).
Proof. by apply (calm_update (fun p => set_sending (f (sending p)) p)). Qed.

Lemma calm_next_sequence : calm next_sequence.
Proof. apply (calm_update_then (fun p => set_sending _ p)); [done|]. intros. apply calm_ret. Qed.

Create HintDb calm.
#[export] Hint Resolve calm_ret calm_skip calm_get_peer calm_get_bw calm_put_bw calm_modify_bw
  calm_modify_sending calm_next_sequence calm_bind calm_when calm_if calm_for_each : calm.
#[export] Hint Extern 2 (calm (emit _)) => apply calm_emit; reflexivity : calm.
#[export] Hint Extern 2 (calm (modify_link _)) => apply calm_modify_link; by intros [] : calm.

(** Decomposes a handler into calm steps. *)
Ltac calm :=
  repeat first
    [ progress intros
    | progress (eauto 2 with calm)
    | apply calm_bind
    | apply calm_when
    | apply calm_if
    | apply calm_for_each
    | match goal with |- calm (match ?x with _ => _ end) => destruct x end ].

Section Handlers.
Context (E : Env).

Lemma calm_send_raw d : calm (send_raw E d).
Proof. unfold send_raw. calm. Qed.
Hint Resolve calm_send_raw : calm.

Lemma calm_send_control t pl b : calm (send_control E t pl b).
Proof. unfold send_control. calm. Qed.
Hint Resolve calm_send_control : calm.

Lemma calm_send_ack a : calm (send_ack_packet E a).
Proof. apply calm_send_raw. Qed.
Lemma calm_send_handshake : calm (send_handshake E).
Proof. unfold send_handshake. calm. Qed.
Lemma calm_send_speed_test : calm (send_speed_test E).
Proof. unfold send_speed_test. calm. Qed.
Lemma calm_fire_command pl : calm (fire_command E pl).
Proof. unfold fire_command. calm. Qed.
Lemma calm_deliver pl : calm (deliver_message E pl).
Proof. unfold deliver_message. calm. Qed.
Hint Resolve calm_send_ack calm_send_handshake calm_send_speed_test calm_fire_command calm_deliver : calm.

Lemma calm_sync_clock t a : calm (sync_clock t a).
Proof.
  unfold sync_clock. destruct (t =? 0); [calm|]. apply calm_bind; [calm|]. intros b.
  destruct (Bandwidth.rtt b <=? 0);
    [apply (calm_update (fun p => set_clock (mkClock (m_clock_offset_us (clock p)) (m_clock_synced (clock p)) true t a) p)); done|].
  apply (calm_update (fun p => let c := clock p in set_clock (mkClock _ true false (m_hs_tick c) (m_hs_arrival_ms c)) p)).
  done.
Qed.

Lemma calm_feed_rtt t : calm (feed_rtt_from_tick E t).
Proof. unfold feed_rtt_from_tick. calm. Qed.

Lemma calm_reset : calm reset_commands.
Proof. by apply (calm_update (fun p => set_cmd (CommandChannel.reset (cmd p)) p)). Qed.

Lemma calm_derive_key pub id : calm (derive_key E pub id).
Proof. by apply (calm_update (fun p => set_crypto (derive_session_key (private_key E) pub
  (m_local_client_id E) id (crypto p)) p)). Qed.
Hint Resolve calm_sync_clock calm_feed_rtt calm_reset calm_derive_key : calm.

Lemma calm_try_sync : calm try_sync_clock.
Proof. unfold try_sync_clock. calm. Qed.
Hint Resolve calm_try_sync : calm.

(** ** Handlers that leave the state alone *)

Lemma calm_heartbeat h pl : calm (handle_heartbeat E h pl).
Proof. unfold handle_heartbeat. calm. Qed.

Lemma calm_command h pl : calm (handle_command E h pl).
Proof.
  unfold handle_command. apply calm_bind; [calm|]. intros b s. apply does_get_peer.
  destruct (CommandChannel.handle _ _ _ _ _) as [c ready].
  apply does_put; [done|calm|done].
Qed.

Lemma calm_ack h : calm (handle_ack E h).
Proof.
  unfold handle_ack. destruct (_ =? 0); [calm|]. intros s. apply does_get_peer.
  case_match; [|apply calm_skip]. apply does_put; [done|calm|done].
Qed.

Lemma calm_tick_commands : calm (tick_commands E).
Proof.
  unfold tick_commands. apply calm_bind; [calm|]. intros b s. apply does_get_peer.
  destruct (CommandChannel.flush_expired _ _ _) as [c ready]. apply does_put; [done|calm|done].
Qed.

(** ** Transitions *)

(** The transitions a packet may cause, with the event that announces each. *)
Inductive link_step : PacketType -> LinkState -> LinkState -> list LinkState -> Prop :=
  | step_none t x : link_step t x x []
  | step_handshake x : x = Closed \/ x = Types.Handshake ->
      link_step Handshake x Established [Established]
  | step_ack x : x = Types.Handshake \/ x = Established ->
      link_step HandshakeAck x Types.Online [Types.Online]
  | step_online x : x <> Types.Online -> link_step Online x Types.Online [Types.Online]
  | step_bye x : x <> Closed -> link_step Bye x Closed [Closed].

(** The same with no callback installed: no event. *)
Definition announced (R : LinkState -> LinkState -> list LinkState -> Prop)
    (x y : LinkState) (es : list LinkState) : Prop :=
  exists es', R x y es' /\ es = if m_peer_cb E then es' else [].

Lemma does_stays R m s : does stays m s -> (forall x, R x x []) -> does (announced R) (m : H unit) s.
Proof.
  intros (a & s' & l & E1 & O1 & Hst & He) HR. exists a, s', l. split_and!; [done|done|].
  exists []. rewrite Hst, He. by destruct (m_peer_cb E).
Qed.

Lemma does_set_fire x R s : (forall y, y = st s -> R y x [x]) ->
  does (announced R) (set_state x ;; fire_peer_event E x) s.
Proof.
  intros HR. unfold set_state, modify_link, fire_peer_event, get_peer, put_peer, mbind, H_bind, when, emit.
  destruct (m_peer_cb E) eqn:Ecb.
  - do 2 eexists. exists [OnPeer (mkPeerEvent (m_id (link (peer s))) (m_role (link (peer s))) x
      (m_peer_client_id (link (peer s))))].
    split; [reflexivity|]. split; [done|]. exists [x]. rewrite Ecb. split; [by apply HR|done].
  - do 2 eexists. exists []. split; [reflexivity|]. split; [by rewrite app_nil_r|].
    exists [x]. rewrite Ecb. split; [by apply HR|done].
Qed.

Lemma does_handle_bye s : does (announced (link_step Bye)) (handle_bye E) s.
Proof.
  unfold handle_bye. apply does_get_peer. fold (st s).
  destruct (bool_decide (st s = Closed)) eqn:D; cbn [negb when].
  - apply does_stays; [apply calm_skip|constructor].
  - apply bool_decide_eq_false in D. apply does_set_fire. intros y ->. by constructor.
Qed.

Lemma does_handle_online s : does (announced (link_step Online)) (handle_online E) s.
Proof.
  unfold handle_online. apply does_get_peer. fold (st s).
  destruct (bool_decide (st s = Types.Online)) eqn:D; cbn [negb when].
  - apply does_stays; [apply calm_skip|constructor].
  - apply bool_decide_eq_false in D. apply does_then2; [|calm].
    apply does_set_fire. intros y ->. by constructor.
Qed.

Lemma does_handle_handshake_ack h pl s :
  does (announced (link_step HandshakeAck)) (handle_handshake_ack E h pl) s.
Proof.
  unfold handle_handshake_ack. apply does_bind; [calm|]. intros _ s1 H1.
  apply does_bind; [calm|]. intros _ s2 H2. apply does_bind; [destruct (last pl); calm|]. intros _ s3 H3.
  apply does_get_peer. fold (st s3).
  destruct (bool_decide (st s3 = Types.Online)) eqn:D1; [apply does_stays; [apply calm_skip|constructor]|].
  destruct (bool_decide (st s3 = Types.Handshake) || bool_decide (st s3 = Established)) eqn:D2;
    [|apply does_stays; [apply calm_skip|constructor]].
  cbn [when]. apply does_bind; [calm|]. intros _ s4 H4. apply does_then2; [|calm].
  apply does_set_fire. intros y ->. constructor. rewrite H4.
  apply orb_true_iff in D2 as [D|D]; apply bool_decide_eq_true in D; auto.
Qed.

Lemma calm_lift {A} (r : res A) a : r = Ok a -> calm (lift r).
Proof. intros -> s. exists a, s, []. by rewrite app_nil_r. Qed.

Lemma does_handle_handshake h pl s : does (announced (link_step Handshake)) (handle_handshake E h pl) s.
Proof.
  unfold handle_handshake. destruct (Nat.ltb_spec (length pl) 3) as [|Hl];
    [apply does_stays; [apply calm_skip|constructor]|].
  destruct pl as [|b0 [|b1 [|b2 rest]]]; [simpl in Hl; lia..|]. set (pl := b0 :: b1 :: b2 :: rest).
  apply does_bind; [by eapply calm_lift|]. intros role s0 H0.
  apply does_bind; [by eapply calm_lift|]. intros x1 s1 H1.
  apply does_bind; [by eapply calm_lift|]. intros x2 s2 H2.
  destruct (_ <? _)%nat; [apply does_stays; [apply calm_skip|constructor]|].
  apply does_bind; [destruct (tail_flags _); calm|]. intros _ s3 H3.
  destruct (negb _); [apply does_stays; [apply calm_skip|constructor]|].
  do 3 (apply does_bind; [calm|]; intros _ ?s ?H).
  apply does_bind; [calm|]. intros _ s7 H7.
  apply does_bind; [destruct (tail_pub _); calm|]. intros _ s8 H8. apply does_get_peer.
  apply does_bind; [calm|]. intros _ s9 H9. apply does_get_peer. fold (st s9).
  apply does_then; [|calm].
  destruct (bool_decide (st s9 = Established)) eqn:D1; cbn [negb andb when];
    [apply does_stays; [apply calm_skip|constructor]|].
  destruct (bool_decide (st s9 = Types.Online)) eqn:D2; cbn [negb andb when];
    [apply does_stays; [apply calm_skip|constructor]|].
  apply bool_decide_eq_false in D1, D2.
  apply does_set_fire. intros y ->. constructor. destruct (st s9); auto; done.
Qed.

(** Packets whose handling cannot fail, whatever they carry. *)
Definition control (t : PacketType) : bool :=
  match t with Data | Parity | Wire.Report | Probe => false | _ => true end.

Lemma does_dispatch h pl s : control (type h) = true ->
  does (announced (link_step (type h))) (dispatch E h pl) s.
Proof.
  intros Hc. unfold dispatch. destruct (type h); try done.
  - apply does_handle_handshake.
  - apply does_handle_handshake_ack.
  - apply does_handle_online.
  - apply does_stays; [apply calm_heartbeat|constructor].
  - apply does_handle_bye.
  - apply does_stays; [apply calm_ack|constructor].
  - apply does_stays; [apply calm_command|constructor].
  - apply does_stays; [apply calm_skip|constructor].
Qed.

Lemma open_payload_type c h pl h' pl' : open_payload c h pl = Some (h', pl') -> type h' = type h.
Proof.
  unfold open_payload, decrypt_payload. repeat case_match; intros; simplify_eq; done.
Qed.

(** Connection bookkeeping before a packet is dispatched. *)
Lemma does_handle_packet R h pl s :
  (forall x, R x x []) ->
  (forall h' pl' s', type h' = type h -> does (announced R) (dispatch E h' pl') s') ->
  does (announced R) (handle_packet E h pl) s.
Proof.
  intros HR Hd. unfold handle_packet. apply does_bind; [calm|]. intros _ s1 H1. apply does_get_peer.
  apply does_bind; [calm|]. intros _ s2 H2. apply does_bind; [calm|]. intros _ s3 H3.
  destruct (open_payload _ _ _) as [[h' pl']|] eqn:Ho; [|by apply does_stays; [apply calm_skip|]].
  apply does_then; [|calm]. apply Hd. by eapply open_payload_type.
Qed.

(** ** Traffic: the state is kept whenever the handler returns *)

Definition keeps {A} (m : H A) (s : St) : Prop := forall a s', m s = Ok (a, s') ->
  exists l, out s' = out s ++ l /\ stays (st s) (st s') (evs l).

Lemma calm_keeps {A} (m : H A) s : calm m -> keeps m s.
Proof.
  intros Hm a s' E1. destruct (Hm s) as (a0 & s0 & l & E0 & O0 & HR). rewrite E0 in E1.
  injection E1 as <- <-. by exists l.
Qed.

Lemma keeps_bind {A B} (m : H A) (f : A -> H B) s : keeps m s ->
  (forall a s', m s = Ok (a, s') -> keeps (f a) s') -> keeps (m ≫= f) s.
Proof.
  intros Hm Hf b s'. unfold mbind, H_bind. destruct (m s) as [[a s1]|] eqn:E1; [|done]. intros E2.
  destruct (Hm a s1 E1) as (l1 & O1 & S1 & X1). destruct (Hf a s1 eq_refl b s' E2) as (l2 & O2 & S2 & X2).
  exists (l1 ++ l2). rewrite O2, O1, app_assoc. split; [done|]. split; [congruence|].
  by rewrite evs_app, X1, X2.
Qed.

Lemma keeps_lift {A} (r : res A) s : keeps (lift r) s.
Proof. intros a s'. unfold lift. destruct r; [|done]. intros [= <- <-]. exists []. by rewrite app_nil_r. Qed.

Lemma keeps_put {B} p (k : H B) s : m_state (link p) = st s ->
  keeps k (mkSt p (m_bandwidth s) (out s)) -> keeps (put_peer p ;; k) s.
Proof.
  intros Hp Hk b s' E1. destruct (Hk b s' E1) as (l & O1 & S1 & X1). exists l. split; [done|].
  split; [|done]. by rewrite S1.
Qed.

Lemma keeps_for_each {A} (l : list A) f s : (forall x s, keeps (f x) s) -> keeps (for_each l f) s.
Proof.
  intros Hf. revert s. induction l; intros s; simpl; [apply calm_keeps, calm_skip|].
  apply keeps_bind; [apply Hf|]. intros. apply IHl.
Qed.

Lemma reassembler_link p h pl r lm mx n u ln p' outs :
  Reassembler.handle_data p h pl r lm mx n u ln = Ok (p', outs) -> link p' = link p.
Proof.
  unfold Reassembler.handle_data. intros E1. inv_bind E1. inv_bind E1. destruct a0. by simplify_eq.
Qed.

Lemma keeps_handle_data h pl s : keeps (handle_data E h pl) s.
Proof.
  unfold handle_data. apply keeps_bind; [apply calm_keeps; calm|]. intros b s1 [= <- <-].
  apply keeps_bind; [apply calm_keeps; calm|]. intros p s1 [= <- <-].
  apply keeps_bind; [apply keeps_lift|]. intros [p' msgs] s1 E1. unfold lift in E1.
  destruct (Reassembler.handle_data _ _ _ _ _ _ _ _ _) as [[]|] eqn:E2; [|done]. injection E1 as -> -> <-.
  apply keeps_put; [|apply calm_keeps; calm]. unfold st. by rewrite (reassembler_link _ _ _ _ _ _ _ _ _ _ _ E2).
Qed.

Lemma keeps_handle_report h pl s : keeps (handle_report E h pl) s.
Proof.
  unfold handle_report. apply keeps_bind; [apply calm_keeps; calm|]. intros _ s1 _.
  apply keeps_bind; [apply calm_keeps; calm|]. intros p s2 [= <- <-].
  destruct (Report.handle _ _ _) as [[sd rs] bw]. apply keeps_put; [done|].
  apply keeps_bind; [|intros; apply calm_keeps; calm].
  apply keeps_for_each. intros [h' pl'] s3. apply keeps_bind; [apply keeps_lift|].
  intros. apply calm_keeps. calm.
Qed.

Lemma keeps_handle_probe h s : keeps (handle_probe E h) s.
Proof.
  unfold handle_probe. apply keeps_bind; [apply calm_keeps; calm|]. intros p s1 [= <- <-].
  apply keeps_bind; [apply keeps_lift|]. intros pr s1 E1. unfold lift in E1.
  destruct (finalize_probe_train _ _); [|done]. injection E1 as -> <-.
  intros a s' [= <- <-]. exists []. by rewrite app_nil_r.
Qed.

Lemma keeps_dispatch h pl s : control (type h) = false -> keeps (dispatch E h pl) s.
Proof.
  unfold dispatch. destruct (type h); try done; intros _;
    [apply keeps_handle_data..|apply keeps_handle_report|apply keeps_handle_probe].
Qed.

Lemma keeps_handle_packet h pl s : control (type h) = false -> keeps (handle_packet E h pl) s.
Proof.
  intros Hc. unfold handle_packet. apply keeps_bind; [apply calm_keeps; calm|]. intros _ s1 _.
  apply keeps_bind; [apply calm_keeps; calm|]. intros p s2 _.
  apply keeps_bind; [apply calm_keeps; calm|]. intros _ s3 _.
  apply keeps_bind; [apply calm_keeps; calm|]. intros _ s4 _.
  destruct (open_payload _ _ _) as [[h' pl']|] eqn:Ho; [|apply calm_keeps, calm_skip].
  apply open_payload_type in Ho. apply keeps_bind; [apply keeps_dispatch; congruence|].
  intros. apply calm_keeps. calm.
Qed.

End Handlers.

Lemma control_step E h pl s : control (type h) = true ->
  exists s' l, handle_packet E h pl s = Ok (tt, s') /\ out s' = out s ++ l /\
    exists es, link_step (type h) (st s) (st s') es /\ evs l = if m_peer_cb E then es else [].
Proof.
  intros Hc. destruct (does_handle_packet E (link_step (type h)) h pl s) as ([] & s' & l & E1 & O1 & HR).
  - constructor.
  - intros h' pl' s' Ht. rewrite <- Ht. apply does_dispatch. by rewrite Ht.
  - exists s', l. destruct HR as (es & HR & Hes). split; [done|]. split; [done|]. by exists es.
Qed.

(** C9. Link state machine: handling any packet changes the link's state only
    along the transitions of [link_step] and raises exactly the events that
    announce the changes (none when no peer callback is installed); and a
    control packet with arbitrary contents is always handled to the end,
    without undefined behaviour. *)
Theorem packet_step E h pl s :
  (control (type h) = true -> exists s', handle_packet E h pl s = Ok (tt, s')) /\
  forall s', handle_packet E h pl s = Ok (tt, s') ->
    exists l es, out s' = out s ++ l /\ link_step (type h) (st s) (st s') es /\
      evs l = if m_peer_cb E then es else [].
Proof.
  destruct (control (type h)) eqn:Hc.
  - destruct (control_step E h pl s Hc) as (s1 & l & E1 & O1 & es & HR & Hes). split; [by eauto|].
    intros s'. rewrite E1. intros [= <-]. by exists l, es.
  - split; [done|]. intros s' E1. destruct (keeps_handle_packet E h pl s Hc tt s' E1) as (l & O1 & S1 & X1).
    exists l, []. rewrite S1, X1. split; [done|]. split; [constructor|]. by destruct (m_peer_cb E).
Qed.

(** A peer that has never answered, as [connect] leaves it. *)
Definition demo_env : Env :=
  mkEnv default_config true false 7 9 [] [] true true true 0 1000 0.
Definition demo_peer (x : LinkState) : St :=
  mkSt (set_link (mkLink "p" (mkAddr 1 2) true Node x 0 0 0 0 0 0 0 false true true true) new_peer)
    (Bandwidth.new 1000) [].

Lemma packet_step_witness :
  exists s', handle_packet demo_env (mkHeader kMagic kVersion Bye 0 3 4 0 0 0 0 0 0 0 0 0) []
    (demo_peer Types.Online) = Ok (tt, s') /\ st s' = Closed /\ evs (out s') = [Closed].
Proof.
  destruct (packet_step demo_env (mkHeader kMagic kVersion Bye 0 3 4 0 0 0 0 0 0 0 0 0) []
    (demo_peer Types.Online)) as [Hex Hst].
  destruct (Hex eq_refl) as (s' & E1). destruct (Hst s' E1) as (l & es & O1 & HR & He).
  exists s'. split; [exact E1|]. vm_compute in E1. injection E1 as <-. split; reflexivity.
Defined.

End Link.
