(* ===== verification/Handshake.v ===== *)
(** * The handshake between two endpoints (tight/src/transport.cpp)

    Two engines exchange the packets they emit: the connecting side sends its
    handshake, the accepting side answers, the connecting side goes online and
    tells the other. The theorems follow the datagrams through encoding,
    decoding and the handlers on both sides. *)
From stdpp Require Import base list numbers option strings gmap.
From Stdlib Require Import ZArith Lia.
From S2P Require Import Prelude Wire Codec Float64 Maps Types Peer.
From S2P Require Import Command Bandwidth Sha256 X25519 Packets Endpoint.

Local Open Scope Z_scope.
Import Types Wire PacketCodec Peer Packets Endpoint.

Module Handshaking.

(** ** Strings on the wire *)

Lemma string_bytes_roundtrip s : string_of_bytes (bytes_of_string s) = s.
Proof.
  unfold string_of_bytes, bytes_of_string. rewrite <- list_fmap_compose.
  rewrite <- (String.string_of_list_ascii_of_string s) at 2. f_equal.
  rewrite <- (list_fmap_id (String.list_ascii_of_string s)) at 2. apply list_fmap_ext. intros i c _.
  simpl. by rewrite N2Z.id, Ascii.ascii_N_embedding.
Qed.

Lemma bytes_of_string_ok s : bytes_ok (bytes_of_string s).
Proof.
  apply Forall_fmap, Forall_true. intros c. pose proof (Ascii.N_ascii_bounded c).
  unfold in_width. simpl. lia.
Qed.

(** ** Stepping through a handler *)

(** [m] returns from [s] in a state that satisfies [Q]. *)
Definition gives {A} (m : H A) (s : St) (Q : A -> St -> Prop) : Prop :=
  exists a s', m s = Ok (a, s') /\ Q a s'.

Lemma gives_bind {A B} (m : H A) (f : A -> H B) s Q :
  gives m s (fun a s' => gives (f a) s' Q) -> gives (m ≫= f) s Q.
Proof.
  intros (a & s1 & E1 & b & s2 & E2 & HQ). exists b, s2. split; [|done].
  unfold mbind, H_bind. by rewrite E1.
Qed.

Lemma gives_mono {A} (m : H A) s (Q Q' : A -> St -> Prop) :
  gives m s Q -> (forall a s', Q a s' -> Q' a s') -> gives m s Q'.
Proof. intros (a & s' & E & HQ) H. exists a, s'. auto. Qed.

Lemma gives_get_peer {B} (f : Peer -> H B) s Q : gives (f (peer s)) s Q -> gives (get_peer ≫= f) s Q.
Proof. done. Qed.

(** What a step leaves alone: the state, the keys, the address; sequence
    numbers stay 32-bit values and effects are only added. *)
Record same (s s' : St) (l : list Effect) : Prop := {
  sm_state : m_state (link (peer s')) = m_state (link (peer s));
  sm_crypto : crypto (peer s') = crypto (peer s);
  sm_addr : m_addr_set (link (peer s')) = m_addr_set (link (peer s));
  sm_seq : in_width 32 (m_sequence_out (sending (peer s))) -> in_width 32 (m_sequence_out (sending (peer s')));
  sm_out : out s' = out s ++ l }.

Lemma same_refl s : same s s [].
Proof. split; try done. by rewrite app_nil_r. Qed.

Lemma same_trans s1 s2 s3 l1 l2 : same s1 s2 l1 -> same s2 s3 l2 -> same s1 s3 (l1 ++ l2).
Proof.
  intros [A1 A2 A3 A4 A5] [B1 B2 B3 B4 B5]. split; [congruence..|auto|]. by rewrite B5, A5, app_assoc.
Qed.

Definition still {A} (m : H A) : Prop := forall s, gives m s (fun _ s' => exists l, same s s' l).

Lemma still_ret {A} (a : A) : still (mret a).
Proof. intros s. exists a, s. split; [done|]. exists []. apply same_refl. Qed.
Lemma still_skip : still skip.
Proof. apply still_ret. Qed.
Lemma still_bind {A B} (m : H A) (f : A -> H B) : still m -> (forall a, still (f a)) -> still (m ≫= f).
Proof.
  intros Hm Hf s. apply gives_bind. eapply gives_mono; [apply Hm|]. intros a s1 [l1 H1].
  eapply gives_mono; [apply Hf|]. intros b s2 [l2 H2]. exists (l1 ++ l2). by eapply same_trans.
Qed.
Lemma still_get_peer : still get_peer.
Proof. intros s. exists (peer s), s. split; [done|]. exists []. apply same_refl. Qed.
Lemma still_get_bw : still get_bw.
Proof. intros s. exists (m_bandwidth s), s. split; [done|]. exists []. apply same_refl. Qed.
Lemma still_put_bw b : still (put_bw b).
Proof. intros s. eexists _, _. split; [reflexivity|]. exists []. split; try done. by rewrite app_nil_r. Qed.
Lemma still_emit e : still (emit e).
Proof. intros s. eexists _, _. split; [reflexivity|]. exists [e]. by split. Qed.
Lemma still_when b (m : H unit) : still m -> still (when b m).
Proof. intros Hm. destruct b; [done|apply still_skip]. Qed.
Lemma still_if {A} b (m k : H A) : still m -> still k -> still (if b : bool then m else k).
Proof. by destruct b. Qed.
Lemma still_for_each {A} (l : list A) f : (forall x, still (f x)) -> still (for_each l f).
Proof. intros Hf. induction l; simpl; [apply still_skip|]. by apply still_bind. Qed.

Lemma gives_still {A B} (m : H A) (f : A -> H B) s Q : still m ->
  (forall a s' l, same s s' l -> gives (f a) s' Q) -> gives (m ≫= f) s Q.
Proof.
  intros Hm Hf. apply gives_bind. eapply gives_mono; [apply Hm|]. intros a s' [l Hs]. by eapply Hf.
Qed.

(** Updates of other parts of the peer. *)
Lemma still_update (f : Peer -> Peer) :
  (forall p, m_state (link (f p)) = m_state (link p) /\ crypto (f p) = crypto p /\
     m_addr_set (link (f p)) = m_addr_set (link p) /\
     (in_width 32 (m_sequence_out (sending p)) -> in_width 32 (m_sequence_out (sending (f p))))) ->
  still (p ← get_peer; put_peer (f p)).
Proof.
  intros Hf s. destruct (Hf (peer s)) as (H1 & H2 & H3 & H4).
  exists tt, (mkSt (f (peer s)) (m_bandwidth s) (out s)). split; [done|]. exists [].
  split; simpl; try done. by rewrite app_nil_r.
Qed.

Lemma still_modify_link f : (forall l, m_state (f l) = m_state l /\ m_addr_set (f l) = m_addr_set l) ->
  still (modify_link f).
Proof.
  intros Hf. apply (still_update (fun p => set_link (f (link p)) p)). intros p.
  destruct (Hf (link p)). done.
Qed.

Lemma still_modify_bw f : still (modify_bw f).
Proof. apply still_bind; [apply still_get_bw|]. intros. apply still_put_bw. Qed.

Lemma still_modify_sending f : (forall s, m_sequence_out (f s) = m_sequence_out s) ->
  still (modify_sending f).
Proof.
  intros Hf. apply (still_update (fun p => set_sending (f (sending p)) p)). intros p. simpl. by rewrite Hf.
Qed.

Lemma still_reset : still reset_commands.
Proof. by apply (still_update (fun p => set_cmd (CommandChannel.reset (cmd p)) p)). Qed.

Lemma still_sync_clock t a : still (sync_clock t a).
Proof.
  unfold sync_clock. destruct (t =? 0); [apply still_skip|]. apply still_bind; [apply still_get_bw|]. intros b.
  destruct (Bandwidth.rtt b <=? 0);
    [by apply (still_update (fun p => set_clock (mkClock (m_clock_offset_us (clock p)) (m_clock_synced (clock p)) true t a) p))|].
  by apply (still_update (fun p => let c := clock p in set_clock (mkClock _ true false (m_hs_tick c) (m_hs_arrival_ms c)) p)).
Qed.

Create HintDb still.
#[export] Hint Resolve still_ret still_skip still_get_peer still_get_bw still_put_bw still_emit
  still_bind still_when still_if still_for_each still_modify_bw still_reset still_sync_clock : still.
#[export] Hint Extern 2 (still (modify_link _)) => apply still_modify_link; by intros [] : still.
#[export] Hint Extern 2 (still (modify_sending _)) => apply still_modify_sending; by intros [] : still.

Ltac still :=
  repeat first
    [ progress intros
    | progress (eauto 2 with still)
    | apply still_bind | apply still_when | apply still_if | apply still_for_each
    | match goal with |- still (match ?x with _ => _ end) => destruct x end ].

(** ** Parsing what the other end wrote *)

Lemma size_bytes n : in_width 16 n ->
  Z.lor (u16 (Z.shiftl (u8 (Z.land (Z.shiftr n 8) 0xFF)) 8)) (u8 (Z.land n 0xFF)) = n.
Proof.
  intros Hn. unfold u8, u16. change 0xFF with (Z.ones 8). apply Z.bits_inj'. intros i Hi.
  destruct (Z.ltb_spec i 8), (Z.ltb_spec i 16); try lia; bit_close.
Qed.

Section Parse.
Context (EA EB : Env).
Context (Hpub : length (public_key EA) = 32%nat).
Context (Henc : encryption_enabled (config EA) = encryption_enabled (config EB)).

Definition key_part (E : Env) : bytes := if encryption_enabled (config E) then public_key E else [].
Definition flag_byte (E : Env) : Z := if retransmit_enabled (config E) then 1 else 0.

(** The capability byte and the key come off the end of the payload. *)
Lemma split_tail_spec tok :
  split_tail EB (tok ++ key_part EA ++ [flag_byte EA]) =
  mkTail (Some (retransmit_enabled (config EA)))
    (if encryption_enabled (config EA) then Some (public_key EA) else None)
    tok.
Proof using Hpub Henc.
  unfold split_tail. rewrite app_assoc, last_snoc, length_app. cbn [length].
  rewrite Nat.add_sub, take_app_length, <- Henc. unfold key_part, flag_byte.
  assert (negb (Z.land (if retransmit_enabled (config EA) then 1 else 0) 1 =? 0) =
    retransmit_enabled (config EA)) as -> by (by destruct (retransmit_enabled (config EA))).
  destruct (encryption_enabled (config EA)) eqn:Ee; cbn [andb].
  - rewrite length_app, Hpub. rewrite (proj2 (Nat.leb_le _ _)) by lia. rewrite Nat.add_sub.
    by rewrite drop_app_length, take_app_length.
  - by rewrite app_nil_r.
Qed.

(** The handshake payload laid out. *)
Lemma handshake_layout : Z.of_nat (length (bytes_of_string (cfg_id (config EA)))) <= 65535 ->
  let id := bytes_of_string (cfg_id (config EA)) in
  let n := Z.of_nat (length id) in
  handshake_payload EA =
    role_code (role (config EA)) :: u8 (Z.land (Z.shiftr n 8) 0xFF) :: u8 (Z.land n 0xFF) ::
    id ++ bytes_of_string (token (config EA)) ++ key_part EA ++ [flag_byte EA].
Proof using EA.
  clear EB Hpub Henc. intros Hl id n. unfold handshake_payload. fold id.
  replace (u16 (Z.min (Z.of_nat (length id)) 65535)) with n.
  2: { unfold n, id. rewrite Z.min_l, u16_id; unfold in_width; lia. }
  unfold n at 3. rewrite Nat2Z.id, take_ge by done. done.
Qed.
End Parse.

(** ** Sending control packets *)

Section Sender.
Context (E : Env).

Lemma still_send_raw d : still (send_raw E d).
Proof. unfold send_raw. still. Qed.

Lemma still_next_sequence : still next_sequence.
Proof.
  intros s. unfold gives, next_sequence, get_peer, put_peer, mbind, H_bind, mret, H_ret.
  do 2 eexists. split; [reflexivity|]. exists []. split; simpl; try done; [intros _; apply u32_width|by rewrite app_nil_r].
Qed.
Hint Resolve still_send_raw still_next_sequence : still.

Lemma still_send_control t pl b : still (send_control E t pl b).
Proof. unfold send_control. still. Qed.
Lemma still_send_ack a : still (send_ack_packet E a).
Proof. apply still_send_raw. Qed.
Lemma still_fire x : still (fire_peer_event E x).
Proof. unfold fire_peer_event. still. Qed.
Lemma still_speed_test : still (send_speed_test E).
Proof. unfold send_speed_test. still. Qed.
Hint Resolve still_send_control still_send_ack still_fire still_speed_test : still.
Lemma still_send_handshake : still (send_handshake E).
Proof. unfold send_handshake. still. Qed.

(** An acknowledged control packet leaves with a 32-bit sequence number. *)
Lemma control_sent t pl s Q :
  m_addr_set (link (peer s)) = true -> sock_open E = true ->
  in_width 32 (m_sequence_out (sending (peer s))) ->
  (forall s' seq, in_width 32 seq ->
     same s s' [Enqueue (encode (base_header E t seq 0 (u16 (Z.of_nat (length pl)))) pl)] -> Q tt s') ->
  gives (send_control E t pl true) s Q.
Proof.
  intros Ha Hs Hw HQ. unfold send_control, next_sequence, send_raw, get_peer, put_peer, mbind, H_bind,
    mret, H_ret, when, emit, modify_sending, gives. cbn [peer link set_sending]. rewrite Ha, Hs.
  cbn [andb peer link set_sending]. do 2 eexists. split; [reflexivity|].
  apply (HQ _ (m_sequence_out (sending (peer s)))); [done|]. split; try done. intros _. apply u32_width.
Qed.
End Sender.

#[export] Hint Resolve still_send_raw still_next_sequence still_send_control still_send_ack still_fire
  still_speed_test still_send_handshake : still.

(** ** Receiving a control packet *)

Definition receive (E : Env) (d : bytes) : H unit :=
  match decode d with None => skip | Some (h, pl) => handle_packet E h pl end.

Record env_ok (E : Env) : Prop := {
  eo_client : in_width 32 (m_local_client_id E);
  eo_session : in_width 64 (m_local_session_id E);
  eo_sock : sock_open E = true;
  eo_pub : length (public_key E) = 32%nat;
  eo_pub_ok : bytes_ok (public_key E) }.

Lemma tick_width E : in_width 32 (tick_now E).
Proof.
  unfold tick_now. change 0xFFFFFFFF with (Z.ones 32). rewrite Z.land_ones by lia. by apply mod_width.
Qed.

(** A control packet of another endpoint reaches the dispatcher unchanged,
    after bookkeeping that touches neither state nor keys. *)
Lemma control_received E E' t seq pl s Q :
  env_ok E -> in_width 32 seq -> type_wf t -> bytes_ok pl -> Z.of_nat (length pl) < 2 ^ 16 ->
  (forall s' h l, same s s' l -> type h = t -> client_id h = m_local_client_id E -> sequence h = seq ->
     gives (dispatch E' h pl) s' (fun _ s' =>
       gives (when (wants_ack t) (send_ack_packet E' seq)) s' Q)) ->
  gives (receive E' (encode (base_header E t seq 0 (u16 (Z.of_nat (length pl)))) pl)) s Q.
Proof.
  intros HE Hseq Ht Hpl Hlen HQ. unfold receive.
  assert (u16 (Z.of_nat (length pl)) = Z.of_nat (length pl)) as Hsz by (apply u16_id; unfold in_width; lia).
  rewrite decode_own; try done.
  2: { unfold header_wf, base_header. simpl. rewrite Hsz. pose proof (tick_width E). destruct HE.
       unfold in_width in *. split_and!; try done; lia. }
  unfold handle_packet. apply gives_still; [still|]. intros _ s1 l1 S1.
  apply gives_get_peer. apply gives_still; [still|]. intros _ s2 l2 S2.
  apply gives_still; [still|]. intros _ s3 l3 S3.
  unfold open_payload. simpl. apply gives_bind.
  eapply HQ; try done. eapply same_trans; [exact S1|]. by eapply same_trans.
Qed.

Lemma gives_lift {A B} (r : res A) a (f : A -> H B) s Q :
  r = Ok a -> gives (f a) s Q -> gives (lift r ≫= f) s Q.
Proof. intros -> Hf. exact Hf. Qed.

Lemma gives_update {B} (f : Peer -> Peer) (k : H B) s Q :
  gives k (mkSt (f (peer s)) (m_bandwidth s) (out s)) Q ->
  gives ((p ← get_peer; put_peer (f p)) ;; k) s Q.
Proof. done. Qed.

(** Keys after an exchange, from the state before it. *)
Definition keyed (E E' : Env) (c : CryptoState) : CryptoState :=
  if encryption_enabled (config E) then
    derive_session_key (private_key E) (public_key E') (m_local_client_id E) (m_local_client_id E') c
  else c.

Lemma ack_payload_ok E : env_ok E ->
  bytes_ok (ack_payload E) /\ Z.of_nat (length (ack_payload E)) < 2 ^ 16 /\
  ack_payload E = key_part E ++ [flag_byte E].
Proof.
  intros HE. destruct HE as [_ _ _ Hl Hb]. unfold ack_payload, key_part, flag_byte. split_and!; [| |done].
  - apply bytes_ok_app. split; [by destruct (encryption_enabled _); [|constructor]|].
    repeat constructor; by destruct (retransmit_enabled _).
  - rewrite length_app. destruct (encryption_enabled _); simpl; lia.
Qed.

(** A peer reachable for sending. *)
Definition reachable (s : St) : Prop :=
  m_addr_set (link (peer s)) = true /\ in_width 32 (m_sequence_out (sending (peer s))).

Lemma reachable_same s s' l : same s s' l -> reachable s -> reachable s'.
Proof. intros Hs [Ha Hw]. split; [by rewrite (sm_addr _ _ _ Hs)|by apply (sm_seq _ _ _ Hs)]. Qed.

Lemma derive_gives E E' id s :
  encryption_enabled (config E') = encryption_enabled (config E) -> id = m_local_client_id E' ->
  gives (match (if encryption_enabled (config E') then Some (public_key E') else None) with
         | Some pub => derive_key E pub id | None => skip end) s
    (fun _ s' => crypto (peer s') = keyed E E' (crypto (peer s)) /\
       m_state (link (peer s')) = m_state (link (peer s)) /\ (reachable s -> reachable s') /\ out s' = out s).
Proof.
  intros Henc ->. unfold keyed. rewrite Henc.
  destruct (encryption_enabled (config E)); (eexists _, _; split; [reflexivity|done]).
Qed.

(** The transition of the accepting side. *)
Lemma establish_gives E s :
  gives (when (negb (bool_decide (m_state (link (peer s)) = Established)) &&
               negb (bool_decide (m_state (link (peer s)) = Types.Online)))
           (set_state Established ;; fire_peer_event E Established)) s
    (fun _ s' => exists l, linked (m_state (link (peer s'))) = true /\ crypto (peer s') = crypto (peer s) /\
       (reachable s -> reachable s') /\ out s' = out s ++ l).
Proof.
  unfold linked. destruct (bool_decide (m_state (link (peer s)) = Established)) eqn:D1;
    [|destruct (bool_decide (m_state (link (peer s)) = Types.Online)) eqn:D2]; cbn [negb andb when].
  - eexists _, _. split; [reflexivity|]. exists []. rewrite D1, app_nil_r. done.
  - eexists _, _. split; [reflexivity|]. exists []. rewrite D1, D2, app_nil_r. done.
  - apply gives_update. eapply gives_mono; [apply still_fire|]. intros _ s' [l S]. exists l.
    rewrite (sm_state _ _ _ S), (sm_crypto _ _ _ S), (sm_out _ _ _ S). split; [done|].
    split; [done|]. split; [|done]. intros [Ha Hw]. by apply (reachable_same _ _ _ S).
Qed.

(** What the accepting side looks like after the other's handshake. *)
Record accepted (EA EB : Env) (s s' : St) : Prop := {
  ac_link : linked (m_state (link (peer s'))) = true;
  ac_keys : crypto (peer s') = keyed EB EA (crypto (peer s));
  ac_reach : reachable s';
  ac_reply : exists l seq, in_width 32 seq /\ out s' = out s ++ l ++
    [Enqueue (encode (base_header EB HandshakeAck seq 0 (u16 (Z.of_nat (length (ack_payload EB)))))
                (ack_payload EB))] }.

Lemma handshake_accepted EA EB h s :
  env_ok EA -> env_ok EB -> encryption_enabled (config EA) = encryption_enabled (config EB) ->
  token (config EA) = token (config EB) ->
  Z.of_nat (length (bytes_of_string (cfg_id (config EA)))) <= 65535 ->
  client_id h = m_local_client_id EA -> reachable s ->
  gives (handle_handshake EB h (handshake_payload EA)) s (fun _ s' => accepted EA EB s s').
Proof.
  intros HA HB Henc Htok Hid Hc Hr. rewrite handshake_layout by done.
  set (id := bytes_of_string (cfg_id (config EA))) in *.
  set (tail := bytes_of_string (token (config EA)) ++ key_part EA ++ [flag_byte EA]).
  set (pl := _ :: _). assert (length pl = 3 + length id + length tail)%nat as Hpl
    by (unfold pl; simpl; rewrite length_app; unfold tail; lia).
  unfold handle_handshake. rewrite (proj2 (Nat.ltb_ge (length pl) 3)) by lia.
  do 3 (eapply gives_lift; [reflexivity|]). rewrite size_bytes by (unfold in_width; lia).
  replace (Z.to_nat (3 + Z.of_nat (length id))) with (3 + length id)%nat by lia.
  rewrite (proj2 (Nat.ltb_ge (length pl) (3 + length id))) by lia.
  replace (drop (3 + length id) pl) with tail by (unfold pl; simpl; by rewrite drop_app_length).
  unfold tail. rewrite (split_tail_spec EA EB (eo_pub _ HA) Henc).
  cbn [tail_flags tail_token tail_pub]. rewrite string_bytes_roundtrip, bool_decide_true by done.
  cbn [negb]. apply gives_still; [still|]. intros _ s1 l1 S1.
  do 4 (apply gives_still; [still|]; intros _ ?s ?l ?S).
  assert (exists L, same s s4 L) as [L SL] by (eexists; do 4 (eapply same_trans; [eassumption|]); eassumption).
  apply gives_bind. eapply gives_mono; [by apply (derive_gives EB EA)|]. intros _ s5 (Hk & Hst & Hr5 & O5).
  apply gives_get_peer, gives_still; [still|]. intros _ s6 l6 S6. apply gives_get_peer, gives_bind.
  eapply gives_mono; [apply establish_gives|]. intros _ s7 (l7 & Hl7 & Hk7 & Hr7 & O7).
  assert (reachable s7) as [Ha7 Hw7].
  { apply Hr7, (reachable_same _ _ _ S6), Hr5. by apply (reachable_same _ _ _ SL). }
  apply control_sent; [done|apply HB|done|]. intros s8 seq Hseq S8. split.
  - by rewrite (sm_state _ _ _ S8).
  - by rewrite (sm_crypto _ _ _ S8), Hk7, (sm_crypto _ _ _ S6), Hk, (sm_crypto _ _ _ SL).
  - by apply (reachable_same _ _ _ S8).
  - exists (L ++ l6 ++ l7), seq. split; [done|].
    rewrite (sm_out _ _ _ S8), O7, (sm_out _ _ _ S6), O5, (sm_out _ _ _ SL). by rewrite <- !app_assoc.
Qed.


(** The connecting side on the answer: online, keyed, and telling the other. *)
Record completed (EA EB : Env) (s s' : St) : Prop := {
  co_state : m_state (link (peer s')) = Types.Online;
  co_keys : crypto (peer s') = keyed EA EB (crypto (peer s));
  co_reach : reachable s';
  co_tell : exists l seq l', in_width 32 seq /\
    out s' = out s ++ l ++ [Enqueue (encode (base_header EA Online seq 0 (u16 0)) [])] ++ l' }.

(** Flags and key at the end of the answer. *)
Lemma ack_tail_gives EA EB h s :
  env_ok EB -> encryption_enabled (config EB) = encryption_enabled (config EA) ->
  client_id h = m_local_client_id EB ->
  gives (match last (ack_payload EB) with
         | None => skip
         | Some b =>
             modify_link (put_peer_retransmit (negb (Z.land b 1 =? 0))) ;;
             let tail := (length (ack_payload EB) - 1)%nat in
             when (encryption_enabled (config EA) && (32 <=? tail)%nat)
               (derive_key EA (take 32 (drop (tail - 32) (ack_payload EB))) (client_id h))
         end) s
    (fun _ s' => crypto (peer s') = keyed EA EB (crypto (peer s)) /\
       m_state (link (peer s')) = m_state (link (peer s)) /\ (reachable s -> reachable s') /\ out s' = out s /\ cmd (peer s') = cmd (peer s)).
Proof.
  intros HB Henc Hc. destruct (ack_payload_ok EB HB) as (_ & _ & ->). rewrite last_snoc.
  unfold key_part. rewrite Henc. apply gives_update.
  destruct (encryption_enabled (config EA)) eqn:Ee; cbn [app length andb when].
  - replace (length (public_key EB ++ [flag_byte EB]) - 1)%nat with 32%nat
      by (rewrite length_app, (eo_pub _ HB); done).
    change (32 <=? 32)%nat with true. change (32 - 32)%nat with 0%nat. cbn [when].
    rewrite drop_0, take_app_length' by (symmetry; apply (eo_pub _ HB)). eexists _, _. split; [reflexivity|]. unfold keyed. rewrite Ee, <- Hc. done.
  - eexists _, _. split; [reflexivity|]. unfold keyed. by rewrite Ee.
Qed.

Lemma handshake_completed EA EB h s :
  env_ok EA -> env_ok EB -> encryption_enabled (config EB) = encryption_enabled (config EA) ->
  client_id h = m_local_client_id EB -> reachable s ->
  m_state (link (peer s)) = Types.Handshake ->
  gives (handle_handshake_ack EA h (ack_payload EB)) s (fun _ s' => completed EA EB s s').
Proof.
  intros HA HB Henc Hc Hr Hst. unfold handle_handshake_ack.
  apply gives_still; [still|]. intros _ s1 l1 S1. apply gives_still; [still|]. intros _ s2 l2 S2.
  pose proof (same_trans _ _ _ _ _ S1 S2) as S12. apply gives_bind.
  eapply gives_mono; [by apply ack_tail_gives|]. intros _ s3 (Hk3 & Hs3 & Hr3 & O3 & _).
  apply gives_get_peer. rewrite Hs3, (sm_state _ _ _ S12), Hst.
  change (bool_decide (Types.Handshake = Types.Online)) with false.
  change (bool_decide (Types.Handshake = Types.Handshake)) with true. cbn [orb when].
  assert (reachable s3) as [Ha Hw] by (apply Hr3; by apply (reachable_same _ _ _ S12)).
  apply gives_bind, control_sent; [done|apply HA|done|]. intros s4 seq Hseq S4.
  apply gives_update. apply gives_still; [still|]. intros _ s5 l5 S5.
  eapply gives_mono; [apply still_speed_test|]. intros _ s6 [l6 S6].
  pose proof (same_trans _ _ _ _ _ S5 S6) as S56. split.
  - by rewrite (sm_state _ _ _ S56).
  - rewrite (sm_crypto _ _ _ S56). simpl. by rewrite (sm_crypto _ _ _ S4), Hk3, (sm_crypto _ _ _ S12).
  - apply (reachable_same _ _ _ S56). by apply (reachable_same _ _ _ S4).
  - exists (l1 ++ l2), seq, (l5 ++ l6). split; [done|].
    rewrite (sm_out _ _ _ S56). simpl. rewrite (sm_out _ _ _ S4), O3, (sm_out _ _ _ S12).
    by rewrite <- !app_assoc.
Qed.

(** The accepting side on the last packet. *)
Lemma online_gives E s :
  gives (handle_online E) s (fun _ s' => m_state (link (peer s')) = Types.Online /\
    crypto (peer s') = crypto (peer s)).
Proof.
  unfold handle_online. apply gives_get_peer.
  destruct (bool_decide (m_state (link (peer s)) = Types.Online)) eqn:D; cbn [negb when].
  - apply bool_decide_eq_true in D. by eexists _, _.
  - apply gives_update. apply gives_still; [still|]. intros _ s5 l5 S5.
    eapply gives_mono; [apply still_speed_test|]. intros _ s6 [l6 S6].
    pose proof (same_trans _ _ _ _ _ S5 S6) as S56. by rewrite (sm_state _ _ _ S56), (sm_crypto _ _ _ S56).
Qed.

(** Datagram [d] was handed to the outbound queue between two states. *)
Definition emits (s s' : St) (d : bytes) : Prop := exists l, out s' = out s ++ l /\ Enqueue d ∈ l.

Lemma handshake_payload_ok E : env_ok E -> bytes_ok (handshake_payload E).
Proof.
  intros HE. unfold handshake_payload. rewrite !bytes_ok_app. split_and!.
  - repeat constructor; try apply u8_width; destruct (role (config E)); eval_decide.
  - apply bytes_ok_take, bytes_of_string_ok.
  - apply bytes_of_string_ok.
  - destruct (encryption_enabled _); [apply HE|constructor].
  - repeat constructor; destruct (retransmit_enabled _); eval_decide.
Qed.

(** A control packet of [E] with its sequence number, as a datagram. *)
Definition control_datagram (E : Env) (t : PacketType) (seq : Z) (pl : bytes) : bytes :=
  encode (base_header E t seq 0 (u16 (Z.of_nat (length pl)))) pl.

Lemma emits_at s s' l1 l2 d : out s' = out s ++ l1 ++ [Enqueue d] ++ l2 -> emits s s' d.
Proof. intros Ho. eexists. split; [exact Ho|]. set_solver. Qed.

Lemma emits_same s1 s2 s3 l d : emits s1 s2 d -> same s2 s3 l -> emits s1 s3 d.
Proof. intros (l1 & H1 & H2) S. exists (l1 ++ l). rewrite (sm_out _ _ _ S), H1, app_assoc. set_solver. Qed.

Lemma emits_after s1 s2 s3 l d : same s1 s2 l -> emits s2 s3 d -> emits s1 s3 d.
Proof. intros S (l1 & H1 & H2). exists (l ++ l1). rewrite H1, (sm_out _ _ _ S), app_assoc. set_solver. Qed.

Lemma gives_ack E t seq s Q : (forall s' l, same s s' l -> Q tt s') ->
  gives (when (wants_ack t) (send_ack_packet E seq)) s Q.
Proof.
  intros HQ. assert (still (when (wants_ack t) (send_ack_packet E seq))) as Hs by still.
  eapply gives_mono; [apply Hs|]. intros [] s' [l S]. by eapply HQ.
Qed.

Section Exchange.
Context (EA EB : Env) (HA : env_ok EA) (HB : env_ok EB).
Context (Henc : encryption_enabled (config EA) = encryption_enabled (config EB)).

(** What one datagram of the exchange leaves behind at its receiver. *)
Record advanced (E E' : Env) (t : PacketType) (pl : bytes) (s s' : St) : Prop := {
  ad_keys : crypto (peer s') = keyed E E' (crypto (peer s));
  ad_reach : reachable s';
  ad_reply : exists seq, in_width 32 seq /\ emits s s' (control_datagram E t seq pl) }.

Lemma handshake_received seq s :
  token (config EA) = token (config EB) ->
  Z.of_nat (length (bytes_of_string (cfg_id (config EA)))) <= 65535 ->
  Z.of_nat (length (handshake_payload EA)) < 2 ^ 16 -> in_width 32 seq -> reachable s ->
  gives (receive EB (control_datagram EA Handshake seq (handshake_payload EA))) s
    (fun _ s' => advanced EB EA HandshakeAck (ack_payload EB) s s').
Proof using HA HB Henc.
  intros Htok Hid Hlen Hseq Hr. apply control_received; try done; [by apply handshake_payload_ok|].
  intros s1 h l1 S1 Ht Hc _. unfold dispatch. rewrite Ht.
  eapply gives_mono; [apply (handshake_accepted EA EB); try done; by eapply reachable_same|].
  intros [] s2 [_ Hk Hr2 (l2 & seq2 & Hseq2 & O2)]. apply gives_ack. intros s3 l3 S3. split.
  - by rewrite (sm_crypto _ _ _ S3), Hk, (sm_crypto _ _ _ S1).
  - by eapply reachable_same.
  - exists seq2. split; [done|]. eapply emits_same, S3. eapply emits_after; [exact S1|].
    eapply (emits_at _ _ l2 []). by rewrite O2, app_nil_r.
Qed.

Lemma answer_received seq s :
  in_width 32 seq -> reachable s -> m_state (link (peer s)) = Types.Handshake ->
  gives (receive EA (control_datagram EB HandshakeAck seq (ack_payload EB))) s
    (fun _ s' => m_state (link (peer s')) = Types.Online /\ advanced EA EB Online [] s s').
Proof using HA HB Henc.
  intros Hseq Hr Hst. destruct (ack_payload_ok EB HB) as (Hok & Hlen & _).
  apply control_received; try done. intros s1 h l1 S1 Ht Hc _. unfold dispatch. rewrite Ht.
  eapply gives_mono; [apply (handshake_completed EA EB); try done|].
  { by eapply reachable_same. } { by rewrite (sm_state _ _ _ S1). }
  intros [] s2 [Hst2 Hk Hr2 (l2 & seq2 & l2' & Hseq2 & O2)]. apply gives_ack. intros s3 l3 S3.
  split; [by rewrite (sm_state _ _ _ S3)|]. split.
  - by rewrite (sm_crypto _ _ _ S3), Hk, (sm_crypto _ _ _ S1).
  - by eapply reachable_same.
  - exists seq2. split; [done|]. eapply emits_same, S3. eapply emits_after; [exact S1|].
    by eapply emits_at.
Qed.

Lemma online_received seq s :
  in_width 32 seq ->
  gives (receive EB (control_datagram EA Online seq [])) s
    (fun _ s' => m_state (link (peer s')) = Types.Online /\ crypto (peer s') = crypto (peer s)).
Proof using HA HB.
  intros Hseq. apply control_received; try done; [constructor|].
  intros s1 h l1 S1 Ht _ _. unfold dispatch. rewrite Ht.
  eapply gives_mono; [apply online_gives|]. intros [] s2 [Hst2 Hk]. apply gives_ack. intros s3 l3 S3.
  by rewrite (sm_state _ _ _ S3), (sm_crypto _ _ _ S3), Hk, (sm_crypto _ _ _ S1).
Qed.

Lemma handshake_sent s : reachable s ->
  gives (send_handshake EA) s (fun _ s' => reachable s' /\ crypto (peer s') = crypto (peer s) /\
    m_state (link (peer s')) = m_state (link (peer s)) /\
    exists seq, in_width 32 seq /\ emits s s' (control_datagram EA Handshake seq (handshake_payload EA))).
Proof using HA.
  clear Henc HB EB. intros [Ha Hw]. unfold send_handshake. apply gives_update. apply control_sent; [done|apply HA|done|].
  intros s' seq Hseq S. split_and!; [by apply (reachable_same _ _ _ S)|apply S|apply S|].
  exists seq. split; [done|]. eexists. split; [apply S|]. set_solver.
Qed.
End Exchange.

(** The key state after an exchange: with a valid shared secret, the key HKDF
    derives from it under [salt]. *)
Definition keyed_by (secret : bytes * bool) (salt : bytes) (before after : CryptoState) : Prop :=
  after = if secret.2 then mkCrypto true (Sha256.hkdf_sha256 secret.1 salt (bytes_of_string "tight-data-key-v1")) else before.

Lemma keyed_keyed_by E E' c : encryption_enabled (config E) = true ->
  keyed_by (X25519.x25519 (private_key E) (public_key E')) (session_salt (m_local_client_id E) (m_local_client_id E')) c (keyed E E' c).
Proof.
  intros He. unfold keyed, keyed_by, derive_session_key. rewrite He. by destruct (X25519.x25519 _ _) as [sh []].
Qed.

(** C10. The handshake establishes a session. Let a connecting endpoint that waits
    in [Handshake] and an accepting one, in whatever state, agree on the token
    and on whether to encrypt. The datagram [send_handshake] puts on the queue,
    decoded and handled by the other side, is answered; the answer, decoded and
    handled, takes the connecting side online and makes it tell the other; that
    datagram takes the accepting side online; no step faults. With encryption
    each side then holds exactly the key that HKDF derives, under one salt that
    is the same for both, from X25519 of its own private key and the public key
    the other side sent (and its old key if X25519 rejects that public key); so
    the keys agree as far as X25519 does for the two key pairs. Without
    encryption the keys stay as they were. *)
Theorem handshake_establishes EA EB sA sB
  (HA : env_ok EA) (HB : env_ok EB)
  (Henc : encryption_enabled (config EA) = encryption_enabled (config EB))
  (Htok : token (config EA) = token (config EB))
  (Hid : Z.of_nat (length (bytes_of_string (cfg_id (config EA)))) <= 65535)
  (Hlen : Z.of_nat (length (handshake_payload EA)) < 2 ^ 16)
  (Hstate : m_state (link (peer sA)) = Types.Handshake)
  (HrA : reachable sA) (HrB : reachable sB) :
  exists sA1 d1 sB1 d2 sA2 d3 sB2,
    send_handshake EA sA = Ok (tt, sA1) /\ emits sA sA1 d1 /\
    receive EB d1 sB = Ok (tt, sB1) /\ emits sB sB1 d2 /\
    receive EA d2 sA1 = Ok (tt, sA2) /\ emits sA1 sA2 d3 /\
    receive EB d3 sB1 = Ok (tt, sB2) /\
    m_state (link (peer sA2)) = Types.Online /\ m_state (link (peer sB2)) = Types.Online /\
    if encryption_enabled (config EA) then
      let salt := session_salt (m_local_client_id EA) (m_local_client_id EB) in
      keyed_by (X25519.x25519 (private_key EA) (public_key EB)) salt (crypto (peer sA)) (crypto (peer sA2)) /\
      keyed_by (X25519.x25519 (private_key EB) (public_key EA)) salt (crypto (peer sB)) (crypto (peer sB2))
    else crypto (peer sA2) = crypto (peer sA) /\ crypto (peer sB2) = crypto (peer sB).
Proof.
  destruct (handshake_sent EA HA sA HrA) as ([] & sA1 & R1 & HrA1 & Hk1 & Hs1 & seq1 & Hq1 & M1).
  destruct (handshake_received EA EB HA HB Henc seq1 sB Htok Hid Hlen Hq1 HrB)
    as ([] & sB1 & R2 & [Hk2 HrB1 (seq2 & Hq2 & M2)]).
  destruct (answer_received EA EB HA HB Henc seq2 sA1 Hq2 HrA1 (eq_trans Hs1 Hstate))
    as ([] & sA2 & R3 & Hs3 & [Hk3 HrA2 (seq3 & Hq3 & M3)]).
  destruct (online_received EA EB HA HB seq3 sB1 Hq3) as ([] & sB2 & R4 & Hs4 & Hk4).
  eexists sA1, _, sB1, _, sA2, _, sB2. split_and!; try eassumption. rewrite Hk4, Hk3, Hk2, Hk1.
  destruct (encryption_enabled (config EA)) eqn:He; cbv zeta.
  - split; [by apply keyed_keyed_by|]. rewrite session_salt_comm. by apply keyed_keyed_by.
  - unfold keyed. rewrite <- Henc, He. exact (conj eq_refl eq_refl).
Qed.

Definition demo_side (id : Z) : Env :=
  mkEnv default_config true false id (id + 1) (replicate 32 1) (replicate 32 9) true true true 0 1000 0.
Definition demo_at (x : LinkState) : St :=
  mkSt (set_link (mkLink "p" (mkAddr 1 2) true Node x 0 0 0 0 0 0 0 false true true true) new_peer)
    (Bandwidth.new 1000) [].

Lemma demo_env_ok id : in_width 32 id -> in_width 64 (id + 1) -> env_ok (demo_side id).
Proof. intros. split; try done. vm_compute. repeat constructor; done. Qed.

(** Two sides with key pairs of their own. *)
Definition own_keys (id : Z) : Env :=
  mkEnv default_config true false id (id + 1) (replicate 32 id) (replicate 32 (id + 100)) true true true 0 1000 0.

Lemma own_keys_ok id : in_width 7 id -> env_ok (own_keys id).
Proof.
  unfold in_width. intros Hi. split; cbn; try (unfold in_width; lia); try done.
  repeat (constructor; [unfold in_width; lia|]). constructor.
Qed.

Lemma handshake_establishes_witness :
  exists sA1 d1 sB1 d2 sA2 d3 sB2,
    send_handshake (own_keys 4) (demo_at Types.Handshake) = Ok (tt, sA1) /\
    emits (demo_at Types.Handshake) sA1 d1 /\
    receive (own_keys 7) d1 (demo_at Closed) = Ok (tt, sB1) /\ emits (demo_at Closed) sB1 d2 /\
    receive (own_keys 4) d2 sA1 = Ok (tt, sA2) /\ emits sA1 sA2 d3 /\
    receive (own_keys 7) d3 sB1 = Ok (tt, sB2) /\
    m_state (link (peer sA2)) = Types.Online /\ m_state (link (peer sB2)) = Types.Online /\
    let salt := session_salt 4 7 in
    keyed_by (X25519.x25519 (replicate 32 4) (replicate 32 107)) salt (crypto new_peer) (crypto (peer sA2)) /\
    keyed_by (X25519.x25519 (replicate 32 7) (replicate 32 104)) salt (crypto new_peer) (crypto (peer sB2)).
Proof.
  exact (handshake_establishes (own_keys 4) (own_keys 7) (demo_at Types.Handshake) (demo_at Closed)
    (own_keys_ok 4 ltac:(done)) (own_keys_ok 7 ltac:(done)) eq_refl eq_refl ltac:(by vm_compute) ltac:(by vm_compute) eq_refl
    ltac:(by split) ltac:(by split)).
Defined.

(** ** Who may shake hands *)

Lemma bytes_string_roundtrip bs : bytes_ok bs -> bytes_of_string (string_of_bytes bs) = bs.
Proof.
  intros Hb. unfold string_of_bytes, bytes_of_string. rewrite String.list_ascii_of_string_of_list_ascii.
  rewrite <- list_fmap_compose. rewrite <- (list_fmap_id bs) at 2. apply list_fmap_ext. intros i b Hi. simpl.
  pose proof (Forall_lookup_1 _ _ _ _ Hb Hi) as Hw. unfold in_width in Hw.
  rewrite Ascii.N_ascii_embedding by lia. lia.
Qed.

(** [pl] is a handshake payload that names [token]: a role byte, two bytes of
    identifier length, the identifier, the token, a key or nothing, and at most
    one byte of flags. *)
Definition names_token (pl : bytes) (token : string) : Prop :=
  exists r b1 b2 id key flags,
    pl = r :: b1 :: b2 :: id ++ bytes_of_string token ++ key ++ flags /\
    Z.of_nat (length id) = Z.lor (u16 (Z.shiftl b1 8)) b2 /\
    (length key = 32%nat \/ key = []) /\ (length flags <= 1)%nat.

Lemma split_tail_parts E rest : exists key flags,
  rest = tail_token (split_tail E rest) ++ key ++ flags /\
  (length key = 32%nat \/ key = []) /\ (length flags <= 1)%nat.
Proof.
  unfold split_tail. set (r := take (length rest - 1) rest).
  assert (exists flags, rest = r ++ flags /\ (length flags <= 1)%nat) as (flags & Hr & Hf).
  { exists (drop (length rest - 1) rest). unfold r. rewrite take_drop, length_drop. split; [done|lia]. }
  destruct (_ && _) eqn:D; simpl.
  - apply andb_true_iff in D as [_ D]. apply Nat.leb_le in D. exists (drop (length r - 32) r), flags.
    rewrite app_assoc, take_drop, length_drop. split; [done|]. split; [left; lia|done].
  - exists [], flags. rewrite app_nil_l. auto.
Qed.

(** C11. A handshake that does not name the configured token changes nothing:
    whatever the payload, either it carries the token in its place, or the
    handler sends nothing, raises no event, and leaves the state, the keys, the
    identity and the command channel as they were; only the peer's
    retransmission flag may be set. *)
Theorem handshake_needs_token E h pl s s' (Hpl : bytes_ok pl)
  (Hrun : handle_handshake E h pl s = Ok (tt, s')) (Hdiff : s' <> s) :
  names_token pl (token (config E)) \/
  exists b, s' = mkSt (set_link (put_peer_retransmit b (link (peer s))) (peer s)) (m_bandwidth s) (out s).
Proof.
  revert Hrun. unfold handle_handshake. destruct pl as [|r [|b1 [|b2 pl]]]; try (intros [= <-]; done).
  rewrite (proj2 (Nat.ltb_ge _ 3)) by (simpl; lia).
  set (n := Z.lor (u16 (Z.shiftl b1 8)) b2).
  assert (in_width 8 b2 /\ bytes_ok pl) as [Hb2 Hok].
  { unfold bytes_ok in Hpl. rewrite !Forall_cons_iff in Hpl. tauto. }
  assert (0 <= n) as Hn by (apply Z.lor_nonneg; split; [apply u16_width|apply Hb2]).
  change (lift (at_index (r :: b1 :: b2 :: pl) 0)) with (lift (Ok r)).
  change (lift (at_index (r :: b1 :: b2 :: pl) 1)) with (lift (Ok b1)).
  change (lift (at_index (r :: b1 :: b2 :: pl) 2)) with (lift (Ok b2)).
  unfold mbind at 1 2 3, H_bind at 1 2 3, lift at 1 2 3. fold n.
  destruct (length (r :: b1 :: b2 :: pl) <? Z.to_nat (3 + n))%nat eqn:D; [intros [= <-]; done|].
  apply Nat.ltb_ge in D. simpl in D. replace (Z.to_nat (3 + n)) with (3 + Z.to_nat n)%nat by lia.
  change (drop (3 + Z.to_nat n) (r :: b1 :: b2 :: pl)) with (drop (Z.to_nat n) pl).
  destruct (split_tail_parts E (drop (Z.to_nat n) pl)) as (key & flags & Hrest & Hkey & Hflags).
  set (t := split_tail E _) in *. intros Hrun.
  destruct (decide (string_of_bytes (tail_token t) = token (config E))) as [Ht|Ht].
  - left. exists r, b1, b2, (take (Z.to_nat n) pl), key, flags. split_and!; try done.
    + rewrite <- Ht, bytes_string_roundtrip, <- Hrest, take_drop; [done|].
      assert (bytes_ok (drop (Z.to_nat n) pl)) as Hd by (by apply Forall_drop).
      rewrite Hrest in Hd. by apply Forall_app in Hd as [? _].
    + rewrite length_take. lia.
  - right. rewrite bool_decide_false in Hrun by done. cbn [negb] in Hrun.
    destruct (tail_flags t) as [b|].
    + exists b. by injection Hrun.
    + by injection Hrun.
Qed.
Definition muted (s : St) : St :=
  mkSt (set_link (put_peer_retransmit false (link (peer s))) (peer s)) (m_bandwidth s) (out s).

Lemma handshake_needs_token_witness :
  names_token [0; 0; 0; 65; 0] (token default_config) \/
  exists b, muted (demo_at Closed) = mkSt (set_link (put_peer_retransmit b (link (peer (demo_at Closed))))
    (peer (demo_at Closed))) (m_bandwidth (demo_at Closed)) (out (demo_at Closed)).
Proof.
  apply (handshake_needs_token (demo_side 4) empty_header [0; 0; 0; 65; 0] (demo_at Closed));
    [repeat constructor; done|reflexivity|discriminate].
Defined.

(** Only the handshake itself is checked: a HandshakeAck with an empty
    payload, which anybody can send, takes a link that waits in [Handshake]
    online, without any token. *)
Theorem ack_needs_no_token E h s
  (Ht : type h = HandshakeAck) (Hf : Z.land (flags h) kFlagEncrypted = 0)
  (Hs : m_state (link (peer s)) = Types.Handshake) :
  exists s', handle_packet E h [] s = Ok (tt, s') /\ m_state (link (peer s')) = Types.Online.
Proof.
  enough (gives (handle_packet E h []) s (fun _ s' => m_state (link (peer s')) = Types.Online))
    as ([] & s' & Hr & HQ) by (by exists s').
  unfold handle_packet. apply gives_still; [still|]. intros _ s1 l1 S1.
  apply gives_get_peer. apply gives_still; [still|]. intros _ s2 l2 S2.
  apply gives_still; [still|]. intros _ s3 l3 S3.
  pose proof (same_trans _ _ _ _ _ S1 (same_trans _ _ _ _ _ S2 S3)) as S.
  unfold open_payload. rewrite Hf. simpl negb. cbn [andb]. unfold dispatch. rewrite Ht. apply gives_bind.
  unfold handle_handshake_ack. apply gives_still; [still|]. intros _ s4 l4 S4.
  apply gives_still; [still|]. intros _ s5 l5 S5. apply gives_still; [still|]. intros _ s6 l6 S6.
  pose proof (same_trans _ _ _ _ _ S (same_trans _ _ _ _ _ S4 (same_trans _ _ _ _ _ S5 S6))) as S'.
  apply gives_get_peer. rewrite (sm_state _ _ _ S'), Hs.
  change (bool_decide (Types.Handshake = Types.Online)) with false.
  change (bool_decide (Types.Handshake = Types.Handshake)) with true. cbn [orb when].
  apply gives_still; [still|]. intros _ s7 l7 S7. apply gives_update.
  assert (still (fire_peer_event E Types.Online ;; send_speed_test E)) as Hrest by still.
  eapply gives_mono; [apply Hrest|]. intros [] s8 [l8 S8]. apply gives_ack. intros s9 l9 S9.
  by rewrite (sm_state _ _ _ S9), (sm_state _ _ _ S8).
Qed.

Lemma ack_needs_no_token_witness :
  exists s', handle_packet (demo_side 4)
    (mkHeader kMagic kVersion HandshakeAck 0 1 2 3 0 0 0 0 0 0 0 0) [] (demo_at Types.Handshake) = Ok (tt, s') /\
    m_state (link (peer s')) = Types.Online.
Proof. apply ack_needs_no_token; reflexivity. Defined.
End Handshaking.
