(* ===== verification/Session.v ===== *)
(** * Messages over an encrypted session (tight/src/transport.cpp)

    The sender of one endpoint composed with the receiver of the other, from
    [fragment_and_send] to the message callback: fragments become packets, are
    sealed and encoded; the datagrams are lost, repeated, reordered and mixed
    with others; what arrives is decoded, opened, dispatched and reassembled. *)
From stdpp Require Import base list numbers option sets strings gmap.
From Stdlib Require Import ZArith Lia.
From S2P Require Import Prelude Wire Codec ReedSolomon Float64 Maps Types Peer.
From S2P Require Import SeqTracker Fragmenter Reassembler DataPath.
From S2P Require Import Bandwidth Gcm Packets Endpoint Handshake.

Local Open Scope Z_scope.
Import Types Wire PacketCodec Peer Gcm Packets Endpoint Handshaking.

Module Session.

(** ** The sending side *)

(** What [receive_datagram] makes of datagram [d] is fragment [f]. *)
Definition opens_as (r : CryptoState) (d : bytes) (f : Fragmenter.Fragment) : Prop :=
  exists h, receive_datagram r d = Some (h, DataPath.wire f) /\ DataPath.carries f h (DataPath.wire f) /\
    (type h = Data \/ type h = Parity) /\ (length d <= 64 + Fragmenter.f_width f)%nat.

(** A fragment that fits the wire format. *)
Record fits (f : Fragmenter.Fragment) : Prop := {
  ft_id : in_width 32 (Fragmenter.f_msg_id f);
  ft_idx : in_width 16 (Fragmenter.f_idx f);
  ft_cnt : in_width 16 (Fragmenter.f_cnt f);
  ft_data : in_width 15 (Fragmenter.f_data_cnt f);
  ft_real : in_width 16 (Fragmenter.f_real_size f);
  ft_width : Z.of_nat (Fragmenter.f_width f + kGcmTagSize) < 2 ^ 16;
  ft_bytes : bytes_ok (Fragmenter.f_data f) }.

Lemma length_wire f : length (DataPath.wire f) = Fragmenter.f_width f.
Proof. apply length_resize0. Qed.

Lemma data_sendable E f seq : env_ok E -> fits f -> in_width 32 seq ->
  sendable (data_header E f seq (u16 (Z.of_nat (length (DataPath.wire f))))) (DataPath.wire f).
Proof.
  intros HE [? ? ? Hd ? Hw Hb] Hs. rewrite length_wire.
  assert (u16 (Z.of_nat (Fragmenter.f_width f)) = Z.of_nat (Fragmenter.f_width f)) as Ew
    by (apply u16_id; unfold in_width; lia).
  split; rewrite ?length_wire, ?Ew; try done.
  - pose proof (tick_width E). destruct HE. unfold header_wf, data_header. simpl.
    assert (in_width 16 (Fragmenter.f_data_cnt f)) by (by eapply in_width_mono; [|exact Hd]).
    split_and!; try done; [destruct (_ =? _); done|unfold in_width; lia].
  - by apply resize0_ok.
Qed.

Lemma carries_header E f seq cs size :
  DataPath.carries f (set_checksum (data_header E f seq size) cs) (DataPath.wire f).
Proof. done. Qed.

(** Updates of the retransmission table emit nothing. *)
Lemma gives_table b (g : Sending -> Sending) s :
  (forall x, m_sequence_out (g x) = m_sequence_out x) ->
  gives (when b (modify_sending g)) s (fun _ s' => same s s' []).
Proof.
  intros Hg. destruct b; cbn [when].
  - eexists _, _. split; [reflexivity|].
    split; try done; [by simpl; rewrite Hg|by rewrite app_nil_r].
  - eexists _, _. split; [reflexivity|]. apply same_refl.
Qed.

Section Sender.
Context (E : Env) (HE : env_ok E) (r : CryptoState).

Lemma gives_raw {B} d (k : H B) s Q : m_addr_set (link (peer s)) = true ->
  (forall s', same s s' [Enqueue d] -> gives k s' Q) -> gives (send_raw E d ;; k) s Q.
Proof using HE.
  clear r. intros Ha Hk. apply gives_bind. unfold send_raw. apply gives_get_peer.
  rewrite Ha, (eo_sock _ HE). cbn [andb when]. eexists _, _. split; [reflexivity|]. apply Hk. by split.
Qed.

Lemma gives_number (acked : bool) s :
  in_width 32 (m_sequence_out (sending (peer s))) ->
  gives (if acked then next_sequence else mret 0) s (fun seq s' => in_width 32 seq /\ same s s' []).
Proof using.
  clear HE r E. intros Hw. destruct acked; [|exists 0, s; split; [done|]; split; [done|apply same_refl]].
  unfold gives, next_sequence, get_peer, put_peer, mbind, H_bind, mret, H_ret.
  do 2 eexists. split; [reflexivity|]. split; [done|].
  split; simpl; try done; [intros _; apply u32_width|by rewrite app_nil_r].
Qed.

(** One packet leaves, and the receiver opens it as the fragment. *)
Lemma data_packet_sent f s : fits f -> reachable s ->
  compatible (encryption_enabled (config E)) (crypto (peer s)) r ->
  gives (send_data_packet E f) s (fun _ s' => exists d, same s s' [Enqueue d] /\ opens_as r d f).
Proof using HE.
  intros Hf [Ha Hw] Hc. unfold send_data_packet. fold (DataPath.wire f). apply gives_get_peer.
  apply gives_bind. eapply gives_mono; [by apply gives_number|]. intros seq s1 [Hseq S1].
  destruct (sealed_roundtrip _ (crypto (peer s)) r _ _ (data_sendable E f seq HE Hf Hseq) Hc)
    as (d & cs & Hb & Hr).
  apply gives_bind. eapply gives_mono; [by apply gives_table|]. intros [] s2 S2. eapply gives_lift; [exact Hb|].
  apply gives_raw; [by rewrite (sm_addr _ _ _ S2), (sm_addr _ _ _ S1)|]. intros s3 S3.
  eapply gives_mono; [by apply gives_table|]. intros [] s4 S4. exists d. split.
  - exact (same_trans _ _ _ _ _ S1 (same_trans _ _ _ _ _ S2 (same_trans _ _ _ _ _ S3 S4))).
  - eexists. split; [exact Hr|]. split; [apply carries_header|]. split.
    + simpl. destruct (_ =? _); [by right|by left].
    + pose proof (data_sendable E f seq HE Hf Hseq) as [_ _ _ _ Hsz Hft _].
      rewrite (built_length _ _ _ _ _ Hsz Hft Hb), length_wire. unfold kHeaderSize, kGcmTagSize. case_match; lia.
Qed.

Lemma fragments_sent fs s : Forall fits fs -> reachable s ->
  compatible (encryption_enabled (config E)) (crypto (peer s)) r ->
  gives (for_each fs (send_data_packet E)) s
    (fun _ s' => exists ds, same s s' (Enqueue <$> ds) /\ Forall2 (opens_as r) ds fs).
Proof using HE.
  intros Hf. revert s. induction Hf as [|f fs Hf _ IH]; intros s Hr Hc; cbn [for_each].
  - exists tt, s. split; [done|]. exists []. split; [apply same_refl|constructor].
  - apply gives_bind. eapply gives_mono; [by apply data_packet_sent|]. intros _ s1 (d & S1 & Hd).
    eapply gives_mono; [apply IH|].
    + by eapply reachable_same.
    + by rewrite (sm_crypto _ _ _ S1).
    + intros [] s2 (ds & S2 & Hds). exists (d :: ds).
      split; [exact (same_trans _ _ _ _ _ S1 S2)|by constructor].
Qed.
End Sender.
(** The fragments of a message fit. *)
Lemma sent_fits payload w n pc id frags :
  DataPath.sent payload w n pc id frags -> (n <= 255)%nat -> Z.of_nat (w + kGcmTagSize) < 2 ^ 16 ->
  Forall fits frags.
Proof.
  intros Hs Hn Hw. pose proof (DataPath.se_cnt _ _ _ _ _ _ Hs) as Hc.
  pose proof (DataPath.se_id _ _ _ _ _ _ Hs) as Hid. pose proof (DataPath.se_pc _ _ _ _ _ _ Hs) as Hpc.
  assert (ReedSolomon.frags_ok (Fragmenter.spans (Fragmenter.prefixed payload) w n)) as Hok
    by (apply DataPath.spans_ok, DataPath.prefixed_ok, Hs).
  apply Forall_lookup. intros i f Hf.
  pose proof (lookup_lt_Some _ _ _ Hf) as Hi. rewrite (DataPath.se_length _ _ _ _ _ _ Hs) in Hi.
  destruct (decide (i < n)%nat) as [Hd|Hd].
  - pose proof (Fragmenter.spans_lookup (Fragmenter.prefixed payload) w n i Hd) as Hsp.
    rewrite (DataPath.se_data _ _ _ _ _ _ Hs i _ Hsp) in Hf. injection Hf as <-.
    split; cbn -[Z.pow]; try (unfold in_width; lia); [apply u16_width|].
    by apply (Forall_lookup_1 _ _ _ _ Hok Hsp).
  - destruct (DataPath.se_parity _ _ _ _ _ _ Hs (i - n)%nat ltac:(lia)) as (row & Hrow & Hl & Hb).
    replace (n + (i - n))%nat with i in Hrow by lia. rewrite Hrow in Hf. injection Hf as <-.
    split; cbn -[Z.pow]; try (unfold in_width; lia); [apply u16_width|].
    apply Forall_lookup. intros k b Hk. pose proof (lookup_lt_Some _ _ _ Hk) as Hkl.
    specialize (Hb k ltac:(lia)). unfold byte_at in Hb. rewrite Hk in Hb. simpl in Hb. rewrite Hb.
    by apply ReedSolomon.parity_byte_width.
Qed.

(** ** The receiving side *)

(** A datagram and the clocks when it is handled. *)
Record Datagram := mkDatagram { dg_bytes : bytes; dg_now : Z; dg_unix : Z; dg_log : Z }.

Definition env_at (E : Env) (d : Datagram) : Env :=
  mkEnv (config E) (sock_open E) (lite E) (m_local_client_id E) (m_local_session_id E)
    (private_key E) (public_key E) (m_message_cb E) (m_peer_cb E) (m_command_cb E)
    (dg_now d) (dg_unix d) (dg_log d).

(** Handling datagrams one after the other; each with the effects it had. *)
Fixpoint receive_run (E : Env) (ds : list Datagram) (s : St) : res (St * list (bytes * list Effect)) :=
  match ds with
  | [] => Ok (s, [])
  | d :: ds =>
      '(_, s1) ← receive (env_at E d) (dg_bytes d) s;
      '(s2, outs) ← receive_run E ds s1;
      Ok (s2, (dg_bytes d, drop (length (out s)) (out s1)) :: outs)
  end.

Definition messages (es : list Effect) : list bytes :=
  omap (fun e => match e with OnMessage _ pl => Some pl | _ => None end) es.

(** Messages handed up while handling one of the datagrams [ds]. *)
Definition upcalls (ds : list bytes) (outs : list (bytes * list Effect)) : list bytes :=
  concat ((fun '(d, es) => if decide (d ∈ ds) then messages es else []) <$> outs).

(** Which of the datagrams [ds] arrived. *)
Definition arrived (ds : list bytes) (evs : list Datagram) : gset nat :=
  list_to_set (omap (fun i => d ← ds !! i; if decide (d ∈ dg_bytes <$> evs) then Some i else None)
    (seq 0 (length ds))).

(** What the data handler reads of a peer. *)
Record alike (p q : Peer) : Prop := {
  al_asm : asm p = asm q; al_track : track p = track q; al_late : late p = late q;
  al_clock : clock p = clock q; al_log : m_drop_log (link p) = m_drop_log (link q) }.

Lemma handle_data_alike p q h pl rtt mult max now unix log q' out : alike p q ->
  Reassembler.handle_data q h pl rtt mult max now unix log = Ok (q', out) ->
  exists p', Reassembler.handle_data p h pl rtt mult max now unix log = Ok (p', out) /\
    alike p' q' /\ crypto p' = crypto p /\ link p' = link p.
Proof.
  intros [Ha Ht Hl Hc Hd]. unfold Reassembler.handle_data. rewrite Ha, Ht, Hl, Hc, Hd. intros Hq.
  destruct (SeqTracker.account_late _ _ _ _) as [lt|]; [|done]. cbn [mbind res_bind] in *.
  destruct (Reassembler.collect _ _ _ _ _ _ _) as [[a o]|]; [|done]. injection Hq as <- <-. cbn [mbind res_bind].
  eexists. split; [done|]. split; [by split|done].
Qed.

Lemma deliver_all E msgs s : m_message_cb E = true ->
  for_each msgs (deliver_message E) s =
  Ok (tt, mkSt (peer s) (m_bandwidth s) (out s ++ (OnMessage (m_id (link (peer s))) <$> msgs))).
Proof.
  intros Hcb. revert s. induction msgs as [|m msgs IH]; intros s; cbn [for_each].
  - cbn [fmap list_fmap]. rewrite app_nil_r. by destruct s.
  - assert (deliver_message E m s =
      Ok (tt, mkSt (peer s) (m_bandwidth s) (out s ++ [OnMessage (m_id (link (peer s))) m]))) as Hm
      by (unfold deliver_message; by rewrite Hcb).
    unfold mbind, H_bind. rewrite Hm, IH. cbn [peer m_bandwidth out]. by rewrite fmap_cons, <- app_assoc.
Qed.

(** Bookkeeping that the data handler does not see. *)
Record near (s s' : St) : Prop := {
  ne_alike : alike (peer s') (peer s); ne_crypto : crypto (peer s') = crypto (peer s);
  ne_bw : m_bandwidth s' = m_bandwidth s; ne_out : out s' = out s;
  ne_id : m_id (link (peer s')) = m_id (link (peer s)) }.

Lemma alike_trans p q r : alike p q -> alike q r -> alike p r.
Proof. intros [] []. split; congruence. Qed.

Lemma near_trans s1 s2 s3 : near s1 s2 -> near s2 s3 -> near s1 s3.
Proof. intros [] []. split; try congruence. by eapply alike_trans. Qed.

Lemma gives_near {B} b f (k : H B) s Q :
  (forall l, m_drop_log (f l) = m_drop_log l /\ m_id (f l) = m_id l) ->
  (forall s', near s s' -> gives k s' Q) -> gives (when b (modify_link f) ;; k) s Q.
Proof.
  intros Hf Hk. destruct (Hf (link (peer s))) as [Hd Hi]. apply gives_bind.
  destruct b; cbn [when]; (eexists _, _; split; [reflexivity|]; apply Hk; by repeat split).
Qed.

(** Handling a data packet is the reassembler's work and nothing else. *)
Lemma data_received E d s q h pl q' msgs : m_message_cb E = true ->
  receive_datagram (crypto (peer s)) d = Some (h, pl) -> type h = Data \/ type h = Parity ->
  alike (peer s) q ->
  Reassembler.handle_data q h pl (rtt_us (m_bandwidth s)) (late_rtt_multiplier (config E))
    (max_message_bytes E) (now E) (unix_millis E) (log_now E) = Ok (q', msgs) ->
  gives (receive E d) s (fun _ s' => alike (peer s') q' /\ crypto (peer s') = crypto (peer s) /\
    m_bandwidth s' = m_bandwidth s /\ out s' = out s ++ (OnMessage (m_id (link (peer s))) <$> msgs) /\
    m_id (link (peer s')) = m_id (link (peer s))).
Proof.
  intros Hcb Ho Ht Hal Hh. unfold receive_datagram in Ho. unfold receive.
  destruct (decode d) as [[h0 pl0]|] eqn:Ed; [|done]. cbn [mbind option_bind] in Ho.
  unfold handle_packet. apply (gives_near true); [done|]. intros s1 N1.
  apply gives_get_peer, gives_near; [done|]. intros s2 N2. apply gives_near; [done|]. intros s3 N3.
  rewrite (ne_crypto _ _ N1), Ho. pose proof (near_trans _ _ _ N1 (near_trans _ _ _ N2 N3)) as [A C B O I].
  destruct (handle_data_alike _ _ _ _ _ _ _ _ _ _ _ _ (alike_trans _ _ _ A Hal) Hh)
    as (p' & Hp & Hal' & Hc' & Hl').
  apply gives_bind. eexists tt, _. split.
  - assert (dispatch E h pl = handle_data E h pl) as ->
      by (unfold dispatch; by destruct Ht as [-> | ->]).
    unfold handle_data, get_bw, get_peer, put_peer, lift, mbind, H_bind. rewrite B, Hp.
    rewrite deliver_all by done. reflexivity.
  - assert (wants_ack (type h) = false) as -> by (by destruct Ht as [-> | ->]). cbn [when].
    eexists _, _. split; [reflexivity|]. cbn [peer m_bandwidth out]. rewrite Hc', Hl', I, O, C. done.
Qed.
(** A datagram that does not decode, or that fails to open, leaves the data
    handler's state alone and raises nothing. *)
Lemma noise_received E d s : receive_datagram (crypto (peer s)) d = None ->
  gives (receive E d) s (fun _ s' => near s s').
Proof.
  intros Ho. unfold receive_datagram in Ho. unfold receive.
  destruct (decode d) as [[h pl]|] eqn:Ed; [|exists tt, s; by repeat split].
  cbn [mbind option_bind] in Ho. unfold handle_packet. apply (gives_near true); [done|]. intros s1 N1.
  apply gives_get_peer, gives_near; [done|]. intros s2 N2. apply gives_near; [done|]. intros s3 N3.
  rewrite (ne_crypto _ _ N1), Ho. exists tt, s3. split; [done|].
  exact (near_trans _ _ _ N1 (near_trans _ _ _ N2 N3)).
Qed.

(** ** Runs *)

Section Run.
Context (E : Env) (Hcb : m_message_cb E = true) (r : CryptoState) (bw : Bandwidth.Estimator).
Context (ds : list bytes) (msg : Z).

(** The datagram opens into a data packet; those of message [msg] are [ds]. *)
Definition opened (d : Datagram) : option DataPath.Arrival :=
  '(h, pl) ← receive_datagram r (dg_bytes d);
  Some (DataPath.mkArrival h pl (rtt_us bw) (dg_now d) (dg_unix d) (dg_log d)).

Definition sorted_out (d : Datagram) (ev : DataPath.Arrival) : Prop :=
  opened d = Some ev /\
  (type (DataPath.ar_header ev) = Data \/ type (DataPath.ar_header ev) = Parity) /\
  (message_id (DataPath.ar_header ev) = msg <-> dg_bytes d ∈ ds).

(** What a datagram brings: a data packet, or nothing if it does not open. *)
Definition heard (d : Datagram) (o : option DataPath.Arrival) : Prop :=
  match o with Some ev => sorted_out d ev | None => receive_datagram r (dg_bytes d) = None end.

Lemma messages_upcalls name msgs : messages (OnMessage name <$> msgs) = msgs.
Proof using.
  clear. induction msgs as [|m msgs IH]; [done|].
  change (m :: messages (OnMessage name <$> msgs) = m :: msgs). by rewrite IH.
Qed.

(** The endpoint's run is the reassembler's. *)
Lemma receive_run_spec dgs evs s q q' outs : Forall2 heard dgs evs ->
  crypto (peer s) = r -> m_bandwidth s = bw -> alike (peer s) q ->
  DataPath.receive_all (late_rtt_multiplier (config E)) (max_message_bytes E) q (omap id evs) = Ok (q', outs) ->
  exists s' up, receive_run E dgs s = Ok (s', up) /\ upcalls ds up = DataPath.deliveries msg outs.
Proof using Hcb.
  intros HF. revert s q outs. induction HF as [|d ev dgs evs Hd HF IH]; intros s q outs Hr Hb Hal Hq.
  { injection Hq as <- <-. by eexists _, _. }
  destruct ev as [ev|]; cbn [heard] in Hd.
  2: { rewrite <- Hr in Hd. destruct (noise_received (env_at E d) (dg_bytes d) s Hd) as ([] & s1 & R1 & [A1 C1 B1 O1 _]).
    destruct (IH s1 q outs) as (s2 & up & R2 & Hup); [congruence..|by eapply alike_trans|done|].
    exists s2. eexists. simpl. rewrite R1. cbn [mbind res_bind]. rewrite R2. cbn [mbind res_bind].
    split; [done|]. rewrite O1, drop_all. unfold upcalls in *. rewrite fmap_cons. cbn [concat]. rewrite Hup.
    by destruct (decide _). }
  change (omap id (Some ev :: evs)) with (ev :: omap id evs) in Hq.
  destruct Hd as (Ho & Ht & Hid). unfold opened in Ho.
  destruct (receive_datagram r (dg_bytes d)) as [[h pl]|] eqn:Eo; [|done].
  cbn [mbind option_bind] in Ho. injection Ho as <-. simpl in Hq, Ht, Hid.
  destruct (DataPath.receive _ _ q _) as [[q1 out1]|] eqn:E1; [|done]. cbn [mbind res_bind] in Hq.
  destruct (DataPath.receive_all _ _ q1 (omap id evs)) as [[q2 outs2]|] eqn:E2; [|done].
  cbn [mbind res_bind] in Hq. injection Hq as <- <-.
  unfold DataPath.receive in E1. simpl in E1. rewrite <- Hb in E1. rewrite <- Hr in Eo.
  destruct (data_received (env_at E d) (dg_bytes d) s q h pl q1 out1 Hcb Eo Ht Hal E1)
    as ([] & s1 & R1 & Hal1 & Hc1 & Hb1 & O1 & _).
  destruct (IH s1 q1 outs2) as (s2 & up & R2 & Hup); [congruence..|].
  exists s2. eexists. simpl. rewrite R1. cbn [mbind res_bind]. rewrite R2. cbn [mbind res_bind].
  split; [done|]. rewrite O1, drop_app_length. unfold upcalls in *. rewrite fmap_cons. cbn [concat].
  rewrite Hup, messages_upcalls, DataPath.deliveries_app, DataPath.deliveries_tag. f_equal.
  destruct (Z.eqb_spec (message_id h) msg), (decide (dg_bytes d ∈ ds)); tauto || done.
Qed.

Lemma elem_of_arrived dgs i :
  i ∈ arrived ds dgs <-> exists d, ds !! i = Some d /\ d ∈ dg_bytes <$> dgs.
Proof using.
  clear. unfold arrived. rewrite elem_of_list_to_set, list_elem_of_omap. split.
  - intros (j & _ & Hj). destruct (ds !! j) as [d|] eqn:Ej; [|done]. cbn [mbind option_bind] in Hj.
    destruct (decide _); [|done]. injection Hj as <-. eauto.
  - intros (d & Hd & Hin). exists i. rewrite Hd. cbn [mbind option_bind]. rewrite decide_True by done.
    split; [|done]. apply elem_of_seq. apply lookup_lt_Some in Hd. lia.
Qed.
End Run.
(** ** Delivery *)

Definition data_type (h : PacketHeader) : Prop := type h = Data \/ type h = Parity.

(** A datagram that opens into a well-formed data packet of another message. *)
Definition stranger (r : CryptoState) (id : Z) (d : bytes) : Prop :=
  exists h pl, receive_datagram r d = Some (h, pl) /\ data_type h /\ Reassembler.header_sane h /\
    message_id h <> id.

(** What the receiver may get besides: datagrams of the message, data packets of
    other messages, and datagrams that do not decode or fail to open. *)
Definition traffic (ds : list bytes) (r : CryptoState) (id : Z) (d : bytes) : Prop :=
  d ∈ ds \/ stranger r id d \/ receive_datagram r d = None.

(** The lateness threshold of the receiver is representable. *)
Definition threshold_fits (E : Env) (s : St) : Prop :=
  exists t, F64.cast_u64 (F64.mul (late_rtt_multiplier (config E))
    (F64.of_Z (if 0 <? rtt_us (m_bandwidth s) then rtt_us (m_bandwidth s) else 10000))) = Ok t.

Section Delivery.
Context (E : Env) (s : St) (Hthr : threshold_fits E s).
Context (payload : bytes) (w n pc : nat) (id : Z) (frags : list Fragmenter.Fragment) (ds : list bytes).
Context (Hsent : DataPath.sent payload w n pc id frags).
Context (Hds : Forall2 (opens_as (crypto (peer s))) ds frags).

Notation event d ev := (sorted_out (crypto (peer s)) (m_bandwidth s) ds id d ev /\
  DataPath.event_ok (late_rtt_multiplier (config E)) ev /\ DataPath.genuine id frags ev /\
  (forall i, ds !! i = Some (dg_bytes d) -> Z.to_nat (fragment_index (DataPath.ar_header ev)) = i)).

(** Our own datagrams. *)
Lemma own_event i d : ds !! i = Some (dg_bytes d) -> exists ev, event d ev.
Proof using Hds Hsent Hthr.
  intros Hi. destruct (Forall2_lookup_l _ _ _ _ _ Hds Hi) as (f & Hf & h & Ho & Hc & Ht & _).
  pose proof (DataPath.frag_fields payload w n pc id frags Hsent i f Hf) as (Hlt & Eid & Eidx & Ecnt & Ed).
  pose proof Hc as [C1 C2 C3 C4 _ _].
  exists (DataPath.mkArrival h (DataPath.wire f) (rtt_us (m_bandwidth s)) (dg_now d) (dg_unix d) (dg_log d)).
  assert (dg_bytes d ∈ ds) by (by eapply list_elem_of_lookup_2).
  split_and!.
  - split_and!; simpl; [unfold opened; by rewrite Ho|done|]. split; [done|]. intros _. congruence.
  - split; [|done]. unfold Reassembler.header_sane. simpl. rewrite C2, C3, C4, Eidx, Ecnt, Ed. lia.
  - intros _. exists f. split; [by eapply list_elem_of_lookup_2|done].
  - intros j Hj. simpl. destruct (Forall2_lookup_l _ _ _ _ _ Hds Hj) as (f' & Hf' & h' & Ho' & [_ C2' _ _ _ _] & _).
    pose proof (DataPath.frag_fields payload w n pc id frags Hsent j f' Hf') as (_ & _ & Eidx' & _).
    rewrite Ho in Ho'. injection Ho' as <- _. rewrite C2', Eidx'. lia.
Qed.

Lemma stranger_event d : stranger (crypto (peer s)) id (dg_bytes d) -> exists ev, event d ev.
Proof using Hds Hsent Hthr.
  intros (h & pl & Ho & Ht & Hs & Hne).
  exists (DataPath.mkArrival h pl (rtt_us (m_bandwidth s)) (dg_now d) (dg_unix d) (dg_log d)).
  assert (dg_bytes d ∉ ds) as Hn.
  { intros Hin. apply list_elem_of_lookup in Hin as [i Hi].
    destruct (Forall2_lookup_l _ _ _ _ _ Hds Hi) as (f & Hf & h' & Ho' & [C1 _ _ _ _ _] & _).
    rewrite Ho in Ho'. injection Ho' as <- _. apply Hne. rewrite C1.
    by destruct (DataPath.frag_fields payload w n pc id frags Hsent i f Hf) as (_ & ? & _). }
  split_and!.
  - split_and!; simpl; [unfold opened; by rewrite Ho|done|done].
  - by split.
  - intros Hid. by apply Hne in Hid.
  - intros i Hi. by apply list_elem_of_lookup_2 in Hi.
Qed.

(** The events of the datagrams that open. *)
Notation sorted d o := (match o with Some ev => event d ev | None => receive_datagram (crypto (peer s)) (dg_bytes d) = None end).

Lemma own_opens i d o : ds !! i = Some (dg_bytes d) -> sorted d o -> exists ev, o = Some ev /\ event d ev.
Proof using Hds.
  clear Hsent Hthr. intros Hi. destruct o as [ev|]; [by exists ev|].
  destruct (Forall2_lookup_l _ _ _ _ _ Hds Hi) as (f & _ & h & Ho & _). by rewrite Ho.
Qed.

Lemma indices_arrived dgs evs : Forall2 (fun d o => sorted d o) dgs evs ->
  DataPath.indices id (omap Datatypes.id evs) = arrived ds dgs.
Proof using Hds.
  clear Hsent Hthr. intros H2. apply set_eq. intros i. rewrite elem_of_arrived. unfold DataPath.indices.
  rewrite elem_of_list_to_set, list_elem_of_fmap. split.
  - intros (ev & -> & Hev). apply list_elem_of_In, filter_In in Hev as [Hev Hid].
    apply list_elem_of_In, list_elem_of_omap in Hev as (o & Hev & Eo). change (o = Some ev) in Eo. subst o.
    apply list_elem_of_lookup in Hev as [k Hk].
    destruct (Forall2_lookup_r _ _ _ _ _ H2 Hk) as (d & Hd & (_ & _ & Hiff) & _ & _ & Hidx).
    apply Z.eqb_eq in Hid. apply Hiff in Hid. apply list_elem_of_lookup in Hid as [j Hj].
    rewrite (Hidx j Hj). exists (dg_bytes d). split; [done|]. apply list_elem_of_fmap. exists d.
    split; [done|by eapply list_elem_of_lookup_2].
  - intros (b & Hb & Hin). apply list_elem_of_fmap in Hin as (d & -> & Hin).
    apply list_elem_of_lookup in Hin as [k Hk].
    destruct (Forall2_lookup_l _ _ _ _ _ H2 Hk) as (o & Hev & Ho).
    destruct (own_opens i d o Hb Ho) as (ev & -> & (_ & _ & Hiff) & _ & _ & Hidx).
    exists ev. split; [by rewrite (Hidx i Hb)|]. apply list_elem_of_In, filter_In. split.
    + apply list_elem_of_In, list_elem_of_omap. exists (Some ev). split; [by eapply list_elem_of_lookup_2|done].
    + apply Z.eqb_eq, Hiff. by eapply list_elem_of_lookup_2.
Qed.

Lemma run_events dgs :
  Forall (fun d => traffic ds (crypto (peer s)) id (dg_bytes d)) dgs ->
  exists evs, Forall2 (heard (crypto (peer s)) (m_bandwidth s) ds id) dgs evs /\
    Forall (DataPath.event_ok (late_rtt_multiplier (config E))) (omap Datatypes.id evs) /\
    Forall (DataPath.genuine id frags) (omap Datatypes.id evs) /\
    DataPath.indices id (omap Datatypes.id evs) = arrived ds dgs.
Proof using Hds Hsent Hthr.
  intros HF. assert (exists evs, Forall2 (fun d o => sorted d o) dgs evs) as [evs H2].
  { induction HF as [|d dgs Hd _ [evs IH]]; [by exists []|].
    assert (exists o, sorted d o) as [o Ho]; [|exists (o :: evs); by constructor].
    destruct Hd as [Hin|[Hs|Hn]]; [|destruct (stranger_event d Hs) as [ev Hev]; by exists (Some ev)|by exists None].
    apply list_elem_of_lookup in Hin as [i Hi]. destruct (own_event i d Hi) as [ev Hev]. by exists (Some ev). }
  exists evs. assert (forall ev, ev ∈ omap Datatypes.id evs -> exists d, event d ev) as Hin.
  { intros ev (o & Hev & Eo)%list_elem_of_omap. change (o = Some ev) in Eo. subst o.
    apply list_elem_of_lookup in Hev as [k Hk]. destruct (Forall2_lookup_r _ _ _ _ _ H2 Hk) as (d & _ & Hd). by exists d. }
  split_and!; [| | |by apply indices_arrived].
  - eapply Forall2_impl; [exact H2|]. intros d [ev|]; [by intros (? & _)|done].
  - apply Forall_forall. intros ev (d & _ & ? & _)%Hin. done.
  - apply Forall_forall. intros ev (d & _ & _ & ? & _)%Hin. done.
Qed.
End Delivery.
(** The sending side of a message. *)
Lemma message_leaves E r s log2 scratch payload st' frags
  (Hfrag : Fragmenter.fragment_and_send log2 (sending (peer s)) payload (mtu (config E)) scratch = Ok (st', frags))
  (HE : env_ok E) (Hr : reachable s) (Hkey : compatible (encryption_enabled (config E)) (crypto (peer s)) r)
  (Hb : bytes_ok payload) (Hout : in_width 32 (m_msg_id_out (sending (peer s))))
  (Hmtu : mtu (config E) + 16 < 2 ^ 16) (Hlen : Z.of_nat (length payload) < 2 ^ 32) :
  let n := Z.to_nat (DataPath.data_count (length payload) (mtu (config E))) in
  let w := Z.to_nat (Fragmenter.frag_payload (mtu (config E))) in
  let id := (Fragmenter.next_msg_id (m_msg_id_out (sending (peer s)))).1 in
  (n <= 255)%nat ->
  exists s' ds pc, fragment_and_send E log2 scratch payload s = Ok (tt, s') /\
    out s' = out s ++ (Enqueue <$> ds) /\ DataPath.sent payload w n pc id frags /\ Forall2 (opens_as r) ds frags.
Proof.
  intros n w id Hn. pose proof Hfrag as Hsent.
  assert (0 <= DataPath.data_count (length payload) (mtu (config E))) as Hdc.
  { unfold DataPath.data_count. pose proof (DataPath.frag_payload_pos (mtu (config E))). apply Z.div_pos; lia. }
  apply DataPath.fragment_and_send_sent in Hsent as (pc & id' & Hsent & ->); [|done|lia|done|lia|lia].
  fold id n w in Hsent.
  assert (Z.of_nat (w + kGcmTagSize) < 2 ^ 16) as Hw.
  { unfold w, Fragmenter.frag_payload, kGcmTagSize. case_bool; unfold kHeaderSize in *; lia. }
  set (s1 := mkSt (set_sending st' (peer s)) (m_bandwidth s) (out s)).
  assert (m_sequence_out st' = m_sequence_out (sending (peer s))) as Hseq.
  { unfold Fragmenter.fragment_and_send in Hfrag. destruct (Fragmenter.next_msg_id _).
    inv_bind Hfrag. by injection Hfrag as <- _. }
  assert (reachable s1) as Hr1 by (destruct Hr; split; [done|]; simpl; by rewrite Hseq).
  destruct (fragments_sent E HE r frags s1) as ([] & s' & R & ds & S & Hds); [by eapply sent_fits|done|done|].
  exists s', ds, pc. split_and!; [|apply (sm_out _ _ _ S)|done|done].
  unfold fragment_and_send, lift, get_peer, put_peer, mbind, H_bind. by rewrite Hfrag.
Qed.

(** C4. Messages cross an encrypted session. The sender fragments a message and
    puts the sealed packets on its queue without fault; the message has at most
    255 data fragments, within the receiver's limits. Let any of these
    datagrams reach the receiver, which holds the same key and has not seen the
    message's number, in any order, any number of times, mixed with data packets
    of other messages whose fragment counts are consistent and with datagrams
    that do not decode or fail authentication; no other packets and no periodic
    work come in between. The receiver handles all of them without fault, and
    hands the message to the callback exactly once and unchanged if as many
    parities arrived as data fragments are missing, and never otherwise. *)
Theorem session_delivers EA EB sA sB log2 scratch payload st' frags
  (Hfrag : Fragmenter.fragment_and_send log2 (sending (peer sA)) payload (mtu (config EA)) scratch =
           Ok (st', frags))
  (HA : env_ok EA) (HrA : reachable sA)
  (Hkey : compatible (encryption_enabled (config EA)) (crypto (peer sA)) (crypto (peer sB)))
  (Hcb : m_message_cb EB = true) (Hthr : threshold_fits EB sB)
  (Hb : bytes_ok payload) (Hout : in_width 32 (m_msg_id_out (sending (peer sA))))
  (Hmtu : mtu (config EA) + 16 < 2 ^ 16)
  (Hlen : Z.of_nat (length payload) <= max_message_bytes EB) :
  let n := Z.to_nat (DataPath.data_count (length payload) (mtu (config EA))) in
  let id := (Fragmenter.next_msg_id (m_msg_id_out (sending (peer sA)))).1 in
  (n <= 255)%nat -> Z.of_nat n + 3 <= max_message_bytes EB / 64 + 8 ->
  Reassembler.asm_ok (asm (peer sB)) ->
  m_incoming (asm (peer sB)) !! id = None -> m_completed (asm (peer sB)) !! id = None ->
  exists sA' ds, fragment_and_send EA log2 scratch payload sA = Ok (tt, sA') /\
    out sA' = out sA ++ (Enqueue <$> ds) /\
    forall dgs,
      Forall (fun d => traffic ds (crypto (peer sB)) id (dg_bytes d)) dgs ->
      exists sB' outs, receive_run EB dgs sB = Ok (sB', outs) /\
        upcalls ds outs =
          if DataPath.enough n (length ds - n) (arrived ds dgs) then [payload] else [].
Proof.
  intros n id Hn Hcnt Hok Hinc Hcomp.
  assert (max_message_bytes EB < 2 ^ 32) as Hmax by (unfold max_message_bytes; lia).
  destruct (message_leaves EA (crypto (peer sB)) sA log2 scratch payload st' frags Hfrag) as (sA' & ds & pc & R & O & Hsent & Hds);
    [done..|lia|done|]. fold n id in Hsent.
  exists sA', ds. split; [done|]. split; [done|]. intros dgs HF.
  pose proof (DataPath.se_length _ _ _ _ _ _ Hsent) as Hl. pose proof (DataPath.se_pc _ _ _ _ _ _ Hsent) as Hpc.
  destruct (run_events EB sB Hthr _ _ _ _ _ _ _ Hsent Hds dgs HF) as (evs & H2 & Hev & Hgen & Hidx).
  rewrite (Forall2_length _ _ _ Hds), Hl. replace (n + pc - n)%nat with pc by lia. rewrite <- Hidx.
  destruct (DataPath.receive_all_message (late_rtt_multiplier (config EB)) (max_message_bytes EB)
    _ _ _ _ _ _ Hsent Hlen Hn ltac:(lia) (omap Datatypes.id evs) (peer sB) ∅) as (q' & outs & Rq & Hd); try done.
  { apply DataPath.enough_empty, (DataPath.se_n _ _ _ _ _ _ Hsent). }
  destruct (receive_run_spec EB Hcb (crypto (peer sB)) (m_bandwidth sB) ds id dgs evs sB (peer sB) q' outs)
    as (sB' & up & RB & Hup); try done.
  exists sB', up. split; [done|]. by rewrite Hup, Hd, (left_id_L ∅ (∪)).
Qed.
(** A link with a session key, before its first message. *)
Definition demo_link : St :=
  mkSt (set_crypto demo_key (peer (demo_at Types.Online))) (Bandwidth.new 1000) [].

Definition demo_sent : Sending * list Fragmenter.Fragment :=
  match Fragmenter.fragment_and_send id new_sending [10; 20; 30] (mtu default_config) [] with
  | Ok r => r | Fault _ => (new_sending, []) end.

Lemma session_delivers_witness :
  exists sA' ds, fragment_and_send (demo_side 4) id [] [10; 20; 30] demo_link = Ok (tt, sA') /\
    out sA' = out demo_link ++ (Enqueue <$> ds) /\
    forall dgs,
      Forall (fun d => traffic ds demo_key 1 (dg_bytes d)) dgs ->
      exists sB' outs, receive_run (demo_side 7) dgs demo_link = Ok (sB', outs) /\
        upcalls ds outs = if DataPath.enough 1 (length ds - 1) (arrived ds dgs) then [[10; 20; 30]] else [].
Proof.
  apply (session_delivers (demo_side 4) (demo_side 7) demo_link demo_link id [] [10; 20; 30]
    demo_sent.1 demo_sent.2).
  - vm_compute. reflexivity.
  - by apply demo_env_ok.
  - by split.
  - done.
  - done.
  - eexists. vm_compute. reflexivity.
  - repeat constructor; done.
  - done.
  - done.
  - vm_compute. done.
  - vm_compute. lia.
  - vm_compute. done.
  - apply map_Forall_empty.
  - done.
  - done.
Defined.
End Session.
