(* ===== verification/Nonces.v ===== *)
(** * Nonces of sealed packets (tight/src/transport.cpp, command.cpp)

    AES-GCM protects nothing once one key seals two packets under one nonce.
    This file follows a peer through any sequence of packets, calls and
    periodic duties: the nonce of a data packet belongs to one packet, which a
    retransmission repeats unchanged. The nonces of commands and of
    retransmitted control packets are not unique, and the theorems say what an
    observer learns. *)
From stdpp Require Import base list numbers option strings gmap.
From Stdlib Require Import ZArith Lia Btauto.
From S2P Require Import Prelude Wire Codec Float64 Maps Types Peer.
From S2P Require Import Report Fragmenter Reassembler DataPath Command Bandwidth Aes Gcm X25519 Packets Endpoint.
From S2P Require Import Link Handshake.

Local Open Scope Z_scope.
Import Types Wire PacketCodec Peer Gcm Packets Endpoint.

Module Nonces.

(** ** Reading the nonce off a datagram *)

Definition data_type (h : PacketHeader) : Prop := type h = Data \/ type h = Parity.

Global Instance data_type_dec h : Decision (data_type h).
Proof. unfold data_type. apply _. Defined.

(** The fields a nonce is made of. *)
Record alike (h h' : PacketHeader) : Prop := {
  ak_type : type h = type h'; ak_client : client_id h = client_id h';
  ak_seq : sequence h = sequence h'; ak_msg : message_id h = message_id h';
  ak_idx : fragment_index h = fragment_index h' }.

Lemma alike_nonce h h' : alike h h' -> build_nonce h = build_nonce h'.
Proof. intros [T C S M I]. unfold build_nonce. by rewrite T, C, S, M, I. Qed.

Lemma alike_follow h1 h2 h3 : alike h1 h2 -> alike h2 h3 -> alike h1 h3.
Proof. intros [] []. split; congruence. Qed.

Lemma decoded_reads d h pl : decode d = Some (h, pl) ->
  type h = type_of_code (get8 d 5) /\ client_id h = get32 d 8 /\ sequence h = get32 d 20 /\
  message_id h = get32 d 28 /\ fragment_index h = get16 d 32.
Proof. unfold decode. repeat case_match; intros; simplify_eq; done. Qed.

Lemma decoded_alike h0 r h pl : header_wf h0 -> decode (header_bytes h0 ++ r) = Some (h, pl) -> alike h h0.
Proof.
  intros Hwf (T & C & S & M & I)%decoded_reads.
  destruct (read_header h0 r Hwf) as (_ & _ & E3 & _ & E5 & _ & E7 & _ & E9 & E10 & _).
  split; congruence.
Qed.

Lemma decoded_type h0 r h pl : type_wf (type h0) -> decode (header_bytes h0 ++ r) = Some (h, pl) ->
  type h = type h0.
Proof.
  intros Hwf (T & _)%decoded_reads. rewrite T. unfold header_bytes. rewrite <- !app_assoc.
  rewrite (app_assoc (store_le 4 _)).
  rewrite read_8; [by apply type_of_code_code|by apply type_code_width|by rewrite length_app, !length_store_le].
Qed.

(** Writing behind a prefix keeps it. *)
Lemma put_behind pre rest off bs : (length pre <= off)%nat -> (off <= length (pre ++ rest))%nat ->
  exists rest', put (pre ++ rest) off bs = pre ++ rest' /\ (length rest <= length rest')%nat.
Proof.
  intros Hp Ho. unfold put. rewrite take_app_ge by done. rewrite <- app_assoc. eexists. split; [reflexivity|].
  rewrite length_app in Ho. rewrite !length_app, length_take, length_drop, length_app. lia.
Qed.

Lemma memcpy_behind pre rest off bs buf : (length pre <= off)%nat ->
  memcpy_to (pre ++ rest) off bs = Ok buf -> exists rest', buf = pre ++ rest' /\ (length rest <= length rest')%nat.
Proof.
  intros Hp. unfold memcpy_to. destruct (Nat.leb_spec (off + length bs) (length (pre ++ rest))); [|done].
  intros [= <-]. apply put_behind; [done|lia].
Qed.

Lemma finalize_behind h rest n : (4 <= length rest)%nat ->
  exists rest', finalize_crc (header_bytes h ++ rest) n = header_bytes h ++ rest'.
Proof.
  intros Hr. unfold finalize_crc. destruct (_ <? _)%nat; [by eexists|].
  destruct (put_behind (header_bytes h) rest 44 (replicate 4 0)) as (r1 & -> & Hl);
    rewrite ?length_app, ?length_header_bytes; [lia..|].
  match goal with |- exists _, put _ 44 ?b = _ => destruct (put_behind (header_bytes h) r1 44 b) as (r2 & E & _) end;
    rewrite ?length_app, ?length_header_bytes; [lia..|]. by exists r2.
Qed.

(** A packet begins with its header, whether sealed or not. *)
Lemma built_shape enc c h pl d : build_wire_packet enc c h pl = Ok d ->
  exists wh r, d = header_bytes wh ++ r /\ alike wh h /\
    (header_wf h -> header_wf wh).
Proof.
  unfold build_wire_packet. set (wh := if enc && m_crypto_ready c then _ else _). intros E1.
  assert (alike wh h) as Hal by (unfold wh; by destruct (enc && _)).
  assert (header_wf h -> header_wf wh) as Hwf.
  { unfold wh. destruct (enc && _); [|done]. unfold header_wf, set_flags_size. simpl.
    intros (?&?&?&Hf&?). split_and!; try tauto; [|apply u16_width].
    apply lor_width; [lia|done|eval_decide]. }
  rewrite encode_blank, <- app_assoc in E1. set (n := Z.to_nat (payload_size wh)) in E1.
  match type of E1 with ?m ≫= _ = _ => destruct m as [buf|] eqn:Eb; [|done] end. cbn [mbind res_bind] in E1.
  injection E1 as <-.
  assert (exists rest, buf = header_bytes wh ++ rest /\ (4 <= length rest)%nat) as (rest & -> & Hl).
  { assert (4 <= length (replicate 4 0%Z ++ replicate n 0%Z))%nat as H4 by (rewrite length_app, length_replicate; lia).
    destruct (negb (enc && m_crypto_ready c)).
    - destruct pl; [injection Eb as <-; by eexists|].
      apply memcpy_behind in Eb as (rest & -> & ?); [|rewrite length_header_bytes; unfold kHeaderSize; lia].
      exists rest. split; [done|lia].
    - destruct (aes256_gcm_encrypt _ _ _ _) as [ct tag]. inv_bind Eb.
      apply memcpy_behind in E as (r1 & -> & ?); [|rewrite length_header_bytes; unfold kHeaderSize; lia].
      apply memcpy_behind in Eb as (r2 & -> & ?); [|rewrite length_header_bytes; unfold kHeaderSize; lia].
      exists r2. split; [done|lia]. }
  edestruct (finalize_behind wh rest) as [r Er]; [done|]. exists wh, r. split; [exact Er|done].
Qed.

(** ** The ledger of data packets *)

(** A packet is named by its message and its fragment index. *)
Definition name_of (x : PacketHeader * bytes) : Z * Z := (message_id x.1, fragment_index x.1).

(** Not a data packet. *)
Definition control_header (h : PacketHeader) : Prop := type_wf (type h) /\ ~ data_type h.

Section Ledger.
Context (start : Z).
(** The settings and keys with which packets were sealed. *)
Context (W : bool -> CryptoState -> Prop).

(** A datagram that is no data packet, or one built from the ledger. *)
Definition accounted (L : list (PacketHeader * bytes)) (d : bytes) : Prop :=
  (exists h r, d = header_bytes h ++ r /\ control_header h) \/
  exists h pl enc k, (h, pl) ∈ L /\ W enc k /\ build_wire_packet enc k h pl = Ok d.

(** [L] are the data packets numbered so far, [c] how often the message counter
    advanced since [start]. *)
Record books (L : list (PacketHeader * bytes)) (c : Z) (s : St) : Prop := {
  bk_seq : in_width 32 (m_sequence_out (sending (peer s)));
  bk_out : in_width 32 (m_msg_id_out (sending (peer s)));
  bk_count : m_msg_id_out (sending (peer s)) mod 2 ^ 31 = (start + c) mod 2 ^ 31;
  bk_wf : Forall (fun x => header_wf x.1 /\ data_type x.1) L;
  bk_names : NoDup (name_of <$> L);
  bk_ids : Forall (fun x => exists j, 0 <= j < c /\ message_id x.1 = (start + j) mod 2 ^ 31) L;
  bk_pending : map_Forall (fun _ ps => control_header (m_header ps) \/ (m_header ps, m_payload ps) ∈ L)
    (m_pending (sending (peer s)));
  bk_sent : Forall (fun e => forall d, e = Enqueue d -> accounted L d) (out s) }.

Lemma accounted_grow L L' d : accounted L d -> accounted (L ++ L') d.
Proof.
  intros [?|(h & pl & enc & k & Hin & Hb)]; [by left|]. right. exists h, pl, enc, k.
  split; [|done]. apply elem_of_app. by left.
Qed.

Lemma rebuilt_accounted L h pl enc k d : control_header h \/ (h, pl) ∈ L /\ W enc k ->
  build_wire_packet enc k h pl = Ok d -> accounted L d.
Proof.
  intros [[Hw Ht]|[Hin HW]] Hb; [|right; by exists h, pl, enc, k]. left.
  destruct (built_shape _ _ _ _ _ Hb) as (wh & r & -> & [T _ _ _ _] & _). exists wh, r.
  split; [done|]. unfold control_header, data_type in *. by rewrite T.
Qed.

(** Any step that numbers no data packet. *)
Lemma books_step L c s s' l : books L c s ->
  m_msg_id_out (sending (peer s')) = m_msg_id_out (sending (peer s)) ->
  in_width 32 (m_sequence_out (sending (peer s'))) ->
  map_Forall (fun _ ps => control_header (m_header ps) \/ (m_header ps, m_payload ps) ∈ L)
    (m_pending (sending (peer s'))) ->
  out s' = out s ++ l -> Forall (fun e => forall d, e = Enqueue d -> accounted L d) l -> books L c s'.
Proof.
  intros [] Hm Hs Hp Ho Hl. split; rewrite ?Hm; try done. rewrite Ho. by apply Forall_app.
Qed.

(** One more packet in the ledger. *)
Lemma books_grow L c s h pl : books L c s -> header_wf h -> data_type h ->
  (message_id h, fragment_index h) ∉ name_of <$> L ->
  (exists j, 0 <= j < c /\ message_id h = (start + j) mod 2 ^ 31) -> books (L ++ [(h, pl)]) c s.
Proof.
  intros [] Hw Ht Hn Hj. split; try done.
  - apply Forall_app. split; [done|]. by constructor.
  - rewrite fmap_app. apply NoDup_app. split_and!; [done| |apply NoDup_singleton].
    intros x Hx Hx'. apply list_elem_of_singleton in Hx' as ->. done.
  - apply Forall_app. split; [done|]. by constructor.
  - eapply map_Forall_impl; [done|]. intros k ps [?|?]; [by left|]. right. apply elem_of_app. by left.
  - eapply Forall_impl; [done|]. intros e He d ->. by apply accounted_grow, He.
Qed.

(** ** Handlers that number no data packet *)

Definition post {A} (m : H A) (s : St) (R : A -> St -> Prop) : Prop :=
  match m s with Ok (a, s') => R a s' | Fault _ => True end.

Definition silent {A} (m : H A) : Prop :=
  forall s L c, books L c s -> post m s (fun _ s' => books L c s').

Lemma post_bind {A B} (m : H A) (f : A -> H B) s R :
  post m s (fun a s' => post (f a) s' R) -> post (m ≫= f) s R.
Proof. unfold post, mbind, H_bind. by destruct (m s) as [[]|]. Qed.

Lemma post_mono {A} (m : H A) s (R R' : A -> St -> Prop) :
  post m s R -> (forall a s', R a s' -> R' a s') -> post m s R'.
Proof. unfold post. destruct (m s) as [[]|]; auto. Qed.

Lemma silent_bind {A B} (m : H A) (f : A -> H B) : silent m -> (forall a, silent (f a)) -> silent (m ≫= f).
Proof.
  intros Hm Hf s L c Hb. apply post_bind. eapply post_mono; [by apply Hm|]. intros a s' Hb'. by apply Hf.
Qed.
Lemma silent_ret {A} (a : A) : silent (mret a).
Proof. by intros s L c. Qed.
Lemma silent_skip : silent skip.
Proof. apply silent_ret. Qed.
Lemma silent_get_peer : silent get_peer.
Proof. by intros s L c. Qed.
Lemma silent_get_bw : silent get_bw.
Proof. by intros s L c. Qed.
Lemma silent_put_bw b : silent (put_bw b).
Proof. intros s L c []. by split. Qed.
Lemma silent_lift {A} (r : res A) : silent (lift r).
Proof. intros s L c Hb. unfold post, lift. by destruct r. Qed.
Lemma silent_modify_bw f : silent (modify_bw f).
Proof. apply silent_bind; [apply silent_get_bw|]. intros. apply silent_put_bw. Qed.
Lemma silent_emit e : match e with Enqueue _ => False | _ => True end -> silent (emit e).
Proof.
  intros He s L c Hb. eapply (books_step L c s _ [e]); [done..|apply Hb|apply Hb|done|].
  constructor; [|done]. by intros d ->.
Qed.
Lemma silent_when b (m : H unit) : silent m -> silent (when b m).
Proof. intros Hm. destruct b; [done|apply silent_skip]. Qed.
Lemma silent_if {A} b (m k : H A) : silent m -> silent k -> silent (if b : bool then m else k).
Proof. by destruct b. Qed.
Lemma silent_for_each {A} (l : list A) f : (forall x, silent (f x)) -> silent (for_each l f).
Proof. intros Hf. induction l; simpl; [apply silent_skip|]. by apply silent_bind. Qed.

(** Writing a peer with the same sending state. *)
Lemma post_put {B} p (k : H B) s L c : books L c s -> sending p = sending (peer s) -> silent k ->
  post (put_peer p ;; k) s (fun _ s' => books L c s').
Proof. intros [] Hp Hk. apply Hk. split; simpl; by rewrite ?Hp. Qed.

Lemma silent_update (f : Peer -> Peer) : (forall p, sending (f p) = sending p) ->
  silent (p ← get_peer; put_peer (f p)).
Proof. intros Hf s L c []. split; simpl; by rewrite ?Hf. Qed.

Lemma silent_modify_link f : silent (modify_link f).
Proof. by apply (silent_update (fun p => set_link (f (link p)) p)). Qed.

Create HintDb silent.
Hint Resolve silent_ret silent_skip silent_get_peer silent_get_bw silent_put_bw silent_lift silent_modify_bw
  silent_modify_link : silent.
Hint Extern 2 (silent (emit _)) => apply silent_emit; exact I : silent.

(** Takes a handler apart into silent steps. *)
Ltac silent :=
  repeat first
    [ progress intros
    | progress (eauto 1 with silent)
    | apply silent_bind | apply silent_when | apply silent_if | apply silent_for_each
    | match goal with |- silent (match ?x with _ => _ end) => destruct x end ].

(** What is kept of an entry of the retransmission table. *)
Definition entries_in (P : PacketHeader -> bytes -> Prop) (m : zmap PendingSend) : Prop :=
  map_Forall (fun _ ps => P (m_header ps) (m_payload ps)) m.

Lemma silent_modify_sending f :
  (forall x, m_msg_id_out (f x) = m_msg_id_out x /\
     (in_width 32 (m_sequence_out x) -> in_width 32 (m_sequence_out (f x))) /\
     forall P : PacketHeader -> bytes -> Prop, (forall h pl, control_header h -> P h pl) ->
       entries_in P (m_pending x) -> entries_in P (m_pending (f x))) ->
  silent (modify_sending f).
Proof.
  intros Hf s L c Hb. destruct (Hf (sending (peer s))) as (Hm & Hs & Hp).
  eapply (books_step L c s _ []); [done|exact Hm|apply Hs, Hb| |by rewrite app_nil_r|constructor].
  apply (Hp (fun h pl => control_header h \/ (h, pl) ∈ L)); [by left|apply Hb].
Qed.

Lemma silent_next_sequence : silent next_sequence.
Proof.
  intros s L c Hb. eapply (books_step L c s _ []); [done|done|apply u32_width|apply Hb|by rewrite app_nil_r|constructor].
Qed.

Lemma entries_insert P m k h pl a b r : P h pl -> entries_in P m ->
  entries_in P (<[k := mkPending h pl a b r]> m).
Proof. intros Hx Hm. by apply map_Forall_insert_2. Qed.

Lemma entries_delete P m k : entries_in P m -> entries_in P (delete k m).
Proof. apply map_Forall_delete. Qed.

Lemma entries_prune P a lost m : entries_in P m -> entries_in P (Report.prune a lost m).
Proof. intros Hm k ps Hk. apply map_lookup_filter_Some in Hk as [Hk _]. by apply (Hm k). Qed.

Lemma entries_bump P t m ks : entries_in P m -> entries_in P (foldl (Report.bump_retry t) m ks).
Proof.
  revert m. induction ks as [|k ks IH]; intros m Hm; [done|]. apply IH. unfold Report.bump_retry.
  destruct (m !! k) as [ps|] eqn:Ek; [|done]. case_match; [|done]. apply entries_insert; [|done]. by apply (Hm k).
Qed.

Lemma entries_snapshot P a lost m : entries_in P m ->
  Forall (fun '(_, ps) => P (m_header ps) (m_payload ps)) (Report.snapshot a lost m).
Proof.
  intros Hm. apply Forall_forall. intros [k ps] Hin. apply list_elem_of_In, filter_In in Hin as [Hin _].
  apply list_elem_of_In, elem_of_entries in Hin. by apply (Hm k).
Qed.

Section Handlers.
Context (E : Env).

Lemma encode_accounted L h pl : control_header h -> accounted L (encode h pl).
Proof. intros Hh. left. rewrite encode_spec. by eexists _, _. Qed.

Lemma post_send_raw d s L c : books L c s -> accounted L d -> post (send_raw E d) s (fun _ s' => books L c s').
Proof.
  intros Hb Hd. unfold send_raw, post, get_peer, mbind, H_bind. destruct (_ && _); cbn [when]; [|done].
  eapply (books_step L c s _ [Enqueue d]); [done|done|apply Hb|apply Hb|done|].
  constructor; [|done]. by intros d' [= <-].
Qed.

Lemma silent_send_raw h pl : control_header h -> silent (send_raw E (encode h pl)).
Proof. intros Hh s L c Hb. apply post_send_raw; [done|]. by apply encode_accounted. Qed.

Definition plain (t : PacketType) : Prop := type_wf t /\ t <> Data /\ t <> Parity.

Lemma plain_header t a b c : plain t -> control_header (base_header E t a b c).
Proof. intros (? & ? & ?). split; [done|]. by intros [?|?]. Qed.

Lemma silent_send_control t pl b : plain t -> silent (send_control E t pl b).
Proof.
  intros Ht. unfold send_control. apply silent_bind; [destruct b; [apply silent_next_sequence|apply silent_ret]|].
  intros seq. apply silent_bind; [by apply silent_send_raw, plain_header|]. intros _. apply silent_when.
  apply silent_modify_sending. intros x. split; [done|]. split; [done|]. intros P HP Hm.
  apply entries_insert; [|done]. by apply HP, plain_header.
Qed.

Lemma silent_send_ack a : silent (send_ack_packet E a).
Proof. by apply silent_send_raw, plain_header. Qed.

Lemma silent_send_handshake : silent (send_handshake E).
Proof. unfold send_handshake. apply silent_bind; [silent|]. intros _. by apply silent_send_control. Qed.

Lemma silent_speed_test : silent (send_speed_test E).
Proof. unfold send_speed_test. silent. Qed.
Lemma silent_fire x : silent (fire_peer_event E x).
Proof. unfold fire_peer_event. silent. Qed.
Lemma silent_fire_command pl : silent (fire_command E pl).
Proof. unfold fire_command. silent. Qed.
Lemma silent_deliver pl : silent (deliver_message E pl).
Proof. unfold deliver_message. silent. Qed.
Lemma silent_set_state x : silent (set_state x).
Proof. unfold set_state. silent. Qed.
Lemma silent_reset : silent reset_commands.
Proof. by apply (silent_update (fun p => set_cmd (CommandChannel.reset (cmd p)) p)). Qed.
Lemma silent_derive pub id : silent (derive_key E pub id).
Proof. by apply (silent_update (fun p => set_crypto (derive_session_key (private_key E) pub (m_local_client_id E) id (crypto p)) p)). Qed.
Lemma silent_feed t : silent (feed_rtt_from_tick E t).
Proof. unfold feed_rtt_from_tick. silent. Qed.
Lemma silent_sync t a : silent (sync_clock t a).
Proof.
  unfold sync_clock. destruct (t =? 0); [apply silent_skip|]. apply silent_bind; [silent|]. intros b.
  destruct (Bandwidth.rtt b <=? 0);
    [by apply (silent_update (fun p => set_clock (mkClock (m_clock_offset_us (clock p)) (m_clock_synced (clock p)) true t a) p))|].
  by apply (silent_update (fun p => let c := clock p in set_clock (mkClock _ true false (m_hs_tick c) (m_hs_arrival_ms c)) p)).
Qed.
Hint Resolve silent_send_ack silent_send_handshake silent_speed_test silent_fire silent_fire_command silent_deliver
  silent_set_state silent_reset silent_derive silent_feed silent_sync : silent.
Hint Extern 2 (silent (send_control _ _ _ _)) => by apply silent_send_control : silent.
Lemma silent_try_sync : silent try_sync_clock.
Proof. unfold try_sync_clock. silent. Qed.
Hint Resolve silent_try_sync : silent.

Lemma silent_handshake h pl : silent (handle_handshake E h pl).
Proof. unfold handle_handshake. silent. Qed.
Lemma silent_handshake_ack h pl : silent (handle_handshake_ack E h pl).
Proof. unfold handle_handshake_ack. silent. Qed.
Lemma silent_online : silent (handle_online E).
Proof. unfold handle_online. silent. Qed.
Lemma silent_heartbeat h pl : silent (handle_heartbeat E h pl).
Proof. unfold handle_heartbeat. silent. Qed.
Lemma silent_bye : silent (handle_bye E).
Proof. unfold handle_bye. silent. Qed.

Lemma silent_probe h : silent (handle_probe E h).
Proof.
  intros s L c Hb. unfold handle_probe, get_peer, lift, mbind, H_bind, post.
  destruct (finalize_probe_train _ _); [|done]. simpl. destruct Hb. by split.
Qed.

Lemma silent_data h pl : silent (handle_data E h pl).
Proof.
  intros s L c Hb. unfold handle_data, get_bw, get_peer. apply post_bind. unfold post at 1. apply post_bind.
  unfold post at 1. apply post_bind. unfold lift at 1, post at 1.
  destruct (Reassembler.handle_data _ _ _ _ _ _ _ _ _) as [[p msgs]|] eqn:Er; [|done].
  apply post_put; [done| |silent]. unfold Reassembler.handle_data in Er. inv_bind Er. inv_bind Er.
  destruct a0. by simplify_eq.
Qed.

Lemma silent_command h pl : silent (handle_command E h pl).
Proof.
  intros s L c Hb. unfold handle_command. apply post_bind. unfold get_bw, post at 1. apply post_bind.
  unfold get_peer, post at 1. destruct (CommandChannel.handle _ _ _ _ _). apply post_put; [done|done|silent].
Qed.

Lemma silent_ack h : silent (handle_ack E h).
Proof.
  unfold handle_ack. destruct (_ =? 0); [silent|]. intros s L c Hb. apply post_bind. unfold get_peer, post at 1.
  destruct (_ !! _) as [ps|]; [|done]. apply post_bind. unfold put_peer, post at 1.
  match goal with |- post ?k ?s' _ => assert (silent k) as Hk by silent; apply Hk end.
  eapply (books_step L c s _ []); [done|done|apply Hb| |by rewrite app_nil_r|constructor].
  apply (entries_delete (fun h pl => control_header h \/ (h, pl) ∈ L)), Hb.
Qed.

Lemma resends_accounted L c l s :
  Forall (fun '(h, pl) => control_header h \/ (h, pl) ∈ L) l -> books L c s -> forall k,
  W (encryption_enabled (config E)) k -> post (for_each l (fun '(h, pl) =>
    d ← lift (build_wire_packet (encryption_enabled (config E)) k h pl); send_raw E d)) s
    (fun _ s' => books L c s').
Proof.
  intros Hl Hb k Hk. revert s Hb. induction Hl as [|[h pl] l Hx _ IH]; intros s Hb; [done|].
  cbn [for_each]. apply post_bind, post_bind. unfold lift at 1, post at 1.
  destruct (build_wire_packet _ _ _ _) as [d|] eqn:Ed; [|done].
  eapply post_mono; [apply post_send_raw; [done|eapply rebuilt_accounted, Ed; destruct Hx; auto]|]. intros a s1 Hb1. by apply IH.
Qed.

(** Steps under the key [k]. *)
Definition under (k : CryptoState) (L : list (PacketHeader * bytes)) (c : Z) (s : St) : Prop :=
  books L c s /\ crypto (peer s) = k.

Lemma under_modify_link k f s L c : under k L c s -> post (modify_link f) s (fun _ s' => under k L c s').
Proof. intros [Hb Hk]. pose proof (silent_modify_link f s L c Hb) as Hq. by split. Qed.

Lemma under_when k b f s L c : under k L c s -> post (when b (modify_link f)) s (fun _ s' => under k L c s').
Proof. intros Hu. destruct b; [by apply under_modify_link|done]. Qed.

Lemma under_send_raw k d s L c : under k L c s -> accounted L d ->
  post (send_raw E d) s (fun _ s' => under k L c s').
Proof.
  intros [Hb Hk] Hd. pose proof (post_send_raw d s L c Hb Hd) as Hq.
  unfold send_raw, get_peer, mbind, H_bind, post in *. destruct (_ && _); by split.
Qed.

Lemma report_books h pl s L c : books L c s -> W (encryption_enabled (config E)) (crypto (peer s)) ->
  post (handle_report E h pl) s (fun _ s' => books L c s').
Proof.
  intros Hb0 HW. unfold handle_report. apply post_bind.
  apply (post_mono _ _ (fun _ s1 => under (crypto (peer s)) L c s1)).
  { pose proof (silent_feed (tick h) s L c Hb0) as Hq. unfold feed_rtt_from_tick, get_peer, mbind, H_bind, post in *.
    destruct (_ || _); by split. }
  clear Hb0. intros _ s1 [Hb Hk]. rewrite <- Hk in HW. clear Hk. revert Hb HW. generalize s1. clear s s1. intros s Hb HW.
  apply post_bind. unfold get_peer, post at 1. destruct (Report.handle (sending (peer s)) pl (now E)) as [[sd rs] bw] eqn:Er.
  set (P := fun h pl => control_header h \/ (h, pl) ∈ L).
  assert (entries_in P (m_pending (sending (peer s)))) as HP by apply Hb.
  assert (Forall (fun '(h, pl) => P h pl) rs /\ entries_in P (m_pending sd) /\
    m_msg_id_out sd = m_msg_id_out (sending (peer s)) /\ m_sequence_out sd = m_sequence_out (sending (peer s)))
    as (Hrs & Hsd & Hm & Hq).
  { unfold Report.handle in Er. destruct (Report.parse pl) as [r|]; simplify_eq; [|by repeat split].
    split_and!; [|by apply entries_bump, entries_prune|done|done].
    apply Forall_fmap. eapply Forall_impl; [by apply entries_snapshot|]. by intros []. }
  apply post_bind. unfold put_peer, post at 1. apply post_bind.
  eapply post_mono; [apply resends_accounted; [exact Hrs| |exact HW]|].
  - eapply (books_step L c s _ []); [done|exact Hm|simpl; rewrite Hq; apply Hb|exact Hsd|by rewrite app_nil_r|constructor].
  - intros a s1 Hb1. match goal with |- post ?k _ _ => assert (silent k) as Hk by silent; by apply Hk end.
Qed.

Hint Resolve silent_handshake silent_handshake_ack silent_online silent_heartbeat silent_bye silent_probe silent_data
  silent_command silent_ack : silent.

Lemma dispatch_books h pl s L c : books L c s -> W (encryption_enabled (config E)) (crypto (peer s)) ->
  post (dispatch E h pl) s (fun _ s' => books L c s').
Proof.
  intros Hb HW. destruct (decide (type h = Wire.Report)) as [Et|Et].
  - unfold dispatch. rewrite Et. by apply report_books.
  - assert (silent (dispatch E h pl)) as Hq; [|by apply Hq]. unfold dispatch. destruct (type h); silent; done.
Qed.

Lemma packet_books h pl s L c : books L c s -> W (encryption_enabled (config E)) (crypto (peer s)) ->
  post (handle_packet E h pl) s (fun _ s' => books L c s').
Proof.
  intros Hb HW. assert (under (crypto (peer s)) L c s) as Hu by done. unfold handle_packet. apply post_bind.
  apply (post_mono _ _ (fun _ s' => under (crypto (peer s)) L c s')); [by apply under_modify_link|]. intros _ s1 U1. apply post_bind. unfold get_peer, post at 1.
  apply post_bind. apply (post_mono _ _ (fun _ s' => under (crypto (peer s)) L c s')); [by apply under_when|]. intros _ s2 U2.
  apply post_bind. apply (post_mono _ _ (fun _ s' => under (crypto (peer s)) L c s')); [by apply under_when|]. intros _ s3 [Hb3 Hk]. destruct (open_payload _ _ _) as [[h' pl']|]; [|done].
  apply post_bind. eapply (post_mono _ _ (fun _ s' => books L c s')).
  - apply dispatch_books; [done|by rewrite Hk].
  - intros _ s4 Hb4. assert (silent (when (wants_ack (type h')) (send_ack_packet E (sequence h')))) as Hq by silent.
    by apply Hq.
Qed.

Lemma receive_books d s L c : books L c s -> W (encryption_enabled (config E)) (crypto (peer s)) ->
  post (Handshaking.receive E d) s (fun _ s' => books L c s').
Proof. intros. unfold Handshaking.receive. destruct (decode d) as [[h pl]|]; [by apply packet_books|done]. Qed.

Lemma silent_send_command pl : silent (send_command_to E pl).
Proof.
  intros s L c Hb. unfold send_command_to. apply post_bind. unfold get_peer, post at 1.
  destruct (negb _); [done|]. apply post_put; [done|done|]. intros s1 L1 c1 Hb1. apply post_bind.
  unfold lift, post at 1. destruct (build_wire_packet _ _ _ _) as [d|] eqn:Ed; [|done]. apply post_bind.
  eapply post_mono; [apply post_send_raw; [done|eapply rebuilt_accounted, Ed; left; by apply plain_header]|].
  by intros a s'.
Qed.

Lemma silent_tick_handshake : silent (tick_handshake E).
Proof. unfold tick_handshake. silent. Qed.
Lemma silent_tick_heartbeat : silent (tick_heartbeat E).
Proof. unfold tick_heartbeat. silent. Qed.
Lemma silent_tick_report : silent (tick_report E).
Proof.
  intros s L c Hb. unfold tick_report. apply post_bind. unfold get_peer, post at 1.
  destruct (_ && _); cbn [when]; [|done]. apply post_bind. unfold lift, post at 1.
  destruct (Report.build_payload _ _ _) as [[p pl]|] eqn:Er; [|done]. apply post_put; [done| |].
  - unfold Report.build_payload in Er. destruct (Report.scan_missing _ _ _ _ _). inv_bind Er. inv_bind Er. by simplify_eq.
  - apply silent_bind; [by apply silent_send_raw, plain_header|silent].
Qed.
Lemma silent_tick_offline : silent (tick_offline E).
Proof.
  intros s L c Hb. unfold tick_offline. apply post_bind. unfold get_peer, post at 1. apply post_put; [done|done|].
  apply silent_when. apply silent_bind; [silent|]. intros _. apply silent_bind; [|silent].
  apply silent_modify_sending. intros x. split_and!; [done|done|]. intros. apply map_Forall_empty.
Qed.
Lemma silent_tick_commands : silent (tick_commands E).
Proof.
  intros s L c Hb. unfold tick_commands. apply post_bind. unfold get_bw, post at 1. apply post_bind.
  unfold get_peer, post at 1. destruct (CommandChannel.flush_expired _ _ _). apply post_put; [done|done|silent].
Qed.
Lemma silent_send_bye : silent (send_bye E).
Proof. unfold send_bye. silent. Qed.

(** ** Numbering data packets *)

(** A fragment fits the header's fields. *)
Definition fits (f : Fragmenter.Fragment) : Prop :=
  in_width 32 (Fragmenter.f_msg_id f) /\ in_width 16 (Fragmenter.f_idx f) /\ in_width 16 (Fragmenter.f_cnt f) /\
  in_width 16 (Fragmenter.f_data_cnt f) /\ in_width 16 (Fragmenter.f_real_size f).

Context (Hclient : in_width 32 (m_local_client_id E)) (Hsession : in_width 64 (m_local_session_id E)).

Lemma data_header_wf f seq n : fits f -> in_width 32 seq -> header_wf (data_header E f seq (u16 n)).
Proof using Hclient Hsession.
  intros (? & ? & ? & ? & ?) Hs. unfold header_wf, data_header. simpl.
  pose proof (Handshaking.tick_width E). split_and!; try done; [by case_bool|apply u16_width].
Qed.

Lemma data_header_type f seq n : data_type (data_header E f seq n).
Proof. unfold data_type, data_header. simpl. case_bool; auto. Qed.

Notation named f L := ((Fragmenter.f_msg_id f, Fragmenter.f_idx f) ∈ name_of <$> L).

(** Sending a fragment enters it in the ledger. *)
Lemma data_packet_books f k s L c : under k L c s -> W (encryption_enabled (config E)) k -> fits f -> ~ named f L ->
  (exists j, 0 <= j < c /\ Fragmenter.f_msg_id f = (start + j) mod 2 ^ 31) ->
  post (send_data_packet E f) s (fun _ s' => exists x, under k (L ++ [x]) c s' /\
    name_of x = (Fragmenter.f_msg_id f, Fragmenter.f_idx f)).
Proof using Hclient Hsession.
  intros [Hb Hk] HW Hf Hn Hj. unfold send_data_packet. set (pl := resize0 _ _). apply post_bind.
  unfold get_peer at 1, post at 1. apply post_bind.
  set (keep := _ && retransmit_enabled (config E) && _). set (b := Fragmenter.f_ackable f && _).
  assert (post (if b then next_sequence else mret 0) s (fun seq s' => in_width 32 seq /\ under k L c s')) as Hq.
  { destruct b; [|by split; [unfold in_width; lia|]]. split; [apply Hb|]. split; [by apply silent_next_sequence|done]. }
  eapply post_mono; [exact Hq|]. clear Hq. intros seq s1 [Hseq [Hb1 K1]].
  set (h := data_header E f seq _).
  apply (books_grow L c s1 h pl) in Hb1; [|by apply data_header_wf|apply data_header_type|done|done].
  set (L' := L ++ [(h, pl)]) in *.
  assert ((h, pl) ∈ L') as Hin by (apply elem_of_app; right; by apply list_elem_of_singleton).
  apply post_bind. eapply (post_mono _ _ (fun _ s' => under k L' c s')).
  { destruct keep; cbn [when]; [|done]. split; [|done].
    eapply (books_step L' c s1 _ []); [done|done|apply Hb1| |by rewrite app_nil_r|constructor].
    apply (entries_insert (fun h pl => control_header h \/ (h, pl) ∈ L')); [by right|apply Hb1]. }
  intros _ s2 [Hb2 K2]. apply post_bind. unfold lift, post at 1.
  destruct (build_wire_packet _ _ _ _) as [d|] eqn:Ed; [|done]. apply post_bind.
  eapply (post_mono _ _ (fun _ s' => under k L' c s')).
  { apply under_send_raw; [done|]. eapply rebuilt_accounted, Ed. right. by rewrite Hk. }
  intros _ s3 [Hb3 K3]. eapply (post_mono _ _ (fun _ s' => under k L' c s')); [|by intros _ s4 Hb4; exists (h, pl)].
  destruct keep; cbn [when]; [|done]. split; [|done].
  eapply (books_step L' c s3 _ []); [done|done|apply Hb3| |by rewrite app_nil_r|constructor].
  simpl. destruct (m_pending (sending (peer s3)) !! seq) as [ps|] eqn:Ek; simpl.
  - apply (entries_insert (fun h pl => control_header h \/ (h, pl) ∈ L')); [|apply Hb3].
    by apply (bk_pending _ _ _ Hb3 seq).
  - apply (entries_insert (fun h pl => control_header h \/ (h, pl) ∈ L')); [|apply Hb3].
    left. split; [done|]. by intros [?|?].
Qed.

Lemma fragments_books fs k s L c : under k L c s -> W (encryption_enabled (config E)) k -> Forall fits fs ->
  NoDup ((fun f => (Fragmenter.f_msg_id f, Fragmenter.f_idx f)) <$> fs) -> Forall (fun f => ~ named f L) fs ->
  Forall (fun f => exists j, 0 <= j < c /\ Fragmenter.f_msg_id f = (start + j) mod 2 ^ 31) fs ->
  post (for_each fs (send_data_packet E)) s (fun _ s' => exists L', books (L ++ L') c s').
Proof using Hclient Hsession.
  intros Hb HW Hf. revert s L Hb. induction Hf as [|f fs Hf _ IH]; intros s L Hb Hnd Hn Hj.
  { exists []. rewrite app_nil_r. apply Hb. }
  cbn [for_each]. rewrite fmap_cons in Hnd. apply NoDup_cons in Hnd as [Hnf Hnd].
  apply Forall_cons in Hn as [Hn1 Hn]. apply Forall_cons in Hj as [Hj1 Hj]. apply post_bind.
  eapply post_mono; [by apply data_packet_books|]. intros _ s1 (x & Hb1 & Hx).
  eapply post_mono; [apply (IH s1 (L ++ [x]) Hb1 Hnd); [|done]|].
  - apply Forall_forall. intros g Hg. rewrite fmap_app, elem_of_app. intros [Hin|Hin].
    + by apply (Forall_forall _ fs) with (x := g) in Hn.
    + apply list_elem_of_singleton in Hin. apply Hnf. rewrite <- Hx, <- Hin. apply list_elem_of_fmap. by exists g.
  - intros _ s2 [L' Hb2]. exists ([x] ++ L'). by rewrite app_assoc.
Qed.
End Handlers.

(** ** Numbering messages *)

Lemma next_id_counts o id o' : in_width 32 o -> Fragmenter.next_msg_id o = (id, o') ->
  exists k, 1 <= k <= 2 /\ id = (o + (k - 1)) mod 2 ^ 31 /\ o' mod 2 ^ 31 = (o + k) mod 2 ^ 31 /\ in_width 32 o'.
Proof.
  intros Ho. unfold Fragmenter.next_msg_id. change 0x7FFFFFFF with (Z.ones 31). rewrite !Z.land_ones by lia.
  assert (forall x, u32 x mod 2 ^ 31 = x mod 2 ^ 31) as Hu.
  { intros x. unfold u32. replace (2 ^ 32) with (2 ^ 31 * 2) by done. rewrite Z.rem_mul_r by lia.
    rewrite Z.mul_comm, Z.mod_add by lia. by rewrite Z.mod_mod by lia. }
  destruct (_ =? 0); intros [= <- <-].
  - exists 2. rewrite !Hu. split_and!; [lia|lia|done| |apply u32_width].
    rewrite <- Zplus_mod_idemp_l, Hu, Zplus_mod_idemp_l. f_equal. lia.
  - exists 1. rewrite Hu. split_and!; [lia|lia|f_equal; lia|done|apply u32_width].
Qed.

(** The message counter advances; the new identifier names nothing yet. *)
Lemma books_number L c s o' id sd : books L c s ->
  Fragmenter.next_msg_id (m_msg_id_out (sending (peer s))) = (id, o') ->
  m_sequence_out sd = m_sequence_out (sending (peer s)) -> m_msg_id_out sd = o' ->
  m_pending sd = m_pending (sending (peer s)) -> c + 2 <= 2 ^ 31 -> 0 <= c ->
  exists c', c + 1 <= c' <= c + 2 /\
    books L c' (mkSt (set_sending sd (peer s)) (m_bandwidth s) (out s)) /\
    (exists j, 0 <= j < c' /\ id = (start + j) mod 2 ^ 31) /\ forall i, (id, i) ∉ name_of <$> L.
Proof.
  intros Hb Hid Hq Hm Hp Hc H0. destruct (next_id_counts _ _ _ (bk_out _ _ _ Hb) Hid) as (k & Hk & Ei & Eo & Hw).
  rewrite <- Zplus_mod_idemp_l, (bk_count _ _ _ Hb), Zplus_mod_idemp_l, <- Z.add_assoc in Ei, Eo.
  exists (c + k). split; [lia|]. split; [|split].
  - destruct Hb. split; simpl; rewrite ?Hq, ?Hm, ?Hp; try done.
    eapply Forall_impl; [done|]. intros x (j & ? & ?). exists j. split; [lia|done].
  - exists (c + (k - 1)). split; [lia|done].
  - intros i Hin. apply list_elem_of_fmap in Hin as (x & [= E1 _] & Hx).
    pose proof (bk_ids _ _ _ Hb) as Hids. rewrite Forall_forall in Hids. destruct (Hids x Hx) as (j & Hj & Ej).
    rewrite E1 in Ei. rewrite Ei in Ej.
    assert ((c + (k - 1) - j) mod 2 ^ 31 = 0) as Hz.
    { replace (c + (k - 1) - j) with ((start + (c + (k - 1))) - (start + j)) by lia.
      by rewrite Zminus_mod, Ej, Z.sub_diag. }
    rewrite Z.mod_small in Hz by lia. lia.
Qed.

Lemma real_size_width payload w n pc id frags i f : DataPath.sent payload w n pc id frags ->
  frags !! i = Some f -> in_width 16 (Fragmenter.f_real_size f).
Proof.
  intros Hs Hf. pose proof (lookup_lt_Some _ _ _ Hf) as Hi. rewrite (DataPath.se_length _ _ _ _ _ _ Hs) in Hi.
  destruct (decide (i < n)%nat) as [Hd|Hd].
  - pose proof (DataPath.se_data _ _ _ _ _ _ Hs i _ (Fragmenter.spans_lookup _ w n i Hd)) as E1.
    rewrite E1 in Hf. injection Hf as <-. apply u16_width.
  - destruct (DataPath.se_parity _ _ _ _ _ _ Hs (i - n)%nat ltac:(lia)) as (row & E1 & _).
    replace (n + (i - n))%nat with i in E1 by lia. rewrite E1 in Hf. injection Hf as <-. apply u16_width.
Qed.

Section Message.
Context (E : Env) (log2 : F64.double -> F64.double) (scratch : list bytes) (payload : bytes).
Context (Hclient : in_width 32 (m_local_client_id E)) (Hsession : in_width 64 (m_local_session_id E)).
Context (Hbytes : bytes_ok payload) (Hlen : Z.of_nat (length payload) < 2 ^ 32) (Hmtu : mtu (config E) < 2 ^ 16).
Context (Hcount : DataPath.data_count (length payload) (mtu (config E)) + 3 < 2 ^ 16).

Lemma message_books s L c : books L c s -> W (encryption_enabled (config E)) (crypto (peer s)) -> 0 <= c -> c + 2 <= 2 ^ 31 ->
  post (fragment_and_send E log2 scratch payload) s
    (fun _ s' => exists L' c', books (L ++ L') c' s' /\ 0 <= c' <= c + 2).
Proof using Hbytes Hclient Hcount Hlen Hmtu Hsession.
  intros Hb HW H0 Hc. unfold fragment_and_send. apply post_bind. unfold get_peer, post at 1. apply post_bind.
  unfold lift, post at 1.
  destruct (Fragmenter.fragment_and_send _ _ _ _ _) as [[sd frags]|] eqn:Ef; [|done].
  pose proof Ef as Hsent. apply DataPath.fragment_and_send_sent in Hsent as (pc & id & Hsent & Eid); [|done|done|apply Hb|done|done].
  unfold Fragmenter.fragment_and_send in Ef.
  destruct (Fragmenter.next_msg_id _) as [id' o'] eqn:En. inv_bind Ef. injection Ef as Esd _. simpl in Eid. subst id'.
  destruct (books_number L c s o' id sd) as (c' & Hc' & Hb' & Hj & Hfresh); [done|exact En|by rewrite <- Esd..|done|done|].
  apply post_bind. unfold put_peer, post at 1.
  assert (forall i f, frags !! i = Some f -> fits f /\ Fragmenter.f_msg_id f = id /\ Fragmenter.f_idx f = Z.of_nat i) as Hfr.
  { intros i f Hf. destruct (DataPath.frag_fields _ _ _ _ _ _ Hsent i f Hf) as (Hi & E1 & E2 & E3 & E4).
    pose proof (DataPath.se_cnt _ _ _ _ _ _ Hsent). pose proof (DataPath.se_id _ _ _ _ _ _ Hsent).
    split; [|done]. unfold fits. rewrite E1, E2, E3, E4. unfold in_width. split_and!; try lia; by apply (real_size_width _ _ _ _ _ _ i _ Hsent). }
  eapply post_mono; [apply (fragments_books E Hclient Hsession frags (crypto (peer s)) _ L c'); [by split|done|..]|].
  - apply Forall_lookup. intros i f Hf. by apply (Hfr i).
  - apply NoDup_alt. intros i j x. rewrite !list_lookup_fmap.
    destruct (frags !! i) as [f|] eqn:E1; [|done]. destruct (frags !! j) as [g|] eqn:E2; [|done].
    intros [= <-] [= _ Hidx]. destruct (Hfr i f E1) as (_ & _ & ?), (Hfr j g E2) as (_ & _ & ?). lia.
  - apply Forall_lookup. intros i f Hf. destruct (Hfr i f Hf) as (_ & -> & _). apply Hfresh.
  - apply Forall_lookup. intros i f Hf. destruct (Hfr i f Hf) as (_ & -> & _). exact Hj.
  - intros _ s' [L' Hb1]. exists L', c'. split; [done|lia].
Qed.
End Message.
End Ledger.

(** ** Everything a peer does *)

Inductive Op :=
  | Receive (d : bytes)
  | SendMessage (scratch : list bytes) (payload : bytes)
  | SendCommand (payload : bytes)
  | SendHandshake
  | TickHandshake | TickHeartbeat | TickReport | TickOffline | TickCommands
  | SendBye.

Definition act (log2 : F64.double -> F64.double) (E : Env) (op : Op) : H unit :=
  match op with
  | Receive d => Handshaking.receive E d
  | SendMessage scratch payload => fragment_and_send E log2 scratch payload
  | SendCommand payload => send_command_to E payload ;; skip
  | SendHandshake => send_handshake E
  | TickHandshake => tick_handshake E
  | TickHeartbeat => tick_heartbeat E
  | TickReport => tick_report E
  | TickOffline => tick_offline E
  | TickCommands => tick_commands E
  | SendBye => send_bye E
  end.

(** Each operation with the configuration and clocks of its moment. *)
Definition run (log2 : F64.double -> F64.double) (l : list (Env * Op)) : H unit :=
  for_each l (fun '(E, op) => act log2 E op).

(** Identities are integers of their width; a message has fewer than 2^16
    fragments. *)
Definition sane (x : Env * Op) : Prop :=
  let '(E, op) := x in
  in_width 32 (m_local_client_id E) /\ in_width 64 (m_local_session_id E) /\
  match op with
  | SendMessage _ payload =>
      bytes_ok payload /\ Z.of_nat (length payload) < 2 ^ 32 /\ mtu (config E) < 2 ^ 16 /\
      DataPath.data_count (length payload) (mtu (config E)) + 3 < 2 ^ 16
  | _ => True
  end.

Definition is_message (x : Env * Op) : bool := match x.2 with SendMessage _ _ => true | _ => false end.

Definition messages (l : list (Env * Op)) : nat := length (List.filter is_message l).

(** The setting and the key of the link before each operation. *)
Fixpoint history (log2 : F64.double -> F64.double) (l : list (Env * Op)) (s : St) : list (bool * CryptoState) :=
  match l with
  | [] => []
  | (E, op) :: l =>
      (encryption_enabled (config E), crypto (peer s)) ::
      match act log2 E op s with Ok (_, s1) => history log2 l s1 | Fault _ => [] end
  end.

Section Run.
Context (start : Z) (log2 : F64.double -> F64.double) (W : bool -> CryptoState -> Prop).

Lemma act_books E op s L c : books start W L c s -> W (encryption_enabled (config E)) (crypto (peer s)) ->
  sane (E, op) -> 0 <= c -> let n := if is_message (E, op) then 2 else 0 in c + n <= 2 ^ 31 ->
  post (act log2 E op) s (fun _ s' => exists L' c', books start W (L ++ L') c' s' /\ 0 <= c' <= c + n).
Proof.
  intros Hb HW (Hc & Hs & Hop) H0. cbv zeta.
  set (R := fun s' => exists L' c', books start W (L ++ L') c' s' /\ 0 <= c' <= c + 0).
  assert (forall s', books start W L c s' -> R s') as HR.
  { intros s' Hb'. exists [], c. rewrite app_nil_r. split; [done|lia]. }
  assert (forall m : H unit, silent start W m -> post m s (fun _ s' => R s')) as Hq.
  { intros m Hm. eapply post_mono; [by apply Hm|]. auto. }
  destruct op; cbn [is_message snd]; intros Hn.
  - eapply post_mono; [by apply receive_books|]. auto.
  - destruct Hop as (? & ? & ? & ?). by apply message_books.
  - apply Hq, silent_bind; [apply silent_send_command|]. intros _. apply silent_skip.
  - apply Hq, silent_send_handshake.
  - apply Hq, silent_tick_handshake.
  - apply Hq, silent_tick_heartbeat.
  - apply Hq, silent_tick_report.
  - apply Hq, silent_tick_offline.
  - apply Hq, silent_tick_commands.
  - apply Hq, silent_send_bye.
Qed.

Lemma run_books l s L c : books start W L c s -> Forall sane l -> 0 <= c ->
  c + 2 * Z.of_nat (messages l) <= 2 ^ 31 -> Forall (fun x => W x.1 x.2) (history log2 l s) ->
  post (run log2 l) s (fun _ s' => exists L' c', books start W L' c' s').
Proof.
  intros Hb Hl. revert s L c Hb. induction Hl as [|[E op] l Hx _ IH]; intros s L c Hb H0 Hn HW; [by exists L, c|].
  unfold run. cbn [for_each]. unfold messages in Hn. cbn [List.filter] in Hn. cbn [history] in HW.
  apply Forall_cons in HW as [HW1 HW].
  pose proof (act_books E op s L c Hb HW1 Hx H0) as Ha. unfold post, mbind, H_bind in *.
  destruct (act log2 E op s) as [[[] s1]|]; [|done].
  destruct Ha as (L1 & c1 & Hb1 & Hc1); [destruct (is_message (E, op)); cbn [length] in Hn; lia|].
  apply (IH s1 (L ++ L1) c1 Hb1); [lia| |done].
  unfold messages. destruct (is_message (E, op)); cbn [length] in Hn; lia.
Qed.

(** A data packet in the trace has an entry in the ledger with its nonce. *)
Lemma accounted_data L c s d h pl : books start W L c s -> Enqueue d ∈ out s ->
  decode d = Some (h, pl) -> data_type h ->
  exists h0 pl0, (h0, pl0) ∈ L /\ build_nonce h = build_nonce h0 /\
    exists enc k, W enc k /\ build_wire_packet enc k h0 pl0 = Ok d.
Proof.
  intros Hb Hin Hd Ht. pose proof (bk_sent _ _ _ _ _ Hb) as Hs. rewrite Forall_forall in Hs.
  destruct (Hs _ Hin d eq_refl) as [(h0 & r & -> & Hw & Hn)|(h0 & pl0 & enc & k & HL & HW & Hbuilt)].
  - apply decoded_type in Hd; [|done]. unfold data_type in *. by rewrite <- Hd in Hn.
  - exists h0, pl0. split; [done|]. split; [|by exists enc, k].
    pose proof (bk_wf _ _ _ _ _ Hb) as Hwf. rewrite Forall_forall in Hwf. destruct (Hwf _ HL) as [Hw _].
    destruct (built_shape _ _ _ _ _ Hbuilt) as (wh & r & -> & Hal & Hwh).
    apply decoded_alike in Hd; [|by apply Hwh]. apply alike_nonce. by eapply alike_follow.
Qed.

Lemma ledger_injective L c s x y : books start W L c s -> x ∈ L -> y ∈ L ->
  build_nonce x.1 = build_nonce y.1 -> x = y.
Proof.
  intros Hb Hx Hy Hn. pose proof (bk_wf _ _ _ _ _ Hb) as Hwf. rewrite Forall_forall in Hwf.
  destruct (Hwf _ Hx) as [Wx Tx], (Hwf _ Hy) as [Wy Ty].
  apply nonce_injective in Hn; [|done..|unfold sealed_type; destruct Tx; auto|unfold sealed_type; destruct Ty; auto].
  unfold packet_key in Hn.
  rewrite !decide_False in Hn by (destruct Tx as [E1|E1], Ty as [E2|E2]; by rewrite ?E1, ?E2).
  injection Hn as _ _ Em Ei.
  apply list_elem_of_lookup in Hx as [i Hi]. apply list_elem_of_lookup in Hy as [j Hj].
  assert (i = j) as <-; [|congruence].
  apply (proj1 (NoDup_alt _) (bk_names _ _ _ _ _ Hb) i j (name_of x));
    rewrite list_lookup_fmap, ?Hi, ?Hj; [done|]. unfold name_of. cbn. by rewrite Em, Ei.
Qed.
End Run.

(** C2. A nonce belongs to one data packet: over every sequence of received
    datagrams, messages, commands and periodic duties of a peer, with at most
    2^30 messages, two data or parity datagrams with the same GCM nonce carry
    the same header and the same plaintext, each sealed with a key the link
    held; under one key they are the same datagram, sent again. *)
Theorem data_nonces_unique log2 l s s'
  (Hsane : Forall sane l) (Hmany : Z.of_nat (messages l) <= 2 ^ 30)
  (Hout : out s = []) (Hpending : m_pending (sending (peer s)) = ∅)
  (Hseq : in_width 32 (m_sequence_out (sending (peer s))))
  (Hid : in_width 32 (m_msg_id_out (sending (peer s))))
  (Hrun : run log2 l s = Ok (tt, s')) d1 d2 h1 h2 pl1 pl2 :
  Enqueue d1 ∈ out s' -> Enqueue d2 ∈ out s' ->
  decode d1 = Some (h1, pl1) -> decode d2 = Some (h2, pl2) -> data_type h1 -> data_type h2 ->
  build_nonce h1 = build_nonce h2 ->
  exists h pl x1 x2, x1 ∈ history log2 l s /\ x2 ∈ history log2 l s /\
    build_wire_packet x1.1 x1.2 h pl = Ok d1 /\ build_wire_packet x2.1 x2.2 h pl = Ok d2 /\
    (d1 = d2 \/ x1 <> x2).
Proof.
  intros Hd1 Hd2 Hr1 Hr2 Ht1 Ht2 Hn. set (W := fun enc k => (enc, k) ∈ history log2 l s).
  assert (books (m_msg_id_out (sending (peer s))) W [] 0 s) as Hb.
  { split; rewrite ?Hout, ?Hpending; try done; [by rewrite Z.add_0_r|apply NoDup_nil_2]. }
  assert (Forall (fun x => W x.1 x.2) (history log2 l s)) as HW by (apply Forall_forall; by intros []).
  pose proof (run_books _ log2 W l s [] 0 Hb Hsane ltac:(lia) ltac:(lia) HW) as Hp. unfold post in Hp. rewrite Hrun in Hp.
  destruct Hp as (L & c & Hb').
  destruct (accounted_data _ _ _ _ _ _ _ _ Hb' Hd1 Hr1 Ht1) as (h & pl & Hin1 & N1 & enc1 & k1 & W1 & B1).
  destruct (accounted_data _ _ _ _ _ _ _ _ Hb' Hd2 Hr2 Ht2) as (h' & pl' & Hin2 & N2 & enc2 & k2 & W2 & B2).
  assert ((h, pl) = (h', pl')) as [= <- <-] by (eapply ledger_injective; [exact Hb'|done|done|simpl; congruence]).
  exists h, pl, (enc1, k1), (enc2, k2). split_and!; [done..|].
  destruct (decide (d1 = d2)); [by left|]. right. intros [= -> ->]. simpl in *. congruence.
Qed.

(** ** Commands *)

(** The key stream of a nonce does not depend on the text. *)
Lemma crypt_stream rk : exists ks : bytes -> nat -> Z, forall fuel ctr a i, (length a <= fuel)%nat -> (i < length a)%nat ->
  byte_at (gcm_crypt_loop fuel rk ctr a) i = Z.lxor (byte_at a i) (ks ctr i).
Proof.
  exists (fun ctr i => byte_at (Aes.encrypt_block rk (Nat.iter (S (i / 16)) inc32 ctr)) (i mod 16)).
  induction fuel as [|fuel IH]; intros ctr a i Hf Hi; [lia|]. cbn [gcm_crypt_loop].
  rewrite (proj2 (Nat.eqb_neq _ _)) by lia. cbv zeta. unfold byte_at at 1.
  destruct (decide (i < 16)%nat) as [Hs|Hb].
  - rewrite lookup_app_l by (rewrite length_xor_bytes, length_take; lia).
    change (byte_at (xor_bytes (take 16 a) (Aes.encrypt_block rk (inc32 ctr))) i =
      Z.lxor (byte_at a i) (byte_at (Aes.encrypt_block rk (Nat.iter (S (i / 16)) inc32 ctr)) (i mod 16))).
    rewrite byte_at_xor by (rewrite length_take; lia). rewrite Nat.div_small, Nat.mod_small by lia.
    f_equal. unfold byte_at. by rewrite lookup_take_lt by lia.
  - rewrite lookup_app_r by (rewrite length_xor_bytes, length_take; lia). rewrite length_xor_bytes, length_take.
    rewrite Nat.min_l by lia.
    change (byte_at (gcm_crypt_loop fuel rk (inc32 ctr) (drop 16 a)) (i - 16) =
      Z.lxor (byte_at a i) (byte_at (Aes.encrypt_block rk (Nat.iter (S (i / 16)) inc32 ctr)) (i mod 16))).
    rewrite IH by (rewrite length_drop; lia). f_equal.
    + unfold byte_at. rewrite lookup_drop. do 2 f_equal. lia.
    + assert (i / 16 = S ((i - 16) / 16) /\ i mod 16 = (i - 16) mod 16)%nat as [-> ->].
      { replace i with (i - 16 + 1 * 16)%nat at 1 3 by lia. rewrite Nat.div_add, Nat.Div0.mod_add by lia. lia. }
      by rewrite (Nat.iter_succ_r (S ((i - 16) / 16))).
Qed.

(** Texts sealed with one key and nonce differ as their plaintexts do. *)
Lemma keystream_cancels rk j0 a b i : (i < length a)%nat -> (i < length b)%nat ->
  Z.lxor (byte_at (aes256_gcm_crypt rk j0 a) i) (byte_at (aes256_gcm_crypt rk j0 b) i) = Z.lxor (byte_at a i) (byte_at b i).
Proof.
  intros Ha Hb. destruct (crypt_stream rk) as [ks Hks]. unfold aes256_gcm_crypt. rewrite !Hks by lia.
  apply Z.bits_inj'. intros j _. rewrite !Z.lxor_spec. btauto.
Qed.

Import Handshaking.

Section Commands.
Context (E : Env) (HE : env_ok E) (Henc : encryption_enabled (config E) = true).

Definition command_header (seq : Z) (pl : bytes) : PacketHeader :=
  base_header E Command seq 0 (u16 (Z.of_nat (length pl))).

Lemma command_sendable seq pl : in_width 32 seq -> bytes_ok pl -> Z.of_nat (length pl + kGcmTagSize) < 2 ^ 16 ->
  sendable (command_header seq pl) pl.
Proof using HE.
  clear Henc. intros Hs Hb Hl. assert (u16 (Z.of_nat (length pl)) = Z.of_nat (length pl)) as Eu
    by (apply u16_id; unfold in_width; lia).
  pose proof (tick_width E). destruct HE. split; try done.
  - unfold header_wf, command_header, base_header. simpl. rewrite Eu. unfold in_width in *. split_and!; try done; lia.
Qed.

(** A sealed command: header, ciphertext and tag. *)
Definition sealed_as (k : bytes) (seq : Z) (pl d ct : bytes) : Prop :=
  exists h tag, decode d = Some (h, ct ++ tag) /\ length tag = kGcmTagSize /\
    build_nonce h = build_nonce (command_header seq pl) /\
    ct = aes256_gcm_crypt (Aes.Aes256 k) (make_j0 (build_nonce h)) pl.

Lemma command_built k seq pl : m_crypto_ready k = true -> in_width 32 seq -> bytes_ok pl ->
  Z.of_nat (length pl + kGcmTagSize) < 2 ^ 16 ->
  exists d ct, build_wire_packet (encryption_enabled (config E)) k (command_header seq pl) pl = Ok d /\
    sealed_as (m_crypto_key k) seq pl d ct.
Proof using HE Henc.
  intros Hk Hs Hb Hl. pose proof (command_sendable seq pl Hs Hb Hl) as [Hwf Hm Hv Hf Hsz _ _].
  rewrite build_sealed; [|by rewrite Henc, Hk|done]. set (wh := sealed_header _ _).
  unfold aes256_gcm_encrypt. cbv zeta iota. set (ct := aes256_gcm_crypt _ _ _). set (tag := gcm_compute_tag _ _ _ ct).
  pose proof (tag_ok (m_crypto_key k) (make_j0 (build_nonce wh)) (header_bytes wh) ct) as [Htb Ht]. fold tag in Htb, Ht.
  exists (encode wh (ct ++ tag)), ct. split; [done|]. exists (set_checksum wh (datagram_crc wh (ct ++ tag))), tag.
  assert (length ct = length pl) as Hct by apply length_gcm_crypt.
  assert (bytes_ok ct) as Hcb by (by apply gcm_crypt_ok).
  split; [|done]. apply decode_own; [by apply sealed_wf|done|done|by apply bytes_ok_app|].
  unfold wh. cbn [payload_size sealed_header set_flags_size]. rewrite u16_id; [|unfold in_width; lia].
  rewrite length_app. unfold kGcmTagSize in *. lia.
Qed.

Lemma command_sent pl s : m_state (link (peer s)) = Types.Online -> reachable s ->
  m_crypto_ready (crypto (peer s)) = true -> in_width 32 (m_cmd_seq_out (cmd (peer s))) -> bytes_ok pl ->
  Z.of_nat (length pl + kGcmTagSize) < 2 ^ 16 ->
  gives (send_command_to E pl) s (fun b s' => b = true /\ exists d ct,
    sealed_as (m_crypto_key (crypto (peer s))) (m_cmd_seq_out (cmd (peer s))) pl d ct /\ same s s' [Enqueue d] /\
    m_cmd_seq_out (cmd (peer s')) = u32 (m_cmd_seq_out (cmd (peer s)) + 1)).
Proof using HE Henc.
  intros Hst [Ha Hw] Hk Hs Hb Hl. unfold send_command_to. apply gives_get_peer. rewrite Hst.
  change (bool_decide (Types.Online = Types.Online)) with true. cbn [negb].
  destruct (command_built (crypto (peer s)) _ pl Hk Hs Hb Hl) as (d & ct & Ed & Hd).
  unfold command_header in Ed. unfold gives, put_peer, lift, send_raw, get_peer, mbind, H_bind, mret, H_ret.
  rewrite Ed. cbn [peer set_cmd link]. rewrite Ha, (eo_sock _ HE). cbn [andb when].
  do 2 eexists. split; [reflexivity|]. split; [done|]. exists d, ct. split; [done|]. split; [by split|done].
Qed.

(** Commands one after the other. *)
Definition send_commands (pls : list bytes) : H unit := for_each pls (fun pl => send_command_to E pl ;; skip).

Definition command_fits (pl : bytes) : Prop := bytes_ok pl /\ Z.of_nat (length pl + kGcmTagSize) < 2 ^ 16.

Lemma commands_sent pls : forall s, m_state (link (peer s)) = Types.Online -> reachable s ->
  m_crypto_ready (crypto (peer s)) = true -> 0 <= m_cmd_seq_out (cmd (peer s)) ->
  m_cmd_seq_out (cmd (peer s)) + Z.of_nat (length pls) < 2 ^ 32 -> Forall command_fits pls ->
  gives (send_commands pls) s (fun _ s' => exists ds, same s s' (Enqueue <$> ds) /\ length ds = length pls /\
    forall i pl, pls !! i = Some pl -> exists d ct, ds !! i = Some d /\
      sealed_as (m_crypto_key (crypto (peer s))) (m_cmd_seq_out (cmd (peer s)) + Z.of_nat i) pl d ct).
Proof using HE Henc.
  unfold send_commands. induction pls as [|pl pls IH]; intros s Hst Hr Hk H0 Hw HF; cbn [for_each].
  { exists tt, s. split; [done|]. exists []. split_and!; [apply same_refl|done|]. by intros i pl. }
  apply Forall_cons in HF as [[Hb Hl] HF]. cbn [length] in Hw. apply gives_bind, gives_bind.
  eapply gives_mono; [apply command_sent; try done; unfold in_width; lia|].
  intros b s1 (_ & d & ct & Hd & S1 & Q1). rewrite u32_id in Q1 by (unfold in_width; lia).
  exists tt, s1. split; [done|].
  eapply gives_mono; [apply IH; [by rewrite (sm_state _ _ _ S1)|by apply (reachable_same _ _ _ S1)|by rewrite (sm_crypto _ _ _ S1)|lia|lia|done]|].
  intros [] s2 (ds & S2 & Hl2 & Hds). exists (d :: ds). split_and!.
  - rewrite fmap_cons. exact (same_trans _ _ _ _ _ S1 S2).
  - cbn. by rewrite Hl2.
  - intros [|i] pl' Hi; cbn in Hi.
    + injection Hi as <-. exists d, ct. split; [done|]. by rewrite Z.add_0_r.
    + destruct (Hds i pl' Hi) as (d' & ct' & Hi' & Hs'). exists d', ct'. split; [done|].
      rewrite (sm_crypto _ _ _ S1), Q1 in Hs'. by replace (_ + Z.of_nat (S i)) with (m_cmd_seq_out (cmd (peer s)) + 1 + Z.of_nat i) by lia.
Qed.
End Commands.

Lemma keyed_again EA EB c : keyed EA EB (keyed EA EB c) = keyed EA EB c.
Proof.
  unfold keyed. destruct (encryption_enabled (config EA)); [|done]. unfold derive_session_key.
  destruct (X25519.X25519.x25519 _ _) as [sh []]; done.
Qed.

(** A repeated acknowledgement on a link that is online. *)
Lemma ack_repeated EA EB h s : env_ok EB -> encryption_enabled (config EB) = encryption_enabled (config EA) ->
  client_id h = m_local_client_id EB -> reachable s -> m_state (link (peer s)) = Types.Online ->
  gives (handle_handshake_ack EA h (ack_payload EB)) s (fun _ s' =>
    crypto (peer s') = keyed EA EB (crypto (peer s)) /\ m_state (link (peer s')) = Types.Online /\ reachable s' /\
    m_cmd_seq_out (cmd (peer s')) = 1 /\ exists l, out s' = out s ++ l).
Proof.
  intros HB Henc Hc Hr Hst. unfold handle_handshake_ack. apply gives_still; [still|]. intros _ s1 l1 S1.
  apply gives_update, gives_bind. eapply gives_mono; [by apply ack_tail_gives|]. simpl.
  intros _ s3 (Hk3 & Hs3 & Hr3 & O3 & C3). apply gives_get_peer. rewrite Hs3, (sm_state _ _ _ S1), Hst.
  change (bool_decide (Types.Online = Types.Online)) with true. exists tt, s3. split; [done|].
  rewrite Hk3, Hs3, C3, O3, (sm_crypto _ _ _ S1), (sm_state _ _ _ S1). split_and!; try done.
  - apply Hr3. by apply (reachable_same _ _ _ S1) in Hr.
  - exists l1. apply S1.
Qed.

Lemma raw_keeps_peer E d s : gives (send_raw E d) s (fun _ s' => peer s' = peer s /\ exists l, out s' = out s ++ l).
Proof.
  unfold send_raw. apply gives_get_peer. destruct (_ && _); eexists _, _; (split; [reflexivity|]).
  - split; [done|]. by eexists.
  - split; [done|]. exists []. by rewrite app_nil_r.
Qed.

(** The datagram that acknowledges a handshake of [E]'s peer. *)
Definition ack_datagram (E : Env) (seq : Z) : bytes :=
  encode (base_header E HandshakeAck seq 0 (u16 (Z.of_nat (length (ack_payload E))))) (ack_payload E).

Lemma ack_received EA EB seq s : env_ok EA -> env_ok EB ->
  encryption_enabled (config EB) = encryption_enabled (config EA) -> in_width 32 seq ->
  reachable s -> m_state (link (peer s)) = Types.Online ->
  gives (receive EA (ack_datagram EB seq)) s (fun _ s' =>
    crypto (peer s') = keyed EA EB (crypto (peer s)) /\ m_state (link (peer s')) = Types.Online /\ reachable s' /\
    m_cmd_seq_out (cmd (peer s')) = 1 /\ exists l, out s' = out s ++ l).
Proof.
  intros HA HB Henc Hseq Hr Hst. destruct (ack_payload_ok EB HB) as (Hok & Hlen & _).
  unfold ack_datagram. apply control_received; try done. intros s1 h l1 S1 Ht Hc Hq. unfold dispatch. rewrite Ht.
  eapply gives_mono; [apply (ack_repeated EA EB); [done..|by apply (reachable_same _ _ _ S1)|by rewrite (sm_state _ _ _ S1)]|].
  intros _ s2 (Hk & Hs2 & Hr2 & Hc2 & l2 & O2). cbn [wants_ack when]. eapply gives_mono; [apply raw_keeps_peer|].
  intros _ s3 (Hp & l3 & O3). unfold reachable in *. rewrite Hp, Hk, Hs2, (sm_crypto _ _ _ S1).
  do 4 (split; [done|]). exists (l1 ++ l2 ++ l3). by rewrite O3, O2, (sm_out _ _ _ S1), <- !app_assoc.
Qed.

(** C12. A repeated handshake acknowledgement exposes the commands. On an online,
    encrypted link that has not sent a command since its handshake, send any
    commands, let the acknowledgement of the handshake arrive once more (it is
    not authenticated and can be repeated by anyone who saw it), and send any
    further commands. The numbers start again at 1 under the same key: the i-th
    command before and the i-th command after are sealed with the same key and
    the same nonce, and wherever both have a byte, the exclusive or of the two
    ciphertexts is that of the two plaintexts. *)
Theorem command_keystream_reused EA EB s before after seq c0
  (HA : env_ok EA) (HB : env_ok EB) (HeA : encryption_enabled (config EA) = true)
  (HeB : encryption_enabled (config EB) = true)
  (Hst : m_state (link (peer s)) = Types.Online) (Hr : reachable s)
  (Hready : m_crypto_ready (crypto (peer s)) = true) (Hkey : crypto (peer s) = keyed EA EB c0)
  (Hfirst : m_cmd_seq_out (cmd (peer s)) = 1) (Hseq : in_width 32 seq)
  (Hf1 : Forall command_fits before) (Hf2 : Forall command_fits after)
  (Hn1 : Z.of_nat (length before) < 2 ^ 32 - 1) (Hn2 : Z.of_nat (length after) < 2 ^ 32 - 1) :
  exists s' ds1 l ds2,
    (send_commands EA before ;; receive EA (ack_datagram EB seq) ;; send_commands EA after) s = Ok (tt, s') /\
    out s' = out s ++ (Enqueue <$> ds1) ++ l ++ (Enqueue <$> ds2) /\ crypto (peer s') = crypto (peer s) /\
    forall i pl1 pl2, before !! i = Some pl1 -> after !! i = Some pl2 ->
    exists d1 h1 ct1 tag1 d2 h2 ct2 tag2,
      ds1 !! i = Some d1 /\ ds2 !! i = Some d2 /\
      decode d1 = Some (h1, ct1 ++ tag1) /\ decode d2 = Some (h2, ct2 ++ tag2) /\
      length tag1 = kGcmTagSize /\ length tag2 = kGcmTagSize /\ length ct1 = length pl1 /\ length ct2 = length pl2 /\
      build_nonce h1 = build_nonce h2 /\
      forall j, (j < length pl1)%nat -> (j < length pl2)%nat ->
        Z.lxor (byte_at ct1 j) (byte_at ct2 j) = Z.lxor (byte_at pl1 j) (byte_at pl2 j).
Proof.
  destruct (commands_sent EA HA HeA before s Hst Hr Hready) as ([] & s1 & E1 & ds1 & S1 & _ & D1); [lia|lia|done|].
  assert (reachable s1) as Hr1 by (by apply (reachable_same _ _ _ S1)).
  destruct (ack_received EA EB seq s1) as ([] & s2 & E2 & K2 & T2 & R2 & C2 & l & O2);
    [done|done|congruence|done|done|by rewrite (sm_state _ _ _ S1)|].
  rewrite (sm_crypto _ _ _ S1), Hkey, keyed_again, <- Hkey in K2.
  destruct (commands_sent EA HA HeA after s2 T2 R2) as ([] & s3 & E3 & ds2 & S2 & _ & D2);
    [by rewrite K2|lia|lia|done|].
  exists s3, ds1, l, ds2. split; [unfold mbind, H_bind; by rewrite E1, E2, E3|].
  split; [by rewrite (sm_out _ _ _ S2), O2, (sm_out _ _ _ S1), <- !app_assoc|].
  split; [by rewrite (sm_crypto _ _ _ S2)|]. intros i pl1 pl2 Hi1 Hi2.
  destruct (D1 i pl1 Hi1) as (d1 & ct1 & L1 & h1 & tag1 & R1 & T1 & N1 & X1).
  destruct (D2 i pl2 Hi2) as (d2 & ct2 & L2 & h2 & tag2 & R3 & T3 & N2 & X2).
  rewrite C2 in N2. rewrite Hfirst in N1. rewrite K2 in X2.
  assert (build_nonce h1 = build_nonce h2) as Hn by (rewrite N1, N2; by apply alike_nonce).
  exists d1, h1, ct1, tag1, d2, h2, ct2, tag2. split_and!; try done.
  - rewrite X1. apply length_gcm_crypt.
  - rewrite X2. apply length_gcm_crypt.
  - intros j Hj1 Hj2. rewrite X1, X2, <- Hn. by apply keystream_cancels.
Qed.

(** ** Concrete runs *)

(** A link that agreed on a key with the other side. *)
Definition keyed_link : St :=
  mkSt (set_crypto (keyed (demo_side 4) (demo_side 7) demo_key) (peer (demo_at Types.Online))) (Bandwidth.new 1000) [].

Lemma keyed_is : crypto (peer keyed_link) = keyed (demo_side 4) (demo_side 7) demo_key.
Proof. unfold keyed_link. cbn [peer crypto set_crypto]. reflexivity. Qed.

Lemma keyed_ready : m_crypto_ready (crypto (peer keyed_link)) = true.
Proof.
  unfold keyed_link, keyed, derive_session_key. cbn [peer crypto set_crypto config demo_side].
  destruct (X25519.X25519.x25519 _ _) as [sh []]; done.
Qed.

Definition demo_before : list bytes := [[5]; [1; 2; 3]].
Definition demo_after : list bytes := [[6; 6]; [7; 8]].

Lemma command_keystream_reused_witness :
  exists s' ds1 l ds2,
    (send_commands (demo_side 4) demo_before ;; receive (demo_side 4) (ack_datagram (demo_side 7) 9) ;;
     send_commands (demo_side 4) demo_after) keyed_link = Ok (tt, s') /\
    out s' = [] ++ (Enqueue <$> ds1) ++ l ++ (Enqueue <$> ds2) /\ crypto (peer s') = crypto (peer keyed_link) /\
    exists d1 h1 ct1 tag1 d2 h2 ct2 tag2, ds1 !! 1%nat = Some d1 /\ ds2 !! 1%nat = Some d2 /\
      decode d1 = Some (h1, ct1 ++ tag1) /\ decode d2 = Some (h2, ct2 ++ tag2) /\ build_nonce h1 = build_nonce h2 /\
      Z.lxor (byte_at ct1 0) (byte_at ct2 0) = 6 /\ Z.lxor (byte_at ct1 1) (byte_at ct2 1) = 10.
Proof.
  destruct (command_keystream_reused (demo_side 4) (demo_side 7) keyed_link demo_before demo_after 9 demo_key)
    as (s' & ds1 & l & ds2 & E & O & K & H).
  1, 2: by apply demo_env_ok.
  1, 2, 3: reflexivity.
  1: by split.
  1: exact keyed_ready.
  1: exact keyed_is.
  1: reflexivity.
  1: done.
  1, 2: repeat constructor; eval_decide.
  1, 2: done.
  exists s', ds1, l, ds2. split; [exact E|]. split; [exact O|]. split; [exact K|].
  destruct (H 1%nat [1; 2; 3] [7; 8] eq_refl eq_refl) as (d1 & h1 & ct1 & t1 & d2 & h2 & ct2 & t2 & A1 & A2 & A3 & A4 & _ & _ & _ & _ & A5 & A6).
  exists d1, h1, ct1, t1, d2, h2, ct2, t2. refine (conj A1 (conj A2 (conj A3 (conj A4 (conj A5 (conj _ _)))))).
  - exact (A6 0%nat ltac:(cbn; lia) ltac:(cbn; lia)).
  - exact (A6 1%nat ltac:(cbn; lia) ltac:(cbn; lia)).
Defined.

(** A message is sent, reported lost and sent again. *)
Definition small_side (id : Z) : Env :=
  mkEnv (mkConfig (mkNetAddress "" 0) "" "" Leaf 64 5000 1000 10 30000 500 1000 10 1000 false true (F64.of_Z 4)
           false 0 true 0 10 10 false) true false id (id + 1) [] [] true true true 0 1000 0.
Definition lost_report : bytes :=
  encode (base_header (small_side 7) Wire.Report 0 0 20) (Report.report_bytes 0 0 0 [1]).
Definition retransmission : list (Env * Op) :=
  [(small_side 4, SendMessage [] [10; 20; 30]); (small_side 4, Receive lost_report)].
Definition sealed_link : St := mkSt (set_crypto demo_key (peer (demo_at Types.Online))) (Bandwidth.new 1000) [].

Definition state_after (r : res (unit * St)) : St := match r with Ok (_, s) => s | Fault _ => sealed_link end.
Definition enqueued (e : option Effect) : bytes := match e with Some (Enqueue d) => d | _ => [] end.
Definition header_part (r : option (PacketHeader * bytes)) : PacketHeader := default empty_header (fst <$> r).
Definition payload_part (r : option (PacketHeader * bytes)) : bytes := default [] (snd <$> r).

Definition retransmitted : St := state_after (run id retransmission sealed_link).
Definition sent_at (i : nat) : bytes := enqueued (out retransmitted !! i).
Definition header_at (i : nat) : PacketHeader := header_part (decode (sent_at i)).
Definition payload_at (i : nat) : bytes := payload_part (decode (sent_at i)).

Lemma retransmitted_run : run id retransmission sealed_link = Ok (tt, retransmitted).
Proof. vm_compute. reflexivity. Qed.

(** The first packet and its repetition. *)
Definition copy_ok (i : nat) : Prop :=
  Enqueue (sent_at i) ∈ out retransmitted /\ decode (sent_at i) = Some (header_at i, payload_at i) /\
  data_type (header_at i).

Lemma copies_ok : copy_ok 0 /\ copy_ok 2.
Proof.
  split; (split; [|split]).
  1: apply (list_elem_of_lookup_2 _ 0); vm_compute; reflexivity.
  3: apply (list_elem_of_lookup_2 _ 2); vm_compute; reflexivity.
  1, 3: vm_compute; reflexivity.
  all: left; vm_compute; reflexivity.
Qed.

Lemma retransmitted_nonce : build_nonce (header_at 0) = build_nonce (header_at 2).
Proof. vm_compute. reflexivity. Qed.

Lemma data_nonces_unique_witness :
  exists h pl x1 x2, x1 ∈ history id retransmission sealed_link /\ x2 ∈ history id retransmission sealed_link /\
    build_wire_packet x1.1 x1.2 h pl = Ok (sent_at 0) /\ build_wire_packet x2.1 x2.2 h pl = Ok (sent_at 2) /\
    (sent_at 0 = sent_at 2 \/ x1 <> x2).
Proof.
  refine (data_nonces_unique id retransmission sealed_link retransmitted _ _ eq_refl eq_refl _ _ retransmitted_run
    (sent_at 0) (sent_at 2) (header_at 0) (header_at 2) (payload_at 0) (payload_at 2)
    (proj1 (proj1 copies_ok)) (proj1 (proj2 copies_ok)) (proj1 (proj2 (proj1 copies_ok)))
    (proj1 (proj2 (proj2 copies_ok))) (proj2 (proj2 (proj1 copies_ok))) (proj2 (proj2 (proj2 copies_ok)))
    retransmitted_nonce); [repeat constructor; eval_decide|eval_decide..].
Defined.

(** ** Control packets *)

Lemma control_nonce_constant E t a b n a' b' n' : t <> Command ->
  build_nonce (base_header E t a b n) = build_nonce (base_header E t a' b' n').
Proof. intros Ht. unfold build_nonce. rewrite !decide_False by exact Ht. reflexivity. Qed.

(** A handshake without a key, and a report that calls the two answers to it
    lost. *)
Definition bare_handshake : bytes := encode (base_header (small_side 7) Handshake 5 0 4) [0; 0; 0; 1].
Definition answers_lost : bytes :=
  encode (base_header (small_side 7) Wire.Report 0 0 24) (Report.report_bytes 0 0 0 [2; 4]).
Definition repeated_answers : list (Env * Op) :=
  [(small_side 4, Receive bare_handshake); (small_side 4, Receive bare_handshake); (small_side 4, Receive answers_lost)].

(** The sealed datagrams among the effects, with their nonces. *)
Definition sealed_nonce (e : Effect) : option (bytes * bytes) :=
  match e with
  | Enqueue d =>
      '(h, _) ← decode d; if Z.land (flags h) kFlagEncrypted =? 0 then None else Some (d, build_nonce h)
  | _ => None
  end.

(** Retransmitted control packets share their nonce: a control packet is sent in
    the clear, but the answer to a report seals it, and the nonce of a control
    packet is made of its type alone. Here two answers to a handshake are
    reported lost: both are sealed under one key with one nonce although they
    differ. *)
Theorem control_nonce_repeated : exists s' d1 d2 nonce, run id repeated_answers sealed_link = Ok (tt, s') /\
  omap sealed_nonce (out s') = [(d1, nonce); (d2, nonce)] /\ d1 <> d2 /\ crypto (peer s') = crypto (peer sealed_link).
Proof. do 4 eexists. split; [vm_compute; reflexivity|]. split; [vm_compute; reflexivity|]. by split. Qed.

End Nonces.
