(* ===== verification/Duties.v ===== *)
(** * The periodic duties of one peer (tight/src/transport.cpp)

    What one turn of [reactor_loop] does for a peer, and what follows from it
    for links that go silent and for handshakes that get lost. *)
From stdpp Require Import base list numbers option strings gmap.
From Stdlib Require Import ZArith Lia.
From S2P Require Import Prelude Wire Codec Float64 Maps Types Peer.
From S2P Require Import Command Bandwidth Packets Endpoint Handshake.

Local Open Scope Z_scope.
Import Types Wire PacketCodec Peer Packets Endpoint Handshaking.

Module Duties.

(** The duties in the order of the reactor. *)
Definition duties (E : Env) : H unit :=
  tick_handshake E ;; tick_heartbeat E ;; tick_report E ;; tick_offline E ;; tick_commands E.

(** ** Lost handshakes *)

(** A peer whose handshake is still unacknowledged. *)
Record waiting (pend : zmap PendingSend) (os : list Effect) (s : St) : Prop := {
  wa_state : m_state (link (peer s)) = Types.Handshake;
  wa_pending : m_pending (sending (peer s)) = pend;
  wa_held : m_cmd_held (cmd (peer s)) = ∅;
  wa_out : out s = os }.

Lemma idle_round E pend os s : pend <> ∅ -> waiting pend os s ->
  gives (duties E) s (fun _ s' => waiting pend os s').
Proof.
  intros Hp [H1 H2 H3 H4]. unfold duties.
  assert (linked (m_state (link (peer s))) = false) as Hl by (by rewrite H1).
  apply gives_bind. unfold tick_handshake. apply gives_get_peer. rewrite H2, (bool_decide_false _ Hp).
  rewrite andb_false_r. cbn [when]. eexists tt, s. split; [reflexivity|].
  apply gives_bind. unfold tick_heartbeat. apply gives_get_peer. rewrite Hl. exists tt, s. split; [reflexivity|].
  apply gives_bind. unfold tick_report. apply gives_get_peer. rewrite Hl. exists tt, s. split; [reflexivity|].
  apply gives_bind. unfold tick_offline. apply gives_get_peer, gives_bind.
  eexists tt, _. split; [reflexivity|]. rewrite Hl. eexists tt, _. split; [reflexivity|].
  unfold tick_commands, CommandChannel.flush_expired, CommandChannel.expire_locked.
  unfold get_bw, get_peer, put_peer, mbind, H_bind, gives.
  cbn [peer cmd set_asm m_bandwidth out]. rewrite (proj2 (first_entry_None _) H3).
  eexists tt, _. split; [reflexivity|]. by split.
Qed.

Lemma idle_rounds Es pend os s : pend <> ∅ -> waiting pend os s ->
  gives (for_each Es duties) s (fun _ s' => waiting pend os s').
Proof.
  intros Hp. revert s. induction Es as [|E Es IH]; intros s Hw; cbn [for_each].
  - by exists tt, s.
  - apply gives_bind. eapply gives_mono; [by apply idle_round|]. intros [] s'. apply IH.
Qed.

(** C27. A lost handshake is never repeated. Once [send_handshake] has run for a
    link that waits in [Handshake], the periodic duties of every later round,
    at whatever times, send nothing and leave the link waiting: the handshake
    stays in the table of pending packets, and [send_handshakes] only acts on
    an empty table. Nothing but a packet from the other side ends the wait. *)
Theorem handshake_never_retried E Es s s1
  (Hstate : m_state (link (peer s)) = Types.Handshake) (Hheld : m_cmd_held (cmd (peer s)) = ∅)
  (Hsend : send_handshake E s = Ok (tt, s1)) :
  exists s', for_each Es duties s1 = Ok (tt, s') /\ out s' = out s1 /\
    m_state (link (peer s')) = Types.Handshake /\
    m_pending (sending (peer s')) = m_pending (sending (peer s1)).
Proof.
  assert (waiting (m_pending (sending (peer s1))) (out s1) s1 /\ m_pending (sending (peer s1)) <> ∅)
    as [Hw Hp].
  { unfold send_handshake, send_control, modify_link, modify_sending, next_sequence, send_raw, get_peer,
      put_peer, emit, when, mbind, H_bind, mret, H_ret in Hsend.
    destruct (_ && _); injection Hsend as <-; (split; [by split|apply insert_non_empty]). }
  destruct (idle_rounds Es _ _ s1 Hp Hw) as ([] & s' & R & [W1 W2 W3 W4]). by exists s'.
Qed.

Lemma handshake_never_retried_witness :
  exists s', for_each [demo_side 4; demo_side 4] duties
    (match send_handshake (demo_side 4) (demo_at Types.Handshake) with
     | Ok (_, s1) => s1 | Fault _ => demo_at Closed end) = Ok (tt, s') /\ length (out s') = 1%nat.
Proof.
  destruct (handshake_never_retried (demo_side 4) [demo_side 4; demo_side 4] (demo_at Types.Handshake)
    (match send_handshake (demo_side 4) (demo_at Types.Handshake) with
     | Ok (_, s1) => s1 | Fault _ => demo_at Closed end)) as (s' & R & O & _);
    [reflexivity|reflexivity|vm_compute; reflexivity|].
  exists s'. split; [exact R|]. rewrite O. vm_compute. reflexivity.
Defined.

(** ** Links that go silent *)





End Duties.
