(* ===== verification/SpeedTest.v ===== *)
(** * The speed test (transport.cpp, peer.hpp)

    The train of probes a link sends when it goes online, and what the other
    side accumulates while it arrives. *)
From stdpp Require Import base list numbers option gmap strings.
From Stdlib Require Import ZArith Lia.
From S2P Require Import Prelude Wire Codec Float64 Maps Types Peer.
From S2P Require Import Bandwidth Packets Endpoint Handshake.

Local Open Scope Z_scope.
Import Types Wire PacketCodec Peer Packets Endpoint Handshaking.

Module SpeedTest.

Definition total (l : list Z) : Z := foldr Z.add 0 l.

(** ** Sending *)

(** With a positive step the loop consumes at least one byte a turn. *)
Lemma probe_sizes_spec fuel frag all sent : 0 < frag -> 0 <= sent <= all -> all - sent <= Z.of_nat fuel ->
  let l := probe_sizes fuel frag all sent in
  total l = all - sent /\ Forall (fun n => 1 <= n <= frag) l /\
  Z.of_nat (length l) = (all - sent + frag - 1) / frag.
Proof.
  intros Hf. revert sent. induction fuel as [|fuel IH]; intros sent Hs Hl; cbn [probe_sizes].
  { assert (all - sent = 0) as -> by lia. split_and!; [done|constructor|]. symmetry. apply Z.div_small. lia. }
  destruct (Z.ltb_spec sent all) as [Hlt|Hge].
  2: { assert (all - sent = 0) as -> by lia. split_and!; [done|constructor|]. symmetry. apply Z.div_small. lia. }
  set (n := Z.min frag (all - sent)). destruct (IH (sent + n) ltac:(lia) ltac:(lia)) as (H1 & H2 & H3).
  cbn [total foldr length]. split_and!.
  - unfold total in H1. cbv zeta in H1. rewrite H1. lia.
  - constructor; [lia|done].
  - rewrite Nat2Z.inj_succ, H3. destruct (Z.le_gt_cases frag (all - sent)).
    + replace n with frag by lia. replace (all - sent + frag - 1) with (all - (sent + frag) + frag - 1 + 1 * frag) by lia.
      rewrite Z.div_add by lia. lia.
    + replace n with (all - sent) by lia. rewrite Z.div_small by lia.
      replace (all - sent + frag - 1) with (all - sent - 1 + 1 * frag) by lia.
      rewrite Z.div_add, Z.div_small by lia. lia.
Qed.

Lemma emit_each {A} (f : A -> Effect) l s :
  for_each l (fun x => emit (f x)) s = Ok (tt, mkSt (peer s) (m_bandwidth s) (out s ++ (f <$> l))).
Proof.
  revert s. induction l as [|x l IH]; intros s; cbn [for_each].
  { cbn. rewrite app_nil_r. by destruct s. }
  unfold mbind, H_bind. cbn. rewrite IH. cbn. by rewrite <- app_assoc.
Qed.

Lemma probe_frag_pos E : 0 < probe_frag E.
Proof. unfold probe_frag, kHeaderSize. destruct (Z.ltb_spec (Z.of_nat 48) (mtu (config E))); lia. Qed.

(** A datagram that opens into a probe with [n] blank bytes. *)
Definition probe_of (d : bytes) (n : Z) : Prop :=
  Z.of_nat (length d) = Z.of_nat kHeaderSize + n /\
  exists h, decode d = Some (h, replicate (Z.to_nat n) 0) /\ type h = Probe /\ payload_size h = n.

Lemma probe_packet_of E n : env_ok E -> 1 <= n < 2 ^ 16 -> probe_of (probe_packet E n) n.
Proof.
  intros HE Hn. unfold probe_packet. rewrite u16_id by (unfold in_width; lia). split.
  - rewrite length_encode, length_replicate. unfold kHeaderSize. lia.
  - eexists. split; [apply decode_own|done]; try done.
    + unfold header_wf, base_header. simpl. pose proof (tick_width E). destruct HE. unfold in_width in *. split_and!; try done; lia.
    + by apply bytes_ok_replicate.
    + cbn [payload_size base_header]. rewrite length_replicate. lia.
Qed.

(** C24. The speed test ends and sends what it should: with an mtu of at most
    65583 bytes, the loop stops after exactly the number of packets that
    [speed_test_bytes] needs, all straight to the socket in one step; each
    datagram decodes to a probe with at least one and at most a fragment of
    blank payload, together [speed_test_bytes] bytes, and the link itself does
    not change. *)
Theorem speed_test_train E s (Hen : speed_test_enabled (config E) = true) (Ha : m_addr_set (link (peer s)) = true)
    (HE : env_ok E) (Ht : 0 <= speed_test_bytes (config E)) (Hmtu : mtu (config E) < 2 ^ 16 + Z.of_nat kHeaderSize) :
  exists ds sizes, send_speed_test E s = Ok (tt, mkSt (peer s) (m_bandwidth s)
      (out s ++ (SendTo (m_sockaddr (link (peer s))) <$> ds))) /\
    Forall2 probe_of ds sizes /\ Forall (fun n => 1 <= n <= probe_frag E) sizes /\
    total sizes = speed_test_bytes (config E) /\
    Z.of_nat (length ds) = (speed_test_bytes (config E) + probe_frag E - 1) / probe_frag E.
Proof.
  pose proof (probe_sizes_spec (Z.to_nat (speed_test_bytes (config E))) (probe_frag E) (speed_test_bytes (config E)) 0
    (probe_frag_pos E) ltac:(lia) ltac:(lia)) as (H1 & H2 & H3). rewrite Z.sub_0_r in *.
  set (sizes := probe_sizes _ _ _ _) in *. exists (probe_packet E <$> sizes), sizes. rewrite length_fmap.
  split_and!; [| |exact H2|exact H1|exact H3].
  - unfold send_speed_test. rewrite Hen. unfold get_peer, mbind, H_bind. cbn [negb]. rewrite Ha, (eo_sock _ HE). cbn [negb orb].
    rewrite <- list_fmap_compose. apply emit_each.
  - apply Forall2_fmap_l, Forall_Forall2_diag. eapply Forall_impl; [exact H2|]. intros n Hn. cbn beta in Hn.
    apply probe_packet_of; [done|]. unfold probe_frag in Hn. destruct (Z.ltb_spec (Z.of_nat kHeaderSize) (mtu (config E))); lia.
Qed.

(** ** Receiving *)

(** Probes with the given payload sizes, each handled at its own time. *)
Fixpoint arrive (l : list (Env * PacketHeader)) : H unit :=
  match l with [] => skip | (E, h) :: l => handle_probe E h ;; arrive l end.

(** The gap between arrivals stays within the limit of a train. *)
Fixpoint together (last : Z) (times : list Z) : Prop :=
  match times with [] => True | t :: times => last <= t <= last + kProbeTrainGap /\ together t times end.

Fixpoint last_time (t : Z) (l : list Z) : Z := match l with [] => t | t :: l => last_time t l end.

Definition times (l : list (Env * PacketHeader)) : list Z := (fun e => now e.1) <$> l.
Definition wire_bytes (l : list (Env * PacketHeader)) : Z :=
  total ((fun e => Z.of_nat kHeaderSize + payload_size e.2) <$> l).

Lemma wire_bytes_cons E h l : wire_bytes ((E, h) :: l) = Z.of_nat kHeaderSize + payload_size h + wire_bytes l.
Proof. done. Qed.

Lemma wire_bytes_pos l : Forall (fun e => 0 <= payload_size e.2) l -> 0 <= wire_bytes l.
Proof.
  induction 1 as [|[E h] l H _ IH]; [done|]. rewrite wire_bytes_cons. cbn in H. unfold kHeaderSize. lia.
Qed.

(** The header bytes are kept symbolic. *)
Lemma header_pos : 0 < Z.of_nat kHeaderSize.
Proof. done. Qed.

Lemma arrive_more l s first last bytes count bw :
  probe (peer s) = mkProbe first last bytes count bw -> 0 < count -> 0 <= bytes ->
  together last (times l) -> Forall (fun e => 0 <= payload_size e.2) l ->
  count + Z.of_nat (length l) < 2 ^ 32 -> bytes + wire_bytes l < 2 ^ 64 ->
  arrive l s = Ok (tt, mkSt (set_probe (mkProbe first (last_time last (times l)) (bytes + wire_bytes l)
    (count + Z.of_nat (length l)) bw) (peer s)) (m_bandwidth s) (out s)).
Proof.
  revert s last bytes count. induction l as [|[E h] l IH]; intros s last bytes count Hp Hc Hb Ht Hn Hl Hw.
  { cbn. rewrite !Z.add_0_r, <- Hp. by destruct s as [[] ? ?]. }
  cbn [times fmap list_fmap together fst] in Ht. destruct Ht as [Ht Hts]. apply Forall_cons in Hn as [Hn Hns].
  cbn [snd] in Hn. rewrite wire_bytes_cons in *. cbn [length] in *. pose proof (wire_bytes_pos l Hns) as Hwl.
  pose proof header_pos as Hh.
  assert (handle_probe E h s = Ok (tt, mkSt (set_probe (mkProbe first (now E) (bytes + (Z.of_nat kHeaderSize + payload_size h))
    (count + 1) bw) (peer s)) (m_bandwidth s) (out s))) as E1.
  { unfold handle_probe, get_peer, lift, put_peer, mbind, H_bind. rewrite Hp. unfold finalize_probe_train.
    cbn [m_probe_count m_probe_last]. rewrite (proj2 (Z.eqb_neq count 0)) by lia.
    rewrite (proj2 (Z.leb_le (now E - last) kProbeTrainGap)) by lia. cbn [m_probe_count m_probe_first m_probe_bytes m_probe_bw_bps].
    rewrite (proj2 (Z.eqb_neq count 0)) by lia. unfold u64, u32. by rewrite !Z.mod_small by lia. }
  cbn [arrive]. unfold mbind, H_bind. rewrite E1.
  rewrite (IH _ (now E) (bytes + (Z.of_nat kHeaderSize + payload_size h)) (count + 1)); try done; try lia.
  cbn [peer m_bandwidth out].
  replace (count + 1 + Z.of_nat (length l)) with (count + Z.of_nat (S (length l))) by lia.
  by rewrite !Z.add_assoc.
Qed.

(** A train that arrives without a pause of more than 20 ms is accumulated
    exactly: afterwards the receiver holds the times of the first and the last
    probe, their number and their bytes on the wire, whatever was measured
    before; handling it never fails and sends nothing. *)
Theorem train_accumulated E h l s bw (Hnew : m_probe_count (probe (peer s)) = 0) (Hb : m_probe_bytes (probe (peer s)) = 0)
    (Hbw : m_probe_bw_bps (probe (peer s)) = bw)
    (Ht : together (now E) (times l)) (Hn : Forall (fun e => 0 <= payload_size e.2) ((E, h) :: l))
    (Hl : Z.of_nat (length ((E, h) :: l)) < 2 ^ 32) (Hw : wire_bytes ((E, h) :: l) < 2 ^ 64) :
  arrive ((E, h) :: l) s = Ok (tt, mkSt (set_probe (mkProbe (now E) (last_time (now E) (times l))
    (wire_bytes ((E, h) :: l)) (Z.of_nat (length ((E, h) :: l))) bw) (peer s)) (m_bandwidth s) (out s)).
Proof.
  apply Forall_cons in Hn as [Hn Hns]. cbn [snd] in Hn. rewrite wire_bytes_cons in *. cbn [length] in *.
  pose proof (wire_bytes_pos l Hns) as Hwl. pose proof header_pos as Hh.
  assert (handle_probe E h s = Ok (tt, mkSt (set_probe (mkProbe (now E) (now E) (Z.of_nat kHeaderSize + payload_size h) 1 bw)
    (peer s)) (m_bandwidth s) (out s))) as E1.
  { unfold handle_probe, get_peer, lift, put_peer, mbind, H_bind, finalize_probe_train. rewrite Hnew. cbn [Z.eqb].
    rewrite Hnew, Hb, Hbw. cbn [Z.eqb]. unfold u64, u32. by rewrite !Z.mod_small by lia. }
  cbn [arrive]. unfold mbind at 1, H_bind at 1. rewrite E1.
  rewrite (arrive_more l _ (now E) (now E) (Z.of_nat kHeaderSize + payload_size h) 1 bw); try done; try lia.
  cbn [peer m_bandwidth out]. replace (1 + Z.of_nat (length l)) with (Z.of_nat (S (length l))) by lia.
  by destruct (peer s).
Qed.

Definition demo_probe (n : Z) : PacketHeader := base_header (demo_side 4) Probe 0 0 n.

Lemma speed_test_train_witness : exists ds sizes,
  send_speed_test (demo_side 4) (demo_at Types.Online) = Ok (tt, mkSt (peer (demo_at Types.Online))
    (m_bandwidth (demo_at Types.Online)) (out (demo_at Types.Online) ++
      (SendTo (m_sockaddr (link (peer (demo_at Types.Online)))) <$> ds))) /\
  Forall2 probe_of ds sizes /\ Z.of_nat (length ds) = 79.
Proof.
  destruct (speed_test_train (demo_side 4) (demo_at Types.Online)) as (ds & sizes & H & H2 & _ & _ & Hl);
    [reflexivity|reflexivity|by apply demo_env_ok|vm_compute; discriminate|vm_compute; reflexivity|].
  exists ds, sizes. split; [exact H|]. split; [exact H2|]. rewrite Hl. vm_compute. reflexivity.
Defined.

Lemma train_accumulated_witness :
  arrive [(demo_side 4, demo_probe 100); (demo_side 4, demo_probe 50)] (demo_at Types.Online) =
  Ok (tt, mkSt (set_probe (mkProbe (now (demo_side 4)) (now (demo_side 4)) 246 2 0) (peer (demo_at Types.Online)))
    (m_bandwidth (demo_at Types.Online)) (out (demo_at Types.Online))).
Proof.
  apply (train_accumulated (demo_side 4) (demo_probe 100) [(demo_side 4, demo_probe 50)] (demo_at Types.Online) 0);
    [reflexivity|reflexivity|reflexivity|vm_compute; repeat split; discriminate|
     repeat constructor; vm_compute; discriminate|vm_compute; reflexivity|vm_compute; reflexivity].
Defined.

End SpeedTest.
