(* ===== verification/Transport.v ===== *)
(** * The transport (tight/src/transport.cpp, class TightTransport::Impl)

    The peer table, the send queue, the encode and outbound queues, the token
    bucket, and the loops that connect them to the engine of each peer
    ([Endpoint]). Peers live in a heap and the queues hold pointers to them, as
    in the source. A monad over the transport's state carries faults; datagrams
    given to the socket and callbacks are recorded in order. Operations are
    atomic, callbacks do not call back into the transport, and each operation
    receives the clock readings, random numbers and socket results it uses. *)
From stdpp Require Import base list numbers option strings gmap sorting pretty.
From Stdlib Require Import ZArith Lia.
From S2P Require Import Prelude Wire Codec Float64 Maps Types Peer.
From S2P Require Import Bandwidth BlockingQueue Packets Endpoint.

Local Open Scope Z_scope.
Import Types Wire PacketCodec Peer Packets Endpoint.

Global Instance AddrKey_countable : Countable AddrKey.
Proof.
  refine (inj_countable' (fun a => (m_addr a, m_port a)) (fun '(a, p) => mkAddr a p) _). by intros [].
Defined.

Module Transport.

(** ** State *)

(** [Peer*]. *)
Notation ptr := nat (only parsing).

Record EncodeTask := mkTask { t_peer : ptr; t_payload : bytes }.
Record OutboundPacket := mkPacket { o_peer : ptr; o_datagram : bytes }.

(** What never changes after construction, and the callbacks. *)
Record Identity := mkIdentity {
  id_config : TightConfig;
  id_client : Z;
  id_session : Z;
  id_private : bytes;
  id_public : bytes;
  id_message_cb : bool;
  id_peer_cb : bool;
  id_command_cb : bool }.

Record Modes := mkModes {
  m_sock : bool;
  m_running : bool;
  m_lite_mode : bool;
  m_workers_running : bool }.

(** [m_peers] and [m_peer_by_addr]; the map's nodes live in [cells], and
    [next_cell] is an address never used before. *)
Record Table := mkTable {
  cells : gmap ptr Peer;
  next_cell : ptr;
  m_peers : gmap string ptr;
  m_peer_by_addr : gmap AddrKey string }.

Record Bucket := mkBucket {
  m_token_bucket : F64.double;
  m_token_bucket_time : Z }.

(** What the outside sees. *)
Inductive Event :=
  | Sent (to : AddrKey) (datagram : bytes)
  | Called (e : Effect).

Notation SendQueue := (zmap (list (string * bytes))).

Section Transport.
Context {Q : Type -> Type} {ops : QueueOps Q}.

Record Queues := mkQueues {
  m_send_queue : SendQueue;
  m_encode_queue : Q EncodeTask;
  m_outbound_queue : Q OutboundPacket;
  m_lite_pending : option OutboundPacket }.

Record Impl := mkImpl {
  ident : Identity;
  modes : Modes;
  table : Table;
  queues : Queues;
  bucket : Bucket;
  bandwidth : Bandwidth.Estimator;
  trace : list Event }.

Definition set_modes x s := mkImpl (ident s) x (table s) (queues s) (bucket s) (bandwidth s) (trace s).
Definition set_table x s := mkImpl (ident s) (modes s) x (queues s) (bucket s) (bandwidth s) (trace s).
Definition set_queues x s := mkImpl (ident s) (modes s) (table s) x (bucket s) (bandwidth s) (trace s).
Definition set_bucket x s := mkImpl (ident s) (modes s) (table s) (queues s) x (bandwidth s) (trace s).
Definition set_bandwidth x s := mkImpl (ident s) (modes s) (table s) (queues s) (bucket s) x (trace s).
Definition set_trace x s := mkImpl (ident s) (modes s) (table s) (queues s) (bucket s) (bandwidth s) x.

Definition set_cells x t := mkTable x (next_cell t) (m_peers t) (m_peer_by_addr t).
Definition set_send_queue x q := mkQueues x (m_encode_queue q) (m_outbound_queue q) (m_lite_pending q).
Definition set_encode_queue x q := mkQueues (m_send_queue q) x (m_outbound_queue q) (m_lite_pending q).
Definition set_outbound_queue x q := mkQueues (m_send_queue q) (m_encode_queue q) x (m_lite_pending q).
Definition set_lite_pending x q := mkQueues (m_send_queue q) (m_encode_queue q) (m_outbound_queue q) x.

(** ** The monad *)

Definition T (A : Type) : Type := Impl -> res (A * Impl).

Global Instance T_ret : MRet T := fun A a s => Ok (a, s).
Global Instance T_bind : MBind T := fun A B f m s =>
  match m s with Ok (a, s) => f a s | Fault e => Fault e end.

Definition get : T Impl := fun s => Ok (s, s).
Definition modify (f : Impl -> Impl) : T unit := fun s => Ok (tt, f s).
Definition fault {A} (e : fault) : T A := fun _ => Fault e.
Definition lift_res {A} (r : res A) : T A := fun s => match r with Ok a => Ok (a, s) | Fault e => Fault e end.
Definition pass : T unit := mret tt.
Definition only_if (b : bool) (m : T unit) : T unit := if b then m else pass.

Fixpoint each {A} (l : list A) (f : A -> T unit) : T unit :=
  match l with [] => pass | x :: l => f x ;; each l f end.

Definition record_event (e : Event) : T unit := modify (fun s => set_trace (trace s ++ [e]) s).
Definition modify_table (f : Table -> Table) : T unit := modify (fun s => set_table (f (table s)) s).
Definition modify_queues (f : Queues -> Queues) : T unit := modify (fun s => set_queues (f (queues s)) s).
Definition modify_modes (f : Modes -> Modes) : T unit := modify (fun s => set_modes (f (modes s)) s).

(** [*p]. *)
Definition deref (p : ptr) : T Peer :=
  s ← get; match cells (table s) !! p with Some x => mret x | None => fault BadPointer end.

Definition store (p : ptr) (x : Peer) : T unit :=
  modify_table (fun t => set_cells (<[p := x]> (cells t)) t).

(** ** Running the engine of a peer *)

(** Readings of the clocks. *)
Record Clocks := mkClocks { c_steady : Z; c_unix : Z; c_log : Z }.

Definition env_of (s : Impl) (c : Clocks) : Env :=
  let i := ident s in
  mkEnv (id_config i) (m_sock (modes s)) (m_lite_mode (modes s)) (id_client i) (id_session i)
    (id_private i) (id_public i) (id_message_cb i) (id_peer_cb i) (id_command_cb i)
    (c_steady c) (c_unix c) (c_log c).

(** What an effect of the engine does: [send_raw]'s result is ignored. *)
Definition perform (p : ptr) (e : Effect) : T unit :=
  match e with
  | Enqueue d =>
      s ← get;
      '(q, _) ← lift_res (q_try_push (m_outbound_queue (queues s)) (mkPacket p d));
      modify_queues (set_outbound_queue q)
  | SendTo a d => record_event (Sent a d)
  | _ => record_event (Called e)
  end.

Definition on_peer {A} (p : ptr) (c : Clocks) (m : Env -> H A) : T A :=
  x ← deref p;
  s ← get;
  '(a, st) ← lift_res (m (env_of s c) (mkSt x (bandwidth s) []));
  store p (peer st) ;;
  modify (set_bandwidth (m_bandwidth st)) ;;
  each (out st) (perform p) ;;
  mret a.

(** ** Configuration-dependent limits *)

Definition queue_limit (s : Impl) : Z :=
  let n := Types.queue_limit (id_config (ident s)) in
  if m_lite_mode (modes s) then Z.min n 128 else n.

Definition flush_interval (s : Impl) : Z :=
  let n := Types.flush_interval (id_config (ident s)) in
  if m_lite_mode (modes s) then Z.max n 10 else n.

Definition max_message_bytes (s : Impl) : Z :=
  Z.max (8 * 1024) (Z.min (Types.max_message_bytes (id_config (ident s))) (10 * 1024 * 1024)).

(** ** The peer table *)

Definition name_le (p q : string * ptr) : Prop := String.le p.1 q.1.

Global Instance name_le_dec p q : Decision (name_le p q).
Proof. unfold name_le. apply _. Defined.

(** The peers in iteration order. *)
Definition peer_entries (t : Table) : list (string * ptr) := merge_sort name_le (map_to_list (m_peers t)).

(** [m_peers.find(id)], then the first peer whose own identifier is [id]. *)
Fixpoint find_by_id (t : Table) (id : string) (l : list (string * ptr)) : option ptr :=
  match l with
  | [] => None
  | (_, p) :: l =>
      match cells t !! p with
      | Some x => if decide (m_id (link x) = id) then Some p else find_by_id t id l
      | None => find_by_id t id l
      end
  end.

Definition find_peer (t : Table) (id : string) : option ptr :=
  match m_peers t !! id with Some p => Some p | None => find_by_id t id (peer_entries t) end.

(** [m_peers\[id\]]: the entry, created with a fresh peer if there is none. *)
Definition emplace_peer (id : string) : T ptr :=
  s ← get;
  let t := table s in
  match m_peers t !! id with
  | Some p => mret p
  | None =>
      let p := next_cell t in
      modify_table (fun t => mkTable (<[p := new_peer]> (cells t)) (S p) (<[id := p]> (m_peers t))
                               (m_peer_by_addr t)) ;;
      mret p
  end.

(** [m_peers.erase(id)]. *)
Definition erase_peer (id : string) : T unit :=
  modify_table (fun t =>
    match m_peers t !! id with
    | Some p => mkTable (delete p (cells t)) (next_cell t) (delete id (m_peers t)) (m_peer_by_addr t)
    | None => t
    end).

Definition bind_addr (key : AddrKey) (id : string) : T unit :=
  modify_table (fun t => mkTable (cells t) (next_cell t) (m_peers t) (<[key := id]> (m_peer_by_addr t))).

Definition update_link (p : ptr) (f : LinkInfo -> LinkInfo) : T unit :=
  x ← deref p; store p (set_link (f (link x)) x).

Definition hours (n : Z) : Z := seconds (3600 * n).

(** [addr] is the result of [resolve_address]. *)
Definition connect (id : string) (addr : option AddrKey) (c : Clocks) : T bool :=
  s ← get;
  if negb (m_running (modes s)) then mret false else
  match addr with
  | None => mret false
  | Some key =>
      match m_peer_by_addr (table s) !! key with
      | Some old => if decide (old = id) then pass else erase_peer old ;; bind_addr key id
      | None => pass
      end ;;
      p ← emplace_peer id;
      let cfg := id_config (ident s) in
      update_link p (fun l =>
        put_retransmit (retransmit_enabled cfg)
          (put_drop_log (drop_log cfg && negb (m_lite_mode (modes s)))
            (put_reconnect true (put_role Node (put_addr_set true (put_sockaddr key (put_id id l))))))) ;;
      bind_addr key id ;;
      x ← deref p;
      only_if (bool_decide (m_state (link x) = Closed))
        (update_link p (fun l => put_last_handshake_sent (c_steady c - hours 1) (put_state Types.Handshake l))) ;;
      on_peer p c send_handshake ;;
      mret true
  end.

(** ["anon-" + to_string(ntohs(port)) + "-" + to_string(random & 0xFFFFFFFF)]. *)
Definition anon_name (key : AddrKey) (rnd : Z) : string :=
  "anon-" +:+ pretty (Z.to_N (to_be16 (m_port key))) +:+ "-" +:+ pretty (Z.to_N (Z.land rnd 0xFFFFFFFF)).

Definition find_or_create_peer_by_addr (key : AddrKey) (rnd : Z) (c : Clocks) : T ptr :=
  s ← get;
  match (id ← m_peer_by_addr (table s) !! key; m_peers (table s) !! id) with
  | Some p => mret p
  | None =>
      let id := anon_name key rnd in
      let cfg := id_config (ident s) in
      p ← emplace_peer id;
      update_link p (fun l =>
        put_last_handshake_sent (c_steady c - hours 1)
          (put_state Types.Handshake
            (put_retransmit (retransmit_enabled cfg)
              (put_drop_log (drop_log cfg && negb (m_lite_mode (modes s)))
                (put_role Leaf (put_addr_set true (put_sockaddr key (put_id id l)))))))) ;;
      bind_addr key id ;;
      mret p
  end.

Definition handle_packet (from : AddrKey) (rnd : Z) (header : PacketHeader) (payload : bytes) (c : Clocks)
    : T unit :=
  p ← find_or_create_peer_by_addr from rnd c;
  on_peer p c (fun E => Endpoint.handle_packet E header payload).

Definition peers_snapshot (s : Impl) : list PeerEvent :=
  omap (fun '(_, p) => x ← cells (table s) !! p;
          Some (mkPeerEvent (m_id (link x)) (m_role (link x)) (m_state (link x)) (m_peer_client_id (link x))))
    (peer_entries (table s)).

(** ** Messages and commands *)

(** [total += kv.second.size()] over the queue. *)
Definition queued (q : SendQueue) : nat := sum_list_with (fun kv => length kv.2) (entries q).

(** [m_send_queue\[priority\].emplace_back(peer_id, payload)]. *)
Definition enqueue (priority : Z) (peer_id : string) (payload : bytes) (q : SendQueue) : SendQueue :=
  <[priority := default [] (q !! priority) ++ [(peer_id, payload)]]> q.

(** The guarded insertion that three places share. *)
Definition enqueue_if_room (priority : Z) (peer_id : string) (payload : bytes) : T bool :=
  s ← get;
  if queue_limit s <=? Z.of_nat (queued (m_send_queue (queues s))) then mret false else
  modify_queues (fun q => set_send_queue (enqueue priority peer_id payload (m_send_queue q)) q) ;;
  mret true.

Definition send_message (peer_id : string) (payload : bytes) (priority : Z) : T bool :=
  s ← get;
  if negb (m_running (modes s)) then mret false else
  if max_message_bytes s <? Z.of_nat (length payload) then mret false else
  enqueue_if_room priority peer_id payload.

Definition send_command (peer_id : string) (payload : bytes) (c : Clocks) : T bool :=
  s ← get;
  if negb (m_running (modes s)) then mret false else
  let mtu := mtu (id_config (ident s)) in
  let max_payload := if Z.of_nat kHeaderSize <? mtu then mtu - Z.of_nat kHeaderSize else 0 in
  if max_payload <? Z.of_nat (length payload) then mret false else
  match find_peer (table s) peer_id with
  | None => mret false
  | Some p => on_peer p c (fun E => send_command_to E payload)
  end.

(** One message of [process_send_queue]. A task that does not fit into the
    encode queue has already been moved into [try_push]'s parameter: what goes
    back into the send queue, with priority 0, is the moved-from payload. *)
Definition process_item (priority : Z) (item : string * bytes) : T unit :=
  let '(peer_id, payload) := item in
  s ← get;
  match find_peer (table s) peer_id with
  | None => pass
  | Some p =>
      x ← deref p;
      if negb (bool_decide (m_state (link x) = Types.Online)) then
        only_if (negb (bool_decide (m_state (link x) = Closed)))
          (enqueue_if_room priority peer_id payload ;; pass)
      else
        '(q, ok) ← lift_res (q_try_push (m_encode_queue (queues s)) (mkTask p payload));
        modify_queues (set_encode_queue q) ;;
        only_if (negb ok) (enqueue_if_room 0 peer_id [] ;; pass)
  end.

(** Messages in the order of the loops: descending priority, oldest first. *)
Definition backlog (q : SendQueue) : list (Z * (string * bytes)) :=
  '(k, l) ← reverse (entries q); i ← l; [(k, i)].

Definition process_send_queue : T unit :=
  s ← get;
  modify_queues (set_send_queue ∅) ;;
  each (backlog (m_send_queue (queues s))) (fun '(k, i) => process_item k i).

(** ** Receiving *)

(** What [recvfrom] returned: the bytes that fit into the buffer. *)
Definition kRecvBuffer : nat := 2048.

Definition receive_one (from : AddrKey) (d : bytes) (rnd : Z) (c : Clocks) : T unit :=
  let d := take kRecvBuffer d in
  if (length d <? kHeaderSize)%nat then pass else
  match decode d with None => pass | Some (header, payload) => handle_packet from rnd header payload c end.

(** At most 64 datagrams of those waiting at the socket; the rest stays. *)
Definition drain_receiver (waiting : list (AddrKey * bytes * Z * Clocks)) : T unit :=
  each (take 64 waiting) (fun '(from, d, rnd, c) => receive_one from d rnd c).

(** ** Encoding *)

Section Encoder.
Context (log2 : F64.double -> F64.double).

(** One turn of [encode_loop]; [scratch] are the reused parity buffers. *)
Definition encode_step (scratch : list bytes) (c : Clocks) : T bool :=
  s ← get;
  '(q, task) ← lift_res (q_poll (m_encode_queue (queues s)));
  modify_queues (set_encode_queue q) ;;
  match task with
  | None => mret false
  | Some task =>
      on_peer (t_peer task) c (fun E => Endpoint.fragment_and_send E log2 scratch (t_payload task)) ;;
      mret true
  end.

Fixpoint drain_encode (turns : nat) (scratch : list bytes) (c : Clocks) : T unit :=
  match turns with
  | O => pass
  | S turns => more ← encode_step scratch c; if (more : bool) then drain_encode turns scratch c else pass
  end.
End Encoder.

(** ** Sending under the token bucket *)

Definition refill_token_bucket (now : Z) : T unit :=
  s ← get;
  let elapsed_us := Z.quot (now - m_token_bucket_time (bucket s)) 1000 in
  if elapsed_us <=? 0 then pass else
  bps ← lift_res (Bandwidth.bytes_per_second (bandwidth s));
  let tokens := F64.div (F64.mul (F64.of_Z bps) (F64.of_Z elapsed_us)) (F64.of_Z 1000000) in
  let b := F64.add (m_token_bucket (bucket s)) tokens in
  let cap := F64.mul (F64.of_Z (mtu (id_config (ident s)))) (F64.of_Z 4) in
  modify (set_bucket (mkBucket (if F64.ltb cap b then cap else b) now)).

Definition spend (cost : F64.double) : T unit :=
  modify (fun s => set_bucket (mkBucket (F64.sub (m_token_bucket (bucket s)) cost)
                                 (m_token_bucket_time (bucket s))) s).

Definition transmit (pkt : OutboundPacket) : T unit :=
  x ← deref (o_peer pkt); record_event (Sent (m_sockaddr (link x)) (o_datagram pkt)).

(** The current packet of the lite sender, taken from the queue if needed. *)
Definition current_packet : T (option OutboundPacket) :=
  s ← get;
  match m_lite_pending (queues s) with
  | Some pkt => mret (Some pkt)
  | None =>
      '(q, pkt) ← lift_res (q_poll (m_outbound_queue (queues s)));
      modify_queues (fun x => set_lite_pending pkt (set_outbound_queue q x)) ;;
      mret pkt
  end.

(** One turn of [drain_sender]; [false] ends the loop. *)
Definition drain_sender_step (now : Z) : T bool :=
  pkt ← current_packet;
  match pkt with
  | None => mret false
  | Some pkt =>
      x ← deref (o_peer pkt);
      s ← get;
      if negb (m_addr_set (link x)) || negb (m_sock (modes s)) then
        modify_queues (set_lite_pending None) ;; mret true
      else
        let cost := F64.of_Z (Z.of_nat (length (o_datagram pkt))) in
        refill_token_bucket now ;;
        s ← get;
        if F64.ltb (m_token_bucket (bucket s)) cost then mret false else
        spend cost ;;
        transmit pkt ;;
        modify_queues (set_lite_pending None) ;;
        mret true
  end.

(** [clk i] is the steady clock in turn [i]. *)
Fixpoint drain_sender (turns : nat) (clk : nat -> Z) : T unit :=
  match turns with
  | O => pass
  | S turns => more ← drain_sender_step (clk O); if (more : bool) then drain_sender turns (fun i => clk (S i)) else pass
  end.
(** Microseconds the sender thread sleeps while tokens are short. *)
Definition sender_pause (cost : F64.double) : T Z :=
  s ← get;
  bps ← lift_res (Bandwidth.bytes_per_second (bandwidth s));
  let rate := Z.max bps 1 in
  let deficit := F64.sub cost (m_token_bucket (bucket s)) in
  wait_us ← lift_res (F64.cast_u64 (F64.fmax (F64.of_Z 1)
              (F64.div (F64.mul deficit (F64.of_Z 1000000)) (F64.of_Z rate))));
  mret (Z.min wait_us 10000).

(** One turn of the sender thread, whose local state is the packet it waits to
    send: take a packet, wait once more, or send. *)
Definition sender_turn (held : option OutboundPacket) (now : Z) : T (option OutboundPacket) :=
  s ← get;
  match held with
  | None =>
      if negb (m_running (modes s) && m_workers_running (modes s)) then mret None else
      '(q, pkt) ← lift_res (q_poll (m_outbound_queue (queues s)));
      modify_queues (set_outbound_queue q) ;;
      match pkt with
      | None => mret None
      | Some pkt =>
          x ← deref (o_peer pkt);
          if negb (m_addr_set (link x)) || negb (m_sock (modes s)) then mret None else
          refill_token_bucket now ;; mret (Some pkt)
      end
  | Some pkt =>
      let cost := F64.of_Z (Z.of_nat (length (o_datagram pkt))) in
      if m_running (modes s) && F64.ltb (m_token_bucket (bucket s)) cost then
        sender_pause cost ;; refill_token_bucket now ;; mret (Some pkt)
      else
        only_if (F64.leb cost (m_token_bucket (bucket s))) (spend cost) ;;
        transmit pkt ;;
        mret None
  end.

(** ** Rounds over all peers *)

Definition each_peer (c : Clocks) (duty : Env -> H unit) : T unit :=
  s ← get; each (peer_entries (table s)) (fun '(_, p) => on_peer p c duty).

Definition send_handshakes (c : Clocks) : T unit := each_peer c tick_handshake.
Definition send_heartbeats (c : Clocks) : T unit := each_peer c tick_heartbeat.
Definition send_reports (c : Clocks) : T unit := each_peer c tick_report.
Definition check_offline (c : Clocks) : T unit := each_peer c tick_offline.
Definition flush_commands (c : Clocks) : T unit := each_peer c tick_commands.

Definition send_byes (c : Clocks) : T unit :=
  s ← get; if negb (m_sock (modes s)) then pass else each_peer c send_bye.

(** What one turn of the reactor reads from outside. *)
Record Round := mkRound {
  r_clocks : Clocks;
  r_waiting : list (AddrKey * bytes * Z * Clocks);
  r_scratch : list bytes;
  r_steady : nat -> Z }.

Definition reactor_round (log2 : F64.double -> F64.double) (r : Round) : T unit :=
  send_handshakes (r_clocks r) ;;
  send_heartbeats (r_clocks r) ;;
  send_reports (r_clocks r) ;;
  check_offline (r_clocks r) ;;
  flush_commands (r_clocks r) ;;
  process_send_queue ;;
  s ← get;
  only_if (m_lite_mode (modes s))
    (drain_receiver (r_waiting r) ;;
     drain_encode log2 16 (r_scratch r) (r_clocks r) ;;
     drain_sender 64 (r_steady r)).

(** ** Life cycle *)

(** The constructor; [r1] and [r2] are the draws of [random_u64]. *)
Definition new (cfg : TightConfig) (r1 r2 : Z) (private public : bytes) (now : Z) : Impl :=
  let client := Z.land r1 0x7FFFFFFF in
  let lite := lite_mode cfg in
  mkImpl
    (mkIdentity cfg (if client =? 0 then 1 else client) r2
       (if encryption_enabled cfg then private else replicate 32 0)
       (if encryption_enabled cfg then public else replicate 32 0) false false false)
    (mkModes false false lite false)
    (mkTable ∅ 0 ∅ ∅)
    (mkQueues ∅
       (q_new (if lite then Z.min (encode_queue_limit cfg) 64 else encode_queue_limit cfg))
       (q_new (if lite then Z.min (outbound_queue_limit cfg) 256 else outbound_queue_limit cfg)) None)
    (mkBucket F64.zero now)
    (Bandwidth.new (initial_bandwidth_bytes cfg)) [].

Definition set_callbacks (message peer command : bool) (s : Impl) : Impl :=
  let i := ident s in
  mkImpl (mkIdentity (id_config i) (id_client i) (id_session i) (id_private i) (id_public i)
            message peer command)
    (modes s) (table s) (queues s) (bucket s) (bandwidth s) (trace s).

Definition set_message_callback (cb : bool) : T unit :=
  modify (fun s => set_callbacks cb (id_peer_cb (ident s)) (id_command_cb (ident s)) s).
Definition set_peer_callback (cb : bool) : T unit :=
  modify (fun s => set_callbacks (id_message_cb (ident s)) cb (id_command_cb (ident s)) s).
Definition set_command_callback (cb : bool) : T unit :=
  modify (fun s => set_callbacks (id_message_cb (ident s)) (id_peer_cb (ident s)) cb s).

(** [bound]: the socket could be created, the address resolved and bound. *)
Definition start (bound : bool) : T bool :=
  s ← get;
  if m_running (modes s) then mret true else
  if negb bound then modify_modes (fun m => mkModes false (m_running m) (m_lite_mode m) (m_workers_running m)) ;; mret false else
  modify_modes (fun m => mkModes true true (m_lite_mode m)
                           (if m_lite_mode m then m_workers_running m else true)) ;;
  mret true.

(** [Impl::stop]: the flags fall and the queues close; the threads take their
    last turns and are joined; then the socket is closed. *)
Definition stop_threads (last_turns : T unit) : T unit :=
  s ← get;
  if negb (m_running (modes s)) then pass else
  modify_modes (fun m => mkModes (m_sock m) false (m_lite_mode m) false) ;;
  modify_queues (fun q => set_encode_queue (q_close (m_encode_queue q))
                            (set_outbound_queue (q_close (m_outbound_queue q)) q)) ;;
  last_turns ;;
  modify_modes (fun m => mkModes false (m_running m) (m_lite_mode m) (m_workers_running m)).

(** What is left in the outbound queue when the sender thread ends is dropped. *)
Fixpoint sender_shutdown (turns : nat) : T unit :=
  match turns with
  | O => pass
  | S turns =>
      s ← get;
      '(q, pkt) ← lift_res (q_poll (m_outbound_queue (queues s)));
      modify_queues (set_outbound_queue q) ;;
      match pkt with None => pass | Some _ => sender_shutdown turns end
  end.

Definition stop (c : Clocks) (last_turns : T unit) : T unit := send_byes c ;; stop_threads last_turns.

Definition set_lite_mode (lite : bool) : T unit :=
  s ← get;
  if Bool.eqb lite (m_lite_mode (modes s)) then pass else
  let log := drop_log (id_config (ident s)) && negb lite in
  each (peer_entries (table s)) (fun '(_, p) => update_link p (put_drop_log log)) ;;
  if lite then
    modify_modes (fun m => mkModes (m_sock m) (m_running m) true false)
  else
    match m_lite_pending (queues s) with
    | Some pkt =>
        x ← deref (o_peer pkt);
        only_if (m_addr_set (link x) && m_sock (modes s)) (transmit pkt) ;;
        modify_queues (set_lite_pending None)
    | None => pass
    end ;;
    modify_modes (fun m => mkModes (m_sock m) (m_running m) false
                             (if m_running m then true else m_workers_running m)).
End Transport.
End Transport.
