(* ===== verification/TransportSafe.v ===== *)
(** * Memory safety and bounds of the transport (tight/src/transport.cpp)

    The queues of the transport hold raw pointers to peers. The invariant of
    this file says that every one of them points to a live peer and that the
    queues keep their limits; every operation preserves it, except a [connect]
    that takes an address over from a peer under another name, which frees that
    peer under the feet of the queues. *)
From stdpp Require Import base list numbers option strings gmap sorting.
From Stdlib Require Import ZArith Lia.
From S2P Require Import Prelude Wire Codec Float64 Maps Types Peer.
From S2P Require Import Bandwidth BlockingQueue Packets Endpoint Transport.

Local Open Scope Z_scope.
Import Types Wire PacketCodec Peer Packets Endpoint Transport.

Module TransportSafe.

(** ** The send queue's size *)

Lemma queued_perm (q : zmap (list (string * bytes))) :
  queued q = sum_list_with (fun kv => length kv.2) (map_to_list q).
Proof. unfold queued. by rewrite entries_perm. Qed.

Lemma queued_insert q k l :
  queued (<[k := l]> q) = (length l + queued (delete k q))%nat.
Proof.
  rewrite !queued_perm, <- insert_delete_eq, map_to_list_insert by apply lookup_delete_eq. done.
Qed.

Lemma queued_lookup (q : zmap (list (string * bytes))) k :
  queued q = (length (default [] (q !! k)) + queued (delete k q))%nat.
Proof.
  destruct (q !! k) as [l|] eqn:E; simpl; [|by rewrite delete_id].
  rewrite <- (insert_id q k l E) at 1. apply queued_insert.
Qed.

Lemma queued_enqueue k id pl q : queued (enqueue k id pl q) = S (queued q).
Proof.
  unfold enqueue. rewrite queued_insert, (queued_lookup q k), length_app. simpl. lia.
Qed.

Section Safe.
Context {Q : Type -> Type} {ops : QueueOps Q} {laws : QueueLaws Q}.
Context (cfg : TightConfig) (ce co : Z).
Context (Hce : 0 < ce < 2 ^ 64 - 1) (Hco : 0 < co < 2 ^ 64 - 1).
Notation Impl := (@Impl Q).
Notation T := (@T Q).

(** ** The invariant *)

Definition live (s : Impl) (p : nat) : Prop := is_Some (cells (table s) !! p).

Record table_ok (t : Table) : Prop := {
  to_live : forall id p, m_peers t !! id = Some p -> is_Some (cells t !! p);
  to_fresh : forall p, is_Some (cells t !! p) -> (p < next_cell t)%nat;
  to_inj : forall a b p, m_peers t !! a = Some p -> m_peers t !! b = Some p -> a = b }.

(** A queue within its capacity, whose pointers satisfy [P]. *)
Definition queue_ok {A} (c : Z) (P : A -> Prop) (q : Q A) : Prop :=
  exists f, q_holds q f /\ cap f = c /\ Z.of_nat (length (items f)) <= c /\ Forall P (items f).

Record safe (s : Impl) : Prop := {
  sf_config : id_config (ident s) = cfg;
  sf_table : table_ok (table s);
  sf_encode : queue_ok ce (fun t => live s (t_peer t)) (m_encode_queue (queues s));
  sf_outbound : queue_ok co (fun o => live s (o_peer o)) (m_outbound_queue (queues s));
  sf_pending : forall o, m_lite_pending (queues s) = Some o -> live s (o_peer o);
  sf_send : Z.of_nat (queued (m_send_queue (queues s))) <= Z.max 0 (Types.queue_limit cfg) }.

(** A step keeps the invariant and frees no peer. *)
Record evolves (s s' : Impl) : Prop := {
  ev_safe : safe s -> safe s';
  ev_live : forall p, live s p -> live s' p }.

Lemma evolves_refl s : evolves s s.
Proof. done. Qed.
Lemma evolves_trans s1 s2 s3 : evolves s1 s2 -> evolves s2 s3 -> evolves s1 s3.
Proof. intros [A1 A2] [B1 B2]. split; auto. Qed.

(** ** Rules *)

Definition after {A} (m : T A) (s : Impl) (R : A -> Impl -> Prop) : Prop :=
  match m s with Ok (a, s') => R a s' | Fault _ => True end.

Definition sound {A} (m : T A) : Prop := forall s, after m s (fun _ s' => evolves s s').

Lemma after_bind {A B} (m : T A) (f : A -> T B) s R :
  after m s (fun a s' => after (f a) s' R) -> after (m ≫= f) s R.
Proof. unfold after, mbind, T_bind. destruct (m s) as [[a s']|]; auto. Qed.

Lemma after_mono {A} (m : T A) s (R R' : A -> Impl -> Prop) :
  after m s R -> (forall a s', R a s' -> R' a s') -> after m s R'.
Proof. unfold after. destruct (m s) as [[a s']|]; auto. Qed.

Lemma after_sound {A B} (m : T A) (f : A -> T B) s : sound m ->
  (forall a s', evolves s s' -> after (f a) s' (fun _ s2 => evolves s' s2)) ->
  after (m ≫= f) s (fun _ s' => evolves s s').
Proof.
  intros Hm Hf. apply after_bind. eapply after_mono; [apply Hm|]. intros a s1 E1.
  eapply after_mono; [by apply Hf|]. intros b s2 E2. exact (evolves_trans _ _ _ E1 E2).
Qed.

Lemma sound_ret {A} (a : A) : sound (mret a).
Proof. intros s. apply evolves_refl. Qed.
Lemma sound_pass : sound pass.
Proof. apply sound_ret. Qed.
Lemma sound_bind {A B} (m : T A) (f : A -> T B) : sound m -> (forall a, sound (f a)) -> sound (m ≫= f).
Proof. intros Hm Hf s. apply after_sound; [done|]. intros a s' _. apply Hf. Qed.
Lemma sound_get : sound get.
Proof. intros s. apply evolves_refl. Qed.
Lemma sound_lift {A} (r : res A) : sound (lift_res r).
Proof. intros s. unfold after, lift_res. by destruct r. Qed.
Lemma sound_fault {A} e : sound (@fault Q A e).
Proof. by intros s. Qed.
Lemma sound_only_if b (m : T unit) : sound m -> sound (only_if b m).
Proof. intros Hm. destruct b; [done|apply sound_pass]. Qed.
Lemma sound_if {A} (b : bool) (m k : T A) : sound m -> sound k -> sound (if b then m else k).
Proof. by destruct b. Qed.
Lemma sound_each {A} (l : list A) (f : A -> T unit) : (forall x, sound (f x)) -> sound (each l f).
Proof. intros Hf. induction l; simpl; [apply sound_pass|]. by apply sound_bind. Qed.

(** An update that touches neither the table nor the queues nor the
    configuration. *)
Lemma sound_modify (f : Impl -> Impl) :
  (forall s, id_config (ident (f s)) = id_config (ident s) /\ table (f s) = table s /\ queues (f s) = queues s) ->
  sound (modify f).
Proof.
  intros Hf s. destruct (Hf s) as (E1 & E2 & E3). unfold after, modify.
  assert (forall p, live (f s) p <-> live s p) as Hl by (intros p; unfold live; by rewrite E2).
  split; [|by intros p; rewrite Hl]. intros [? ? (fe & ? & ? & ? & He) (fo & ? & ? & ? & Ho) ? ?].
  split; rewrite ?E1, ?E2, ?E3; try done.
  - exists fe. split_and!; try done. eapply Forall_impl; [exact He|]. intros x. by rewrite Hl.
  - exists fo. split_and!; try done. eapply Forall_impl; [exact Ho|]. intros x. by rewrite Hl.
  - intros o. rewrite Hl. auto.
Qed.

(** ** Updates of the table *)

Lemma evolves_table (s : Impl) t :
  (table_ok (table s) -> table_ok t) ->
  (forall p, is_Some (cells (table s) !! p) -> is_Some (cells t !! p)) -> evolves s (set_table t s).
Proof.
  intros Ht Hc. split; [|done]. intros [? ? (fe & ? & ? & ? & He) (fo & ? & ? & ? & Ho) Hp ?].
  split; simpl; try done; [auto|..].
  - exists fe. split_and!; try done. eapply Forall_impl; [exact He|]. intros x. apply Hc.
  - exists fo. split_and!; try done. eapply Forall_impl; [exact Ho|]. intros x. apply Hc.
  - intros o Ho'. by apply Hc, Hp.
Qed.

Lemma sound_table (f : Table -> Table) :
  (forall t, table_ok t -> table_ok (f t)) ->
  (forall t p, is_Some (cells t !! p) -> is_Some (cells (f t) !! p)) -> sound (modify_table f).
Proof. intros H1 H2 s. unfold modify_table, after, modify. apply evolves_table; [apply H1|apply H2]. Qed.

Lemma after_deref {B} p (f : Peer -> T B) s R :
  (forall x, cells (table s) !! p = Some x -> after (f x) s R) -> after (deref p ≫= f) s R.
Proof.
  intros Hf. unfold after, deref, get, mbind, T_bind.
  destruct (cells (table s) !! p) as [x|] eqn:E; [|done]. exact (Hf x eq_refl).
Qed.

Lemma sound_deref p : sound (deref p).
Proof.
  intros s. unfold after, deref, get, mbind, T_bind.
  destruct (cells (table s) !! p); [apply evolves_refl|done].
Qed.

Lemma live_store s p x : live s p -> after (store p x) s (fun _ s' => evolves s s').
Proof.
  intros Hl. unfold store, modify_table, after, modify. apply evolves_table.
  - intros [H1 H2 H3]. split; simpl; [..|done].
    + intros id q Hq. destruct (decide (p = q)) as [->|]; [rewrite lookup_insert_eq; eauto|].
      rewrite lookup_insert_ne by done. by eapply H1.
    + intros q. destruct (decide (p = q)) as [->|]; [by intros _; apply H2|].
      rewrite lookup_insert_ne by done. apply H2.
  - intros q Hq. simpl. destruct (decide (p = q)) as [->|]; [rewrite lookup_insert_eq; eauto|].
    by rewrite lookup_insert_ne.
Qed.

Lemma sound_update_link p f : sound (update_link p f).
Proof. intros s. unfold update_link. apply after_deref. intros x Hx. apply live_store. by eexists. Qed.

Lemma sound_bind_addr key id : sound (bind_addr key id).
Proof. apply sound_table; [by intros t []|done]. Qed.

Lemma sound_emplace id : sound (emplace_peer id).
Proof.
  intros s. unfold emplace_peer, get, mbind at 1, T_bind at 1, after at 1.
  destruct (m_peers (table s) !! id) as [p|] eqn:E; [apply evolves_refl|].
  unfold modify_table, modify, mbind, T_bind. simpl. apply evolves_table.
  - intros [H1 H2 H3]. assert (forall a p, m_peers (table s) !! a = Some p -> (p < next_cell (table s))%nat) as H4
      by (intros a p Ha; eapply H2, H1, Ha). split; simpl.
    + intros a p. destruct (decide (id = a)) as [->|].
      * rewrite lookup_insert_eq. intros [= <-]. rewrite lookup_insert_eq. eauto.
      * rewrite lookup_insert_ne by done. intros Ha. rewrite lookup_insert_ne by (specialize (H4 _ _ Ha); lia).
        by eapply H1.
    + intros p. destruct (decide (next_cell (table s) = p)) as [->|]; [lia|].
      rewrite lookup_insert_ne by done. intros Hp%H2. lia.
    + intros a b p. destruct (decide (id = a)) as [<-|], (decide (id = b)) as [<-|];
        rewrite ?lookup_insert_eq, ?lookup_insert_ne by done; try done.
      * intros [= <-] Hb%H4. lia.
      * intros Ha%H4 [= <-]. lia.
      * apply H3.
  - intros p Hp. simpl. destruct (decide (next_cell (table s) = p)) as [<-|]; [rewrite lookup_insert_eq; eauto|].
    by rewrite lookup_insert_ne.
Qed.

(** ** Updates of the queues *)

Lemma push_ok {A} c (P : A -> Prop) (q : Q A) x : c < 2 ^ 64 - 1 -> 0 < c -> queue_ok c P q -> P x ->
  exists q' b, q_try_push q x = Ok (q', b) /\ queue_ok c P q'.
Proof using laws.
  clear -laws. intros H1 H2 (f & Hf & Hc & Hl & HP) Hx.
  destruct (q_try_push_law q f x Hf) as (q' & E & Hf'); [lia|]. eexists q', _. split; [exact E|].
  exists (offer x f).1. split; [done|]. unfold offer, full. rewrite Hc.
  destruct (closed f); [done|]. rewrite (proj2 (Z.ltb_lt _ _) H2). cbn [andb orb].
  destruct (Z.leb_spec c (Z.of_nat (length (items f)))); [done|]. cbn [fst set_items cap items].
  split_and!; [done|rewrite length_app; simpl; lia|]. apply Forall_app. by rewrite Forall_singleton.
Qed.

Lemma poll_ok {A} c (P : A -> Prop) (q : Q A) : queue_ok c P q ->
  exists q' o, q_poll q = Ok (q', o) /\ queue_ok c P q' /\ forall x, o = Some x -> P x.
Proof using laws.
  clear -laws. intros (f & Hf & Hc & Hl & HP). destruct (q_poll_law q f Hf) as (q' & E & Hf').
  eexists q', _. split; [exact E|]. unfold next_item in *. destruct (items f) as [|y l] eqn:Ei; simpl in *.
  - split; [|done]. exists f. by rewrite Ei.
  - apply Forall_cons in HP as [Hy HP]. split; [|by intros x [= <-]].
    exists (set_items l f). simpl. split_and!; try done. lia.
Qed.

Lemma live_perform s p e : live s p -> after (perform p e) s (fun _ s' => evolves s s').
Proof using laws Hco.
  clear Hce. intros Hl. destruct e; try (apply sound_modify; done). unfold perform, get, mbind at 1, T_bind at 1, after.
  destruct (q_try_push _ _) as [[q b]|] eqn:E; [|done]. cbn.
  split; [|done]. intros [? ? ? Ho ? ?]. split; simpl; try done.
  destruct (push_ok co _ _ (mkPacket p datagram) (proj2 Hco) (proj1 Hco) Ho Hl) as (q' & b' & E' & Hq').
  rewrite E in E'. by injection E' as <- <-.
Qed.

Lemma live_each_perform s p l : live s p -> after (each l (perform p)) s (fun _ s' => evolves s s').
Proof using laws Hco.
  clear Hce. revert s. induction l as [|e l IH]; intros s Hl; cbn [each]; [apply evolves_refl|].
  apply after_bind. eapply after_mono; [by apply live_perform|]. intros [] s1 E1.
  eapply after_mono; [apply IH; by apply E1|]. intros [] s2 E2. exact (evolves_trans _ _ _ E1 E2).
Qed.

Lemma sound_on_peer {A} p c (m : Env -> H A) : sound (on_peer p c m).
Proof using laws Hco.
  clear Hce. intros s. unfold on_peer. apply after_deref. intros x Hx.
  apply after_sound; [apply sound_get|]. intros s0 s1 E1.
  apply after_sound; [apply sound_lift|]. intros [a st] s2 E2.
  assert (live s2 p) as Hl by (apply E2, E1; by eexists).
  apply after_bind. eapply after_mono; [by apply live_store|]. intros [] s3 E3.
  apply after_bind. eapply after_mono; [by apply sound_modify|]. intros [] s4 E4.
  pose proof (evolves_trans _ _ _ E3 E4) as E34.
  apply after_bind. eapply after_mono; [apply live_each_perform; by apply E34|].
  intros [] s5 E5. exact (evolves_trans _ _ _ E34 E5).
Qed.

(** ** The operations *)

Create HintDb sound.
Hint Resolve sound_ret sound_pass sound_get sound_lift sound_fault sound_deref sound_update_link
  sound_bind_addr sound_emplace sound_on_peer : sound.
Hint Extern 3 (sound (modify _)) => by apply sound_modify : sound.

Ltac sound :=
  repeat first
    [ progress intros
    | progress (eauto 2 with sound)
    | apply sound_bind | apply sound_only_if | apply sound_if | apply sound_each
    | match goal with |- sound (match ?x with _ => _ end) => destruct x end ].

(** [connect] frees no peer unless it takes over the address of one that is
    known under another name. *)
Definition no_takeover (s : Impl) (id : string) (addr : option AddrKey) : Prop :=
  forall key old, addr = Some key -> m_peer_by_addr (table s) !! key = Some old ->
    old = id \/ m_peers (table s) !! old = None.

Lemma connect_sound id addr c s : no_takeover s id addr ->
  after (connect id addr c) s (fun _ s' => evolves s s').
Proof using laws Hco.
  intros Hn. unfold connect. apply (after_bind get). change (after get s) with (fun R : Impl -> Impl -> Prop => R s s).
  cbv beta. destruct (negb (m_running (modes s))); [apply evolves_refl|].
  destruct addr as [key|]; [|apply evolves_refl].
  assert (sound (p ← emplace_peer id;
      let cfg := id_config (ident s) in
      update_link p (fun l =>
        put_retransmit (retransmit_enabled cfg)
          (put_drop_log (drop_log cfg && negb (m_lite_mode (modes s)))
            (put_reconnect true (put_role Node (put_addr_set true (put_sockaddr key (put_id id l))))))) ;;
      bind_addr key id ;;
      x ← deref p;
      only_if (bool_decide (m_state (link x) = Closed))
        (update_link p (fun l => put_last_handshake_sent (c_steady c - hours 1) (put_state Types.Handshake l))) ;;
      on_peer p c send_handshake ;;
      mret true)) as Hrest by sound.
  apply after_bind. destruct (m_peer_by_addr (table s) !! key) as [old|] eqn:Eo; [|apply Hrest].
  destruct (decide (old = id)) as [->|Hne]; [apply Hrest|].
  destruct (Hn key old eq_refl Eo) as [?|Hnone]; [done|].
  assert (erase_peer old s = Ok (tt, s)) as He.
  { unfold erase_peer, modify_table, modify. rewrite Hnone. by destruct s. }
  unfold after at 1, mbind at 1, T_bind at 1. rewrite He.
  pose proof (sound_bind _ _ (sound_bind_addr key id) (fun _ => Hrest) s) as Hb.
  exact Hb.
Qed.

Lemma sound_enqueue k id pl : sound (enqueue_if_room k id pl).
Proof.
  intros s. unfold enqueue_if_room, get, mbind at 1, T_bind at 1, after.
  destruct (Z.leb_spec (queue_limit s) (Z.of_nat (queued (m_send_queue (queues s))))) as [|Hlt]; [done|].
  cbn. split; [|done]. intros [Hc ? ? ? ? Hq]. split; simpl; try done.
  rewrite queued_enqueue. unfold queue_limit in Hlt. rewrite Hc in Hlt.
  destruct (m_lite_mode (modes s)); lia.
Qed.
Hint Resolve sound_enqueue : sound.

Lemma sound_process_item k i : sound (process_item k i).
Proof using laws Hce.
  clear Hco. intros s. destruct i as [id pl]. unfold process_item. apply (after_bind get).
  change (after get s) with (fun R : Impl -> Impl -> Prop => R s s). cbv beta.
  destruct (find_peer (table s) id) as [p|]; [|apply evolves_refl].
  apply after_deref. intros x Hx. destruct (negb _).
  - assert (sound (only_if (negb (bool_decide (m_state (link x) = Closed)))
      (enqueue_if_room k id pl ;; pass))) as Hs by sound. apply Hs.
  - apply after_bind. unfold after at 1, lift_res.
    destruct (q_try_push _ _) as [[q b]|] eqn:E; [|done]. apply after_bind.
    set (s1 := set_queues (set_encode_queue q (queues s)) s).
    assert (evolves s s1) as E1.
    { split; [|done]. intros [? ? He ? ? ?]. split; simpl; try done.
      destruct (push_ok ce (fun t => live s (t_peer t)) _ (mkTask p pl) (proj2 Hce) (proj1 Hce) He)
        as (q' & b' & E' & Hq'); [by eexists|]. rewrite E in E'. by injection E' as <- <-. }
    assert (sound (only_if (negb b) (enqueue_if_room 0 id [] ;; pass))) as Hs by sound.
    change (after (only_if (negb b) (enqueue_if_room 0 id [] ;; pass)) s1 (fun _ s' => evolves s s')).
    eapply after_mono; [apply Hs|]. intros [] s2 E2. exact (evolves_trans _ _ _ E1 E2).
Qed.
Hint Resolve sound_process_item : sound.

Lemma sound_process_send_queue : sound process_send_queue.
Proof using laws Hce.
  clear Hco. apply sound_bind; [apply sound_get|]. intros s. apply sound_bind; [|intros []; sound].
  intros s'. cbn. split; [|done]. intros []. split; simpl; try done. change (Z.of_nat (queued ∅)) with 0. lia.
Qed.

Lemma sound_find_or_create key rnd c : sound (find_or_create_peer_by_addr key rnd c).
Proof using. unfold find_or_create_peer_by_addr. sound. Qed.
Hint Resolve sound_process_send_queue sound_find_or_create : sound.

Lemma sound_receive_one from d rnd c : sound (receive_one from d rnd c).
Proof using laws Hco. clear Hce. unfold receive_one, handle_packet. sound. Qed.
Hint Resolve sound_receive_one : sound.

Lemma sound_drain_receiver w : sound (drain_receiver w).
Proof using laws Hco. clear Hce. unfold drain_receiver. sound. Qed.

Lemma sound_send_message id pl k : sound (send_message id pl k).
Proof using. unfold send_message. sound. Qed.
Lemma sound_send_command id pl c : sound (send_command id pl c).
Proof using laws Hco. clear Hce. unfold send_command. sound. Qed.

Lemma sound_each_peer c duty : sound (each_peer c duty).
Proof using laws Hco. clear Hce. unfold each_peer. sound. Qed.
Hint Resolve sound_each_peer sound_drain_receiver : sound.

(** Taking a task or a packet. *)
Lemma take_task_evolves s q o : q_poll (m_encode_queue (queues s)) = Ok (q, o) ->
  evolves s (set_queues (set_encode_queue q (queues s)) s).
Proof using laws.
  intros E. split; [|done]. intros [? ? He ? ? ?]. split; simpl; try done.
  destruct (poll_ok _ _ _ He) as (q' & o' & E' & Hq & _). rewrite E in E'. by injection E' as <- <-.
Qed.

Lemma take_packet_evolves s q o : q_poll (m_outbound_queue (queues s)) = Ok (q, o) ->
  evolves s (set_queues (set_outbound_queue q (queues s)) s).
Proof using laws.
  intros E. split; [|done]. intros [? ? ? Ho ? ?]. split; simpl; try done.
  destruct (poll_ok _ _ _ Ho) as (q' & o' & E' & Hq & _). rewrite E in E'. by injection E' as <- <-.
Qed.

Lemma sound_encode_step log2 scratch c : sound (encode_step log2 scratch c).
Proof using laws Hco.
  clear Hce. intros s. unfold encode_step. apply (after_bind get).
  change (after get s) with (fun R : Impl -> Impl -> Prop => R s s). cbv beta.
  apply after_bind. unfold after at 1, lift_res. destruct (q_poll _) as [[q o]|] eqn:E; [|done].
  apply after_bind. set (k := match o with None => _ | Some _ => _ end).
  assert (sound k) as Hk by (unfold k; sound).
  change (after k (set_queues (set_encode_queue q (queues s)) s) (fun _ s' => evolves s s')).
  eapply after_mono; [apply Hk|]. intros b s2 E2.
  exact (evolves_trans _ _ _ (take_task_evolves _ _ _ E) E2).
Qed.
Hint Resolve sound_encode_step : sound.

Lemma sound_drain_encode log2 n scratch c : sound (drain_encode log2 n scratch c).
Proof using laws Hco. clear Hce. induction n; cbn [drain_encode]; sound. Qed.

Lemma sound_refill now : sound (refill_token_bucket now).
Proof using. unfold refill_token_bucket. sound. Qed.
Lemma sound_spend cost : sound (spend cost).
Proof using. by apply sound_modify. Qed.
Lemma sound_transmit pkt : sound (transmit pkt).
Proof using. unfold transmit, record_event. sound. Qed.

Lemma sound_drop_pending : sound (modify_queues (set_lite_pending None)).
Proof using. intros s. cbn. split; [|done]. intros []. by split. Qed.

Lemma sound_current_packet : sound current_packet.
Proof using laws.
  clear Hce Hco. intros s. unfold current_packet. apply (after_bind get).
  change (after get s) with (fun R : Impl -> Impl -> Prop => R s s). cbv beta.
  destruct (m_lite_pending (queues s)) as [o|] eqn:Ep; [apply evolves_refl|].
  apply after_bind. unfold after at 1, lift_res. destruct (q_poll _) as [[q o]|] eqn:E; [|done]. cbn.
  split; [|done]. intros [? ? ? Ho ? ?].
  destruct (poll_ok _ _ _ Ho) as (q' & o' & E' & Hq & Hl). rewrite E in E'. injection E' as <- <-.
  by split.
Qed.
Hint Resolve sound_drain_encode sound_refill sound_spend sound_transmit sound_drop_pending
  sound_current_packet : sound.

Lemma sound_drain_sender_step now : sound (drain_sender_step now).
Proof using laws. clear Hce Hco. unfold drain_sender_step. sound. Qed.
Hint Resolve sound_drain_sender_step : sound.

Lemma sound_drain_sender n clk : sound (drain_sender n clk).
Proof using laws. clear Hce Hco. revert clk. induction n; intros clk; cbn [drain_sender]; sound. Qed.
Hint Resolve sound_drain_sender : sound.

Lemma sound_reactor_round log2 r : sound (reactor_round log2 r).
Proof using laws Hce Hco.
  unfold reactor_round, send_handshakes, send_heartbeats, send_reports, check_offline, flush_commands. sound.
Qed.

(** The packet the sender thread holds stays valid. *)
Definition held_ok (s : Impl) (held : option OutboundPacket) : Prop :=
  forall o, held = Some o -> live s (o_peer o).

Lemma sound_sender_pause cost : sound (sender_pause cost).
Proof using. unfold sender_pause. sound. Qed.
Hint Resolve sound_sender_pause : sound.

Lemma sender_turn_sound held now s : held_ok s held ->
  after (sender_turn held now) s (fun h s' => evolves s s' /\ held_ok s' h).
Proof using laws.
  clear Hce Hco. intros Hh. unfold sender_turn. apply (after_bind get).
  change (after get s) with (fun R : Impl -> Impl -> Prop => R s s). cbv beta.
  destruct held as [pkt|].
  - specialize (Hh pkt eq_refl). destruct (_ && _).
    + apply (after_bind (sender_pause _)). eapply after_mono; [apply sound_sender_pause|]. intros w s1 E1.
      apply after_bind. eapply after_mono; [apply sound_refill|]. intros [] s2 E2. cbn.
      pose proof (evolves_trans _ _ _ E1 E2) as E12. split; [done|]. intros o [= <-]. by apply (ev_live _ _ E12).
    + assert (sound (only_if (F64.leb (F64.of_Z (Z.of_nat (length (o_datagram pkt)))) (m_token_bucket (bucket s)))
        (spend (F64.of_Z (Z.of_nat (length (o_datagram pkt))))))) as Hs by sound.
      apply after_bind. eapply after_mono; [apply Hs|]. intros [] s1 E1.
      apply after_bind. eapply after_mono; [apply sound_transmit|]. intros [] s2 E2. cbn.
      split; [exact (evolves_trans _ _ _ E1 E2)|done].
  - destruct (negb _); [cbn; split; [apply evolves_refl|done]|].
    apply after_bind. unfold after at 1, lift_res. destruct (q_poll _) as [[q o]|] eqn:E; [|done].
    apply after_bind. set (s1 := set_queues (set_outbound_queue q (queues s)) s).
    pose proof (take_packet_evolves _ _ _ E) as E1. fold s1 in E1.
    change (after (match o with
      | None => mret None
      | Some pkt =>
          x ← deref (o_peer pkt);
          if negb (m_addr_set (link x)) || negb (m_sock (modes s)) then mret None else
          refill_token_bucket now ;; mret (Some pkt)
      end) s1 (fun h s' => evolves s s' /\ held_ok s' h)).
    destruct o as [pkt|]; [|by split]. apply after_deref. intros x Hx. destruct (_ || _); [by split|].
    apply after_bind. eapply after_mono; [apply sound_refill|]. intros [] s2 E2. cbn.
    split; [exact (evolves_trans _ _ _ E1 E2)|]. intros o [= <-]. apply (ev_live _ _ E2). by eexists.
Qed.

(** ** Life cycle *)

Lemma sound_modes f : sound (modify_modes f).
Proof using. by apply sound_modify. Qed.
Hint Resolve sound_modes : sound.

Lemma close_ok {A} c (P : A -> Prop) (q : Q A) : queue_ok c P q -> queue_ok c P (q_close q).
Proof using laws.
  clear -laws. intros (f & Hf & Hc & Hl & HP). exists (mkFifo (cap f) (items f) true).
  split; [by apply q_close_law|done].
Qed.

Lemma sound_close : sound (modify_queues (fun q => set_encode_queue (q_close (m_encode_queue q))
  (set_outbound_queue (q_close (m_outbound_queue q)) q))).
Proof using laws.
  intros s. cbn. split; [|done]. intros [? ? ? ? ? ?]. split; simpl; try done; by apply close_ok.
Qed.

Lemma sound_sender_shutdown n : sound (sender_shutdown n).
Proof using laws.
  clear Hce Hco. induction n as [|n IH]; cbn [sender_shutdown]; [sound|]. intros s.
  apply (after_bind get). change (after get s) with (fun R : Impl -> Impl -> Prop => R s s). cbv beta.
  apply after_bind. unfold after at 1, lift_res. destruct (q_poll _) as [[q o]|] eqn:E; [|done].
  apply after_bind. pose proof (take_packet_evolves _ _ _ E) as E1.
  set (s1 := set_queues (set_outbound_queue q (queues s)) s) in *.
  change (after (match o with None => pass | Some _ => sender_shutdown n end) s1 (fun _ s' => evolves s s')).
  assert (sound (match o with None => pass | Some _ => sender_shutdown n end)) as Hs by sound.
  eapply after_mono; [apply Hs|]. intros [] s2 E2. exact (evolves_trans _ _ _ E1 E2).
Qed.
Hint Resolve sound_close sound_sender_shutdown : sound.

Lemma sound_stop c m : sound m -> sound (stop c m).
Proof using laws Hco. clear Hce. intros Hm. unfold stop, send_byes, stop_threads. sound. Qed.
Lemma sound_start b : sound (start b).
Proof using. unfold start. sound. Qed.
Lemma sound_set_lite_mode b : sound (set_lite_mode b).
Proof using. unfold set_lite_mode. sound. Qed.

(** ** Runs *)

(** The transport with the packet its sender thread waits to send. *)
Record Sys := mkSys { impl : Impl; held : option OutboundPacket }.

(** Calls from outside and turns of the threads. *)
Inductive op :=
  | Connect (id : string) (addr : option AddrKey) (c : Clocks)
  | SendMessage (id : string) (payload : bytes) (priority : Z)
  | SendCommand (id : string) (payload : bytes) (c : Clocks)
  | Receive (from : AddrKey) (d : bytes) (rnd : Z) (c : Clocks)
  | Reactor (r : Round)
  | EncodeTurn (scratch : list bytes) (c : Clocks)
  | SenderTurn (now : Z)
  | SetLiteMode (lite : bool)
  | SetCallbacks (message peer command : bool)
  | Start (bound : bool)
  | Stop (c : Clocks) (turns : nat) (scratch : list bytes).

Section Exec.
Context (log2 : F64.double -> F64.double).

Definition exec_impl (o : op) : T unit :=
  match o with
  | Connect id addr c => connect id addr c ;; pass
  | SendMessage id pl k => send_message id pl k ;; pass
  | SendCommand id pl c => send_command id pl c ;; pass
  | Receive from d rnd c => receive_one from d rnd c
  | Reactor r => reactor_round log2 r
  | EncodeTurn scratch c => encode_step log2 scratch c ;; pass
  | SenderTurn _ => pass
  | SetLiteMode b => set_lite_mode b
  | SetCallbacks m p c => set_message_callback m ;; set_peer_callback p ;; set_command_callback c
  | Start b => start b ;; pass
  | Stop c n scratch => stop c (drain_encode log2 n scratch c ;; sender_shutdown n)
  end.

Definition exec (o : op) (s : Sys) : res Sys :=
  match o with
  | SenderTurn now =>
      '(h, i) ← sender_turn (held s) now (impl s); Ok (mkSys i h)
  | _ => '(_, i) ← exec_impl o (impl s); Ok (mkSys i (held s))
  end.

Definition allowed (o : op) (s : Sys) : Prop :=
  match o with Connect id addr _ => no_takeover (impl s) id addr | _ => True end.

Inductive steps : Sys -> Sys -> Prop :=
  | steps_done s : steps s s
  | steps_then o s s1 s2 : allowed o s -> exec o s = Ok s1 -> steps s1 s2 -> steps s s2.

Lemma exec_impl_sound o s : allowed o s -> after (exec_impl o) (impl s) (fun _ s' => evolves (impl s) s').
Proof using laws Hce Hco.
  intros Ha. destruct o; cbn [exec_impl].
  - apply after_bind. eapply after_mono; [by apply connect_sound|]. done.
  - assert (sound (send_message id payload priority ;; pass)) as Hs
      by (apply sound_bind; [apply sound_send_message|intros; apply sound_pass]). apply Hs.
  - assert (sound (send_command id payload c ;; pass)) as Hs
      by (apply sound_bind; [apply sound_send_command|intros; apply sound_pass]). apply Hs.
  - apply sound_receive_one.
  - apply sound_reactor_round.
  - assert (sound (encode_step log2 scratch c ;; pass)) as Hs by sound. apply Hs.
  - apply evolves_refl.
  - apply sound_set_lite_mode.
  - assert (sound (set_message_callback message ;; set_peer_callback peer0 ;; set_command_callback command))
      as Hs by (unfold set_message_callback, set_peer_callback, set_command_callback; sound). apply Hs.
  - assert (sound (start bound ;; pass)) as Hs
      by (apply sound_bind; [apply sound_start|intros; apply sound_pass]). apply Hs.
  - apply sound_stop. sound.
Qed.

Lemma exec_safe o s s' : allowed o s -> exec o s = Ok s' -> safe (impl s) -> held_ok (impl s) (held s) ->
  safe (impl s') /\ held_ok (impl s') (held s').
Proof using laws Hce Hco.
  intros Ha He Hs Hh.
  assert (forall m : T unit, after m (impl s) (fun _ i => evolves (impl s) i) ->
    ('(_, i) ← m (impl s); Ok (mkSys i (held s))) = Ok s' -> safe (impl s') /\ held_ok (impl s') (held s'))
    as Hrest.
  { intros m Hm. unfold after in Hm. destruct (m (impl s)) as [[[] i]|]; [|done]. intros [= <-].
    split; [by apply (ev_safe _ _ Hm)|]. intros p Hp. by apply (ev_live _ _ Hm), Hh. }
  destruct o; try (eapply Hrest, He; by apply exec_impl_sound).
  pose proof (sender_turn_sound (held s) now0 (impl s) Hh) as Ht. unfold after in Ht. cbn [exec] in He.
  destruct (sender_turn _ _ _) as [[h i]|]; [|done]. injection He as <-. destruct Ht as [[Es _] Hh'].
  by split; [apply Es|].
Qed.

Lemma steps_safe s s' : steps s s' -> safe (impl s) -> held_ok (impl s) (held s) ->
  safe (impl s') /\ held_ok (impl s') (held s').
Proof using laws Hce Hco.
  induction 1 as [s|o s s1 s2 Ha He _ IH]; [done|]. intros Hs Hh.
  destruct (exec_safe o s s1 Ha He Hs Hh). auto.
Qed.
End Exec.

Lemma new_safe r1 r2 sk pk now :
  ce = (if lite_mode cfg then Z.min (encode_queue_limit cfg) 64 else encode_queue_limit cfg) ->
  co = (if lite_mode cfg then Z.min (outbound_queue_limit cfg) 256 else outbound_queue_limit cfg) ->
  safe (new cfg r1 r2 sk pk now).
Proof using laws Hce Hco.
  intros Ee Eo. split; simpl.
  - done.
  - split; simpl; intros *; rewrite ?lookup_empty; [done|by intros []|done].
  - eexists. rewrite <- Ee. split; [apply q_new_law; lia|]. simpl. split_and!; [done|lia|constructor].
  - eexists. rewrite <- Eo. split; [apply q_new_law; lia|]. simpl. split_and!; [done|lia|constructor].
  - done.
  - change (Z.of_nat (queued ∅)) with 0. lia.
Qed.
End Safe.

Definition encode_cap (cfg : TightConfig) : Z :=
  if lite_mode cfg then Z.min (encode_queue_limit cfg) 64 else encode_queue_limit cfg.
Definition outbound_cap (cfg : TightConfig) : Z :=
  if lite_mode cfg then Z.min (outbound_queue_limit cfg) 256 else outbound_queue_limit cfg.

(** C5. Memory safety and bounds. Take any implementation of the queues that
    keeps its contract, and any interleaving of calls, received datagrams and
    turns of the reactor, encoder and sender threads after construction, in
    which no [connect] takes the address of a live peer over for another name.
    Then the peer table, the encode queue, the outbound queue, the packet the
    reactor retains and the packet the sender thread holds only contain
    pointers to live peers, and the three queues are within their configured
    limits. *)
Theorem transport_safe {Q} {ops : QueueOps Q} {laws : QueueLaws Q} log2 cfg r1 r2 sk pk now sys
  (He : 0 < encode_cap cfg < 2 ^ 64 - 1) (Ho : 0 < outbound_cap cfg < 2 ^ 64 - 1)
  (Hrun : steps log2 (mkSys (new cfg r1 r2 sk pk now) None) sys) :
  let s := impl sys in
  (forall id p, m_peers (table s) !! id = Some p -> live s p) /\
  (exists f, q_holds (m_encode_queue (queues s)) f /\ Z.of_nat (length (items f)) <= encode_cap cfg /\
     Forall (fun t => live s (t_peer t)) (items f)) /\
  (exists f, q_holds (m_outbound_queue (queues s)) f /\ Z.of_nat (length (items f)) <= outbound_cap cfg /\
     Forall (fun o => live s (o_peer o)) (items f)) /\
  (forall o, m_lite_pending (queues s) = Some o \/ held sys = Some o -> live s (o_peer o)) /\
  Z.of_nat (queued (m_send_queue (queues s))) <= Z.max 0 (Types.queue_limit cfg).
Proof.
  destruct (steps_safe cfg (encode_cap cfg) (outbound_cap cfg) He Ho log2 _ _ Hrun) as [Hs Hh]; [..|done|].
  { by apply new_safe. }
  destruct Hs as [_ [Hl _ _] (fe & H1 & _ & H2 & H3) (fo & G1 & _ & G2 & G3) Hp Hq].
  split_and!; [done|by exists fe|by exists fo| |done].
  intros o [Ho'|Ho']; [by apply Hp|by apply Hh].
Qed.
(** ** Concrete runs *)

Notation sys_of := (@Sys BlockingQueue.queue) (only parsing).

Fixpoint exec_all (log2 : F64.double -> F64.double) (os : list op) (s : sys_of) : res sys_of :=
  match os with [] => Ok s | o :: os => s ← exec log2 o s; exec_all log2 os s end.

Fixpoint permitted (log2 : F64.double -> F64.double) (os : list op) (s : sys_of) : Prop :=
  match os with
  | [] => True
  | o :: os => allowed o s /\ match exec log2 o s with Ok s1 => permitted log2 os s1 | Fault _ => False end
  end.

Lemma steps_all log2 os s s' : permitted log2 os s -> exec_all log2 os s = Ok s' -> steps log2 s s'.
Proof.
  revert s. induction os as [|o os IH]; intros s Hp He; cbn [permitted exec_all] in *.
  - injection He as <-. constructor.
  - destruct Hp as [Ha Hp]. destruct (exec log2 o s) as [s1|] eqn:E; [|done]. cbn [mbind res_bind] in He.
    econstructor; [exact Ha|exact E|auto].
Qed.

Definition demo_config (lite : bool) : TightConfig :=
  let d := default_config in
  mkConfig (Types.bind d) "a" "tok" Node 200 (heartbeat d) (report_interval d)
    (Types.flush_interval d) (dead_timeout d) (retransmit_timeout d) (initial_bandwidth_bytes d)
    (Types.queue_limit d) (Types.max_message_bytes d) true true (late_rtt_multiplier d) false 0 false
    0 8 8 lite.
Definition demo_new (lite : bool) : sys_of := mkSys (new (demo_config lite) 5 6 [] [] 0) None.
Definition demo_clock (t : Z) : Clocks := mkClocks t (t + 1) t.
Definition demo_round (t : Z) : Round := mkRound (demo_clock t) [] [] (fun i => t + Z.of_nat i).

Definition demo_ops : list op :=
  [Start true; Connect "b" (Some (mkAddr 1 2)) (demo_clock 0); SendMessage "b" [1; 2; 3] 7;
   Reactor (demo_round 10)].
Definition demo_sys : sys_of :=
  match exec_all id demo_ops (demo_new true) with Ok s => s | Fault _ => demo_new true end.

Lemma demo_steps : steps id (demo_new true) demo_sys.
Proof.
  apply (steps_all _ demo_ops); [|vm_compute; reflexivity].
  split; [exact I|]. vm_compute (exec _ _ _). split; [intros key old _; by vm_compute|].
  vm_compute. done.
Qed.

Lemma transport_safe_witness :
  (forall id p, m_peers (table (impl demo_sys)) !! id = Some p -> live (impl demo_sys) p) /\
  Z.of_nat (queued (m_send_queue (queues (impl demo_sys)))) <= 65536.
Proof.
  destruct (transport_safe id (demo_config true) 5 6 [] [] 0 demo_sys) as (H1 & _ & _ & _ & H5);
    [| |exact demo_steps|split; [exact H1|exact H5]]; vm_compute; split; reflexivity.
Defined.

End TransportSafe.
