(* ===== verification/SendPath.v ===== *)
(** * The way of a message through the transport (tight/src/transport.cpp)

    From the send queue over the encode queue and the outbound queue to the
    socket: order, completeness and losses. *)
From stdpp Require Import base list numbers option strings gmap sorting.
From Stdlib Require Import ZArith Lia.
From S2P Require Import Prelude Wire Codec Float64 Maps Types Peer.
From S2P Require Import Bandwidth BlockingQueue Packets Endpoint Transport TransportSafe.

Local Open Scope Z_scope.
Import Types Wire PacketCodec Peer Packets Endpoint Transport TransportSafe.

Module SendPath.

(** ** The order of the backlog *)

Notation item := (Z * (string * bytes))%type.

Definition tagged (e : Z * list (string * bytes)) : list item := (fun i => (e.1, i)) <$> e.2.

Lemma backlog_unfold (q : zmap (list (string * bytes))) : backlog q = concat (tagged <$> reverse (entries q)).
Proof.
  unfold backlog. induction (reverse (entries q)) as [|[k l] es IH]; [done|].
  rewrite fmap_cons. cbn [concat]. rewrite <- IH. done.
Qed.

(** Higher priorities first. *)
Lemma entries_descending (q : zmap (list (string * bytes))) :
  StronglySorted (fun a b : Z * list (string * bytes) => b.1 < a.1) (reverse (entries q)).
Proof.
  pose proof (keys_sorted q) as Hk. unfold keys in Hk.
  induction (entries q) as [|e es IH]; [constructor|]. rewrite reverse_cons. inversion Hk as [|? ? Hk' HF]; subst.
  specialize (IH Hk'). clear Hk Hk'. rewrite Forall_fmap in HF.
  assert (Forall (fun x => e.1 < x.1) (reverse es)) as HF' by (by apply Forall_reverse). clear HF.
  induction IH as [|x l _ IHl Hx]; simpl.
  - constructor; constructor.
  - apply Forall_cons in HF' as [H1 H2]. constructor; [auto|].
    apply Forall_app. split; [done|]. by constructor.
Qed.

Lemma backlog_sorted (q : zmap (list (string * bytes))) :
  StronglySorted (fun a b : item => b.1 <= a.1) (backlog q).
Proof.
  rewrite backlog_unfold. pose proof (entries_descending q) as Hs.
  induction Hs as [|[k l] es _ IH HF]; [constructor|]. rewrite fmap_cons. cbn [concat].
  assert (Forall (fun b : item => b.1 < k) (concat (tagged <$> es))) as Hlow.
  { clear IH. induction HF as [|[k' l'] es Hk' _ IHF]; [constructor|]. rewrite fmap_cons. cbn [concat].
    apply Forall_app. split; [|done]. apply Forall_fmap, Forall_true. by intros. }
  unfold tagged at 1. cbn [fst snd]. induction l as [|i l IHl]; [done|].
  rewrite fmap_cons. cbn [app]. constructor; [exact (IHl HF)|]. apply Forall_app. split.
  - apply Forall_fmap, Forall_true. cbn. lia.
  - eapply Forall_impl; [exact Hlow|]. cbn. lia.
Qed.

(** The messages of one priority. *)
Definition of_priority (k : Z) (l : list item) : list (string * bytes) :=
  snd <$> List.filter (fun i : item => i.1 =? k) l.

Lemma of_priority_app k a b : of_priority k (a ++ b) = of_priority k a ++ of_priority k b.
Proof. unfold of_priority. by rewrite List.filter_app, fmap_app. Qed.

Lemma of_priority_tagged k e : of_priority k (tagged e) = if e.1 =? k then e.2 else [].
Proof.
  destruct e as [k' l]. unfold of_priority, tagged. cbn [fst snd]. induction l as [|i l IH]; [by destruct (k' =? k)|].
  rewrite fmap_cons. cbn [List.filter fst]. destruct (k' =? k); [|done]. rewrite fmap_cons. by f_equal.
Qed.

(** Each priority's messages in the order they were queued. *)
Lemma backlog_fifo (q : zmap (list (string * bytes))) k : of_priority k (backlog q) = default [] (q !! k).
Proof.
  rewrite backlog_unfold.
  assert (NoDup (reverse (entries q)).*1) as HN.
  { rewrite fmap_reverse. rewrite reverse_Permutation. apply NoDup_keys. }
  assert (forall l, (k, l) ∈ reverse (entries q) <-> q !! k = Some l) as Hin.
  { intros l. by rewrite elem_of_reverse, elem_of_entries. }
  assert (k ∉ (reverse (entries q)).*1 -> q !! k = None) as Hout.
  { intros Hk. destruct (q !! k) as [l|] eqn:E; [|done]. destruct Hk. apply list_elem_of_fmap.
    exists (k, l). by rewrite Hin. }
  revert HN Hin Hout. generalize (q !! k). intros o.
  induction (reverse (entries q)) as [|e es IH]; intros HN Hin Hout.
  { by rewrite Hout by set_solver. }
  rewrite fmap_cons in *. cbn [concat]. rewrite of_priority_app, of_priority_tagged.
  apply NoDup_cons in HN as [He HN]. destruct (Z.eqb_spec e.1 k) as [<-|Hne].
  - destruct e as [k l]. cbn [fst snd] in *. rewrite (proj1 (Hin l)) by left.
    assert (of_priority k (concat (tagged <$> es)) = []) as ->; [|by rewrite app_nil_r].
    clear -He. induction es as [|e es IH]; [done|]. rewrite fmap_cons in *. cbn [concat].
    rewrite of_priority_app, of_priority_tagged, IH by set_solver.
    by rewrite (proj2 (Z.eqb_neq _ _)) by set_solver.
  - cbn [app]. apply IH; [done|..].
    + intros l. rewrite <- Hin, elem_of_cons. split; [by right|]. intros [<-|]; [done|done].
    + intros Hk. apply Hout. set_solver.
Qed.
(** ** From the send queue to the encode queue *)

Section Path.
Context {Q : Type -> Type} {ops : QueueOps Q} {laws : QueueLaws Q}.
Notation Impl := (@Impl Q).
Notation T := (@T Q).

(** [id] names an online peer at [p]. *)
Definition online (t : Table) (id : string) (p : nat) : Prop :=
  find_peer t id = Some p /\ exists x, cells t !! p = Some x /\ m_state (link x) = Types.Online.

(** Room for [n] more items in a queue with contents [f]. *)
Definition room {A} (n : nat) (f : fifo A) : Prop :=
  closed f = false /\ (cap f <= 0 \/ Z.of_nat (length (items f) + n) <= cap f) /\
  Z.of_nat (length (items f) + n) < 2 ^ 64.

Lemma offer_room {A} n (f : fifo A) x : room (S n) f ->
  offer x f = (set_items (items f ++ [x]) f, true) /\ room n (set_items (items f ++ [x]) f).
Proof.
  intros (Hc & Hr & Hl). unfold offer, full. rewrite Hc. cbn [orb].
  assert ((0 <? cap f) && (cap f <=? Z.of_nat (length (items f))) = false) as ->.
  { destruct Hr; [by rewrite (proj2 (Z.ltb_ge _ _))|]. rewrite (proj2 (Z.leb_gt _ _)) by lia. apply andb_false_r. }
  split; [done|]. split; [done|]. cbn [cap items set_items]. rewrite length_app. cbn [length]. split; [|lia].
  destruct Hr; [by left|right; lia].
Qed.

Lemma push_room {A} n (q : Q A) f x : q_holds q f -> room (S n) f ->
  exists q', q_try_push q x = Ok (q', true) /\ q_holds q' (set_items (items f ++ [x]) f) /\
    room n (set_items (items f ++ [x]) f).
Proof using laws.
  intros Hq Hr. destruct (offer_room n f x Hr) as [Ho Hr'].
  destruct (q_try_push_law q f x Hq) as (q' & E & Hq'); [destruct Hr as (_ & _ & Hr); lia|].
  rewrite Ho in E, Hq'. by exists q'.
Qed.

Lemma process_online k id pl p (s : Impl) f n : online (table s) id p ->
  q_holds (m_encode_queue (queues s)) f -> room (S n) f ->
  exists q', process_item k (id, pl) s = Ok (tt, set_queues (set_encode_queue q' (queues s)) s) /\
    q_holds q' (set_items (items f ++ [mkTask p pl]) f) /\ room n (set_items (items f ++ [mkTask p pl]) f).
Proof using laws.
  intros (Hf & x & Hx & Hst) Hq Hr. destruct (push_room n _ f (mkTask p pl) Hq Hr) as (q' & E & Hq' & Hr').
  exists q'. split; [|done]. unfold process_item, deref, get, lift_res, mbind, T_bind.
  rewrite Hf, Hx. cbn [mret T_ret]. rewrite Hst. change (bool_decide (Types.Online = Types.Online)) with true.
  cbn [negb]. rewrite E. done.
Qed.

(** What [process_send_queue] asks of a peer: whether it is known, and its
    state. *)
Definition standing (t : Table) (id : string) : option LinkState :=
  p ← find_peer t id; x ← cells t !! p; Some (m_state (link x)).

(** The message can go out now; it must wait for its peer. *)
Definition goes_out (t : Table) (m : string * bytes) : bool :=
  bool_decide (standing t m.1 = Some Types.Online).
Definition stays (t : Table) (m : string * bytes) : bool :=
  match standing t m.1 with
  | Some x => negb (bool_decide (x = Types.Online)) && negb (bool_decide (x = Closed))
  | None => false
  end.

(** Every peer in the table is alive. *)
Definition peers_alive (t : Table) : Prop := forall id p, m_peers t !! id = Some p -> is_Some (cells t !! p).

Lemma found_alive t id p : peers_alive t -> find_peer t id = Some p -> is_Some (cells t !! p).
Proof.
  intros Ha. unfold find_peer. destruct (m_peers t !! id) eqn:E; [intros [= <-]; by eapply Ha|].
  induction (peer_entries t) as [|[n p'] l IH]; [done|]. cbn [find_by_id].
  destruct (cells t !! p') as [x|] eqn:Ex; [|done]. destruct (decide _); [|done]. intros [= <-]. by exists x.
Qed.

Definition waiting (s : Impl) (k : Z) : list (string * bytes) := default [] (m_send_queue (queues s) !! k).

Lemma enqueue_waiting k id pl q k' : default [] (enqueue k id pl q !! k') =
  default [] (q !! k') ++ if k =? k' then [(id, pl)] else [].
Proof.
  unfold enqueue. destruct (Z.eqb_spec k k') as [<-|Hne]; [by rewrite lookup_insert_eq|].
  by rewrite lookup_insert_ne, app_nil_r.
Qed.

(** A message whose peer is not online goes back to its place or is dropped. *)
Lemma process_offline k m (s : Impl) : peers_alive (table s) -> goes_out (table s) m = false ->
  Z.of_nat (queued (m_send_queue (queues s))) < queue_limit s ->
  exists q, process_item k m s = Ok (tt, set_queues (set_send_queue q (queues s)) s) /\
    (queued q <= S (queued (m_send_queue (queues s))))%nat /\
    forall k', default [] (q !! k') = waiting s k' ++ if stays (table s) m && (k =? k') then [m] else [].
Proof using.
  intros Ha Ho Hl. destruct m as [id pl]. unfold goes_out, stays, standing in *. cbn [fst snd] in *.
  unfold process_item, waiting. unfold mbind at 1, T_bind at 1. cbn [get].
  assert (s = set_queues (set_send_queue (m_send_queue (queues s)) (queues s)) s) as Hsame by (by destruct s as [? ? ? [] ? ? ?]).
  destruct (find_peer (table s) id) as [p|] eqn:Ef; cbn [mbind option_bind] in *.
  2: { exists (m_send_queue (queues s)). rewrite <- Hsame. split; [done|]. split; [lia|]. intros. by rewrite app_nil_r. }
  destruct (found_alive _ _ _ Ha Ef) as [x Hx]. rewrite Hx in *. cbn [mbind option_bind] in *.
  unfold deref, get, mbind, T_bind. rewrite Hx. cbn [mret T_ret].
  assert (bool_decide (m_state (link x) = Types.Online) = false) as Hn.
  { apply bool_decide_eq_false in Ho. apply bool_decide_eq_false. congruence. }
  rewrite Hn. cbn [negb andb]. destruct (bool_decide (m_state (link x) = Closed)); cbn [negb andb only_if].
  - exists (m_send_queue (queues s)). rewrite <- Hsame. split; [done|]. split; [lia|]. intros. by rewrite app_nil_r.
  - unfold enqueue_if_room, get, mbind, T_bind. rewrite (proj2 (Z.leb_gt _ _) Hl).
    exists (enqueue k id pl (m_send_queue (queues s))). split; [done|].
    split; [by rewrite queued_enqueue|]. intros k'. apply enqueue_waiting.
Qed.

Lemma goes_out_online t m : goes_out t m = true -> exists p, online t m.1 p.
Proof.
  unfold goes_out, standing, online. intros H%bool_decide_eq_true.
  destruct (find_peer t m.1) as [p|] eqn:Ef; [|done]. cbn [mbind option_bind] in H.
  destruct (cells t !! p) as [x|] eqn:Ex; [|done]. injection H as H. exists p. split; [done|by exists x].
Qed.

Lemma of_priority_cons k (i : item) l : of_priority k (i :: l) = (if i.1 =? k then [i.2] else []) ++ of_priority k l.
Proof. unfold of_priority. cbn [List.filter]. by destruct (i.1 =? k). Qed.

Lemma filter_priority (P : string * bytes -> bool) k l :
  of_priority k (List.filter (fun i : item => P i.2) l) = List.filter P (of_priority k l).
Proof.
  induction l as [|i l IH]; [done|]. rewrite of_priority_cons, List.filter_app, <- IH. cbn [List.filter].
  destruct (P i.2) eqn:EP; [rewrite of_priority_cons|]; destruct (i.1 =? k); cbn [List.filter]; by rewrite ?EP.
Qed.

Notation outgoing t := (List.filter (fun i : item => goes_out t i.2)).
Notation staying t := (List.filter (fun i : item => stays t i.2)).

(** The loop over the backlog. *)
Lemma process_backlog (its : list item) : forall (s : Impl) f n, peers_alive (table s) ->
  q_holds (m_encode_queue (queues s)) f -> room (length (outgoing (table s) its) + n) f ->
  Z.of_nat (queued (m_send_queue (queues s)) + length its) <= queue_limit s ->
  exists s' ts, each its (fun '(k, i) => process_item k i) s = Ok (tt, s') /\
    q_holds (m_encode_queue (queues s')) (set_items (items f ++ ts) f) /\
    (forall k, waiting s' k = waiting s k ++ of_priority k (staying (table s) its)) /\
    Forall2 (fun (i : item) t => online (table s) i.2.1 (t_peer t) /\ t_payload t = i.2.2)
      (outgoing (table s) its) ts.
Proof using laws.
  induction its as [|[k m] its IH]; intros s f n Ha Hq Hr Hl.
  { exists s, []. rewrite app_nil_r. split; [done|]. split; [by destruct f|]. split; [|constructor].
    intros k. symmetry. apply app_nil_r. }
  cbn [List.filter fst snd] in *. cbn [length] in Hl. destruct (goes_out (table s) m) eqn:Eg.
  - destruct (goes_out_online _ _ Eg) as [p Hp]. destruct m as [id pl]. cbn [length] in Hr.
    destruct (process_online k id pl p s f (length (outgoing (table s) its) + n) Hp Hq Hr) as (q' & E & Hq' & Hr').
    set (s1 := set_queues (set_encode_queue q' (queues s)) s) in E.
    destruct (IH s1 _ n Ha Hq' Hr') as (s' & ts & E' & Hs & Hw & Ht);
      [change (queue_limit s1) with (queue_limit s); change (m_send_queue (queues s1)) with (m_send_queue (queues s)); lia|].
    exists s', (mkTask p pl :: ts). cbn [each]. unfold mbind, T_bind in *. rewrite E, E'.
    cbn [set_items items cap closed] in Hs. rewrite <- app_assoc in Hs.
    assert (stays (table s) (id, pl) = false) as ->.
    { unfold goes_out in Eg. apply bool_decide_eq_true in Eg. unfold stays. cbn [fst] in *. by rewrite Eg. }
    split_and!; try done. by constructor.
  - destruct (process_offline k m s Ha Eg) as (q & E & Hqq & Hw1); [lia|].
    set (s1 := set_queues (set_send_queue q (queues s)) s) in E.
    destruct (IH s1 f n Ha Hq Hr) as (s' & ts & E' & Hs & Hw & Ht);
      [change (queue_limit s1) with (queue_limit s); change (m_send_queue (queues s1)) with q; lia|].
    exists s', ts. cbn [each]. unfold mbind, T_bind in *. rewrite E, E'. split_and!; try done.
    intros k'. rewrite Hw. unfold waiting at 1. cbn [s1 queues set_queues m_send_queue set_send_queue].
    rewrite Hw1, <- app_assoc. f_equal. change (table s1) with (table s).
    destruct (stays (table s) m); [by rewrite of_priority_cons|done].
Qed.

Lemma length_backlog (q : zmap (list (string * bytes))) : length (backlog q) = queued q.
Proof.
  rewrite backlog_unfold. unfold queued. rewrite <- (sum_list_with_reverse _ (entries _)).
  induction (reverse (entries q)) as [|e es IH]; [done|].
  rewrite fmap_cons. cbn [concat sum_list_with]. rewrite length_app, IH. unfold tagged. by rewrite length_fmap.
Qed.

(** C6. Messages leave the send queue by priority. Whatever is queued, within
    the queue limit and with live peers, one run of [process_send_queue] does
    not fault. It takes the messages in descending priority and, within one
    priority, in the order they were queued. If the encode queue has room for
    the messages of online peers, exactly one encode task is appended for each
    of them, in that order, with its payload and for its peer; what the send
    queue then holds, priority by priority, are the messages of known peers that
    are neither online nor closed, in their old order; those of closed or
    unknown peers are dropped. *)
Theorem send_queue_in_order (s : Impl) f
  (Halive : peers_alive (table s))
  (Hlimit : Z.of_nat (queued (m_send_queue (queues s))) <= queue_limit s)
  (Henc : q_holds (m_encode_queue (queues s)) f)
  (Hroom : room (length (List.filter (fun i => goes_out (table s) i.2) (backlog (m_send_queue (queues s))))) f) :
  exists s' order tasks, process_send_queue s = Ok (tt, s') /\
    StronglySorted (fun a b : item => b.1 <= a.1) order /\
    (forall k, of_priority k order = waiting s k) /\
    q_holds (m_encode_queue (queues s')) (set_items (items f ++ tasks) f) /\
    Forall2 (fun (i : item) t => online (table s) i.2.1 (t_peer t) /\ t_payload t = i.2.2)
      (List.filter (fun i => goes_out (table s) i.2) order) tasks /\
    (forall k, waiting s' k = List.filter (stays (table s)) (waiting s k)).
Proof using laws.
  set (s1 := set_queues (set_send_queue ∅ (queues s)) s).
  rewrite <- (Nat.add_0_r (length _)) in Hroom.
  destruct (process_backlog (backlog (m_send_queue (queues s))) s1 f 0 Halive Henc Hroom) as (s' & ts & E & Hq & Hw & Ht).
  { rewrite length_backlog. change (queued (m_send_queue (queues s1))) with 0%nat. exact Hlimit. }
  exists s', (backlog (m_send_queue (queues s))), ts. split_and!; try done.
  - apply backlog_sorted.
  - apply backlog_fifo.
  - intros k. rewrite Hw. change (table s1) with (table s). rewrite filter_priority, backlog_fifo. done.
Qed.

(** A full encode queue destroys the message it rejects: the payload has
    been moved into the rejected task, and what [process_send_queue] puts back
    into the send queue, at priority 0, is an empty message. *)
Theorem rejected_message_emptied (s : Impl) f k id pl p
  (Hp : online (table s) id p) (Henc : q_holds (m_encode_queue (queues s)) f)
  (Hfull : full f = true) (Hlen : Z.of_nat (length (items f)) < 2 ^ 64 - 1)
  (Hroom : Z.of_nat (queued (m_send_queue (queues s))) < queue_limit s) :
  exists s', process_item k (id, pl) s = Ok (tt, s') /\
    m_send_queue (queues s') = enqueue 0 id [] (m_send_queue (queues s)) /\
    q_holds (m_encode_queue (queues s')) f.
Proof using laws.
  destruct Hp as (Hf & x & Hx & Hst). destruct (q_try_push_law _ _ (mkTask p pl) Henc Hlen) as (q' & E & Hq').
  unfold offer in E, Hq'. rewrite Hfull, orb_true_r in E, Hq'. cbn [fst snd] in E, Hq'.
  eexists. unfold process_item, enqueue_if_room, deref, get, lift_res, mbind, T_bind.
  rewrite Hf, Hx. cbn [mret T_ret]. rewrite Hst. change (bool_decide (Types.Online = Types.Online)) with true.
  cbn [negb]. rewrite E. cbn [negb only_if modify_queues modify queues set_queues set_encode_queue m_send_queue].
  replace (queue_limit (set_queues (set_encode_queue q' (queues s)) s)) with (queue_limit s) by done.
  rewrite (proj2 (Z.leb_gt _ _) Hroom). split; [reflexivity|]. done.
Qed.

(** ** From the outbound queue to the socket *)

(** The packets that wait, in order: the one retained, then the queue. *)
Definition holding (s : Impl) (l : list OutboundPacket) : Prop :=
  exists f, q_holds (m_outbound_queue (queues s)) f /\ option_list (m_lite_pending (queues s)) ++ items f = l.

(** The packet's peer is alive and has an address. *)
Definition sendable_to (t : Table) (o : OutboundPacket) (a : AddrKey) : Prop :=
  exists x, cells t !! o_peer o = Some x /\ m_addr_set (link x) = true /\ m_sockaddr (link x) = a.

Definition cost_of (o : OutboundPacket) : F64.double := F64.of_Z (Z.of_nat (length (o_datagram o))).

(** What sending leaves alone. *)
Record settled (s s' : Impl) : Prop := {
  se_table : table s' = table s; se_modes : modes s' = modes s; se_bandwidth : bandwidth s' = bandwidth s;
  se_ident : ident s' = ident s }.

Lemma settled_trans s1 s2 s3 : settled s1 s2 -> settled s2 s3 -> settled s1 s3.
Proof. intros [] []. split; congruence. Qed.

Lemma refill_runs (s : Impl) bps now : Bandwidth.bytes_per_second (bandwidth s) = Ok bps ->
  exists b, refill_token_bucket now s = Ok (tt, set_bucket b s).
Proof.
  intros Hb. unfold refill_token_bucket, get, lift_res, modify, pass, mbind, T_bind, mret, T_ret.
  rewrite Hb. destruct (_ <=? 0); [|by eexists]. exists (bucket s). by destruct s.
Qed.

Lemma current_packet_runs s l : holding s l ->
  exists s', current_packet s = Ok (head l, s') /\ settled s s' /\ trace s' = trace s /\ holding s' l /\
    m_lite_pending (queues s') = head l.
Proof using laws.
  intros (f & Hf & <-). unfold current_packet, get, lift_res, modify_queues, modify, mbind, T_bind, mret, T_ret.
  destruct (m_lite_pending (queues s)) as [o|] eqn:Ep; cbn [option_list app head].
  - exists s. split_and!; try done. exists f. by rewrite Ep.
  - destruct (q_poll_law _ _ Hf) as (q' & E & Hq').
    assert ((next_item f).2 = head (items f)) as Hn by (unfold next_item; by destruct (items f)).
    rewrite E, Hn. eexists. split; [reflexivity|].
    split; [by split|]. split; [done|]. unfold next_item in *. destruct (items f) as [|o l] eqn:Ei; cbn [fst snd head] in *.
    + split; [|done]. exists f. split; [done|]. cbn. by rewrite Ei.
    + split; [|done]. eexists. split; [exact Hq'|]. done.
Qed.

Lemma sender_step_runs s l bps now : Bandwidth.bytes_per_second (bandwidth s) = Ok bps ->
  m_sock (modes s) = true -> holding s l -> Forall (fun o => exists a, sendable_to (table s) o a) l ->
  exists s' more, drain_sender_step now s = Ok (more, s') /\ settled s s' /\
    match l with
    | [] => more = false /\ holding s' [] /\ trace s' = trace s
    | o :: l' =>
        if more : bool then holding s' l' /\ exists a, sendable_to (table s) o a /\
          trace s' = trace s ++ [Sent a (o_datagram o)]
        else holding s' l /\ trace s' = trace s /\ F64.ltb (m_token_bucket (bucket s')) (cost_of o) = true
    end.
Proof using laws.
  intros Hb Hsock Hl HF. destruct (current_packet_runs s l Hl) as (s1 & E1 & [T1 M1 B1 I1] & R1 & H1 & P1).
  unfold drain_sender_step, mbind at 1, T_bind at 1. rewrite E1. destruct l as [|o l]; cbn [head] in *.
  { exists s1, false. by split. }
  apply Forall_cons in HF as [(a & x & Hx & Ha & Hs) _].
  unfold deref, get, mbind, T_bind, mret, T_ret. rewrite T1, Hx, Ha, M1, Hsock. cbn [negb orb].
  destruct (refill_runs s1 bps now) as [b E2]; [by rewrite B1|]. rewrite E2. fold (cost_of o).
  destruct (F64.ltb _ _) eqn:D.
  - exists (set_bucket b s1), false. split; [done|]. split; [by split|]. by split_and!.
  - unfold spend, transmit, record_event, modify_queues, modify, deref, get, mbind, T_bind, mret, T_ret.
    cbn [table set_bucket]. rewrite T1, Hx. do 2 eexists. split; [reflexivity|]. split; [by split|].
    split; [|exists a; cbn; rewrite R1, Hs; split; [by exists x|done]].
    destruct H1 as (f & Hf & El). rewrite P1 in El. exists f. split; [done|]. cbn. by injection El.
Qed.

(** The sender keeps order and loses nothing. With an open socket and live
    peers, [drain_sender] never faults; the datagrams it gives to the socket are
    the first waiting packets, in order, each once and to its peer's address;
    the others keep waiting in their order. It stops only when nothing waits,
    when its turns are used up, or when the tokens do not cover the next
    packet. *)
Theorem sender_in_order n : forall (s : Impl) l bps clk,
  Bandwidth.bytes_per_second (bandwidth s) = Ok bps -> m_sock (modes s) = true ->
  holding s l -> Forall (fun o => exists a, sendable_to (table s) o a) l ->
  exists s' sent rest es, drain_sender n clk s = Ok (tt, s') /\ l = sent ++ rest /\ holding s' rest /\
    trace s' = trace s ++ es /\
    Forall2 (fun o e => exists a, sendable_to (table s) o a /\ e = Sent a (o_datagram o)) sent es /\
    (rest = [] \/ length sent = n \/
     exists o, head rest = Some o /\ F64.ltb (m_token_bucket (bucket s')) (cost_of o) = true).
Proof using laws.
  induction n as [|n IH]; intros s l bps clk Hb Hsock Hl HF.
  - exists s, [], l, []. rewrite app_nil_r. split_and!; try done. right; by left.
  - cbn [drain_sender]. destruct (sender_step_runs s l bps (clk 0%nat) Hb Hsock Hl HF) as (s1 & more & E1 & S1 & H1).
    unfold mbind, T_bind. rewrite E1. destruct l as [|o l].
    + destruct H1 as (-> & H1 & R1). exists s1, [], [], []. split_and!; try done; [by rewrite app_nil_r|by left].
    + destruct more.
      * destruct H1 as (H1 & a & Ha & R1). destruct S1 as [T1 M1 B1 I1]. apply Forall_cons in HF as [_ HF].
        destruct (IH s1 l bps (fun i => clk (S i))) as (s2 & sent & rest & es & E2 & -> & H2 & R2 & F2 & Hstop);
          [by rewrite B1|by rewrite M1|done|by rewrite T1|].
        rewrite T1 in F2. exists s2, (o :: sent), rest, (Sent a (o_datagram o) :: es).
        rewrite E2, R2, R1, <- app_assoc. split_and!; try done.
        -- constructor; [by exists a|done].
        -- destruct Hstop as [?|[<-|?]]; [by left|right; left; done|by right; right].
      * destruct H1 as (H1 & R1 & D1). exists s1, [], (o :: l), []. split_and!; try done; [by rewrite app_nil_r|].
        right; right. by exists o.
Qed.
End Path.
(** ** Concrete states *)

Definition demo_peer : Peer :=
  set_link (mkLink "b" (mkAddr 1 2) true Node Types.Online 0 0 0 0 0 0 0 true true true true) new_peer.
Definition demo_impl (send : zmap (list (string * bytes))) (enc : BlockingQueue.queue EncodeTask) (pending : option OutboundPacket)
    : @Impl BlockingQueue.queue :=
  mkImpl (mkIdentity (demo_config true) 5 6 [] [] true true true) (mkModes true true true false)
    (mkTable {[0%nat := demo_peer]} 1 {["b" := 0%nat]} {[mkAddr 1 2 := "b"]})
    (mkQueues send enc (q_new 8) pending) (mkBucket (F64.of_Z 500) 0) (Bandwidth.new 1000) [].
Lemma demo_online : online (table (demo_impl ∅ (q_new 8) None)) "b" 0.
Proof. split; [reflexivity|]. by exists demo_peer. Qed.

(** Messages for an online peer, for one that still shakes hands and for one
    that is not known. *)
Definition demo_mixed : @Impl BlockingQueue.queue :=
  let s := demo_impl {[1 := [("b", [1]); ("c", [4]); ("b", [2])]; 5 := [("b", [3]); ("d", [5])]]} (q_new 8) None in
  set_table (mkTable {[0%nat := demo_peer; 1%nat := set_link (put_state Types.Handshake (link demo_peer)) demo_peer]} 2
    {["b" := 0%nat; "c" := 1%nat]} ∅) s.

Lemma send_queue_in_order_witness :
  exists s' order tasks, process_send_queue demo_mixed = Ok (tt, s') /\
    StronglySorted (fun a b : item => b.1 <= a.1) order /\
    (forall k, of_priority k order = waiting demo_mixed k) /\
    q_holds (m_encode_queue (queues s')) (mkFifo 8 tasks false) /\
    Forall2 (fun (i : item) t => online (table demo_mixed) i.2.1 (t_peer t) /\ t_payload t = i.2.2)
      (List.filter (fun i => goes_out (table demo_mixed) i.2) order) tasks /\
    (forall k, waiting s' k = List.filter (stays (table demo_mixed)) (waiting demo_mixed k)).
Proof.
  apply (send_queue_in_order demo_mixed (mkFifo 8 [] false)).
  - intros id p Hp. cbn [demo_mixed set_table table m_peers] in Hp. rewrite lookup_insert_Some, lookup_singleton_Some in Hp.
    destruct Hp as [[_ <-]|[_ [_ <-]]]; by eexists.
  - by vm_compute.
  - by apply q_new_law.
  - split; [reflexivity|]. vm_compute. split; [by right|done].
Defined.

Lemma rejected_message_emptied_witness :
  exists enc s', process_item 5 ("b", [3]) (demo_impl ∅ enc None) = Ok (tt, s') /\
    m_send_queue (queues s') = enqueue 0 "b" [] ∅.
Proof.
  destruct (q_try_push_law (q_new 1) (mkFifo 1 [] false) (mkTask 0 [9])) as (enc & _ & Henc);
    [by apply q_new_law|done|].
  destruct (rejected_message_emptied (demo_impl ∅ enc None) _ 5 "b" [3] 0 demo_online Henc) as (s' & E & Hs & _);
    [reflexivity|done|reflexivity|]. by exists enc, s'.
Defined.

Definition demo_packet : OutboundPacket := mkPacket 0 (replicate 100 7).

Lemma sender_in_order_witness :
  exists s' sent rest es, drain_sender 64 (fun _ => 0) (demo_impl ∅ (q_new 8) (Some demo_packet)) = Ok (tt, s') /\
    [demo_packet] = sent ++ rest /\ trace s' = es /\
    Forall2 (fun o e => exists a, sendable_to (table (demo_impl ∅ (q_new 8) None)) o a /\
      e = Sent a (o_datagram o)) sent es.
Proof.
  destruct (sender_in_order 64 (demo_impl ∅ (q_new 8) (Some demo_packet)) [demo_packet] 1000 (fun _ => 0))
    as (s' & sent & rest & es & E & El & _ & R & F & _).
  - vm_compute. reflexivity.
  - reflexivity.
  - exists (mkFifo 8 [] false). split; [by apply q_new_law|reflexivity].
  - repeat constructor. exists (mkAddr 1 2), demo_peer. by split_and!.
  - by exists s', sent, rest, es.
Defined.
End SendPath.
