(* ===== verification/EndToEnd.v ===== *)
(** * From [send] to the message callback (tight/src/transport.cpp)

    Two transports: the message given to [send_message] of one goes through its
    send queue, the encoder, the outbound queue and the socket; its datagrams
    reach the socket of the other, are lost, repeated or reordered on the way,
    and come out at the message callback. *)
From stdpp Require Import base list numbers option strings gmap sorting.
From Stdlib Require Import ZArith Lia.
From S2P Require Import Prelude Wire Codec Float64 Maps Types Peer.
From S2P Require Import SeqTracker Fragmenter Reassembler DataPath Bandwidth BlockingQueue Gcm Packets Endpoint.
From S2P Require Import Handshake Session Transport TransportSafe SendPath.

Local Open Scope Z_scope.
Import Types Wire PacketCodec Peer Gcm Packets Endpoint Transport.

Module EndToEnd.

(** ** Sending leaves the link alone *)

Definition fixed {A} (m : H A) : Prop := forall s a s', m s = Ok (a, s') ->
  link (peer s') = link (peer s) /\ m_bandwidth s' = m_bandwidth s.

Lemma fixed_bind {A B} (m : H A) (f : A -> H B) : fixed m -> (forall a, fixed (f a)) -> fixed (m ≫= f).
Proof.
  intros Hm Hf s b s'. unfold mbind, H_bind. destruct (m s) as [[a s1]|] eqn:E1; [|done]. intros E2.
  destruct (Hf a s1 b s' E2) as [-> ->]. by apply (Hm s a).
Qed.
Lemma fixed_ret {A} (a : A) : fixed (mret a).
Proof. by intros s b s' [= _ <-]. Qed.
Lemma fixed_get : fixed get_peer.
Proof. by intros s b s' [= _ <-]. Qed.
Lemma fixed_lift {A} (r : res A) : fixed (lift r).
Proof. intros s b s'. unfold lift. destruct r; [|done]. by intros [= _ <-]. Qed.
Lemma fixed_when b (m : H unit) : fixed m -> fixed (when b m).
Proof. intros Hm. destruct b; [done|apply fixed_ret]. Qed.
Lemma fixed_emit e : fixed (emit e).
Proof. by intros s b s' [= _ <-]. Qed.
Lemma fixed_sending f : fixed (modify_sending f).
Proof. by intros s b s' [= _ <-]. Qed.
Lemma fixed_next : fixed next_sequence.
Proof. by intros s b s' [= _ <-]. Qed.
Lemma fixed_for_each {A} (l : list A) f : (forall x, fixed (f x)) -> fixed (for_each l f).
Proof. intros Hf. induction l; simpl; [apply fixed_ret|]. by apply fixed_bind. Qed.

Lemma fixed_data_packet E f : fixed (send_data_packet E f).
Proof.
  unfold send_data_packet, send_raw.
  repeat first [progress intros | apply fixed_next | apply fixed_sending | apply fixed_bind | apply fixed_get
    | apply fixed_lift | apply fixed_when | apply fixed_emit | apply fixed_ret
    | match goal with |- fixed (if ?b then _ else _) => destruct b end ].
Qed.

Lemma fixed_message E log2 scratch pl s a s' :
  Endpoint.fragment_and_send E log2 scratch pl s = Ok (a, s') ->
  link (peer s') = link (peer s) /\ m_bandwidth s' = m_bandwidth s.
Proof.
  unfold Endpoint.fragment_and_send, get_peer, lift, mbind, H_bind.
  destruct (Fragmenter.fragment_and_send _ _ _ _ _) as [[sd frags]|]; [|done]. unfold put_peer.
  intros E1. apply (fixed_for_each _ _ (fixed_data_packet E)) in E1. done.
Qed.

Section Ends.
Context {Q : Type -> Type} {ops : QueueOps Q} {laws : QueueLaws Q}.
Notation Impl := (@Impl Q).
Notation T := (@T Q).

(** ** Running a peer's engine *)

Definition touched (p : nat) (x : Peer) (b : Bandwidth.Estimator) (s : Impl) : Impl :=
  set_bandwidth b (set_table (set_cells (<[p := x]> (cells (table s))) (table s)) s).

Lemma on_peer_runs {A} p c (m : Env -> H A) (s : Impl) x a st s' : cells (table s) !! p = Some x ->
  m (env_of s c) (mkSt x (bandwidth s) []) = Ok (a, st) ->
  each (out st) (perform p) (touched p (peer st) (m_bandwidth st) s) = Ok (tt, s') ->
  on_peer p c m s = Ok (a, s').
Proof.
  intros Hx Hm He. unfold on_peer, deref, get, lift_res, store, modify_table, modify, mbind, T_bind.
  rewrite Hx. cbn [mret T_ret]. rewrite Hm. fold (touched p (peer st) (m_bandwidth st) s). rewrite He. done.
Qed.

Lemma perform_calls p (n : string) msgs (s : Impl) :
  each (OnMessage n <$> msgs) (perform p) s =
  Ok (tt, set_trace (trace s ++ (Called ∘ OnMessage n <$> msgs)) s).
Proof.
  revert s. induction msgs as [|m msgs IH]; intros s; cbn [fmap list_fmap each].
  - rewrite app_nil_r. by destruct s.
  - unfold mbind, T_bind. cbn [perform record_event modify]. rewrite IH. cbn [trace set_trace]. by rewrite <- app_assoc.
Qed.

Lemma perform_enqueues p ds (s : Impl) f n : q_holds (m_outbound_queue (queues s)) f ->
  SendPath.room (length ds + n) f ->
  exists q, each (Enqueue <$> ds) (perform p) s = Ok (tt, set_queues (set_outbound_queue q (queues s)) s) /\
    q_holds q (set_items (items f ++ (mkPacket p <$> ds)) f).
Proof using laws.
  revert s f. induction ds as [|d ds IH]; intros s f Hq Hr; cbn [fmap list_fmap each].
  - exists (m_outbound_queue (queues s)). rewrite app_nil_r. split; [by destruct s as [? ? ? [] ? ? ?]|by destruct f].
  - cbn [length] in Hr. destruct (SendPath.push_room (length ds + n) _ f (mkPacket p d) Hq Hr) as (q1 & E1 & Hq1 & Hr1).
    destruct (IH (set_queues (set_outbound_queue q1 (queues s)) s) _ Hq1 Hr1) as (q2 & E2 & Hq2).
    exists q2. unfold mbind, T_bind. cbn [perform]. unfold get, lift_res, modify_queues, modify, mbind, T_bind.
    rewrite E1, E2. split; [done|]. cbn [set_items items cap closed] in Hq2. by rewrite <- app_assoc in Hq2.
Qed.

(** ** The sending transport *)

Lemma backlog_one k (i : string * bytes) : backlog {[k := [i]]} = [(k, i)].
Proof.
  rewrite SendPath.backlog_unfold. assert (entries {[k := [i]]} = [(k, [i])]) as ->; [|done].
  apply Permutation_singleton_r. rewrite entries_perm. by rewrite map_to_list_singleton.
Qed.

Lemma message_accepted (s : Impl) name payload prio : m_running (modes s) = true ->
  Z.of_nat (length payload) <= max_message_bytes s -> 0 < queue_limit s -> m_send_queue (queues s) = ∅ ->
  send_message name payload prio s =
  Ok (true, set_queues (set_send_queue {[prio := [(name, payload)]]} (queues s)) s).
Proof.
  intros Hr Hm Hl Hq. unfold send_message, enqueue_if_room, get, mbind, T_bind.
  rewrite Hr. cbn [negb]. rewrite (proj2 (Z.ltb_ge _ _) Hm), Hq. rewrite (proj2 (Z.leb_gt _ _)) by done.
  unfold modify_queues, modify. rewrite Hq. done.
Qed.

Lemma message_queued (s : Impl) name payload prio p f : SendPath.online (table s) name p ->
  m_send_queue (queues s) = {[prio := [(name, payload)]]} ->
  q_holds (m_encode_queue (queues s)) f -> SendPath.room 1 f ->
  exists q, process_send_queue s =
      Ok (tt, set_queues (set_encode_queue q (set_send_queue ∅ (queues s))) s) /\
    q_holds q (set_items (items f ++ [mkTask p payload]) f).
Proof using laws.
  intros Hon Hs Hq Hr. set (s1 := set_queues (set_send_queue ∅ (queues s)) s).
  destruct (SendPath.process_online prio name payload p s1 f 0 Hon Hq Hr) as (q & E1 & Hq' & _).
  exists q. split; [|done]. unfold process_send_queue, get, modify_queues, modify, mbind, T_bind. fold s1.
  rewrite Hs, backlog_one. cbn [each]. unfold mbind, T_bind. by rewrite E1.
Qed.

Section Sender.
Context (s : Impl) (p : nat) (x : Peer) (payload : bytes) (f : fifo OutboundPacket) (ce : Z).
Context (log2 : F64.double -> F64.double) (scratch : list bytes) (c : Clocks).
Context (Hx : cells (table s) !! p = Some x).
Context (Htask : q_holds (m_encode_queue (queues s)) (mkFifo ce [mkTask p payload] false)).

Notation E := (env_of s c).
Notation sx := (mkSt x (bandwidth s) []).

(** One turn of the encoder on the only task. *)
Lemma encode_turn st ds : Endpoint.fragment_and_send E log2 scratch payload sx = Ok (tt, st) ->
  out st = Enqueue <$> ds -> q_holds (m_outbound_queue (queues s)) f -> SendPath.room (length ds) f ->
  exists s', encode_step log2 scratch c s = Ok (true, s') /\
    q_holds (m_encode_queue (queues s')) (mkFifo ce [] false) /\
    q_holds (m_outbound_queue (queues s')) (set_items (items f ++ (mkPacket p <$> ds)) f) /\
    m_lite_pending (queues s') = m_lite_pending (queues s) /\ modes s' = modes s /\ trace s' = trace s /\
    ident s' = ident s /\ bandwidth s' = m_bandwidth st /\ cells (table s') !! p = Some (peer st).
Proof using Hx Htask laws.
  intros He Ho Hq Hr. destruct (q_poll_law _ _ Htask) as (q & Eq & Hq'). cbn [next_item items fst snd] in *.
  set (s1 := set_queues (set_encode_queue q (queues s)) s).
  rewrite <- (Nat.add_0_r (length ds)) in Hr.
  destruct (perform_enqueues p ds (touched p (peer st) (m_bandwidth st) s1) f 0 Hq Hr) as (q2 & E2 & Hq2).
  rewrite <- Ho in E2. eexists. split.
  - unfold encode_step, get, lift_res, modify_queues, modify, mbind, T_bind. rewrite Eq. fold s1. cbn [t_peer t_payload].
    erewrite (on_peer_runs p c (fun E => Endpoint.fragment_and_send E log2 scratch payload) s1 x tt st); [reflexivity|exact Hx|exact He|exact E2].
  - split_and!; try done. cbn. by rewrite lookup_insert_eq.
Qed.

Lemma encode_idle (s' : Impl) f' : q_holds (m_encode_queue (queues s')) f' -> items f' = [] ->
  exists q, encode_step log2 scratch c s' = Ok (false, set_queues (set_encode_queue q (queues s')) s').
Proof using laws.
  clear Hx Htask. intros Hq Hi. destruct (q_poll_law _ _ Hq) as (q & Eq & _). unfold next_item in Eq. rewrite Hi in Eq.
  exists q. unfold encode_step, get, lift_res, modify_queues, modify, mbind, T_bind. rewrite Eq. done.
Qed.
End Sender.

(** What the sending side needs: a running transport with empty queues and an
    online peer whose keys the receiver [r] shares. *)
Record ready (s : Impl) (name : string) (p : nat) (x : Peer) (c : Clocks) (r : CryptoState) (n : nat) (ce co : Z) : Prop := {
  rd_running : m_running (modes s) = true;
  rd_room : 0 < queue_limit s;
  rd_send : m_send_queue (queues s) = ∅;
  rd_encode : q_holds (m_encode_queue (queues s)) (mkFifo ce [] false) /\ SendPath.room 1 (mkFifo (T := EncodeTask) ce [] false);
  rd_outbound : q_holds (m_outbound_queue (queues s)) (mkFifo co [] false) /\ SendPath.room n (mkFifo (T := OutboundPacket) co [] false);
  rd_pending : m_lite_pending (queues s) = None;
  rd_online : SendPath.online (table s) name p;
  rd_peer : cells (table s) !! p = Some x;
  rd_env : Handshaking.env_ok (env_of s c);
  rd_reach : Handshaking.reachable (mkSt x (bandwidth s) []);
  rd_key : compatible (encryption_enabled (id_config (ident s))) (crypto x) r;
  rd_id : in_width 32 (m_msg_id_out (sending x)) }.

(** The call of [send_message] and the work of the reactor and the encoder. *)
Definition send_and_encode (name : string) (payload : bytes) (prio : Z) (log2 : F64.double -> F64.double)
    (turns : nat) (scratch : list bytes) (c : Clocks) : T bool :=
  ok ← send_message name payload prio;
  process_send_queue ;;
  drain_encode log2 turns scratch c ;;
  mret ok.

Lemma message_encoded (s : Impl) name p x c r ce co payload prio log2 scratch turns st' frags
  (Hrd : ready s name p x c r (length frags) ce co)
  (Hfrag : Fragmenter.fragment_and_send log2 (sending x) payload (mtu (id_config (ident s))) scratch = Ok (st', frags))
  (Hb : bytes_ok payload) (Hmax : Z.of_nat (length payload) <= max_message_bytes s)
  (Hmtu : mtu (id_config (ident s)) + 16 < 2 ^ 16) (Hturns : (2 <= turns)%nat) :
  let n := Z.to_nat (DataPath.data_count (length payload) (mtu (id_config (ident s)))) in
  let w := Z.to_nat (Fragmenter.frag_payload (mtu (id_config (ident s)))) in
  let id := (Fragmenter.next_msg_id (m_msg_id_out (sending x))).1 in
  (n <= 255)%nat ->
  exists s' ds pc x', send_and_encode name payload prio log2 turns scratch c s = Ok (true, s') /\
    SendPath.holding s' (mkPacket p <$> ds) /\ trace s' = trace s /\ modes s' = modes s /\
    bandwidth s' = bandwidth s /\ cells (table s') !! p = Some x' /\ link x' = link x /\
    DataPath.sent payload w n pc id frags /\ Forall2 (Session.opens_as r) ds frags.
Proof using laws.
  intros n w id Hn. destruct Hrd as [Hrun Hroom Hsend [Henc Hre] [Hout Hro] Hpend Hon Hx HE Hr Hkey Hid].
  destruct (Session.message_leaves (env_of s c) r (mkSt x (bandwidth s) []) log2 scratch payload st' frags Hfrag HE Hr Hkey Hb Hid Hmtu)
    as (st & ds & pc & E1 & O1 & Hsent & Hds); [unfold max_message_bytes in Hmax; lia|done|].
  destruct (fixed_message _ _ _ _ _ _ _ E1) as [Hlink Hbw].
  pose proof (message_accepted s name payload prio Hrun Hmax Hroom Hsend) as E2. set (s1 := set_queues _ s) in E2.
  destruct (message_queued s1 name payload prio p (mkFifo ce [] false) Hon eq_refl Henc Hre) as (q & E3 & Hq).
  set (s2 := set_queues _ s1) in E3. rewrite <- (Forall2_length _ _ _ Hds) in Hro.
  destruct (encode_turn s2 p x payload (mkFifo co [] false) ce log2 scratch c Hx Hq st ds E1 O1 Hout Hro)
    as (s3 & E4 & Q4 & O4 & P4 & M4 & T4 & I4 & B4 & C4).
  destruct (encode_idle log2 scratch c s3 _ Q4 eq_refl) as (q5 & E5).
  exists (set_queues (set_encode_queue q5 (queues s3)) s3), ds, pc, (peer st). split_and!; try done.
  - unfold send_and_encode. destruct turns as [|[|turns]]; [lia..|]. cbn [drain_encode].
    unfold mbind, T_bind. by rewrite E2, E3, E4, E5.
  - exists (set_items (mkPacket p <$> ds) (mkFifo co [] false)). split; [exact O4|]. cbn. rewrite P4. cbn. by rewrite Hpend.
  - etransitivity; [exact B4|exact Hbw].
Qed.

(** ** The receiving transport *)

(** A datagram at the socket: its bytes, the clocks and the random number that
    would name a new peer. *)
Definition at_socket (from : AddrKey) (d : Session.Datagram * Z) : AddrKey * bytes * Z * Clocks :=
  (from, Session.dg_bytes d.1, d.2, mkClocks (Session.dg_now d.1) (Session.dg_unix d.1) (Session.dg_log d.1)).

(** The peer the address belongs to. *)
Definition bound (s : Impl) (from : AddrKey) (p : nat) (x : Peer) : Prop :=
  (id ← m_peer_by_addr (table s) !! from; m_peers (table s) !! id) = Some p /\ cells (table s) !! p = Some x.

Definition callbacks (name : string) (msgs : list bytes) : list Event := Called ∘ OnMessage name <$> msgs.

Lemma datagram_handled (s : Impl) from p x rnd c d q h pl q' msgs : bound s from p x ->
  id_message_cb (ident s) = true -> (kHeaderSize <= length d <= kRecvBuffer)%nat ->
  receive_datagram (crypto x) d = Some (h, pl) -> type h = Data \/ type h = Parity -> Session.alike x q ->
  Reassembler.handle_data q h pl (rtt_us (bandwidth s)) (late_rtt_multiplier (id_config (ident s)))
    (max_message_bytes s) (c_steady c) (c_unix c) (c_log c) = Ok (q', msgs) ->
  exists s' x', receive_one from d rnd c s = Ok (tt, s') /\ bound s' from p x' /\ ident s' = ident s /\
    bandwidth s' = bandwidth s /\ Session.alike x' q' /\ crypto x' = crypto x /\ m_id (link x') = m_id (link x) /\
    trace s' = trace s ++ callbacks (m_id (link x)) msgs.
Proof using.
  intros [Hp Hx] Hcb Hl Ho Ht Hal Hh.
  destruct (Session.data_received (env_of s c) d (mkSt x (bandwidth s) []) q h pl q' msgs Hcb Ho Ht Hal Hh)
    as ([] & st & E1 & Hal' & Hc' & Hb' & O1 & Hi'). cbn [peer m_bandwidth out app] in *.
  unfold Handshaking.receive in E1. unfold receive_datagram in Ho.
  destruct (decode d) as [[h0 pl0]|] eqn:Ed; [|done].
  pose proof (perform_calls p (m_id (link x)) msgs (touched p (peer st) (m_bandwidth st) s)) as E2.
  rewrite <- O1 in E2. eexists _, (peer st). split.
  - unfold receive_one. rewrite take_ge by lia. rewrite (proj2 (Nat.ltb_ge _ _)) by lia. rewrite Ed.
    unfold Transport.handle_packet, find_or_create_peer_by_addr, get, mbind at 1 2, T_bind at 1 2. rewrite Hp. cbn [mret T_ret].
    exact (on_peer_runs p c (fun E => Endpoint.handle_packet E h0 pl0) s x tt st _ Hx E1 E2).
  - split; [split; [exact Hp|exact (lookup_insert_eq _ _ _)]|]. split_and!; done.
Qed.

(** A datagram that does not decode or does not open changes only the peer's
    bookkeeping. *)
Lemma noise_handled (s : Impl) from p x rnd c d : bound s from p x -> (length d <= kRecvBuffer)%nat ->
  receive_datagram (crypto x) d = None ->
  exists s' x', receive_one from d rnd c s = Ok (tt, s') /\ bound s' from p x' /\ ident s' = ident s /\
    bandwidth s' = bandwidth s /\ Session.alike x' x /\ crypto x' = crypto x /\ m_id (link x') = m_id (link x) /\
    trace s' = trace s.
Proof using.
  intros [Hp Hx] Hl Ho. pose proof (Session.noise_received (env_of s c) d (mkSt x (bandwidth s) []) Ho)
    as ([] & st & E1 & [A1 C1 B1 O1 I1]). cbn [peer m_bandwidth out] in *.
  unfold receive_one. rewrite take_ge by lia.
  destruct (length d <? kHeaderSize)%nat; [exists s, x; by split_and!|].
  unfold Handshaking.receive in E1. destruct (decode d) as [[h pl]|]; [|exists s, x; by split_and!].
  exists (touched p (peer st) (m_bandwidth st) s), (peer st). split.
  - unfold Transport.handle_packet, find_or_create_peer_by_addr, get, mbind at 1 2, T_bind at 1 2. rewrite Hp. cbn [mret T_ret].
    apply (on_peer_runs p c (fun E => Endpoint.handle_packet E h pl) s x tt st _ Hx E1). by rewrite O1.
  - split; [split; [exact Hp|exact (lookup_insert_eq _ _ _)]|]. split_and!; done.
Qed.

(** The receiver handles datagrams one after the other; each with the events
    it caused. *)
Fixpoint serve (from : AddrKey) (W : list (Session.Datagram * Z)) (s : Impl) : res (Impl * list (bytes * list Event)) :=
  match W with
  | [] => Ok (s, [])
  | w :: W =>
      let '(from, d, rnd, c) := at_socket from w in
      '(_, s1) ← receive_one from d rnd c s;
      '(s2, log) ← serve from W s1;
      Ok (s2, (d, drop (length (trace s)) (trace s1)) :: log)
  end.

(** What the datagrams [ds] caused. *)
Definition caused_by (ds : list bytes) (log : list (bytes * list Event)) : list Event :=
  concat ((fun '(d, es) => if decide (d ∈ ds) then es else []) <$> log).

Lemma serve_cons from w W (s s1 s2 : Impl) es log :
  receive_one from (Session.dg_bytes w.1) w.2 (mkClocks (Session.dg_now w.1) (Session.dg_unix w.1) (Session.dg_log w.1)) s = Ok (tt, s1) ->
  trace s1 = trace s ++ es -> serve from W s1 = Ok (s2, log) ->
  serve from (w :: W) s = Ok (s2, (Session.dg_bytes w.1, es) :: log).
Proof using.
  intros E1 Ht E2. cbn [serve at_socket]. rewrite E1. cbn [mbind res_bind]. rewrite E2. cbn [mbind res_bind].
  by rewrite Ht, drop_app_length.
Qed.

(** The turns of the receiver serve what arrives, up to 64 datagrams a turn. *)
Lemma serve_app from W1 W2 (s s2 : Impl) log : serve from (W1 ++ W2) s = Ok (s2, log) ->
  exists s1 log1 log2, serve from W1 s = Ok (s1, log1) /\ serve from W2 s1 = Ok (s2, log2).
Proof using.
  revert s log. induction W1 as [|w W1 IH]; intros s log; cbn [app]; [intros; by eexists s, [], log|].
  cbn [serve at_socket]. destruct (receive_one _ _ _ _ s) as [[[] s1]|]; [|done]. cbn [mbind res_bind].
  destruct (serve from (W1 ++ W2) s1) as [[s3 log3]|] eqn:E; [|done]. cbn [mbind res_bind]. intros [= -> _].
  destruct (IH s1 log3 E) as (s4 & l1 & l2 & -> & E2). by eexists s4, _, l2.
Qed.

Lemma serve_each from W (s s' : Impl) log : serve from W s = Ok (s', log) ->
  each (at_socket from <$> W) (fun '(from, d, rnd, c) => receive_one from d rnd c) s = Ok (tt, s').
Proof using.
  revert s log. induction W as [|w W IH]; intros s log; [by intros [= -> _]|].
  rewrite fmap_cons. cbn [serve each at_socket]. unfold mbind at 3, T_bind.
  destruct (receive_one _ _ _ _ s) as [[[] s1]|]; [|done]. cbn [mbind res_bind].
  destruct (serve from W s1) as [[s2 log2]|] eqn:E; [|done]. cbn [mbind res_bind]. intros [= -> _]. by eapply IH.
Qed.

Lemma serve_turns from Ws (s s' : Impl) log : Forall (fun W => (length W <= 64)%nat) Ws ->
  serve from (concat Ws) s = Ok (s', log) ->
  each Ws (fun W => drain_receiver (at_socket from <$> W)) s = Ok (tt, s').
Proof using.
  intros HF. revert s log. induction HF as [|W Ws HW _ IH]; intros s log; cbn [concat]; [by intros [= -> _]|].
  intros (s1 & log1 & log2 & E1 & E2)%serve_app. cbn [each]. unfold mbind, T_bind, drain_receiver.
  rewrite take_ge by (by rewrite length_fmap). rewrite (serve_each _ _ _ _ _ E1). by eapply IH.
Qed.

Section Served.
Context (from : AddrKey) (p : nat) (ds : list bytes) (msg : Z).

Lemma datagrams_handled W : forall evs (s : Impl) x q q' outs,
  Forall2 (fun w o => Session.heard (crypto x) (bandwidth s) ds msg w.1 o) W evs ->
  Forall (fun w => (length (Session.dg_bytes w.1) <= kRecvBuffer)%nat) W ->
  bound s from p x -> id_message_cb (ident s) = true -> Session.alike x q ->
  DataPath.receive_all (late_rtt_multiplier (id_config (ident s))) (max_message_bytes s) q (omap id evs) = Ok (q', outs) ->
  exists s' log, serve from W s = Ok (s', log) /\ trace s' = trace s ++ concat log.*2 /\
    caused_by ds log = callbacks (m_id (link x)) (DataPath.deliveries msg outs).
Proof using.
  induction W as [|w W IH]; intros evs s x q q' outs HF HL Hb Hcb Hal Hq.
  { apply Forall2_nil_inv_l in HF as ->. injection Hq as <- <-. exists s, []. cbn. by rewrite app_nil_r. }
  apply Forall2_cons_inv_l in HF as (o & evs' & Ho & HF & ->). apply Forall_cons in HL as [HL1 HL].
  set (c := mkClocks (Session.dg_now w.1) (Session.dg_unix w.1) (Session.dg_log w.1)).
  destruct o as [ev|]; cbn [Session.heard] in Ho.
  2: { destruct (noise_handled s from p x w.2 c (Session.dg_bytes w.1) Hb HL1 Ho)
      as (s1 & x1 & R1 & Hb1 & I1 & B1 & Hal1 & C1 & N1 & T1).
    destruct (IH evs' s1 x1 q q' outs) as (s2 & log & R2 & T2 & Hc);
      [by rewrite C1, B1|done|done|by rewrite I1|by eapply Session.alike_trans| |].
    { rewrite I1. unfold max_message_bytes in *. by rewrite I1. }
    eexists s2, _. split; [apply (serve_cons from w W s s1 s2 [] log R1); [by rewrite app_nil_r|done]|].
    rewrite T2, T1. split; [done|]. unfold caused_by in *. rewrite fmap_cons. cbn [concat]. rewrite Hc, N1.
    by destruct (decide _). }
  change (omap id (Some ev :: evs')) with (ev :: omap id evs') in Hq. destruct Ho as (Ho & Ht & Hid).
  unfold Session.opened in Ho. destruct (receive_datagram (crypto x) (Session.dg_bytes w.1)) as [[h pl]|] eqn:Eo; [|done].
  cbn [mbind option_bind] in Ho. injection Ho as <-. simpl in Hq, Ht, Hid.
  destruct (DataPath.receive _ _ q _) as [[q1 out1]|] eqn:E1; [|done]. cbn [mbind res_bind] in Hq.
  destruct (DataPath.receive_all _ _ q1 (omap id evs')) as [[q2 outs2]|] eqn:E2; [|done].
  cbn [mbind res_bind] in Hq. injection Hq as <- <-. unfold DataPath.receive in E1. simpl in E1.
  assert (kHeaderSize <= length (Session.dg_bytes w.1) <= kRecvBuffer)%nat as HL2.
  { split; [|done]. pose proof Eo as Hd. unfold receive_datagram in Hd.
    destruct (decode (Session.dg_bytes w.1)) as [[h0 pl0]|] eqn:Ed; [|done].
    apply decode_Some_inv in Ed as (Hle & _). unfold kHeaderSize. lia. }
  destruct (datagram_handled s from p x w.2 c _ q h pl q1 out1 Hb Hcb HL2 Eo Ht Hal E1)
    as (s1 & x1 & R1 & Hb1 & I1 & B1 & Hal1 & C1 & N1 & T1).
  destruct (IH evs' s1 x1 q1 q2 outs2) as (s2 & log & R2 & T2 & Hc); [by rewrite C1, B1|done|done|by rewrite I1|done| |].
  { rewrite I1. unfold max_message_bytes in *. by rewrite I1. }
  eexists s2, _. split; [exact (serve_cons from w W s s1 s2 _ log R1 T1 R2)|].
  rewrite T2, T1, <- app_assoc. split; [done|]. unfold caused_by in *. rewrite fmap_cons. cbn [concat].
  rewrite Hc, N1, DataPath.deliveries_app, DataPath.deliveries_tag. unfold callbacks. rewrite fmap_app. f_equal.
  destruct (Z.eqb_spec (message_id h) msg), (decide (Session.dg_bytes w.1 ∈ ds)); tauto || done.
Qed.
End Served.

Lemma fragment_width payload w n pc id frags i f : DataPath.sent payload w n pc id frags ->
  frags !! i = Some f -> Fragmenter.f_width f = w.
Proof using.
  intros Hs Hf. pose proof (lookup_lt_Some _ _ _ Hf) as Hi. rewrite (DataPath.se_length _ _ _ _ _ _ Hs) in Hi.
  destruct (decide (i < n)%nat) as [Hd|Hd].
  - pose proof (DataPath.se_data _ _ _ _ _ _ Hs i _ (Fragmenter.spans_lookup _ w n i Hd)) as E1.
    rewrite E1 in Hf. by injection Hf as <-.
  - destruct (DataPath.se_parity _ _ _ _ _ _ Hs (i - n)%nat ltac:(lia)) as (row & E1 & _).
    replace (n + (i - n))%nat with i in E1 by lia. rewrite E1 in Hf. by injection Hf as <-.
Qed.

Lemma datagram_sizes payload w n pc id frags r ds d : DataPath.sent payload w n pc id frags ->
  Forall2 (Session.opens_as r) ds frags -> (64 + w <= kRecvBuffer)%nat -> d ∈ ds ->
  (length d <= kRecvBuffer)%nat.
Proof using.
  intros Hs Hds Hw Hd. apply list_elem_of_lookup in Hd as [i Hi].
  destruct (Forall2_lookup_l _ _ _ _ _ Hds Hi) as (f & Hf & h & Ho & _ & _ & Hl).
  rewrite (fragment_width _ _ _ _ _ _ _ _ Hs Hf) in Hl. lia.
Qed.

(** What the receiving side needs: a callback, a peer bound to the sender's
    address that has not seen message [id], and limits above its size. *)
Record expects (s : Impl) (from : AddrKey) (p : nat) (x : Peer) (c : Clocks) (id : Z) (size n : nat) : Prop := {
  ex_bound : bound s from p x;
  ex_callback : id_message_cb (ident s) = true;
  ex_threshold : Session.threshold_fits (env_of s c) (mkSt x (bandwidth s) []);
  ex_table : Reassembler.asm_ok (asm x);
  ex_incoming : m_incoming (asm x) !! id = None;
  ex_completed : m_completed (asm x) !! id = None;
  ex_size : Z.of_nat size <= max_message_bytes s;
  ex_count : Z.of_nat n + 3 <= max_message_bytes s / 64 + 8 }.

Lemma message_arrives (s : Impl) from p x c payload w n pc id frags ds W :
  expects s from p x c id (length payload) n -> DataPath.sent payload w n pc id frags ->
  Forall2 (Session.opens_as (crypto x)) ds frags -> (n <= 255)%nat ->
  Forall (fun d => Session.traffic ds (crypto x) id (Session.dg_bytes d.1)) W ->
  Forall (fun d => (length (Session.dg_bytes d.1) <= kRecvBuffer)%nat) W ->
  exists s' log, serve from W s = Ok (s', log) /\ trace s' = trace s ++ concat log.*2 /\
    caused_by ds log = if DataPath.enough n (length ds - n) (Session.arrived ds W.*1)
                       then [Called (OnMessage (m_id (link x)) payload)] else [].
Proof using.
  intros [Hb Hcb Hthr Hok Hinc Hcomp Hsz Hcnt] Hsent Hds Hn HW Hlen.
  pose proof (DataPath.se_length _ _ _ _ _ _ Hsent) as Hl. pose proof (DataPath.se_pc _ _ _ _ _ _ Hsent) as Hpc.
  rewrite <- (Forall_fmap fst (fun d => Session.traffic ds (crypto x) id (Session.dg_bytes d))) in HW.
  destruct (Session.run_events (env_of s c) (mkSt x (bandwidth s) []) Hthr _ _ _ _ _ _ _ Hsent Hds W.*1 HW)
    as (evs & H2 & Hev & Hgen & Hidx).
  destruct (DataPath.receive_all_message (late_rtt_multiplier (id_config (ident s))) (max_message_bytes s)
    _ _ _ _ _ _ Hsent Hsz Hn ltac:(lia) (omap Datatypes.id evs) x ∅) as (q' & outs & Rq & Hd); try done.
  { apply DataPath.enough_empty, (DataPath.se_n _ _ _ _ _ _ Hsent). }
  rewrite Forall2_fmap_l in H2.
  destruct (datagrams_handled from p ds id W evs s x x q' outs) as (s' & log & R & Htr & Hc); try done.
  exists s', log. split; [done|]. split; [done|].
  rewrite Hc, Hd, (left_id_L ∅ (∪)), Hidx, (Forall2_length _ _ _ Hds), Hl. replace (n + pc - n)%nat with pc by lia.
  by destruct (DataPath.enough n pc (Session.arrived ds W.*1)).
Qed.

(** ** Both ends *)

(** What the sender puts on the wire of the packets that wait. *)
Lemma sender_emits (s : Impl) p x ds bps k clk : Bandwidth.bytes_per_second (bandwidth s) = Ok bps ->
  m_sock (modes s) = true -> SendPath.holding s (mkPacket p <$> ds) ->
  cells (table s) !! p = Some x -> m_addr_set (link x) = true ->
  exists s' i, drain_sender k clk s = Ok (tt, s') /\
    trace s' = trace s ++ (Sent (m_sockaddr (link x)) <$> take i ds) /\ (i <= length ds)%nat /\
    (i = length ds \/ i = k \/ exists d, ds !! i = Some d /\
       F64.ltb (m_token_bucket (bucket s')) (F64.of_Z (Z.of_nat (length d))) = true).
Proof using laws.
  intros Hb Hs Hh Hx Ha.
  destruct (SendPath.sender_in_order k s (mkPacket p <$> ds) bps clk Hb Hs Hh)
    as (s' & sent & rest & es & E1 & El & _ & Ht & HF & Hstop).
  { apply Forall_fmap, Forall_true. intros d. by exists (m_sockaddr (link x)), x. }
  set (i := length sent).
  assert (mkPacket p <$> take i ds = sent) as Es by (rewrite fmap_take, El; apply take_app_length).
  assert (mkPacket p <$> drop i ds = rest) as Er by (rewrite fmap_drop, El; apply drop_app_length).
  assert (length ds = (i + length rest)%nat) as Hl.
  { rewrite <- (length_fmap (mkPacket p) ds), El. apply length_app. }
  exists s', i. split; [done|]. split.
  - rewrite Ht. f_equal. rewrite <- Es, Forall2_fmap_l in HF. clear -HF Hx.
    induction HF as [|d e l es (a & (x' & Hx' & _ & <-) & ->) _ IH]; [done|]. rewrite fmap_cons, <- IH.
    cbn in Hx'. rewrite Hx in Hx'. by injection Hx' as <-.
  - split; [lia|]. destruct Hstop as [->|[?|(o & Ho & Hlt)]]; [left; simpl in Hl; lia|by right; left|].
    right; right. rewrite <- Er in Ho. destruct (drop i ds) as [|d l] eqn:Ed; [done|]. injection Ho as <-.
    exists d. split; [|done]. rewrite <- (Nat.add_0_r i), <- lookup_drop, Ed. done.
Qed.

(** C1. A message given to [send_message] reaches the other callback. The
    sending transport is running and idle (its queues empty, with room for the
    message and its datagrams), with an open socket and the peer online; the
    message has at most 255 data fragments, and a packet of the MTU with its tag
    is not longer than the receive buffer. It is accepted and encoded without
    fault into datagrams that fit that buffer, and the sender puts them on the
    wire in order, as far as its turns and tokens allow. The
    receiving transport, which holds the same key and has not seen the message's
    number, then takes any number of turns at its socket. Over these turns let
    there arrive from the sender's address, in any order and any number of
    times, any of these datagrams, well-formed data packets of other messages,
    and datagrams that do not decode or fail authentication; no other packets,
    no packets of other peers and no periodic work in between, so a completed
    message is not forgotten meanwhile. All of it is handled without fault, and
    the datagrams of the message cause exactly one event, the callback with the
    unchanged message, if as many parities arrived as data fragments are
    missing, and none otherwise. *)
Theorem message_end_to_end (sA sB : Impl) name pA xA cA ce co from pB xB cB payload prio log2 scratch turns st' frags bps
  (Hsend : ready sA name pA xA cA (crypto xB) (length frags) ce co)
  (Hfrag : Fragmenter.fragment_and_send log2 (sending xA) payload (mtu (id_config (ident sA))) scratch = Ok (st', frags))
  (Hbytes : bytes_ok payload) (Hmax : Z.of_nat (length payload) <= max_message_bytes sA)
  (Hmtu : mtu (id_config (ident sA)) + 16 <= Z.of_nat kRecvBuffer) (Hturns : (2 <= turns)%nat)
  (Hsock : m_sock (modes sA) = true) (Hbps : Bandwidth.bytes_per_second (bandwidth sA) = Ok bps) :
  let n := Z.to_nat (DataPath.data_count (length payload) (mtu (id_config (ident sA)))) in
  let id := (Fragmenter.next_msg_id (m_msg_id_out (sending xA))).1 in
  (n <= 255)%nat -> expects sB from pB xB cB id (length payload) n ->
  exists sA1 ds, send_and_encode name payload prio log2 turns scratch cA sA = Ok (true, sA1) /\
    Forall (fun d => (length d <= kRecvBuffer)%nat) ds /\
    (forall k clk, exists sA2 i, drain_sender k clk sA1 = Ok (tt, sA2) /\
       trace sA2 = trace sA ++ (Sent (m_sockaddr (link xA)) <$> take i ds) /\
       (i = length ds \/ i = k \/ exists d, ds !! i = Some d /\
          F64.ltb (m_token_bucket (bucket sA2)) (F64.of_Z (Z.of_nat (length d))) = true)) /\
    (forall Ws, Forall (fun W => (length W <= 64)%nat) Ws ->
       Forall (fun d => Session.traffic ds (crypto xB) id (Session.dg_bytes d.1) /\
         (length (Session.dg_bytes d.1) <= kRecvBuffer)%nat) (concat Ws) ->
       exists sB1 log, each Ws (fun W => drain_receiver (at_socket from <$> W)) sB = Ok (tt, sB1) /\
         serve from (concat Ws) sB = Ok (sB1, log) /\ trace sB1 = trace sB ++ concat log.*2 /\
         caused_by ds log = if DataPath.enough n (length ds - n) (Session.arrived ds (concat Ws).*1)
                            then [Called (OnMessage (m_id (link xB)) payload)] else []).
Proof using laws.
  intros n id Hn Hexp. assert (mtu (id_config (ident sA)) + 16 < 2 ^ 16) as Hmtu' by (unfold kRecvBuffer in Hmtu; lia).
  destruct (message_encoded sA name pA xA cA (crypto xB) ce co payload prio log2 scratch turns st' frags
    Hsend Hfrag Hbytes Hmax Hmtu' Hturns Hn) as (sA1 & ds & pc & x' & E1 & Hh & Ht & Hm & Hbw & Hx & Hlk & Hsent & Hds).
  exists sA1, ds. split; [done|]. split; [|split].
  - apply Forall_forall. intros d Hd. eapply datagram_sizes; [exact Hsent|exact Hds| |exact Hd].
    unfold Fragmenter.frag_payload. unfold kRecvBuffer, kHeaderSize in *. case_bool; case_bool; lia.
  - intros k clk. destruct (sender_emits sA1 pA x' ds bps k clk) as (sA2 & i & E2 & T2 & _ & Hstop);
      [by rewrite Hbw|by rewrite Hm|done|done|rewrite Hlk; apply (rd_reach _ _ _ _ _ _ _ _ _ Hsend)|].
    exists sA2, i. by rewrite T2, Ht, Hlk.
  - intros Ws HWs HW. apply Forall_and in HW as [HW Hlen].
    destruct (message_arrives sB from pB xB cB payload _ n pc id frags ds (concat Ws) Hexp Hsent Hds Hn HW Hlen)
      as (sB1 & log & E2 & T2 & C2).
    exists sB1, log. split; [by eapply serve_turns|]. done.
Qed.
End Ends.

(** ** A concrete pair *)

Definition demo_peer : Peer := set_crypto demo_key SendPath.demo_peer.
Definition demo_end (client : Z) : @Impl BlockingQueue.queue :=
  mkImpl (mkIdentity default_config client (client + 1) (replicate 32 1) (replicate 32 9) true true true)
    (mkModes true true false true)
    (mkTable {[0%nat := demo_peer]} 1 {["b" := 0%nat]} {[mkAddr 1 2 := "b"]})
    (mkQueues ∅ (q_new 8) (q_new 8) None) (mkBucket (F64.of_Z 5000) 0) (Bandwidth.new 1000) [].
Definition demo_clocks : Clocks := mkClocks 0 1000 0.

Lemma demo_end_ready n : (n <= 8)%nat -> ready (demo_end 4) "b" 0 demo_peer demo_clocks demo_key n 8 8.
Proof.
  intros Hn. split; try done.
  - split; [by apply q_new_law|]. (split; [done|]); cbn [cap items length]; lia.
  - split; [by apply q_new_law|]. (split; [done|]); cbn [cap items length]; lia.
  - split; [reflexivity|]. by exists demo_peer.
  - split; try done. eval_decide.
Qed.

Lemma demo_expects : expects (demo_end 7) (mkAddr 1 2) 0 demo_peer demo_clocks 1 3 1.
Proof.
  split; try done.
  eexists. vm_compute. reflexivity.
Qed.

Lemma message_end_to_end_witness :
  exists sA1 ds, send_and_encode "b" [10; 20; 30] 5 id 16 [] demo_clocks (demo_end 4) = Ok (true, sA1) /\
    Forall (fun d => (length d <= kRecvBuffer)%nat) ds /\
    (forall k clk, exists sA2 i, drain_sender k clk sA1 = Ok (tt, sA2) /\
       trace sA2 = [] ++ (Sent (mkAddr 1 2) <$> take i ds) /\
       (i = length ds \/ i = k \/ exists d, ds !! i = Some d /\
          F64.ltb (m_token_bucket (bucket sA2)) (F64.of_Z (Z.of_nat (length d))) = true)) /\
    (forall Ws, Forall (fun W => (length W <= 64)%nat) Ws ->
       Forall (fun d => Session.traffic ds demo_key 1 (Session.dg_bytes d.1) /\
         (length (Session.dg_bytes d.1) <= kRecvBuffer)%nat) (concat Ws) ->
       exists sB1 log, each Ws (fun W => drain_receiver (at_socket (mkAddr 1 2) <$> W)) (demo_end 7) = Ok (tt, sB1) /\
         serve (mkAddr 1 2) (concat Ws) (demo_end 7) = Ok (sB1, log) /\ trace sB1 = [] ++ concat log.*2 /\
         caused_by ds log = if DataPath.enough 1 (length ds - 1) (Session.arrived ds (concat Ws).*1)
                            then [Called (OnMessage "b" [10; 20; 30])] else []).
Proof.
  apply (message_end_to_end (demo_end 4) (demo_end 7) "b" 0 demo_peer demo_clocks 8 8 (mkAddr 1 2) 0 demo_peer demo_clocks
    [10; 20; 30] 5 id [] 16 Session.demo_sent.1 Session.demo_sent.2 1000).
  - apply demo_end_ready. vm_compute. lia.
  - vm_compute. reflexivity.
  - eval_decide.
  - vm_compute. done.
  - vm_compute. done.
  - lia.
  - reflexivity.
  - vm_compute. reflexivity.
  - vm_compute. lia.
  - exact demo_expects.
Defined.
End EndToEnd.
