(* ===== verification/Takeover.v ===== *)
(** * Taking over the address of a peer (tight/src/transport.cpp)

    [connect] to an address that is known under another name erases the peer of
    that name, although packets in the queues still point to it. *)
From stdpp Require Import base list numbers option strings gmap sorting.
From Stdlib Require Import ZArith Lia.
From S2P Require Import Prelude Wire Codec Float64 Maps Types Peer.
From S2P Require Import Bandwidth BlockingQueue Packets Endpoint Transport TransportSafe SendPath EndToEnd.

Local Open Scope Z_scope.
Import Types Wire PacketCodec Peer Packets Endpoint Transport.

Module Takeover.

Section Takeover.
Context {Q : Type -> Type} {ops : QueueOps Q} {laws : QueueLaws Q}.
Notation Impl := (@Impl Q).
Notation T := (@T Q).

(** ** The steps of [connect] *)

Lemma update_link_runs p f (s : Impl) x : cells (table s) !! p = Some x ->
  update_link p f s = Ok (tt, set_table (set_cells (<[p := set_link (f (link x)) x]> (cells (table s))) (table s)) s).
Proof. intros Hx. unfold update_link, deref, get, store, modify_table, modify, mbind, T_bind. by rewrite Hx. Qed.

(** A handshake is at most one packet. *)
Lemma handshake_emits E st : exists st', send_handshake E st = Ok (tt, st') /\
  (out st' = out st \/ exists d, out st' = out st ++ [Enqueue d]).
Proof.
  unfold send_handshake, send_control, next_sequence, send_raw, modify_link, modify_sending, get_peer, put_peer, emit, when,
    mbind, H_bind. cbn [mret H_ret]. destruct (_ && _); (eexists; split; [reflexivity|]); [right; by eexists|by left].
Qed.

(** The peer of the packet that waits first is freed. *)
Definition dangling (s : Impl) (pkt : OutboundPacket) : Prop :=
  cells (table s) !! o_peer pkt = None /\ exists rest, SendPath.holding s (pkt :: rest).

Lemma dangling_handshake (s : Impl) q x c pkt rest : cells (table s) !! o_peer pkt = None -> o_peer pkt <> q ->
  cells (table s) !! q = Some x -> SendPath.holding s (pkt :: rest) -> Z.of_nat (length rest) < 2 ^ 64 - 3 ->
  exists s', on_peer q c send_handshake s = Ok (tt, s') /\ dangling s' pkt /\ modes s' = modes s.
Proof using laws.
  intros Hp Hpq Hx (f & Hf & Hi) Hl.
  destruct (handshake_emits (env_of s c) (mkSt x (bandwidth s) [])) as (st & Est & Hout). cbn [out app] in Hout.
  assert (cells (table (EndToEnd.touched q (peer st) (m_bandwidth st) s)) !! o_peer pkt = None) as Hp' by (cbn; by rewrite lookup_insert_ne).
  set (s1 := EndToEnd.touched q (peer st) (m_bandwidth st) s) in *.
  destruct Hout as [Eo|[d Eo]].
  - exists s1. split; [|split; [split; [done|]|done]].
    + apply (EndToEnd.on_peer_runs q c send_handshake s x tt st s1 Hx Est). by rewrite Eo.
    + exists rest. by exists f.
  - assert (length (items f) <= S (length rest))%nat as Hlf.
    { apply (f_equal length) in Hi. rewrite length_app in Hi. cbn in Hi. lia. }
    destruct (q_try_push_law (m_outbound_queue (queues s)) f (mkPacket q d) Hf ltac:(lia)) as (q' & E1 & Hq').
    set (s2 := set_queues (set_outbound_queue q' (queues s1)) s1). exists s2.
    split; [|split; [split; [done|]|done]].
    + apply (EndToEnd.on_peer_runs q c send_handshake s x tt st s2 Hx Est). rewrite Eo. cbn [app each].
      unfold perform, get, lift_res, modify_queues, modify, mbind, T_bind. cbn [s1 EndToEnd.touched queues set_bandwidth set_table] in *.
      rewrite E1. reflexivity.
    + unfold offer in Hq'. destruct (closed f || full f); cbn [fst] in Hq'; [exists rest; by exists f|].
      exists (rest ++ [mkPacket q d]), (set_items (items f ++ [mkPacket q d]) f). split; [done|].
      change (option_list (m_lite_pending (queues s)) ++ (items f ++ [mkPacket q d]) = (pkt :: rest) ++ [mkPacket q d]).
      by rewrite app_assoc, Hi.
Qed.

(** The peer of the new name, found or created. *)
Lemma emplace_other (s : Impl) id p : TransportSafe.table_ok (table s) -> cells (table s) !! p = None -> (p < next_cell (table s))%nat ->
  exists q x s', emplace_peer id s = Ok (q, s') /\ p <> q /\ cells (table s') !! q = Some x /\ cells (table s') !! p = None /\
    modes s' = modes s /\ queues s' = queues s /\ ident s' = ident s.
Proof using.
  intros [Hlive Hfresh _] Hp Hlt. unfold emplace_peer, get, mbind at 1, T_bind at 1.
  destruct (m_peers (table s) !! id) as [q|] eqn:Eq.
  - destruct (Hlive id q Eq) as [x Hx]. exists q, x, s. split_and!; try done. intros ->. congruence.
  - exists (next_cell (table s)), new_peer. eexists. unfold modify_table, modify, mbind, T_bind.
    split; [reflexivity|]. cbn. rewrite lookup_insert_eq. rewrite lookup_insert_ne by lia. split_and!; try done. lia.
Qed.

Lemma erase_table_ok t old p : TransportSafe.table_ok t -> m_peers t !! old = Some p ->
  TransportSafe.table_ok (mkTable (delete p (cells t)) (next_cell t) (delete old (m_peers t)) (m_peer_by_addr t)).
Proof using.
  intros [H1 H2 H3] Hp. split; cbn.
  - intros a q. rewrite lookup_delete_Some. intros [Ha Hq]. rewrite lookup_delete_ne; [by eapply H1|].
    intros <-. by apply Ha, (H3 old a p).
  - intros q [x Hx]. apply lookup_delete_Some in Hx as [_ Hx]. apply H2. by eexists.
  - intros a b q Ha Hb. apply lookup_delete_Some in Ha as [_ Ha], Hb as [_ Hb]. by eapply H3.
Qed.

Lemma connect_dangles (s : Impl) id key old p c pkt rest : TransportSafe.table_ok (table s) -> m_running (modes s) = true ->
  m_peer_by_addr (table s) !! key = Some old -> m_peers (table s) !! old = Some p -> id <> old ->
  o_peer pkt = p -> SendPath.holding s (pkt :: rest) -> Z.of_nat (length rest) < 2 ^ 64 - 3 ->
  exists s', connect id (Some key) c s = Ok (true, s') /\ dangling s' pkt /\ modes s' = modes s.
Proof using laws.
  intros Hok Hrun Ha Hold Hne Ho Hh Hl.
  set (s1 := set_table (mkTable (delete p (cells (table s))) (next_cell (table s)) (delete old (m_peers (table s)))
    (<[key := id]> (m_peer_by_addr (table s)))) s).
  assert (TransportSafe.table_ok (table s1)) as Hok1 by (by destruct (erase_table_ok _ _ _ Hok Hold)).
  assert (cells (table s1) !! p = None) as Hp1 by apply lookup_delete_eq.
  assert ((p < next_cell (table s1))%nat) as Hlt by (apply Hok, (TransportSafe.to_live _ Hok _ _ Hold)).
  destruct (emplace_other s1 id p Hok1 Hp1 Hlt) as (q & x & s2 & E2 & Hpq & Hx2 & Hp2 & M2 & Q2 & I2).
  unfold connect, get, mbind at 1, T_bind at 1. rewrite Hrun, Ha. cbn [negb]. rewrite decide_False by done.
  assert ((erase_peer old ;; bind_addr key id) s = Ok (tt, s1)) as E1.
  { unfold erase_peer, bind_addr, modify_table, modify, mbind, T_bind. cbn. by rewrite Hold. }
  unfold mbind at 1, T_bind at 1. rewrite E1. unfold mbind at 1, T_bind at 1. rewrite E2. cbv zeta.
  set (g := fun l : LinkInfo => put_retransmit _ _). unfold mbind at 1, T_bind at 1. rewrite (update_link_runs q g s2 x Hx2).
  set (x3 := set_link (g (link x)) x). set (s3 := set_table _ s2).
  unfold mbind at 1, T_bind at 1. unfold bind_addr, modify_table, modify at 1. set (s4 := set_table _ s3).
  assert (cells (table s4) !! q = Some x3) as Hx4 by apply lookup_insert_eq.
  assert (cells (table s4) !! p = None) as Hp4 by (cbn; by rewrite lookup_insert_ne).
  assert (exists s5 x5, only_if (bool_decide (m_state (link x3) = Closed))
      (update_link q (fun l => put_last_handshake_sent (c_steady c - hours 1) (put_state Types.Handshake l))) s4 = Ok (tt, s5) /\
    cells (table s5) !! q = Some x5 /\ cells (table s5) !! p = None /\ modes s5 = modes s /\ queues s5 = queues s)
    as (s5 & x5 & E5 & Hx5 & Hp5 & M5 & Q5).
  { destruct (bool_decide _); cbn [only_if].
    - rewrite (update_link_runs q _ s4 x3 Hx4). eexists _, _. split; [reflexivity|]. split; [apply lookup_insert_eq|].
      split; [cbn; by rewrite lookup_insert_ne|]. done.
    - exists s4, x3. done. }
  subst p. destruct (dangling_handshake s5 q x5 c pkt rest Hp5 Hpq Hx5) as (s6 & E6 & D6 & M6);
    [destruct Hh as (f & Hf & Hi); exists f; by rewrite Q5|done|].
  exists s6. split; [|split; [done|congruence]].
  assert (deref q s4 = Ok (x3, s4)) as Ed by (unfold deref, get, mbind, T_bind; by rewrite Hx4).
  unfold mbind, T_bind. by rewrite Ed, E5, E6.
Qed.

(** ** What the sender does then *)

Lemma current_of_holding (s : Impl) pkt rest : SendPath.holding s (pkt :: rest) ->
  exists s', current_packet s = Ok (Some pkt, s') /\ table s' = table s.
Proof using laws.
  intros (f & Hf & Hi). unfold current_packet, get, mbind at 1, T_bind at 1.
  destruct (m_lite_pending (queues s)) as [o|] eqn:Ep; cbn [option_list app] in Hi; [|rewrite ?Ep in Hi].
  - injection Hi as -> _. by exists s.
  - destruct (q_poll_law _ f Hf) as (q' & E & _). cbn in Hi. unfold next_item in E. rewrite Hi in E. cbn [fst snd] in E.
    unfold lift_res, modify_queues, modify, mbind, T_bind. rewrite E. eexists. split; [reflexivity|done].
Qed.

Lemma dangling_faults (s : Impl) pkt turns clk : dangling s pkt -> drain_sender (S turns) clk s = Fault BadPointer.
Proof using laws.
  intros (Hp & rest & Hh). destruct (current_of_holding s pkt rest Hh) as (s' & E & Et).
  cbn [drain_sender]. unfold drain_sender_step, deref, get, mbind, T_bind. rewrite E, Et, Hp. done.
Qed.

(** C28. Taking over an address frees a peer that is still in use. Take any state
    of a running transport whose peer table is well formed, an address bound to
    a known peer, and a packet for that peer that is the next to be sent. A
    [connect] to the same address under another name succeeds, frees the peer,
    leaves the packet where it is, and the next turn of the sender follows the
    dangling pointer. *)
Theorem takeover_dangles (s : Impl) id key old p c pkt rest
    (Hok : TransportSafe.table_ok (table s)) (Hrun : m_running (modes s) = true)
    (Haddr : m_peer_by_addr (table s) !! key = Some old) (Hold : m_peers (table s) !! old = Some p) (Hne : id <> old)
    (Hpkt : o_peer pkt = p) (Hwaits : SendPath.holding s (pkt :: rest)) (Hlen : Z.of_nat (length rest) < 2 ^ 64 - 3) :
  exists s', connect id (Some key) c s = Ok (true, s') /\ cells (table s') !! p = None /\
    (exists rest', SendPath.holding s' (pkt :: rest')) /\
    forall turns clk, drain_sender (S turns) clk s' = Fault BadPointer.
Proof using laws.
  destruct (connect_dangles s id key old p c pkt rest Hok Hrun Haddr Hold Hne Hpkt Hwaits Hlen) as (s' & E & D & _).
  exists s'. split; [done|]. destruct D as [D1 D2]. split; [by rewrite <- Hpkt|]. split; [done|].
  intros turns clk. by eapply dangling_faults.
Qed.
End Takeover.

(** ** A concrete state *)

(** The reactor has taken the packet of peer "b" and waits for tokens. *)
Definition demo_waiting : @Impl BlockingQueue.queue := SendPath.demo_impl ∅ (q_new 8) (Some SendPath.demo_packet).

Lemma takeover_dangles_witness : exists s',
  connect "c" (Some (mkAddr 1 2)) (TransportSafe.demo_clock 1) demo_waiting = Ok (true, s') /\ cells (table s') !! 0%nat = None /\
  (exists rest', SendPath.holding s' (SendPath.demo_packet :: rest')) /\
  forall turns clk, drain_sender (S turns) clk s' = Fault BadPointer.
Proof.
  apply (takeover_dangles demo_waiting "c" (mkAddr 1 2) "b" 0 (TransportSafe.demo_clock 1) SendPath.demo_packet []);
    [|reflexivity|reflexivity|reflexivity|discriminate|reflexivity| |cbn; lia].
  - split; cbn.
    + intros id p. rewrite lookup_singleton_Some. intros [_ <-]. by eexists.
    + intros p [x Hx]. apply lookup_singleton_Some in Hx as [<- _]. lia.
    + intros a b p. rewrite !lookup_singleton_Some. by intros [<- _] [<- _].
  - eexists. split; [apply q_new_law; lia|reflexivity].
Defined.
End Takeover.
