(* ===== verification/Tight.v ===== *)
(** * The interface of the transport (class TightTransport, tight/include/tight/tight.hpp)

    The calls of the application, the farewell of [stop] and of the destructor,
    and what the encoder thread does with the tasks left when it ends. *)
From stdpp Require Import base list numbers option strings gmap sorting.
From Stdlib Require Import ZArith Lia.
From S2P Require Import Prelude Wire Codec Float64 Maps Types Peer.
From S2P Require Import Bandwidth BlockingQueue Packets Endpoint Transport TransportSafe EndToEnd.

Local Open Scope Z_scope.
Import Types Wire PacketCodec Peer Packets Endpoint Transport.

Module Tight.

Section Tight.
Context {Q : Type -> Type} {ops : QueueOps Q}.
Notation Impl := (@Impl Q).
Notation T := (@T Q).

(** ** Calls *)

Definition create (config : TightConfig) (r1 r2 : Z) (private public : bytes) (now : Z) : Impl :=
  new config r1 r2 private public now.

Definition send (peer_id : string) (payload : bytes) : T bool := send_message peer_id payload 0.
Definition send_priority (peer_id : string) (payload : bytes) (priority : Z) : T bool :=
  send_message peer_id payload priority.
Definition lite_mode (s : Impl) : bool := m_lite_mode (modes s).
Definition peers (s : Impl) : list PeerEvent := peers_snapshot s.

(** The destructor, while there is an implementation. *)
Definition destroy (c : Clocks) (last_turns : T unit) : T unit := send_byes c ;; stop_threads last_turns.

(** The end of [encode_loop]: what is left in the queue is still sent. *)
Fixpoint encode_rest (log2 : F64.double -> F64.double) (turns : nat) (scratch : list bytes) (c : Clocks) : T unit :=
  match turns with
  | O => pass
  | S turns =>
      s ← get;
      '(q, task) ← lift_res (q_poll (m_encode_queue (queues s)));
      modify_queues (set_encode_queue q) ;;
      match task with
      | None => pass
      | Some task =>
          on_peer (t_peer task) c (fun E => Endpoint.fragment_and_send E log2 scratch (t_payload task)) ;;
          encode_rest log2 turns scratch c
      end
  end.

(** ** Farewell *)

(** The Bye of an endpoint. *)
Definition bye (i : Identity) : bytes :=
  encode (mkHeader kMagic kVersion Bye 0 (id_client i) (id_session i) 0 0 0 0 0 0 0 0 0) [].

(** A peer that hears it. *)
Definition hears (x : Peer) : bool :=
  negb (bool_decide (m_state (link x) = Closed)) && m_addr_set (link x).

Definition farewell (i : Identity) (x : Peer) : list Event :=
  if hears x then [Sent (m_sockaddr (link x)) (bye i)] else [].

Definition dismissed (x : Peer) : Peer := if hears x then set_link (put_state Closed (link x)) x else x.

Lemma bye_one (s : Impl) p x c : cells (table s) !! p = Some x ->
  on_peer p c send_bye s =
  Ok (tt, set_trace (trace s ++ farewell (ident s) x) (EndToEnd.touched p (dismissed x) (bandwidth s) s)).
Proof.
  intros Hx. unfold farewell, dismissed. destruct (hears x) eqn:Eh; unfold hears in Eh.
  - apply (EndToEnd.on_peer_runs p c send_bye s x tt
      (mkSt (set_link (put_state Closed (link x)) x) (bandwidth s) [SendTo (m_sockaddr (link x)) (bye (ident s))])); [exact Hx| |].
    + unfold send_bye, get_peer, emit, set_state, modify_link, put_peer, when, mbind, H_bind.
      cbn [peer link m_bandwidth out app]. rewrite Eh. cbn [peer link m_bandwidth out app].
      unfold bye. cbn [env_of m_local_client_id m_local_session_id]. done.
    + cbn [out each perform peer m_bandwidth]. unfold record_event, modify, pass, mbind, T_bind. done.
  - eapply EndToEnd.on_peer_runs; [exact Hx| |].
    + unfold send_bye, get_peer, when, mbind, H_bind. cbn [peer link]. rewrite Eh. reflexivity.
    + cbn [out each pass peer m_bandwidth]. rewrite app_nil_r. done.
Qed.

(** Every pointer of the list is visited once. *)
Lemma byes_all l c : forall s : Impl, NoDup l.*2 ->
  Forall (fun e : string * nat => is_Some (cells (table s) !! e.2)) l ->
  exists s', each l (fun '(_, p) => on_peer p c send_bye) s = Ok (tt, s') /\ ident s' = ident s /\ modes s' = modes s /\
    m_peers (table s') = m_peers (table s) /\
    trace s' = trace s ++ (e ← l; match cells (table s) !! e.2 with Some x => farewell (ident s) x | None => [] end) /\
    forall p, cells (table s') !! p =
      if decide (p ∈ l.*2) then dismissed <$> cells (table s) !! p else cells (table s) !! p.
Proof.
  induction l as [|[id p] l IH]; intros s HN HF.
  { exists s. rewrite app_nil_r. split_and!; try done. }
  rewrite fmap_cons in HN. apply NoDup_cons in HN as [Hp HN]. apply Forall_cons in HF as [[x Hx] HF]. cbn [snd] in *.
  pose proof (bye_one s p x c Hx) as E1. set (s1 := set_trace _ _) in E1.
  assert (forall q, q <> p -> cells (table s1) !! q = cells (table s) !! q) as Hother
    by (intros q Hq; by apply lookup_insert_ne).
  assert (forall e : string * nat, e ∈ l -> cells (table s1) !! e.2 = cells (table s) !! e.2) as Hl.
  { intros e He. apply Hother. intros Ep. apply Hp. apply list_elem_of_fmap. by exists e. }
  destruct (IH s1 HN) as (s2 & E2 & I2 & M2 & P2 & T2 & C2).
  { apply Forall_forall. intros e He. rewrite Forall_forall in HF. rewrite (Hl e He). by apply HF. }
  exists s2. cbn [each]. unfold mbind, T_bind. rewrite E1, E2. split_and!; try done.
  - rewrite T2. cbn [s1 trace set_trace]. rewrite <- app_assoc. f_equal. cbn [mbind list_bind snd]. rewrite Hx. f_equal.
    clear -Hl. induction l as [|e l IHl]; [done|]. cbn. rewrite Hl by left. f_equal. apply IHl.
    intros e' He'. apply Hl. by right.
  - intros q. rewrite C2. rewrite fmap_cons. cbn [snd]. destruct (decide (q = p)) as [->|Hq].
    + rewrite (decide_False (P := p ∈ l.*2)) by done. rewrite decide_True by left.
      rewrite Hx. apply lookup_insert_eq.
    + rewrite Hother by done. apply decide_ext. set_solver.
Qed.

Lemma entries_once (t : Table) : TransportSafe.table_ok t ->
  NoDup (peer_entries t).*2 /\ Forall (fun e : string * nat => is_Some (cells t !! e.2)) (peer_entries t).
Proof.
  intros [Hlive _ Hinj]. assert (forall id p, (id, p) ∈ peer_entries t <-> m_peers t !! id = Some p) as Hin.
  { intros id p. unfold peer_entries. rewrite merge_sort_Permutation. apply elem_of_map_to_list. }
  split.
  - apply NoDup_fmap_2_strong.
    + intros [a p] [b q] Ha Hb E. simpl in E. subst q. apply Hin in Ha, Hb. f_equal. by eapply Hinj.
    + unfold peer_entries. rewrite merge_sort_Permutation. apply NoDup_map_to_list.
  - apply Forall_forall. intros [id p] He. apply Hin in He. by eapply Hlive.
Qed.

(** ** The last turns of the threads *)

Definition steady {A} (m : T A) : Prop := forall s a s', m s = Ok (a, s') -> modes s' = modes s.

Lemma steady_bind {A B} (m : T A) (f : A -> T B) : steady m -> (forall a, steady (f a)) -> steady (m ≫= f).
Proof.
  intros Hm Hf s b s'. unfold mbind, T_bind. destruct (m s) as [[a s1]|] eqn:E1; [|done]. intros E2.
  rewrite (Hf a s1 b s' E2). by eapply Hm.
Qed.
Lemma steady_ret {A} (a : A) : steady (mret a).
Proof. by intros s b s' [= _ <-]. Qed.
Lemma steady_get : steady get.
Proof. by intros s b s' [= _ <-]. Qed.
Lemma steady_lift {A} (r : res A) : steady (lift_res r).
Proof. intros s b s'. unfold lift_res. destruct r; [|done]. by intros [= _ <-]. Qed.
Lemma steady_modify f : (forall s, modes (f s) = modes s) -> steady (modify f).
Proof. intros Hf s b s' [= _ <-]. apply Hf. Qed.
Lemma steady_queues f : steady (modify_queues f).
Proof. by apply steady_modify. Qed.
Lemma steady_each {A} (l : list A) f : (forall x, steady (f x)) -> steady (each l f).
Proof. intros Hf. induction l; simpl; [apply steady_ret|]. by apply steady_bind. Qed.
Lemma steady_deref p : steady (deref p).
Proof. apply steady_bind; [apply steady_get|]. intros s. case_match; [apply steady_ret|done]. Qed.
Lemma steady_perform p e : steady (perform p e).
Proof.
  destruct e; try by apply steady_modify. apply steady_bind; [apply steady_get|]. intros s.
  apply steady_bind; [apply steady_lift|]. intros [q b]. apply steady_queues.
Qed.
Lemma steady_on_peer {A} p c (m : Env -> H A) : steady (on_peer p c m).
Proof.
  apply steady_bind; [apply steady_deref|]. intros x. apply steady_bind; [apply steady_get|]. intros s.
  apply steady_bind; [apply steady_lift|]. intros [a st]. apply steady_bind; [by apply steady_modify|]. intros _.
  apply steady_bind; [by apply steady_modify|]. intros _.
  apply steady_bind; [apply steady_each, steady_perform|]. intros _. apply steady_ret.
Qed.
Lemma steady_encode_rest log2 n scratch c : steady (encode_rest log2 n scratch c).
Proof.
  induction n as [|n IH]; [apply steady_ret|]. apply steady_bind; [apply steady_get|]. intros s.
  apply steady_bind; [apply steady_lift|]. intros [q task]. apply steady_bind; [apply steady_queues|]. intros _.
  destruct task; [|apply steady_ret]. apply steady_bind; [apply steady_on_peer|done].
Qed.
Lemma steady_shutdown n : steady (sender_shutdown n).
Proof.
  induction n as [|n IH]; [apply steady_ret|]. apply steady_bind; [apply steady_get|]. intros s.
  apply steady_bind; [apply steady_lift|]. intros [q pkt]. apply steady_bind; [apply steady_queues|]. intros _.
  by destruct pkt; [|apply steady_ret].
Qed.

Definition last_turns (log2 : F64.double -> F64.double) (n : nat) (scratch : list bytes) (c : Clocks) : T unit :=
  encode_rest log2 n scratch c ;; sender_shutdown n.

Lemma stopped_quiet (s : Impl) c m : m_sock (modes s) = false -> m_running (modes s) = false -> destroy c m s = Ok (tt, s).
Proof.
  intros Hs Hr. unfold destroy, send_byes, stop_threads, get, mbind, T_bind. rewrite Hs. cbn [negb pass mret T_ret].
  by rewrite Hr.
Qed.

(** Each peer is told once. Stopping a transport sends one Bye to every peer
    that is not closed and has an address, in the order of the table, and closes
    these peers; once stopped, neither a further [stop] nor the destructor sends
    or changes anything. *)
Theorem farewell_once (s : Impl) c log2 n scratch (Ht : TransportSafe.table_ok (table s))
  (Hsock : m_sock (modes s) = true) (Hrun : m_running (modes s) = true) :
  exists s1, send_byes c s = Ok (tt, s1) /\
    trace s1 = trace s ++ (e ← peer_entries (table s);
                           match cells (table s) !! e.2 with Some x => farewell (ident s) x | None => [] end) /\
    (forall id p x, m_peers (table s1) !! id = Some p -> cells (table s1) !! p = Some x -> hears x = false) /\
    forall s2, destroy c (last_turns log2 n scratch c) s = Ok (tt, s2) -> forall c' m, destroy c' m s2 = Ok (tt, s2).
Proof.
  destruct (entries_once (table s) Ht) as [HN HF].
  destruct (byes_all (peer_entries (table s)) c s HN HF) as (s1 & E1 & I1 & M1 & P1 & T1 & C1).
  assert (send_byes c s = Ok (tt, s1)) as E2.
  { unfold send_byes, each_peer, get, mbind, T_bind. by rewrite Hsock. }
  exists s1. split_and!; [done|done| |].
  - intros id p x Hp Hx. rewrite P1 in Hp. rewrite C1, decide_True in Hx.
    + destruct (cells (table s) !! p) as [y|]; [|done]. injection Hx as <-. unfold dismissed.
      destruct (hears y) eqn:Eh; [|done]. unfold hears. simpl. done.
    + apply list_elem_of_fmap. exists (id, p). split; [done|]. unfold peer_entries. rewrite merge_sort_Permutation.
      by apply elem_of_map_to_list.
  - intros s2 E3. unfold destroy, mbind, T_bind in E3. rewrite E2 in E3. unfold stop_threads, get, mbind, T_bind in E3.
    rewrite M1, Hrun in E3. cbn [negb modify_modes modify_queues modify] in E3.
    match type of E3 with match ?r with _ => _ end = _ => destruct r as [[[] s3]|] eqn:E4; [|done] end.
    injection E3 as <-. intros c' m. apply stopped_quiet; [done|]. cbn.
    assert (steady (last_turns log2 n scratch c)) as Hst
      by (apply steady_bind; [apply steady_encode_rest|intros _; apply steady_shutdown]).
    by rewrite (Hst _ _ _ E4).
Qed.
End Tight.
End Tight.
