(* ===== verification/TransportRestart.v ===== *)
(** * A transport that has been stopped (transport.cpp)

    [stop] closes the encode and the outbound queue for good, [start] does not
    open them again. The queues of a stopped transport can only shrink,
    whatever is called and whichever thread runs. *)
From stdpp Require Import base list numbers option sets strings gmap.
From Stdlib Require Import ZArith Lia.
From S2P Require Import Prelude Codec Float64 Maps Types Peer.
From S2P Require Import Bandwidth BlockingQueue Packets Endpoint Transport TransportSafe.

Local Open Scope Z_scope.
Import Types Peer Packets Endpoint Transport TransportSafe.

Module TransportRestart.

Section Quiet.
Context {Q : Type -> Type} {ops : QueueOps Q} {laws : QueueLaws Q}.

Notation Impl := (@Impl Q) (only parsing).
Notation Sys := (@Sys Q) (only parsing).

(** Both queues are closed and hold [te] and, behind the packet the lite
    sender waits to send, [po]. *)
Definition shut_down (s : Impl) (te : list EncodeTask) (po : list OutboundPacket) : Prop :=
  (exists ce, q_holds (m_encode_queue (queues s)) (mkFifo ce te true)) /\
  (exists co lo, q_holds (m_outbound_queue (queues s)) (mkFifo co lo true) /\ po = option_list (m_lite_pending (queues s)) ++ lo) /\
  Z.of_nat (length te) < 2 ^ 64 - 1 /\ Z.of_nat (length po) < 2 ^ 64 - 1.

Definition fewer (te : list EncodeTask) (po : list OutboundPacket) (s : Impl) : Prop :=
  exists te' po', shut_down s te' po' /\ te' `sublist_of` te /\ po' `sublist_of` po.

Definition quiet {A} (m : T A) : Prop := forall s te po, shut_down s te po -> after m s (fun _ => fewer te po).

Lemma fewer_refl s te po : shut_down s te po -> fewer te po s.
Proof. intros H. by exists te, po. Qed.

Lemma fewer_after {A} (m : T A) s te po : quiet m -> fewer te po s -> after m s (fun _ => fewer te po).
Proof.
  intros Hm (te1 & po1 & H1 & S1 & S2). eapply after_mono; [by apply Hm|]. intros a s' (te2 & po2 & H2 & S3 & S4).
  exists te2, po2. split_and!; [done|by etrans|by etrans].
Qed.

Lemma quiet_ret {A} (a : A) : quiet (mret a).
Proof. intros s te po H. by apply fewer_refl. Qed.
Lemma quiet_get : quiet get.
Proof. intros s te po H. by apply fewer_refl. Qed.
Lemma quiet_fault {A} e : quiet (@fault Q A e).
Proof. by intros s te po H. Qed.
Lemma quiet_lift {A} (r : res A) : quiet (lift_res r).
Proof. intros s te po H. unfold after, lift_res. destruct r; [by apply fewer_refl|done]. Qed.
Lemma quiet_bind {A B} (m : T A) (k : A -> T B) : quiet m -> (forall a, quiet (k a)) -> quiet (m ≫= k).
Proof. intros Hm Hk s te po H. apply after_bind. eapply after_mono; [by apply Hm|]. intros a s' Hs. by apply fewer_after. Qed.
Lemma quiet_each {A} (l : list A) f : (forall x, quiet (f x)) -> quiet (each l f).
Proof. intros Hf. induction l; [apply quiet_ret|]. by apply quiet_bind. Qed.
Lemma quiet_modify (f : Impl -> Impl) :
  (forall s, m_encode_queue (queues (f s)) = m_encode_queue (queues s) /\ m_outbound_queue (queues (f s)) = m_outbound_queue (queues s) /\
     m_lite_pending (queues (f s)) = m_lite_pending (queues s)) -> quiet (modify f).
Proof.
  intros Hf s te po (H1 & H2 & H3). destruct (Hf s) as (E1 & E2 & E3). apply fewer_refl. unfold shut_down. by rewrite E1, E2, E3.
Qed.

Create HintDb quiet.
Hint Resolve quiet_ret quiet_get quiet_fault quiet_lift : quiet.
Ltac quiet := repeat first
  [ lazymatch goal with |- forall _, _ => intros ? end | progress (eauto 2 with quiet)
  | apply quiet_bind | apply quiet_each | (apply quiet_modify; done)
  | match goal with |- quiet (match ?x with _ => _ end) => destruct x end ].

(** ** The outbound queue *)

Lemma quiet_push p d : quiet (s ← get; '(q, _) ← lift_res (q_try_push (m_outbound_queue (queues s)) (mkPacket p d));
  modify_queues (set_outbound_queue q)).
Proof.
  intros s te po ((ce & He) & (co & lo & Ho & ->) & L1 & L2).
  destruct (q_try_push_law _ _ (mkPacket p d) Ho) as (q & Eq & Hq); [cbn in *; rewrite length_app in L2; lia|].
  unfold after, get, lift_res, modify_queues, modify, mbind, T_bind. rewrite Eq. cbn in Hq.
  apply fewer_refl. split_and!; [by exists ce|by exists co, lo|done|done].
Qed.

Lemma quiet_perform p e : quiet (perform p e).
Proof. destruct e; cbn [perform]; try (apply quiet_modify; done). apply quiet_push. Qed.
Hint Resolve quiet_perform : quiet.

Lemma quiet_on_peer {A} p c (m : Env -> H A) : quiet (on_peer p c m).
Proof. unfold on_peer, deref, store, modify_table. quiet. Qed.
Hint Resolve quiet_on_peer : quiet.

(** The outbound queue without its first packet. *)
Lemma polled s te po : shut_down s te po -> exists q pkt co lo, q_poll (m_outbound_queue (queues s)) = Ok (q, pkt) /\
  q_holds q (mkFifo co lo true) /\ po = option_list (m_lite_pending (queues s)) ++ option_list pkt ++ lo.
Proof.
  intros (_ & (co & lo & Ho & ->) & _). destruct (q_poll_law _ _ Ho) as (q & Eq & Hq). unfold next_item in *. cbn [items] in *.
  destruct lo as [|x lo]; [exists q, None, co, []|exists q, (Some x), co, lo]; done.
Qed.

Lemma polled_encode s te po : shut_down s te po -> exists q task ce te', q_poll (m_encode_queue (queues s)) = Ok (q, task) /\
  q_holds q (mkFifo ce te' true) /\ te = option_list task ++ te'.
Proof.
  intros ((ce & He) & _). destruct (q_poll_law _ _ He) as (q & Eq & Hq). unfold next_item in *. cbn [items] in *.
  destruct te as [|x te]; [exists q, None, ce, []|exists q, (Some x), ce, te]; done.
Qed.

(** Shrunken queues of [s]. *)
Lemma fewer_intro s te po s' : shut_down s te po ->
  (exists ce te', q_holds (m_encode_queue (queues s')) (mkFifo ce te' true) /\ te' `sublist_of` te) ->
  (exists co lo, q_holds (m_outbound_queue (queues s')) (mkFifo co lo true) /\ option_list (m_lite_pending (queues s')) ++ lo `sublist_of` po) ->
  fewer te po s'.
Proof.
  intros (_ & _ & L1 & L2) (ce & te' & H1 & S1) (co & lo & H2 & S2). eexists te', _. split_and!; [|done|exact S2].
  apply sublist_length in S1 as N1, S2 as N2. split_and!; [by exists ce|by exists co, lo|lia|lia].
Qed.

Lemma drop_fewer {A} (k : option OutboundPacket -> T A) s te po : (forall o, quiet (k o)) -> shut_down s te po ->
  after ('(q, pkt) ← lift_res (q_poll (m_outbound_queue (queues s))); modify_queues (set_outbound_queue q) ;; k pkt) s (fun _ => fewer te po).
Proof.
  intros Hk H. destruct (polled s te po H) as (q & pkt & co & lo & Eq & Hq & Ep). apply after_bind. unfold after at 1, lift_res. rewrite Eq.
  apply after_bind. unfold after at 1, modify_queues, modify. apply fewer_after; [apply Hk|].
  pose proof H as ((ce & He) & _). apply (fewer_intro s); [done|by exists ce, te|]. exists co, lo. split; [done|].
  cbn. rewrite Ep. apply sublist_app; [done|]. by apply sublist_inserts_l.
Qed.

Lemma quiet_take_task {A} (k : option EncodeTask -> T A) : (forall o, quiet (k o)) ->
  quiet (s ← get; '(q, task) ← lift_res (q_poll (m_encode_queue (queues s))); modify_queues (set_encode_queue q) ;; k task).
Proof.
  intros Hk s te po H. destruct (polled_encode s te po H) as (q & task & ce & te' & Eq & Hq & Ep).
  apply after_bind. unfold after at 1, get. apply after_bind. unfold after at 1, lift_res. rewrite Eq.
  apply after_bind. unfold after at 1, modify_queues, modify. apply fewer_after; [apply Hk|].
  pose proof H as (_ & (co & lo & Ho & Ep') & _). apply (fewer_intro s); [done| |].
  - exists ce, te'. split; [done|]. rewrite Ep. by apply sublist_inserts_l.
  - exists co, lo. by rewrite Ep'.
Qed.

Lemma quiet_drop_pending : quiet (modify_queues (set_lite_pending None)).
Proof.
  intros s te po H. pose proof H as ((ce & He) & (co & lo & Ho & ->) & _). apply (fewer_intro s _ _ _ H); [by exists ce, te|].
  exists co, lo. split; [done|]. cbn. by apply sublist_inserts_l.
Qed.

Lemma quiet_current : quiet current_packet.
Proof.
  intros s te po H. unfold current_packet. apply after_bind. unfold after at 1, get.
  destruct (m_lite_pending (queues s)) as [pkt|] eqn:Ep; [by apply fewer_refl|].
  destruct (polled s te po H) as (q & pkt & co & lo & Eq & Hq & El). apply after_bind. unfold after at 1, lift_res. rewrite Eq.
  unfold after, modify_queues, modify, mbind, T_bind, mret, T_ret.
  pose proof H as ((ce & He) & _). apply (fewer_intro s _ _ _ H); [by exists ce, te|]. exists co, lo. split; [done|].
  cbn. by rewrite El, Ep.
Qed.

(** Offering a task to the closed queue: what follows sees the refusal. *)
Lemma quiet_offer {A} s0 p payload (k : bool -> T A) : (forall b, quiet (k b)) ->
  forall s te po, shut_down s te po -> m_encode_queue (queues s) = m_encode_queue (queues s0) ->
  after ('(q, ok) ← lift_res (q_try_push (m_encode_queue (queues s0)) (mkTask p payload)); modify_queues (set_encode_queue q) ;; k ok) s
    (fun _ => fewer te po).
Proof.
  intros Hk s te po H E0. pose proof H as ((ce & He) & (co & lo & Ho & Ep) & L1 & _). rewrite <- E0.
  destruct (q_try_push_law _ _ (mkTask p payload) He) as (q & Eq & Hq); [exact L1|]. cbn in Eq, Hq.
  apply after_bind. unfold after at 1, lift_res. rewrite Eq. apply after_bind. unfold after at 1, modify_queues, modify.
  apply fewer_after; [apply Hk|]. apply (fewer_intro s _ _ _ H); [by exists ce, te|]. exists co, lo. by rewrite Ep.
Qed.
Hint Resolve quiet_drop_pending quiet_current : quiet.

(** ** Operations *)

Lemma quiet_deref p : quiet (deref p).
Proof. unfold deref. quiet. Qed.
Lemma quiet_enqueue k id pl : quiet (enqueue_if_room k id pl).
Proof. unfold enqueue_if_room, modify_queues. quiet. Qed.
Lemma quiet_update p f : quiet (update_link p f).
Proof. unfold update_link, deref, store, modify_table. quiet. Qed.
Hint Resolve quiet_deref quiet_enqueue quiet_update : quiet.

Lemma quiet_item k i : quiet (process_item k i).
Proof.
  destruct i as [id payload]. intros s te po H. unfold process_item. apply after_bind. unfold after at 1, get.
  destruct (find_peer (table s) id) as [p|]; [|by apply fewer_refl]. apply after_bind. unfold deref at 1, after at 1, get, mbind, T_bind.
  destruct (cells (table s) !! p) as [x|]; [|done]. unfold mret, T_ret.
  destruct (negb _).
  - assert (quiet (only_if (negb (bool_decide (m_state (link x) = Types.Closed))) (enqueue_if_room k id payload ;; pass))) as Hq
      by (unfold only_if, pass; quiet). by apply Hq.
  - apply (quiet_offer s p payload); [|done|done]. intros b. unfold only_if, pass. quiet.
Qed.

Lemma quiet_connect id addr c : quiet (connect id addr c).
Proof.
  unfold connect, erase_peer, bind_addr, emplace_peer, only_if, pass, modify_table. quiet.
Qed.
Lemma quiet_receive from d rnd c : quiet (receive_one from d rnd c).
Proof. unfold receive_one, Transport.handle_packet, find_or_create_peer_by_addr, emplace_peer, bind_addr, modify_table, pass. quiet. Qed.
Lemma quiet_send_message id pl k : quiet (send_message id pl k).
Proof. unfold send_message. quiet. Qed.
Lemma quiet_send_command id pl c : quiet (send_command id pl c).
Proof. unfold send_command. quiet. Qed.
Lemma quiet_each_peer c duty : quiet (each_peer c duty).
Proof. unfold each_peer. quiet. Qed.
Hint Resolve quiet_item quiet_connect quiet_receive quiet_send_message quiet_send_command quiet_each_peer : quiet.

Lemma quiet_encode log2 scratch c : quiet (encode_step log2 scratch c).
Proof. unfold encode_step. apply quiet_take_task. quiet. Qed.
Hint Resolve quiet_encode : quiet.
Lemma quiet_drain_encode log2 n scratch c : quiet (drain_encode log2 n scratch c).
Proof. induction n; cbn [drain_encode]; unfold pass; quiet. Qed.

Lemma quiet_transmit pkt : quiet (transmit pkt).
Proof. unfold transmit, record_event. quiet. Qed.
Lemma quiet_refill now : quiet (refill_token_bucket now).
Proof. unfold refill_token_bucket, pass. quiet. Qed.
Hint Resolve quiet_drain_encode quiet_transmit quiet_refill : quiet.
Lemma quiet_drain_step now : quiet (drain_sender_step now).
Proof. unfold drain_sender_step, spend. quiet. Qed.
Hint Resolve quiet_drain_step : quiet.
Lemma quiet_drain_sender n clk : quiet (drain_sender n clk).
Proof. revert clk. induction n; intros clk; cbn [drain_sender]; unfold pass; quiet. Qed.
Hint Resolve quiet_drain_sender : quiet.

Lemma quiet_round log2 r : quiet (reactor_round log2 r).
Proof.
  unfold reactor_round, send_handshakes, send_heartbeats, send_reports, check_offline, flush_commands, process_send_queue,
    drain_receiver, only_if, pass, modify_queues. quiet.
Qed.
Lemma quiet_shutdown n : quiet (sender_shutdown n).
Proof. induction n; cbn [sender_shutdown]; [apply quiet_ret|]. intros s te po H. apply after_bind. unfold after at 1, get.
  apply drop_fewer; [|done]. unfold pass. quiet.
Qed.
Hint Resolve quiet_round quiet_shutdown : quiet.

Lemma quiet_close : quiet (modify_queues (fun q => set_encode_queue (q_close (m_encode_queue q))
  (set_outbound_queue (q_close (m_outbound_queue q)) q))).
Proof.
  intros s te po H. pose proof H as ((ce & He) & (co & lo & Ho & ->) & _). apply (fewer_intro s _ _ _ H).
  - exists ce, te. split; [|done]. apply (q_close_law _ _ He).
  - exists co, lo. split; [|done]. apply (q_close_law _ _ Ho).
Qed.
Hint Resolve quiet_close : quiet.

Lemma quiet_stop c m : quiet m -> quiet (stop c m).
Proof. intros Hm. unfold stop, send_byes, stop_threads, pass, modify_modes. quiet. Qed.
Lemma quiet_start b : quiet (start b).
Proof. unfold start, modify_modes. quiet. Qed.
Lemma quiet_lite b : quiet (set_lite_mode b).
Proof. unfold set_lite_mode, pass, only_if, modify_modes. quiet. Qed.
Hint Resolve quiet_start quiet_lite : quiet.

Lemma quiet_exec log2 o : quiet (exec_impl log2 o).
Proof.
  destruct o; cbn [exec_impl]; unfold pass, set_message_callback, set_peer_callback, set_command_callback; quiet.
Qed.

Lemma quiet_sender held now : quiet (sender_turn held now).
Proof.
  unfold sender_turn, sender_pause, spend, only_if, pass. destruct held as [pkt|]; [quiet|].
  intros s te po H. apply after_bind. unfold after at 1, get. destruct (negb _); [by apply fewer_refl|].
  apply drop_fewer; [|done]. quiet.
Qed.

(** ** Runs *)

Fixpoint runs (log2 : F64.double -> F64.double) (os : list op) (s : Sys) : res Sys :=
  match os with [] => Ok s | o :: os => s ← exec log2 o s; runs log2 os s end.

Lemma runs_fewer log2 os s s' te po : runs log2 os s = Ok s' -> fewer te po (impl s) -> fewer te po (impl s').
Proof.
  revert s. induction os as [|o os IH]; intros s; cbn [runs]; [by intros [= ->]|].
  destruct (exec log2 o s) as [s1|] eqn:Ee; [|done]. intros Er Hs. eapply IH; [exact Er|].
  assert (forall m : T unit, quiet m -> ('(_, i) ← m (impl s); Ok (mkSys i (held s))) = Ok s1 -> fewer te po (impl s1)) as Hm.
  { intros m Hm. pose proof (fewer_after m _ _ _ Hm Hs) as Ha. unfold after in Ha. destruct (m (impl s)) as [[a i]|]; [|done].
    by intros [= <-]. }
  destruct o as [| | | | | |t| | | |]; try (eapply Hm, Ee; apply quiet_exec).
  pose proof (fewer_after _ _ _ _ (quiet_sender (held s) t) Hs) as Ha. unfold after in Ha. cbn [exec] in Ee.
  destruct (sender_turn (held s) t (impl s)) as [[h i]|]; [|done]. by injection Ee as <-.
Qed.

(** ** Stopping *)

Definition same_modes {A} (m : T A) : Prop := forall s : Impl, after m s (fun _ s' => modes s' = modes s).

Lemma same_modes_bind {A B} (m : T A) (k : A -> T B) : same_modes m -> (forall a, same_modes (k a)) -> same_modes (m ≫= k).
Proof.
  intros Hm Hk s. apply after_bind. eapply after_mono; [apply Hm|]. intros a s' E. eapply after_mono; [apply Hk|].
  intros b s2 E2. congruence.
Qed.
Lemma same_modes_each {A} (l : list A) f : (forall x, same_modes (f x)) -> same_modes (each l f).
Proof. intros Hf. induction l; [by intros s|]. by apply same_modes_bind. Qed.

Lemma same_modes_peer {A} p c (m : Env -> H A) : same_modes (on_peer p c m).
Proof.
  assert (forall B (r : res B), same_modes (lift_res r)) as Hl by (intros B r s; unfold after, lift_res; by destruct r).
  unfold on_peer. apply same_modes_bind; [apply same_modes_bind; [by intros s|]; intros s; by destruct (_ !! p)|]. intros x.
  apply same_modes_bind; [by intros s|]. intros s0. apply same_modes_bind; [apply Hl|]. intros [a st].
  apply same_modes_bind; [by intros s|]. intros []. apply same_modes_bind; [by intros s|]. intros [].
  apply same_modes_bind; [|intros; by intros s]. apply same_modes_each. intros e. destruct e; cbn [perform]; try by intros s.
  apply same_modes_bind; [by intros s|]. intros s1. apply same_modes_bind; [apply Hl|]. intros [q b]. by intros s.
Qed.

Lemma same_modes_byes c : same_modes (send_byes c).
Proof.
  unfold send_byes, each_peer. apply same_modes_bind; [by intros s|]. intros s0. destruct (negb _); [by intros s|].
  apply same_modes_bind; [by intros s|]. intros s1. apply same_modes_each. intros [n p]. apply same_modes_peer.
Qed.

Context (cfg : TightConfig) (ce co : Z).
Context (Hce : 0 < ce < 2 ^ 64 - 1) (Hco : 0 < co < 2 ^ 64 - 2).

Lemma close_shuts s : safe cfg ce co s -> exists te po,
  shut_down (set_queues (set_encode_queue (q_close (m_encode_queue (queues s)))
    (set_outbound_queue (q_close (m_outbound_queue (queues s))) (queues s))) s) te po.
Proof using laws Hce Hco.
  intros [_ _ (fe & H1 & H2 & H3 & _) (fo & G1 & G2 & G3 & _) _ _].
  exists (items fe), (option_list (m_lite_pending (queues s)) ++ items fo). split_and!.
  - exists (cap fe). apply (q_close_law _ _ H1).
  - exists (cap fo), (items fo). split; [apply (q_close_law _ _ G1)|done].
  - lia.
  - rewrite length_app. destruct (m_lite_pending (queues s)); cbn; lia.
Qed.

Lemma stop_shuts c m s : safe cfg ce co s -> m_running (modes s) = true -> quiet m ->
  after (stop c m) s (fun _ s' => exists te po, shut_down s' te po).
Proof using laws Hce Hco.
  intros Hs Hr Hm. unfold stop. apply after_bind.
  assert (sound cfg ce co (send_byes c)) as Hb.
  { unfold send_byes. apply sound_bind; [apply sound_get|]. intros s0. apply sound_if; [apply sound_pass|]. apply sound_each_peer. lia. }
  pose proof (Hb s) as H1. pose proof (same_modes_byes c s) as H2. unfold after at 1. unfold after in H1, H2.
  destruct (send_byes c s) as [[[] s1]|]; [|done]. pose proof (ev_safe _ _ _ _ _ H1 Hs) as S1.
  unfold stop_threads. apply after_bind. unfold after at 1, get. rewrite H2, Hr. cbn [negb].
  apply after_bind. unfold after at 1, modify_modes, modify. set (s2 := set_modes _ s1).
  assert (safe cfg ce co s2) as S2 by exact (ev_safe _ _ _ _ _ (sound_modes cfg ce co (fun m => mkModes (m_sock m) false (m_lite_mode m) false) s1) S1).
  apply after_bind. unfold after at 1, modify_queues, modify. destruct (close_shuts s2 S2) as (te & po & H3). set (s3 := set_queues _ s2) in *.
  apply after_bind. eapply after_mono; [by apply Hm|]. intros [] s4 (te' & po' & H4 & _). unfold after. exists te', po'. exact H4.
Qed.
End Quiet.

(** C36. A transport that has been stopped sends nothing new, also when it is
    started again. From the stop on, in every run of calls and turns, the encode
    queue and the outbound queue (with the packet the sender waits to send) only
    lose elements: no message is encoded and no packet, not even a handshake, is
    queued any more. *)
Theorem stopped_for_good {Q} {ops : QueueOps Q} {laws : QueueLaws Q} log2 cfg r1 r2 sk pk now s1 c n scratch s2 os s3
    (He : 0 < encode_cap cfg < 2 ^ 64 - 1) (Ho : 0 < outbound_cap cfg < 2 ^ 64 - 2)
    (Hsteps : steps (Q := Q) log2 (mkSys (new cfg r1 r2 sk pk now) None) s1) (Hrun : m_running (modes (impl s1)) = true)
    (Hstop : exec log2 (Stop c n scratch) s1 = Ok s2) (Hafter : runs log2 os s2 = Ok s3) :
  exists te po te' po', shut_down (impl s2) te po /\ shut_down (impl s3) te' po' /\ te' `sublist_of` te /\ po' `sublist_of` po.
Proof.
  assert (0 < outbound_cap cfg < 2 ^ 64 - 1) as Ho' by lia.
  assert (safe cfg (encode_cap cfg) (outbound_cap cfg) (impl s1)) as S1.
  { eapply (steps_safe cfg _ _ He Ho'); [exact Hsteps| |done]. by apply new_safe. }
  cbn [exec exec_impl] in Hstop.
  set (m := drain_encode log2 n scratch c ;; sender_shutdown n) in *.
  assert (quiet m) as Hm by (apply quiet_bind; [apply quiet_drain_encode|intros; apply quiet_shutdown]).
  pose proof (stop_shuts cfg _ _ He Ho c m (impl s1) S1 Hrun Hm) as Ha. unfold after in Ha.
  destruct (stop c m (impl s1)) as [[[] i]|]; [|done]. injection Hstop as <-. destruct Ha as (te & po & H2).
  destruct (runs_fewer log2 os _ s3 te po Hafter (fewer_refl _ _ _ H2)) as (te' & po' & H3 & L1 & L2).
  by exists te, po, te', po'.
Qed.

(** ** Witness *)

Definition after_all {A} (d : A) (r : res A) : A := match r with Ok a => a | Fault _ => d end.
Definition demo_stopped : @Sys BlockingQueue.queue := after_all demo_sys (exec id (Stop (demo_clock 20) 3 []) demo_sys).
Definition demo_rest : list op := [Start true; SendMessage "b" [4] 7; Connect "b" (Some (mkAddr 1 2)) (demo_clock 30); Reactor (demo_round 40)].
Definition demo_last : @Sys BlockingQueue.queue := after_all demo_sys (runs id demo_rest demo_stopped).

Lemma demo_stops : exec id (Stop (demo_clock 20) 3 []) demo_sys = Ok demo_stopped.
Proof. vm_compute. reflexivity. Qed.
Lemma demo_continues : runs id demo_rest demo_stopped = Ok demo_last.
Proof. vm_compute. reflexivity. Qed.

Lemma stopped_for_good_witness : exists te po te' po', shut_down (impl demo_stopped) te po /\ shut_down (impl demo_last) te' po' /\
  te' `sublist_of` te /\ po' `sublist_of` po.
Proof.
  apply (stopped_for_good id (demo_config true) 5 6 [] [] 0 demo_sys (demo_clock 20) 3 [] demo_stopped demo_rest demo_last).
  - vm_compute; split; reflexivity.
  - vm_compute; split; reflexivity.
  - exact demo_steps.
  - vm_compute; reflexivity.
  - exact demo_stops.
  - exact demo_continues.
Defined.
End TransportRestart.
