(* ===== verification/Decimal.v ===== *)
(** * Decimal numbers in text (std::to_string, std::stoi, std::stoul)

    A std::string is a list of bytes. [long] has 64 bits. *)
From stdpp Require Import base list numbers option strings pretty.
From Stdlib Require Import ZArith Lia.
From S2P Require Import Prelude Packets.

Local Open Scope Z_scope.
Import Packets.

Module Decimal.

(** ** Printing *)

Definition to_string (n : Z) : list Z := bytes_of_string (pretty (Z.to_N n)).

(** ** Reading *)

Definition is_digit (c : Z) : bool := (48 <=? c) && (c <=? 57).
Definition is_space (c : Z) : bool := (c =? 32) || ((9 <=? c) && (c <=? 13)).

Fixpoint digits (l : list Z) : list Z :=
  match l with c :: l => if is_digit c then c :: digits l else [] | [] => [] end.

Fixpoint skip_spaces (l : list Z) : list Z :=
  match l with c :: l' => if is_space c then skip_spaces l' else l | [] => [] end.

(** The value of digits after [a]. *)
Definition value_from (a : Z) (ds : list Z) : Z := foldl (fun a c => a * 10 + (c - 48)) a ds.
Definition value (ds : list Z) : Z := value_from 0 ds.

(** Sign and magnitude, when there is at least one digit. *)
Definition sign_and_magnitude (l : list Z) : option (bool * Z) :=
  let l := skip_spaces l in
  let '(neg, l) := match l with 45 :: l => (true, l) | 43 :: l => (false, l) | _ => (false, l) end in
  match digits l with [] => None | ds => Some (neg, value ds) end.

(** What the conversion returns or throws. *)
Inductive number := Number (n : Z) | InvalidArgument | OutOfRange.

Definition stoi (l : list Z) : number :=
  match sign_and_magnitude l with
  | None => InvalidArgument
  | Some (neg, m) =>
      let n := if neg then - m else m in
      if (- 2 ^ 31 <=? n) && (n <? 2 ^ 31) then Number n else OutOfRange
  end.

Definition stoul (l : list Z) : number :=
  match sign_and_magnitude l with
  | None => InvalidArgument
  | Some (neg, m) => if m <? 2 ^ 64 then Number (if neg then u64 (- m) else m) else OutOfRange
  end.

(** ** Reading what was printed *)

Definition digit (c : Z) : Prop := is_digit c = true.

Lemma digit_char x : (x < 10)%N -> Z.of_N (Ascii.N_of_ascii (pretty_N_char x)) = 48 + Z.of_N x.
Proof.
  intros H. assert (x = 0 \/ x = 1 \/ x = 2 \/ x = 3 \/ x = 4 \/ x = 5 \/ x = 6 \/ x = 7 \/ x = 8 \/ x = 9)%N as Hx by lia.
  naive_solver.
Qed.

Lemma value_from_app a l k : value_from a (l ++ k) = value_from (value_from a l) k.
Proof. apply foldl_app. Qed.

(** The digits of a positive number in front of a text. *)
Lemma pretty_go_spec x s : exists ds, bytes_of_string (pretty_N_go x s) = ds ++ bytes_of_string s /\
  Forall digit ds /\ value ds = Z.of_N x /\ (x <> 0%N -> ds <> []).
Proof.
  revert s. induction (N.lt_wf_0 x) as [x _ IH]. intros s.
  destruct (decide (x = 0)%N) as [->|Hx]; [exists []; by rewrite pretty_N_go_0|].
  rewrite pretty_N_go_step by lia.   assert (x `div` 10 < x)%N as Hlt by (apply N.div_lt; lia).
  destruct (IH (x `div` 10)%N Hlt (String (pretty_N_char (x `mod` 10)) s)) as (ds & E & Hd & Hv & _).
  pose proof (N.mod_lt x 10 ltac:(done)) as Hm. pose proof (digit_char _ Hm) as Hc.
  pose proof (N.div_mod x 10 ltac:(done)) as Hdm. clear IH Hlt.
  revert Hm Hc Hdm E Hv. generalize (x `mod` 10)%N as r, (x `div` 10)%N as q. intros r q Hm Hc Hdm E Hv.
  exists (ds ++ [48 + Z.of_N r]). split_and!.
  - rewrite E, <- app_assoc. unfold bytes_of_string. cbn. by rewrite Hc.
  - apply Forall_app. split; [done|]. constructor; [|constructor]. unfold digit, is_digit.
    apply andb_true_intro. split; apply Z.leb_le; lia.
  - unfold value in *. rewrite value_from_app, Hv. cbn. lia.
  - intros _ H. by apply app_eq_nil in H as [_ ?].
Qed.

Lemma to_string_spec n : 0 <= n -> Forall digit (to_string n) /\ value (to_string n) = n /\ to_string n <> [].
Proof.
  intros Hn. unfold to_string, pretty, pretty_N. destruct (decide (Z.to_N n = 0)%N) as [H0|H0].
  { assert (n = 0) as -> by lia. split_and!; [by repeat constructor|done|done]. }
  destruct (pretty_go_spec (Z.to_N n) "") as (ds & -> & Hd & Hv & Hne). cbn [bytes_of_string]. rewrite app_nil_r.
  split_and!; [done|lia|auto].
Qed.

Lemma digits_app ds rest : Forall digit ds -> match rest with [] => True | c :: _ => is_digit c = false end ->
  digits (ds ++ rest) = ds.
Proof.
  intros H Hr. induction H as [|c ds Hc _ IH]; cbn; [destruct rest; [done|by cbn; rewrite Hr]|].
  unfold digit in Hc. by rewrite Hc, IH.
Qed.

(** A printed number is read back, whatever follows that is not a digit. *)
Lemma read_printed n rest : 0 <= n -> match rest with [] => True | c :: _ => is_digit c = false end ->
  value (digits (to_string n ++ rest)) = n.
Proof. intros Hn Hr. destruct (to_string_spec n Hn) as (Hd & Hv & _). by rewrite digits_app. Qed.

Lemma sign_printed n : 0 <= n -> sign_and_magnitude (to_string n) = Some (false, n).
Proof.
  intros Hn. destruct (to_string_spec n Hn) as (Hd & Hv & Hne). unfold sign_and_magnitude.
  pose proof (digits_app (to_string n) [] Hd I) as Ha. rewrite app_nil_r in Ha.
  destruct (to_string n) as [|c l]; [done|]. assert (48 <= c <= 57) as Hc.
  { apply Forall_cons in Hd as [Hc _]. unfold digit, is_digit in Hc.
    apply andb_true_iff in Hc as [H1%Z.leb_le H2%Z.leb_le]. lia. }
  assert (skip_spaces (c :: l) = c :: l) as ->.
  { cbn. unfold is_space. destruct (Z.eqb_spec c 32); [lia|]. destruct (Z.leb_spec 9 c), (Z.leb_spec c 13); cbn; try done; lia. }
  assert ((match c :: l with 45 :: l => (true, l) | 43 :: l => (false, l) | _ => (false, c :: l) end) = (false, c :: l)) as ->.
  { do 6 (destruct c as [|c|c]; try done; try lia). }
  rewrite Ha. cbv beta iota. by rewrite Hv.
Qed.

Lemma stoi_printed n : 0 <= n < 2 ^ 31 -> stoi (to_string n) = Number n.
Proof.
  intros Hn. unfold stoi. rewrite sign_printed by lia.
  rewrite (proj2 (Z.leb_le _ _)), (proj2 (Z.ltb_lt _ _)) by lia. done.
Qed.

Lemma stoul_printed n : 0 <= n < 2 ^ 64 -> stoul (to_string n) = Number n.
Proof. intros Hn. unfold stoul. rewrite sign_printed by lia. by rewrite (proj2 (Z.ltb_lt _ _)) by lia. Qed.

End Decimal.
