(* ===== verification/Logger.v ===== *)
(** * The logger (tight/include/tight/logger.hpp)

    One logger per process: a threshold, and one line per message at or above
    it. What std::localtime and std::put_time make of a time is a parameter;
    texts are lists of bytes. *)
From stdpp Require Import base list numbers option strings.
From Stdlib Require Import ZArith Lia.
From S2P Require Import Prelude Packets Decimal.

Local Open Scope Z_scope.
Import Packets Decimal.

Module Logger.

Inductive LogLevel := Debug | Info | Warn | Error | Fatal.

Global Instance LogLevel_eq_dec : EqDecision LogLevel.
Proof. solve_decision. Defined.

(** The values of the enumeration, which [<] compares. *)
Definition level_code (l : LogLevel) : Z :=
  match l with Debug => 0 | Info => 1 | Warn => 2 | Error => 3 | Fatal => 4 end.

Definition prefix (l : LogLevel) : bytes :=
  bytes_of_string match l with
                  | Debug => "DEBUG" | Info => "INFO " | Warn => "WARN " | Error => "ERROR" | Fatal => "FATAL"
                  end.

(** [std::setfill('0') << std::setw(3)]. *)
Definition pad3 (text : bytes) : bytes := replicate (3 - length text) 48 ++ text.

Section Log.
Context (put_time : Z -> bytes).

(** [now] is the system clock in milliseconds since the epoch. *)
Definition log_line (lv : LogLevel) (msg : bytes) (now : Z) : bytes :=
  put_time (Z.quot now 1000) ++ bytes_of_string "." ++ pad3 (to_string (Z.rem now 1000)) ++
  bytes_of_string " [" ++ prefix lv ++ bytes_of_string "] " ++ msg ++ [10].

(** The threshold and what was written to std::cerr. *)
Record Logger := mkLogger { m_level : LogLevel; written : list bytes }.

Definition new_logger : Logger := mkLogger Info [].

Definition set_level (level : LogLevel) (s : Logger) : Logger := mkLogger level (written s).

Definition log (lv : LogLevel) (msg : bytes) (now : Z) (s : Logger) : Logger :=
  if level_code lv <? level_code (m_level s) then s
  else mkLogger (m_level s) (written s ++ [log_line lv msg now]).

(** ** What is written *)

Inductive call := SetLevel (level : LogLevel) | Log (lv : LogLevel) (msg : bytes) (now : Z).

Definition perform (s : Logger) (c : call) : Logger :=
  match c with SetLevel l => set_level l s | Log lv msg now => log lv msg now s end.

(** The threshold that a call meets: the last one set before it. *)
Definition threshold_after (calls : list call) : LogLevel :=
  default Info (last (omap (fun c => match c with SetLevel l => Some l | _ => None end) calls)).

(** The lines of a list of calls after [before]. *)
Fixpoint lines (before calls : list call) : list bytes :=
  match calls with
  | [] => []
  | c :: calls =>
      match c with
      | Log lv msg now => if level_code lv <? level_code (threshold_after before) then [] else [log_line lv msg now]
      | SetLevel _ => []
      end ++ lines (before ++ [c]) calls
  end.

Lemma threshold_snoc before c :
  threshold_after (before ++ [c]) = match c with SetLevel l => l | Log _ _ _ => threshold_after before end.
Proof.
  unfold threshold_after. rewrite omap_app. destruct c; simpl; [by rewrite last_snoc|by rewrite app_nil_r].
Qed.

Lemma log_from before calls s : m_level s = threshold_after before ->
  written (foldl perform s calls) = written s ++ lines before calls.
Proof.
  revert before s. induction calls as [|c calls IH]; intros before s Hl; cbn [foldl lines].
  { by rewrite app_nil_r. }
  rewrite (IH (before ++ [c])).
  - rewrite app_assoc. f_equal. destruct c; cbn [perform set_level log written]; [by rewrite app_nil_r|].
    unfold log. rewrite Hl. destruct (_ <? _); [by rewrite app_nil_r|done].
  - rewrite threshold_snoc. destruct c; cbn [perform set_level m_level]; [done|]. unfold log. by destruct (_ <? _).
Qed.

(** Exactly the messages at or above the threshold in force are written, in
    order. *)
Theorem log_filtered calls : written (foldl perform new_logger calls) = lines [] calls.
Proof. by rewrite (log_from [] calls new_logger). Qed.

(** ** Reading a line *)

Lemma length_pad3 text : length (pad3 text) = Nat.max 3 (length text).
Proof. unfold pad3. rewrite length_app, length_replicate. lia. Qed.

Lemma to_string_short n : 0 <= n < 1000 -> (length (to_string n) <= 3)%nat.
Proof.
  intros Hn. assert (forallb (fun k => length (to_string (Z.of_nat k)) <=? 3)%nat (seq 0 1000) = true) as HF
    by (vm_compute; reflexivity).
  rewrite forallb_forall in HF. specialize (HF (Z.to_nat n)). rewrite Z2Nat.id in HF by lia.
  apply Nat.leb_le, HF, in_seq. lia.
Qed.

Definition read_level (text : bytes) : option LogLevel :=
  list_find (fun l => prefix l = text) [Debug; Info; Warn; Error; Fatal] ≫= fun '(_, l) => Some l.

(** The level and the message of a line. *)
Definition read_line (line : bytes) : option (LogLevel * bytes) :=
  lv ← read_level (take 5 (drop 25 line)); Some (lv, take (length line - 33) (drop 32 line)).

Lemma read_level_prefix l : read_level (prefix l) = Some l.
Proof. by destruct l. Qed.

(** A line can be read back: where the time takes its 19 characters and the
    clock is past the epoch, level and message stand at fixed columns. *)
Theorem line_readable lv msg now (Hwidth : length (put_time (Z.quot now 1000)) = 19%nat) (Hnow : 0 <= now) :
  read_line (log_line lv msg now) = Some (lv, msg).
Proof.
  unfold log_line. set (ms := pad3 _).
  assert (length ms = 3%nat) as Hms.
  { unfold ms. rewrite length_pad3. pose proof (Z.rem_bound_pos now 1000). pose proof (to_string_short (Z.rem now 1000)). lia. }
  set (head := put_time (Z.quot now 1000) ++ bytes_of_string "." ++ ms ++ bytes_of_string " [").
  assert (length head = 25%nat) as Hh by (unfold head; rewrite !length_app, Hwidth, Hms; done).
  assert (length (prefix lv) = 5%nat) as Hp by (by destruct lv).
  replace (put_time (Z.quot now 1000) ++ _) with (head ++ prefix lv ++ bytes_of_string "] " ++ msg ++ [10])
    by (unfold head; by rewrite <- !app_assoc).
  unfold read_line. rewrite <- Hh at 1. rewrite drop_app_length, take_app_length' by done.
  rewrite read_level_prefix. cbn [mbind option_bind]. do 2 f_equal.
  rewrite !length_app, Hh, Hp. cbn [length].
  replace (head ++ prefix lv ++ bytes_of_string "] " ++ msg ++ [10])
    with ((head ++ prefix lv ++ bytes_of_string "] ") ++ msg ++ [10]) by (by rewrite <- !app_assoc).
  rewrite drop_app_length' by (by rewrite !length_app, Hh, Hp).
  apply take_app_length'. change (length (bytes_of_string "] ")) with 2%nat. lia.
Qed.
End Log.
End Logger.
