(* ===== verification/GatewayText.v ===== *)
(** * Messages of the gateway and their text form (gateway_types.hpp, gateway_server.hpp)

    The message types, the field extraction, the classification of what a
    device sends and the formatting of what it receives. A std::string is a
    list of bytes. *)
From stdpp Require Import base list numbers option sets strings.
From Stdlib Require Import ZArith Lia.
From S2P Require Import Prelude Packets.

Local Open Scope Z_scope.
Import Packets.

Module GatewayText.

Notation str := (list Z) (only parsing).

(** ** Messages *)

Inductive MessageDirection := DeviceToGateway | GatewayToDevice | DownstreamIn | DownstreamOut.

Inductive GatewayMessageType :=
  | kDeviceHello | kDeviceConfigUpdate | kDeviceFunctionCallOutput | kDeviceAudioFrame
  | kDeviceAudioBoundary | kDeviceBye | kDevicePing
  | kToDeviceHelloAck | kToDeviceHelloErr | kToDeviceStatus | kToDeviceEvent | kToDeviceText
  | kToDeviceFunctionCall | kToDeviceConfigAck | kToDeviceConfigErr | kToDeviceAudioChunk | kToDevicePong
  | kInternalSessionCreated | kInternalSessionClosed | kInternalRateLimit | kInternalAuthResult
  | kInternalHeartbeatTick.

Global Instance GatewayMessageType_eq_dec : EqDecision GatewayMessageType.
Proof. solve_decision. Defined.

Definition message_code (t : GatewayMessageType) : Z :=
  match t with
  | kDeviceHello => 0 | kDeviceConfigUpdate => 1 | kDeviceFunctionCallOutput => 2
  | kDeviceAudioFrame => 3 | kDeviceAudioBoundary => 4 | kDeviceBye => 5 | kDevicePing => 6
  | kToDeviceHelloAck => 100 | kToDeviceHelloErr => 101 | kToDeviceStatus => 102
  | kToDeviceEvent => 103 | kToDeviceText => 104 | kToDeviceFunctionCall => 105
  | kToDeviceConfigAck => 106 | kToDeviceConfigErr => 107 | kToDeviceAudioChunk => 108
  | kToDevicePong => 109 | kInternalSessionCreated => 200 | kInternalSessionClosed => 201
  | kInternalRateLimit => 202 | kInternalAuthResult => 203 | kInternalHeartbeatTick => 204
  end.

(** The table of names as it is written: seven names, 99 null pointers, ten
    names. *)
Definition kGatewayMessageTypeNames : list (option string) :=
  (Some <$> ["device_hello"; "config_update"; "function_call_output"; "audio_frame"; "audio_boundary";
             "bye"; "ping"]%string) ++
  replicate 99 None ++
  (Some <$> ["hello_ack"; "hello_err"; "status"; "event"; "text"; "function_call"; "config_update_ack";
             "config_update_err"; "audio_chunk"; "pong"]%string).

Record GatewayMessage := mkMessage {
  m_type : GatewayMessageType;
  m_direction : MessageDirection;
  m_device_id : str;
  m_session_id : str;
  m_payload : str;
  m_timestamp_ms : Z;
  m_sequence : Z }.

Definition empty_message : GatewayMessage := mkMessage kDeviceHello DeviceToGateway [] [] [] 0 0.

(** ** Searching *)

(** The double quote. *)
Definition quote : Z := 34.

Definition lit (s : string) : str := bytes_of_string s.

(** A quoted word. *)
Definition quoted (s : str) : str := [quote] ++ s ++ [quote].

Fixpoint starts_with (pat l : str) : bool :=
  match pat, l with
  | [], _ => true
  | x :: pat, y :: l => (x =? y) && starts_with pat l
  | _ :: _, [] => false
  end.

(** [std::string::find]. *)
Fixpoint find (pat l : str) : option nat :=
  if starts_with pat l then Some O else
  match l with [] => None | _ :: l => S <$> find pat l end.

Definition contains (pat l : str) : bool := match find pat l with Some _ => true | None => false end.

(** The text that follows the key, up to the next quote. *)
Definition field_after (json search : str) : option str :=
  pos ← find search json;
  Some (let rest := drop (pos + length search) json in
        match find [quote] rest with None => [] | Some e => take e rest end).

Definition extract_json_field (json key : str) : str :=
  match field_after json (quoted key ++ lit ":" ++ [quote]) with
  | Some v => v
  | None => default [] (field_after json (quoted key ++ lit ": " ++ [quote]))
  end.

(** ** What a device sends *)

Definition parse_upstream_json (peer_id payload : str) (now : Z) : GatewayMessage :=
  let message t dev := mkMessage t DeviceToGateway dev [] payload now 0 in
  let dev := extract_json_field payload (lit "device_id") in
  if contains (quoted (lit "hello")) payload || contains (quoted (lit "product_id")) payload then
    let name := extract_json_field payload (lit "device_name") in
    message kDeviceHello (if bool_decide (name = []) then peer_id else name)
  else if contains (quoted (lit "config_update")) payload then message kDeviceConfigUpdate dev
  else if contains (quoted (lit "function_call_output")) payload then message kDeviceFunctionCallOutput dev
  else if contains (quoted (lit "audio_boundary")) payload then message kDeviceAudioBoundary dev
  else if contains (quoted (lit "bye")) payload then message kDeviceBye dev
  else if contains (quoted (lit "ping")) payload then message kDevicePing dev
  else message kDeviceAudioFrame peer_id.

(** ** What a device receives *)

(** ["key":"value"]. *)
Definition field (key : string) (value : str) : str := quoted (lit key) ++ lit ":" ++ quoted value.

Definition braces (body : str) : str := lit "{" ++ body ++ lit "}".

Definition format_downstream_json (msg : GatewayMessage) : str :=
  let pl := m_payload msg in
  let session := field "session_id" (m_session_id msg) in
  match m_type msg with
  | kToDeviceHelloAck =>
      braces (field "type" (lit "hello_ack") ++ lit "," ++ field "device_id" (m_device_id msg) ++
              lit "," ++ session)
  | kToDeviceHelloErr =>
      braces (field "type" (lit "hello_err") ++ lit "," ++ field "device_id" (m_device_id msg) ++
              lit "," ++ quoted (lit "body") ++ lit ":" ++ braces (field "code" pl))
  | kToDeviceStatus => braces (field "type" (lit "status") ++ lit "," ++ field "status" pl ++ lit "," ++ session)
  | kToDeviceEvent => braces (field "type" (lit "event") ++ lit "," ++ field "event" pl ++ lit "," ++ session)
  | kToDeviceText => braces (field "type" (lit "text") ++ lit "," ++ field "content" pl ++ lit "," ++ session)
  | kToDeviceFunctionCall => braces (field "type" (lit "function_call") ++ lit "," ++ pl ++ lit "," ++ session)
  | kToDeviceConfigAck =>
      braces (field "type" (lit "config_update_ack") ++ lit "," ++ field "result" (lit "ok") ++ lit "," ++ session)
  | kToDeviceConfigErr =>
      braces (field "type" (lit "config_update_err") ++ lit "," ++ field "code" pl ++ lit "," ++ session)
  | kToDevicePong => braces (field "type" (lit "pong") ++ lit "," ++ session)
  | _ => pl
  end.

(** [serialize_downstream]: nothing is sent when the text is empty. *)
Definition serialize_downstream (msg : GatewayMessage) : str := format_downstream_json msg.
(** ** Segments *)

(** A text as its segments between quotes. *)
Fixpoint unsplit (s : str) (segs : list str) : str :=
  match segs with [] => s | t :: segs => s ++ [quote] ++ unsplit t segs end.

Definition plain (s : str) : Prop := quote ∉ s.

Global Instance plain_dec s : Decision (plain s).
Proof. unfold plain. apply _. Defined.

(** The value under [key]: the segment after [key] and a separator [sep];
    empty when the text ends before the closing quote. *)
Fixpoint seg_value (key sep : str) (segs : list str) : option str :=
  match segs with
  | s1 :: ((s2 :: s3 :: rest) as tl) =>
      if bool_decide (s1 = key /\ s2 = sep) then Some (if rest is [] then [] else s3)
      else seg_value key sep tl
  | _ => None
  end.

Lemma starts_with_spec pat l : starts_with pat l = true <-> exists r, l = pat ++ r.
Proof.
  revert l. induction pat as [|x pat IH]; intros l; cbn [starts_with].
  - split; [by exists l|done].
  - destruct l as [|y l]; [split; [done|by intros [? ?]]|]. rewrite andb_true_iff, Z.eqb_eq, IH. split.
    + intros [<- [r ->]]. by exists r.
    + intros [r [= -> ->]]. split; [done|by exists r].
Qed.

(** Two texts split at their first quote. *)
Lemma first_quote a b x y : plain a -> plain b -> a ++ quote :: x = b ++ quote :: y -> a = b /\ x = y.
Proof.
  unfold plain. revert b. induction a as [|c a IH]; intros [|d b] Ha Hb E; cbn in E.
  - by injection E.
  - injection E as <- _. set_solver.
  - injection E as -> _. set_solver.
  - injection E as <- E. destruct (IH b) as [-> ->]; [set_solver..|done|done].
Qed.

Lemma find_cons pat c l : starts_with pat (c :: l) = false -> find pat (c :: l) = S <$> find pat l.
Proof. intros H. cbn [find]. by rewrite H. Qed.

(** A pattern that begins with a quote is not found in plain text. *)
Lemma find_skip pat s l : plain s -> find (quote :: pat) (s ++ l) = (fun i => length s + i)%nat <$> find (quote :: pat) l.
Proof.
  intros Hs. induction s as [|c s IH]; cbn [app length]; [by destruct (find _ l)|].
  unfold plain in Hs. rewrite find_cons.
  - rewrite IH by (unfold plain; set_solver). by destruct (find _ l).
  - cbn [starts_with]. apply andb_false_iff. left. apply Z.eqb_neq. set_solver.
Qed.

(** The search pattern at a quote: the next two segments decide. *)
Lemma starts_with_key key sep t segs : plain key -> plain sep -> Forall plain (t :: segs) ->
  starts_with (quoted key ++ sep ++ [quote]) (quote :: unsplit t segs) = true <->
  exists s2 s3 rest, segs = s2 :: s3 :: rest /\ t = key /\ s2 = sep.
Proof.
  intros Hk Hsep HF. rewrite starts_with_spec. unfold quoted. cbn [app]. rewrite <- !app_assoc. cbn [app].
  apply Forall_cons in HF as [Ht HF]. split.
  - intros [r E]. injection E as E. destruct segs as [|s2 segs]; cbn [unsplit] in E.
    { exfalso. apply Ht. rewrite E. set_solver. }
    rewrite <- !app_assoc in E. cbn [app] in E.
    apply first_quote in E as [-> E]; [|done..]. apply Forall_cons in HF as [H2 HF].
    rewrite <- app_assoc in E. cbn [app] in E. destruct segs as [|s3 rest]; cbn [unsplit] in E.
    { exfalso. apply H2. rewrite E. set_solver. }
    apply first_quote in E as [-> _]; [|done..]. by exists sep, s3, rest.
  - intros (s2 & s3 & rest & -> & -> & ->). exists (unsplit s3 rest). cbn [unsplit]. by simplify_list_eq.
Qed.

Lemma find_quote_segs s segs : plain s ->
  find [quote] (unsplit s segs) = match segs with [] => None | _ :: _ => Some (length s) end.
Proof.
  intros Hs. destruct segs as [|t segs]; cbn [unsplit].
  - rewrite <- (app_nil_r s), find_skip by done. done.
  - rewrite find_skip by done. cbn [app find starts_with]. rewrite Z.eqb_refl. cbn. f_equal. lia.
Qed.

(** Extraction reads the segments. *)
Lemma field_after_segs key sep s segs : plain key -> plain sep -> Forall plain (s :: segs) ->
  field_after (unsplit s segs) (quoted key ++ sep ++ [quote]) = seg_value key sep segs.
Proof.
  intros Hk Hsep. revert s. induction segs as [|t segs IH]; intros s HF.
  - apply Forall_cons in HF as [Hs _]. cbn [unsplit seg_value]. unfold field_after.
    rewrite <- (app_nil_r s). unfold quoted. cbn [app]. by rewrite find_skip.
  - apply Forall_cons in HF as [Hs HF]. cbn [unsplit]. unfold field_after.
    pose proof (starts_with_key key sep t segs Hk Hsep HF) as Hst.
    assert (exists p, quoted key ++ sep ++ [quote] = quote :: p) as [p Hp] by (unfold quoted; cbn [app]; eauto).
    rewrite Hp in *. rewrite find_skip by done. cbn [app].
    destruct (starts_with (quote :: p) (quote :: unsplit t segs)) eqn:E.
    + destruct (proj1 Hst eq_refl) as (s2 & s3 & rest & -> & -> & ->). cbn [seg_value].
      rewrite bool_decide_true by done. cbn [find]. rewrite E. cbn [fmap option_fmap option_map mbind option_bind].
      f_equal. replace (length s + 0)%nat with (length s) by lia. rewrite <- drop_drop, drop_app_length.
      assert (drop (length (quote :: p)) (quote :: unsplit key (sep :: s3 :: rest)) = unsplit s3 rest) as ->.
      { rewrite <- Hp. cbn [unsplit]. replace (quote :: key ++ [quote] ++ sep ++ [quote] ++ unsplit s3 rest)
          with ((quoted key ++ sep ++ [quote]) ++ unsplit s3 rest); [apply drop_app_length|].
        unfold quoted. by simplify_list_eq. }
      rewrite !Forall_cons in HF. rewrite find_quote_segs by tauto. destruct rest as [|s4 rest]; [done|].
      cbn [unsplit]. apply take_app_length.
    + rewrite find_cons by done. specialize (IH t HF). unfold field_after in IH.
      assert (seg_value key sep (t :: segs) = seg_value key sep segs) as ->.
      { cbn [seg_value]. destruct segs as [|s2 [|s3 rest]]; [done|done|].
        rewrite bool_decide_false; [done|]. intros [-> ->].
        enough (false = true) by done. apply Hst. by exists sep, s3, rest. }
      rewrite <- IH. destruct (find (quote :: p) (unsplit t segs)) as [i|]; [|done].
      cbn [fmap option_fmap option_map mbind option_bind]. f_equal.
      replace (length s + S i + length (quote :: p))%nat with (length s + S (i + length (quote :: p)))%nat by lia.
      rewrite <- drop_drop, drop_app_length. cbn [drop]. done.
Qed.
Lemma lit_plain_colon : plain (lit ":") /\ plain (lit ": ").
Proof. split; vm_compute; set_solver. Qed.

Lemma extract_segs key s segs : plain key -> Forall plain (s :: segs) ->
  extract_json_field (unsplit s segs) key =
  match seg_value key (lit ":") segs with
  | Some v => v
  | None => default [] (seg_value key (lit ": ") segs)
  end.
Proof.
  intros Hk HF. destruct lit_plain_colon. unfold extract_json_field. by rewrite !field_after_segs.
Qed.

(** The words of a text: the segments that have a quote on both sides. *)
Definition words (segs : list str) : list str := take (length segs - 1) segs.

Lemma words_cons t s2 segs : words (t :: s2 :: segs) = t :: words (s2 :: segs).
Proof. unfold words. cbn. by rewrite Nat.sub_0_r. Qed.

Lemma contains_words w s segs : plain w -> Forall plain (s :: segs) ->
  contains (quoted w) (unsplit s segs) = bool_decide (w ∈ words segs).
Proof.
  intros Hw. unfold contains. revert s. induction segs as [|t segs IH]; intros s HF.
  - apply Forall_cons in HF as [Hs _]. cbn [unsplit]. unfold quoted, words. cbn [app].
    rewrite <- (app_nil_r s), find_skip by done. cbn. rewrite bool_decide_false; [done|]. set_solver.
  - apply Forall_cons in HF as [Hs HF]. cbn [unsplit]. unfold quoted. cbn [app]. rewrite find_skip by done.
    fold (quoted w). destruct (starts_with (quote :: w ++ [quote]) (quote :: unsplit t segs)) eqn:E.
    + cbn [find]. rewrite E. cbn [fmap option_fmap option_map]. rewrite bool_decide_true; [done|].
      apply starts_with_spec in E as [r E]. cbn [app] in E. injection E as E. apply Forall_cons in HF as [Ht HF].
      destruct segs as [|s2 segs]; cbn [unsplit] in E.
      { exfalso. apply Ht. rewrite E. set_solver. }
      rewrite <- app_assoc in E. cbn [app] in E. apply first_quote in E as [-> _]; [|done..].
      rewrite words_cons. by left.
    + rewrite find_cons by done. specialize (IH t HF). unfold quoted in IH. cbn [app] in IH.
      assert (bool_decide (w ∈ words (t :: segs)) = bool_decide (w ∈ words segs)) as ->.
      { apply bool_decide_ext. destruct segs as [|s2 segs]; [done|]. rewrite words_cons, elem_of_cons.
        split; [|by right]. intros [->|?]; [|done]. exfalso. enough (starts_with (quote :: t ++ [quote]) (quote :: unsplit t (s2 :: segs)) = true) by congruence.
        apply starts_with_spec. exists (unsplit s2 segs). cbn [unsplit]. by simplify_list_eq. }
      rewrite <- IH. by destruct (find _ (unsplit t segs)).
Qed.

(** Every text has segments. *)
Lemma text_segments (t : str) : exists s segs, t = unsplit s segs /\ Forall plain (s :: segs).
Proof.
  induction t as [|c t (s & segs & -> & HF)].
  { exists [], []. split; [done|]. constructor; [|done]. unfold plain. set_solver. }
  destruct (decide (c = quote)) as [->|Hc].
  - exists [], (s :: segs). split; [done|]. constructor; [unfold plain; set_solver|done].
  - apply Forall_cons in HF as [Hs HF]. exists (c :: s), segs. split; [by destruct segs|].
    constructor; [|done]. unfold plain in *. set_solver.
Qed.

(** A plain end belongs to the last segment. *)
Lemma closed_segments t segs : plain t -> forall s, Forall plain (s :: segs) ->
  exists s' segs', unsplit s segs ++ t = unsplit s' segs' /\ Forall plain (s' :: segs') /\ words segs' = words segs /\
    length segs' = length segs /\ s' = if segs is [] then s ++ t else s.
Proof.
  intros Ht. induction segs as [|x segs IH]; intros s HF; apply Forall_cons in HF as [Hs HF].
  - exists (s ++ t), []. split_and!; try done. constructor; [|done]. unfold plain in *. set_solver.
  - destruct (IH x HF) as (x' & segs' & E & HF' & Hw & Hl & Hx). exists s, (x' :: segs'). split_and!; try done.
    + cbn [unsplit]. by rewrite <- !app_assoc, E.
    + by constructor.
    + destruct segs as [|y segs]; [by destruct segs'|]. destruct segs' as [|y' segs']; [done|].
      subst x'. by rewrite !words_cons, Hw.
    + cbn. by rewrite Hl.
Qed.

(** ** What the formatting promises *)

Lemma extract_literal key s segs v : plain key -> Forall plain (s :: segs) ->
  seg_value key (lit ":") segs = Some v -> extract_json_field (unsplit s segs) key = v.
Proof. intros Hk HF E. rewrite extract_segs by done. by rewrite E. Qed.

(** A concrete text is plain by computation. *)
Definition plainb (s : str) : bool := forallb (fun c => negb (c =? quote)) s.

Lemma plainb_ok s : plainb s = true -> plain s.
Proof.
  intros H Hin. unfold plainb in H. rewrite forallb_forall in H. specialize (H quote ltac:(by apply list_elem_of_In)). done.
Qed.

Ltac plain_literal := first [assumption | apply plainb_ok; vm_compute; reflexivity].
Ltac plain_literals := repeat (apply Forall_cons_2; [plain_literal|]); apply Forall_nil_2.

(** Compares the key with each segment in turn. *)
Ltac next_segment :=
  cbn [seg_value];
  first
    [ rewrite bool_decide_true by (split; reflexivity)
    | rewrite bool_decide_false by (let H1 := fresh in let H2 := fresh in
        intros [H1 H2]; first [by vm_compute in H2; discriminate | by vm_compute in H1; discriminate]) ].

Ltac field_found := apply extract_literal; [plain_literal|plain_literals|repeat next_segment; reflexivity].

Definition seg (s : string) : str := lit s.

(** Segments of an object from the segments of its fields. *)
Ltac segments l :=
  match goal with |- context [braces ?b] =>
    replace (braces b) with (unsplit (seg "{") l)
      by (unfold braces, field, quoted, seg; cbn [unsplit]; by simplify_list_eq)
  end.

(** What a device reads in a message: the type, and the fields that carry its
    contents. *)
Definition reads (json : str) (key : string) (value : str) : Prop := extract_json_field json (lit key) = value.

Definition faithful (msg : GatewayMessage) : Prop :=
  let json := format_downstream_json msg in
  let pl := m_payload msg in
  match m_type msg with
  | kToDeviceHelloAck =>
      reads json "type" (lit "hello_ack") /\ reads json "device_id" (m_device_id msg) /\
      reads json "session_id" (m_session_id msg)
  | kToDeviceHelloErr =>
      reads json "type" (lit "hello_err") /\ reads json "device_id" (m_device_id msg) /\ reads json "code" pl
  | kToDeviceStatus =>
      reads json "type" (lit "status") /\ reads json "status" pl /\ reads json "session_id" (m_session_id msg)
  | kToDeviceEvent =>
      reads json "type" (lit "event") /\ reads json "event" pl /\ reads json "session_id" (m_session_id msg)
  | kToDeviceText =>
      reads json "type" (lit "text") /\ reads json "content" pl /\ reads json "session_id" (m_session_id msg)
  | kToDeviceConfigAck =>
      reads json "type" (lit "config_update_ack") /\ reads json "session_id" (m_session_id msg)
  | kToDeviceConfigErr =>
      reads json "type" (lit "config_update_err") /\ reads json "code" pl /\
      reads json "session_id" (m_session_id msg)
  | kToDevicePong => reads json "type" (lit "pong") /\ reads json "session_id" (m_session_id msg)
  | _ => json = pl \/ m_type msg = kToDeviceFunctionCall
  end.

(** Messages to devices say what they carry: reading the type, the
    identifiers and the content back from the formatted text returns them
    unchanged, for every message type with fields, provided they contain no
    quotes. *)
Theorem downstream_roundtrip msg
  (Hd : plain (m_device_id msg)) (Hs : plain (m_session_id msg)) (Hp : plain (m_payload msg)) :
  faithful msg.
Proof.
  destruct msg as [t dir dev sess pl ts sq]. cbn [m_device_id m_session_id m_payload] in *.
  unfold faithful, reads, format_downstream_json.
  destruct t; cbn [m_type m_device_id m_session_id m_payload]; try (by left); try (by right).
  - segments [seg "type"; seg ":"; seg "hello_ack"; seg ","; seg "device_id"; seg ":"; dev; seg ",";
      seg "session_id"; seg ":"; sess; seg "}"]. split_and!; field_found.
  - segments [seg "type"; seg ":"; seg "hello_err"; seg ","; seg "device_id"; seg ":"; dev; seg ",";
      seg "body"; seg ":{"; seg "code"; seg ":"; pl; seg "}}"]. split_and!; field_found.
  - segments [seg "type"; seg ":"; seg "status"; seg ","; seg "status"; seg ":"; pl; seg ",";
      seg "session_id"; seg ":"; sess; seg "}"]. split_and!; field_found.
  - segments [seg "type"; seg ":"; seg "event"; seg ","; seg "event"; seg ":"; pl; seg ",";
      seg "session_id"; seg ":"; sess; seg "}"]. split_and!; field_found.
  - segments [seg "type"; seg ":"; seg "text"; seg ","; seg "content"; seg ":"; pl; seg ",";
      seg "session_id"; seg ":"; sess; seg "}"]. split_and!; field_found.
  - segments [seg "type"; seg ":"; seg "config_update_ack"; seg ","; seg "result"; seg ":"; seg "ok"; seg ",";
      seg "session_id"; seg ":"; sess; seg "}"]. split_and!; field_found.
  - segments [seg "type"; seg ":"; seg "config_update_err"; seg ","; seg "code"; seg ":"; pl; seg ",";
      seg "session_id"; seg ":"; sess; seg "}"]. split_and!; field_found.
  - segments [seg "type"; seg ":"; seg "pong"; seg ","; seg "session_id"; seg ":"; sess; seg "}"].
    split_and!; field_found.
Qed.

Lemma downstream_roundtrip_witness :
  faithful (mkMessage kToDeviceHelloAck GatewayToDevice (lit "dev-1") (lit "s-7") [] 0 0).
Proof. apply downstream_roundtrip; vm_compute; set_solver. Defined.

(** Nothing is escaped: a device identifier that contains quotes adds
    fields of its own to the text, and a device that reads the session
    identifier gets the forged one. *)
Theorem unescaped_identifier dev forged sess
  (Hd : plain dev) (Hf : plain forged) (Hs : plain sess) :
  reads (format_downstream_json
    (mkMessage kToDeviceHelloAck GatewayToDevice
       (dev ++ [quote] ++ lit "," ++ quoted (lit "session_id") ++ lit ":" ++ [quote] ++ forged) sess [] 0 0))
    "session_id" forged.
Proof.
  unfold reads, format_downstream_json. cbn [m_type m_device_id m_session_id m_payload].
  segments [seg "type"; seg ":"; seg "hello_ack"; seg ","; seg "device_id"; seg ":"; dev; seg ",";
      seg "session_id"; seg ":"; forged; seg ","; seg "session_id"; seg ":"; sess; seg "}"]. field_found.
Qed.

Lemma unescaped_identifier_witness :
  reads (format_downstream_json
    (mkMessage kToDeviceHelloAck GatewayToDevice
       (lit "d" ++ [quote] ++ lit "," ++ quoted (lit "session_id") ++ lit ":" ++ [quote] ++ lit "evil")
       (lit "s-7") [] 0 0)) "session_id" (lit "evil").
Proof. apply unescaped_identifier; vm_compute; set_solver. Defined.
(** ** How messages from devices are classified *)

(** Every text has segments. *)
Lemma every_text l : exists s segs, l = unsplit s segs /\ Forall plain (s :: segs).
Proof.
  induction l as [|c l (s & segs & -> & HF)].
  - exists [], []. split; [done|]. repeat constructor. unfold plain. set_solver.
  - destruct (decide (c = quote)) as [->|Hne].
    + exists [], (s :: segs). split; [done|]. constructor; [unfold plain; set_solver|done].
    + exists (c :: s), segs. split; [by destruct segs|]. apply Forall_cons in HF as [Hs HF].
      constructor; [unfold plain in *; set_solver|done].
Qed.

(** The first of these words that occurs decides. *)
Definition kind_of (W : list str) : GatewayMessageType :=
  let has w := bool_decide (lit w ∈ W) in
  if has "hello"%string || has "product_id"%string then kDeviceHello
  else if has "config_update"%string then kDeviceConfigUpdate
  else if has "function_call_output"%string then kDeviceFunctionCallOutput
  else if has "audio_boundary"%string then kDeviceAudioBoundary
  else if has "bye"%string then kDeviceBye
  else if has "ping"%string then kDevicePing
  else kDeviceAudioFrame.

(** Classification of what devices send. The type depends only on which
    quoted words occur anywhere in the text, in a fixed order of precedence;
    binary audio is what has none of them. The payload is passed on unchanged;
    the device is the one named in the text, the peer for audio and for a hello
    without a name. In particular a configuration update in which some value is
    the word hello is taken for a hello. *)
Theorem upstream_by_words peer payload now s segs
  (Htext : payload = unsplit s segs) (HF : Forall plain (s :: segs)) :
  let msg := parse_upstream_json peer payload now in
  m_type msg = kind_of (words segs) /\ m_payload msg = payload /\ m_direction msg = DeviceToGateway /\
  m_device_id msg =
    match kind_of (words segs) with
    | kDeviceHello =>
        let name := extract_json_field payload (lit "device_name") in if decide (name = []) then peer else name
    | kDeviceAudioFrame => peer
    | _ => extract_json_field payload (lit "device_id")
    end.
Proof.
  subst payload. unfold parse_upstream_json, kind_of.
  rewrite !contains_words by (done || plain_literal). cbv zeta.
  repeat match goal with |- context [bool_decide (?w ∈ words segs)] => destruct (bool_decide (w ∈ words segs)) end;
    cbn [orb m_type m_payload m_direction m_device_id];
    rewrite ?decide_bool_decide; split_and!; try done; by case_bool_decide.
Qed.
Definition demo_segs : list str :=
  [lit "type"; lit ":"; lit "config_update"; lit ","; lit "mode"; lit ":"; lit "hello"; lit "}"].

Lemma upstream_by_words_witness :
  m_type (parse_upstream_json (lit "p") (unsplit (lit "{") demo_segs) 5) = kDeviceHello /\
  m_device_id (parse_upstream_json (lit "p") (unsplit (lit "{") demo_segs) 5) = lit "p".
Proof.
  destruct (upstream_by_words (lit "p") _ 5 (lit "{") demo_segs eq_refl) as (Ht & _ & _ & Hd).
  - unfold demo_segs. plain_literals.
  - split; [exact Ht|exact Hd].
Defined.

(** The name table has six null pointers too many: the entry for the code of
    each message to devices is missing or another message's name. *)
Lemma names_misplaced :
  kGatewayMessageTypeNames !! Z.to_nat (message_code kToDeviceHelloAck) = Some None /\
  kGatewayMessageTypeNames !! Z.to_nat (message_code kToDeviceConfigAck) = Some (Some "hello_ack"%string).
Proof. done. Qed.
End GatewayText.
