(* ===== verification/GatewayChannel.v ===== *)
(** * The gateway's inbox (gateway_channel.hpp, class CopyChannel)

    A singly linked list with a dummy head node, on an explicit heap. Waiting
    on a condition variable is a step that is not enabled. *)
From stdpp Require Import base list numbers option gmap fin_maps.
From Stdlib Require Import ZArith Lia.
From S2P Require Import Prelude BlockingQueue.

Local Open Scope Z_scope.
Import BlockingQueue.

Module GatewayChannel.

Section Channel.
Context {T : Type}.
Notation Node := (Node T).

Record channel := mkChannel {
  c_capacity : Z;
  c_count : Z;
  c_head : nat;
  c_tail : nat;
  c_closed : bool;
  c_heap : gmap nat Node }.

Definition set_count_heap n h c := mkChannel (c_capacity c) n (c_head c) (c_tail c) (c_closed c) h.

(** The constructor allocates the dummy node. *)
Definition new_channel (capacity : Z) : channel :=
  mkChannel capacity 0 0 0 false {[0%nat := mkNode None None]}.

Definition load (h : gmap nat Node) (a : nat) : res Node :=
  match h !! a with Some n => Ok n | None => Fault BadPointer end.

(** [new Node], [tail->next = node], [m_tail = node], [++m_count]. *)
Definition append_item (c : channel) (x : T) : res channel :=
  let a := fresh (dom (c_heap c)) in
  let h := <[a := mkNode (Some x) None]> (c_heap c) in
  t ← load h (c_tail c);
  Ok (mkChannel (c_capacity c) (u64 (c_count c + 1)) (c_head c) a (c_closed c)
        (<[c_tail c := mkNode (item t) (Some a)]> h)).

Definition is_full (c : channel) : bool := (0 <? c_capacity c) && (c_capacity c <=? c_count c).

Inductive reply := Nothing | Offered (b : bool) | Got (x : option T) | Batch (l : list T) | Wait | Number (n : Z).

(** [send]: a full channel makes the caller wait. *)
Definition send (c : channel) (x : T) : res (channel * reply) :=
  if c_closed c then Ok (c, Nothing) else
  if is_full c then Ok (c, Wait) else
  c ← append_item c x; Ok (c, Nothing).

Definition try_send (c : channel) (x : T) : res (channel * bool) :=
  if c_closed c then Ok (c, false) else
  if is_full c then Ok (c, false) else
  c ← append_item c x; Ok (c, true).

(** The node behind the dummy becomes the dummy; its item is moved out. *)
Definition advance (c : channel) : res (channel * option T) :=
  d ← load (c_heap c) (c_head c);
  match next d with
  | None => Ok (c, None)
  | Some a =>
      n ← load (c_heap c) a;
      Ok (mkChannel (c_capacity c) (u64 (c_count c - 1)) a (c_tail c) (c_closed c)
            (delete (c_head c) (<[a := mkNode None (next n)]> (c_heap c))), item n)
  end.

Definition try_recv (c : channel) : res (channel * option T) := advance c.

Definition recv (c : channel) : res (channel * reply) :=
  '(c', x) ← advance c;
  match x with
  | Some _ => Ok (c', Got x)
  | None => Ok (c, if c_closed c then Got None else Wait)
  end.

(** The loop of [swap_out]; every turn frees a node. *)
Fixpoint swap_loop (fuel : nat) (c : channel) : res (channel * list T) :=
  match fuel with
  | O => Ok (c, [])
  | S fuel =>
      '(c, x) ← advance c;
      match x with
      | None => Ok (c, [])
      | Some x => '(c, l) ← swap_loop fuel c; Ok (c, x :: l)
      end
  end.

Definition swap_out (c : channel) : res (channel * list T) := swap_loop (base.size (c_heap c)) c.

Definition close (c : channel) : channel :=
  mkChannel (c_capacity c) (c_count c) (c_head c) (c_tail c) true (c_heap c).

(** The destructor walks from the dummy node. *)
Fixpoint free_from (fuel : nat) (h : gmap nat Node) (p : option nat) : res (gmap nat Node) :=
  match fuel, p with
  | S fuel, Some a => n ← load h a; free_from fuel (delete a h) (next n)
  | _, _ => Ok h
  end.

Definition destroy (c : channel) : res (gmap nat Node) :=
  free_from (S (base.size (c_heap c))) (c_heap c) (Some (c_head c)).

(** ** The list behind the dummy *)

Definition represents (c : channel) (f : fifo T) : Prop :=
  exists x0 ns,
    chain (c_heap c) (Some (c_head c)) ((c_head c, x0) :: ns) /\
    ns.*2 = Some <$> items f /\ NoDup (c_head c :: ns.*1) /\
    (forall a, is_Some (c_heap c !! a) <-> a ∈ c_head c :: ns.*1) /\
    c_tail c = default (c_head c) (last ns.*1) /\
    c_capacity c = cap f /\ c_closed c = closed f /\ c_count c = Z.of_nat (length (items f)) /\
    Z.of_nat (length (items f)) < 2 ^ 64.

Lemma represents_new k : represents (new_channel k) (mkFifo k [] false).
Proof.
  exists None, []. split_and!; try done.
  - split; [done|]. by exists None.
  - repeat constructor. set_solver.
  - intros a. cbn. rewrite lookup_singleton_is_Some. set_solver.
Qed.

Lemma channel_append_represents c f x : represents c f -> Z.of_nat (length (items f)) < 2 ^ 64 - 1 ->
  exists c', append_item c x = Ok c' /\ represents c' (set_items (items f ++ [x]) f).
Proof.
  intros (x0 & ns & Hch & Hit & Hnd & Hdom & Htl & Hcap & Hcl & Hct & Hw) Hl. unfold append_item.
  set (a := fresh (dom (c_heap c))).
  assert (a ∉ c_head c :: ns.*1) as Ha.
  { rewrite <- Hdom. intros Hs. apply elem_of_dom in Hs. by apply is_fresh in Hs. }
  assert (exists l t y, (c_head c, x0) :: ns = l ++ [(t, y)] /\ c_tail c = t) as (l & t & y & El & Et).
  { destruct ns as [|[b z] ns _] using rev_ind; [by exists [], (c_head c), x0|].
    exists ((c_head c, x0) :: ns), b, z. split; [done|]. rewrite Htl, fmap_app. cbn [fmap list_fmap fst]. by rewrite last_snoc. }
  assert ((c_head c :: ns.*1) = (l ++ [(t, y)]).*1) as Ef by (by rewrite <- El).
  rewrite El in Hch. rewrite Ef in Hnd, Ha.
  destruct (chain_last _ _ _ _ _ Hch) as [nx Ht].
  assert (a <> t) as Hat by (rewrite fmap_app in Ha; set_solver).
  unfold load. rewrite Et, lookup_insert_ne, Ht by done. cbn [mbind res_bind item].
  eexists. split; [done|].
  assert (chain (<[t := mkNode y (Some a)]> (<[a := mkNode (Some x) None]> (c_heap c))) (Some (c_head c))
    (l ++ [(t, y); (a, Some x)])) as Hch'.
  { apply chain_snoc; try done; [by apply chain_insert|]. by rewrite lookup_insert_eq. }
  exists x0, (ns ++ [(a, Some x)]). cbn [c_heap c_head c_tail c_capacity c_closed c_count set_items items cap closed].
  rewrite app_comm_cons, El, <- app_assoc. cbn [app]. rewrite !fmap_app. cbn [fmap list_fmap fst snd].
  split_and!; try done.
  - by rewrite Hit.
  - rewrite app_comm_cons, Ef. apply NoDup_app. split_and!; [done| |repeat constructor; set_solver].
    intros b Hb. rewrite list_elem_of_singleton. by intros ->.
  - intros b. rewrite app_comm_cons, Ef, elem_of_app, list_elem_of_singleton.
    rewrite !lookup_insert_is_Some, Hdom, Ef. rewrite fmap_app.
    destruct (decide (t = b)) as [<-|]; [set_solver|]. destruct (decide (a = b)); set_solver.
  - by rewrite last_snoc.
  - rewrite Hct, length_app. unfold u64. rewrite Z.mod_small by lia. cbn. lia.
  - rewrite length_app. cbn. lia.
Qed.

Lemma advance_represents c f : represents c f ->
  exists c', advance c = Ok (c', (next_item f).2) /\ represents c' (next_item f).1.
Proof.
  intros (x0 & ns & Hch & Hit & Hnd & Hdom & Htl & Hcap & Hcl & Hct & Hw).
  destruct Hch as [_ (nx & Hd & Hch)]. unfold advance, load, next_item. rewrite Hd. cbn [mbind res_bind next].
  destruct ns as [|[a z] ns].
  - cbn [chain] in Hch. subst nx. destruct (items f) as [|y l] eqn:Ei; [|done]. exists c. split; [done|].
    cbn [fst]. exists x0, []. rewrite Ei. split_and!; try done. split; [done|]. by exists None.
  - destruct (items f) as [|y l] eqn:Ei; [done|]. rewrite !fmap_cons in Hit. injection Hit as -> Hit.
    destruct Hch as [-> (nx' & Ha & Hch)]. rewrite Ha. cbn [mbind res_bind next item].
    rewrite fmap_cons in *. cbn [fst] in *.
    apply NoDup_cons in Hnd as [Hh Hnd]. pose proof Hnd as Hnd'. apply NoDup_cons in Hnd as [Ha' Hnd].
    eexists. split; [done|]. exists None, ns.
    cbn [c_heap c_head c_tail c_capacity c_closed c_count set_items items cap closed fst].
    split_and!; try done.
    + split; [done|]. exists nx'. rewrite lookup_delete_ne, lookup_insert_eq by set_solver. split; [done|].
      apply chain_delete; [set_solver|]. by apply chain_insert.
    + intros b. rewrite lookup_delete_is_Some, lookup_insert_is_Some, Hdom. set_solver.
    + rewrite Htl. destruct ns as [|[b w] ns _] using rev_ind; [done|].
      rewrite fmap_app. cbn [fmap list_fmap fst]. by rewrite app_comm_cons, !last_snoc.
    + rewrite Hct. unfold u64. cbn [length] in *. rewrite Z.mod_small; lia.
    + cbn [length] in *. lia.
Qed.

(** ** Runs *)

Inductive op := Send (x : T) | TrySend (x : T) | Recv | TryRecv | SwapOut | Close | Size.

Definition step (c : channel) (o : op) : res (channel * reply) :=
  match o with
  | Send x => send c x
  | TrySend x => '(c, b) ← try_send c x; Ok (c, Offered b)
  | Recv => recv c
  | TryRecv => '(c, x) ← try_recv c; Ok (c, Got x)
  | SwapOut => '(c, l) ← swap_out c; Ok (c, Batch l)
  | Close => Ok (close c, Nothing)
  | Size => Ok (c, Number (c_count c))
  end.

Fixpoint run (c : channel) (os : list op) : res (channel * list reply) :=
  match os with
  | [] => Ok (c, [])
  | o :: os => '(c, r) ← step c o; '(c, rs) ← run c os; Ok (c, r :: rs)
  end.

(** The same operations on a FIFO. *)
Definition spec_step (f : fifo T) (o : op) : fifo T * reply :=
  match o with
  | Send x => if closed f then (f, Nothing) else if full f then (f, Wait)
              else (set_items (items f ++ [x]) f, Nothing)
  | TrySend x => let '(f, b) := offer x f in (f, Offered b)
  | Recv => match items f with
            | [] => (f, if closed f then Got None else Wait)
            | x :: l => (set_items l f, Got (Some x))
            end
  | TryRecv => let '(f, o) := next_item f in (f, Got o)
  | SwapOut => (set_items [] f, Batch (items f))
  | Close => (mkFifo (cap f) (items f) true, Nothing)
  | Size => (f, Number (Z.of_nat (length (items f))))
  end.

Fixpoint spec_run (f : fifo T) (os : list op) : fifo T * list reply :=
  match os with
  | [] => (f, [])
  | o :: os => let '(f, r) := spec_step f o in let '(f, rs) := spec_run f os in (f, r :: rs)
  end.

Lemma represents_full c f : represents c f -> is_full c = full f /\ c_closed c = closed f.
Proof.
  intros (x0 & ns & _ & _ & _ & _ & _ & Hcap & Hcl & Hct & _). unfold is_full, full.
  by rewrite Hcap, Hct, Hcl.
Qed.

Lemma swap_represents fuel c f : represents c f -> (length (items f) < fuel)%nat ->
  exists c', swap_loop fuel c = Ok (c', items f) /\ represents c' (set_items [] f).
Proof.
  revert c f. induction fuel as [|fuel IH]; intros c f R Hl; [lia|]. cbn [swap_loop].
  destruct (advance_represents c f R) as (c1 & E1 & R1). rewrite E1. cbn [mbind res_bind].
  unfold next_item in *. destruct (items f) as [|x l] eqn:Ei; cbn [fst snd] in *.
  - exists c1. split; [done|]. assert (set_items [] f = f) as -> by (destruct f; cbn in *; by subst). done.
  - destruct (IH c1 (set_items l f) R1) as (c2 & E2 & R2); [cbn in *; lia|]. rewrite E2. by exists c2.
Qed.

Lemma channel_represents_size c f : represents c f -> base.size (c_heap c) = S (length (items f)).
Proof.
  intros (x0 & ns & _ & Hit & Hnd & Hdom & _). rewrite <- size_dom.
  assert (dom (c_heap c) = (list_to_set (c_head c :: ns.*1) : gset nat)) as ->.
  { apply set_eq. intros a. rewrite elem_of_dom, elem_of_list_to_set. apply Hdom. }
  rewrite size_list_to_set by done. cbn [length]. rewrite length_fmap. f_equal.
  apply (f_equal length) in Hit. by rewrite !length_fmap in Hit.
Qed.

Lemma channel_step_refines c f o : represents c f -> Z.of_nat (length (items f)) < 2 ^ 64 - 1 ->
  exists c', step c o = Ok (c', (spec_step f o).2) /\ represents c' (spec_step f o).1.
Proof.
  intros R Hl. destruct (represents_full c f R) as [Hf Hc].
  pose proof (fun x => channel_append_represents c f x R Hl) as Happ.
  destruct o as [x|x| | | | |]; cbn [step spec_step].
  - unfold send. rewrite Hc, Hf. destruct (closed f); [by exists c|]. destruct (full f); [by exists c|].
    destruct (Happ x) as (c' & -> & R'). by exists c'.
  - unfold try_send, offer. rewrite Hc, Hf. destruct (closed f); [by exists c|]. cbn [orb].
    destruct (full f); [by exists c|]. destruct (Happ x) as (c' & -> & R'). by exists c'.
  - unfold recv. destruct (advance_represents c f R) as (c' & -> & R'). cbn [mbind res_bind].
    unfold next_item in *. destruct (items f); cbn [fst snd] in *; [exists c; by rewrite Hc|by exists c'].
  - unfold try_recv. destruct (advance_represents c f R) as (c' & -> & R'). cbn [mbind res_bind].
    destruct (next_item f). by exists c'.
  - unfold swap_out. rewrite (channel_represents_size c f R).
    destruct (swap_represents (S (length (items f))) c f R) as (c' & -> & R'); [lia|]. by exists c'.
  - exists (close c). split; [done|]. destruct R as (x0 & ns & R). exists x0, ns.
    destruct R as (?&?&?&?&?&?&?&?&?). split_and!; assumption || reflexivity.
  - exists c. destruct R as (x0 & ns & ?&?&?&?&?&?&?&Hct&?). split; [by rewrite Hct|].
    exists x0, ns. by split_and!.
Qed.

Lemma channel_spec_length f o : (length (items (spec_step f o).1) <= S (length (items f)))%nat.
Proof.
  destruct o; cbn [spec_step]; unfold offer, next_item;
    repeat case_match; simplify_eq; cbn [fst items set_items]; rewrite ?length_app; cbn; try lia;
    match goal with H : items _ = _ |- _ => rewrite H end; cbn; lia.
Qed.

Lemma run_refines_fifo os c f : represents c f -> Z.of_nat (length (items f) + length os) < 2 ^ 64 ->
  exists c', run c os = Ok (c', (spec_run f os).2) /\ represents c' (spec_run f os).1.
Proof.
  revert c f. induction os as [|o os IH]; intros c f R Hl; cbn [run spec_run]; [by exists c|]. cbn [length] in Hl.
  destruct (channel_step_refines c f o R) as (c1 & E1 & R1); [lia|]. rewrite E1. cbn [mbind res_bind].
  pose proof (channel_spec_length f o) as Hs. destruct (spec_step f o) as [f1 r1] eqn:Es. cbn [fst snd] in *.
  destruct (IH c1 f1 R1) as (c2 & E2 & R2); [lia|]. rewrite E2. cbn [mbind res_bind].
  destruct (spec_run f1 os) as [f2 rs]. by exists c2.
Qed.

Lemma free_chain fuel h p l : chain h p l -> NoDup l.*1 -> (length l < fuel)%nat ->
  (forall a, is_Some (h !! a) <-> a ∈ l.*1) -> free_from fuel h p = Ok ∅.
Proof.
  revert fuel h p. induction l as [|[a x] l IH]; intros fuel h p Hc Hn Hf Hd.
  - cbn in Hc. subst p. destruct fuel; [lia|]. cbn. f_equal. apply map_empty. intros a.
    apply eq_None_not_Some. rewrite Hd. set_solver.
  - destruct fuel as [|fuel]; [lia|]. destruct Hc as [-> (nx & Ha & Hc)]. cbn [free_from]. unfold load. rewrite Ha.
    cbn [mbind res_bind next]. rewrite fmap_cons in *. apply NoDup_cons in Hn as [Hna Hn]. cbn [fst length] in *.
    apply IH; [by apply chain_delete|done|lia|]. intros b. rewrite lookup_delete_is_Some, Hd. set_solver.
Qed.
End Channel.
Arguments op : clear implicits.
Arguments reply : clear implicits.

(** The inbox is a bounded FIFO. Every sequence of calls on a new channel
    returns what a FIFO of the same capacity returns, [swap_out] hands out
    exactly the waiting items in order, no call follows a freed node, and the
    destructor frees every node exactly once. *)
Theorem channel_refines_fifo {T} k (os : list (op T)) (Hlen : Z.of_nat (length os) < 2 ^ 64) :
  exists c, run (new_channel k) os = Ok (c, (spec_run (mkFifo k [] false) os).2) /\
    c_count c = Z.of_nat (length (items (spec_run (mkFifo k [] false) os).1)) /\ destroy c = Ok ∅.
Proof.
  destruct (run_refines_fifo os (new_channel k) (mkFifo k [] false)) as (c & E & R);
    [apply represents_new|done|].
  exists c. split; [done|]. pose proof (channel_represents_size _ _ R) as Hsz.
  destruct R as (x0 & ns & Hch & Hit & Hnd & Hdom & _ & _ & _ & Hct & _). split; [done|].
  unfold destroy. eapply free_chain; [exact Hch|done| |done].
  apply (f_equal length) in Hit. rewrite !length_fmap in Hit. rewrite Hsz, <- Hit. cbn. lia.
Qed.

Lemma channel_refines_fifo_witness :
  exists c, run (new_channel 2) [Send 1; TrySend 2; TrySend 3; Send 4; TryRecv; Send 5; SwapOut; Recv; Close;
      Recv; TrySend 6] =
    Ok (c, [Nothing; Offered true; Offered false; Wait; Got (Some 1); Nothing; Batch [2; 5]; Wait; Nothing;
      Got None; Offered false]) /\ c_count c = 0 /\ destroy c = Ok ∅.
Proof.
  apply (channel_refines_fifo 2 [Send 1; TrySend 2; TrySend 3; Send 4; TryRecv; Send 5; SwapOut; Recv; Close;
    Recv; TrySend 6]). done.
Defined.
End GatewayChannel.
