(* ===== verification/GatewayReactor.v ===== *)
(** * The gateway's reactor (gateway_reactor.hpp)

    Timers, the batch of incoming messages, and the task queue that a worker
    thread drains. [std::priority_queue] leaves the order of equal deadlines
    open: which entry it yields is a parameter with the laws of a min-heap. *)
From stdpp Require Import base list numbers option strings gmap sorting.
From Stdlib Require Import ZArith Lia.
From S2P Require Import Prelude BlockingQueue GatewayText GatewayChannel.

Local Open Scope Z_scope.

Module GatewayReactor.

(** ** Timers *)

Section Timers.
(** The type of timer functions. *)
Context {F : Type}.

(** [m_fn] is empty after it has been moved from. *)
Record TimerEntry := mkTimer {
  m_name : string;
  m_fn : option F;
  m_interval : Z;
  m_skippable : bool;
  m_next_deadline : Z }.

(** What a task of the CPU queue runs ([m_deadline] of a task is never read or
    written). *)
Inductive Body :=
  | RunTimer (fn : option F)
  | RunBatch (batch : list GatewayText.GatewayMessage)
  | RunEvolver.

Record Task := mkTask { t_id : Z; t_name : string; t_fn : Body; t_skippable : bool; t_created_at : Z }.

Definition kSkipThreshold : Z := 1000000000.

(** [top()] and [pop()]. *)
Record TimerQueue := mkTimerQueue {
  pop : list TimerEntry -> option (TimerEntry * list TimerEntry);
  pop_empty : forall q, pop q = None -> q = [];
  pop_min : forall q e q', pop q = Some (e, q') ->
    q ≡ₚ e :: q' /\ Forall (fun x => m_next_deadline e <= m_next_deadline x) q' }.

Definition schedule_timer (name : string) (fn : F) (interval : Z) (skippable : bool) (now : Z)
    (q : list TimerEntry) : list TimerEntry :=
  mkTimer name (Some fn) interval skippable (now + interval) :: q.

Definition missed (now : Z) (e : TimerEntry) : bool :=
  (kSkipThreshold <? now - m_next_deadline e) && m_skippable e.

(** The entry that goes back into the queue; a fired one has lost its function. *)
Definition renewed (now : Z) (e : TimerEntry) : TimerEntry :=
  mkTimer (m_name e) (if missed now e then m_fn e else None) (m_interval e) (m_skippable e) (now + m_interval e).

Definition timer_task (e : TimerEntry) : Task := mkTask 0 (m_name e) (RunTimer (m_fn e)) (m_skippable e) 0.

(** The loop of [process_timers]: what remains, what is reinserted, the tasks. *)
Fixpoint timer_loop (Q : TimerQueue) (fuel : nat) (now : Z) (q : list TimerEntry)
    : list TimerEntry * list TimerEntry * list Task :=
  match fuel with
  | O => (q, [], [])
  | S fuel =>
      match pop Q q with
      | None => (q, [], [])
      | Some (top, rest) =>
          if now <? m_next_deadline top then (q, [], []) else
          let '(q', again, tasks) := timer_loop Q fuel now rest in
          (q', renewed now top :: again, if missed now top then tasks else timer_task top :: tasks)
      end
  end.

Definition process_timers (Q : TimerQueue) (now : Z) (q : list TimerEntry) : list TimerEntry * list Task :=
  let '(q', again, tasks) := timer_loop Q (length q) now q in (again ++ q', tasks).

(** ** What a round does *)

Definition due (now : Z) (e : TimerEntry) : bool := m_next_deadline e <=? now.
Definition fires (now : Z) (e : TimerEntry) : bool := due now e && negb (missed now e).
Definition after_round (now : Z) (e : TimerEntry) : TimerEntry := if due now e then renewed now e else e.

Lemma not_due_after_round now q : Forall (fun e => due now e = false) q ->
  after_round now <$> q = q /\ List.filter (fires now) q = [].
Proof.
  induction 1 as [|e q He _ [IH1 IH2]]; [done|]. rewrite fmap_cons, IH1. cbn [List.filter].
  unfold after_round, fires at 1. rewrite He. cbn [andb]. by rewrite IH2.
Qed.

Lemma filter_perm {A} (P : A -> bool) l k : l ≡ₚ k -> List.filter P l ≡ₚ List.filter P k.
Proof.
  induction 1 as [|x l k _ IH|x y l|l k m _ IH1 _ IH2]; cbn [List.filter]; [done| | |by etrans].
  - destruct (P x); [by constructor|done].
  - destruct (P x), (P y); try done. constructor.
Qed.

Lemma timer_loop_spec Q fuel now q q' again tasks : (length q <= fuel)%nat ->
  timer_loop Q fuel now q = (q', again, tasks) ->
  exists fired, again ++ q' ≡ₚ after_round now <$> q /\ tasks = timer_task <$> fired /\
    fired ≡ₚ List.filter (fires now) q /\
    StronglySorted (fun a b => m_next_deadline a <= m_next_deadline b) fired.
Proof.
  revert q q' again tasks. induction fuel as [|fuel IH]; intros q q' again tasks Hl E; cbn [timer_loop] in E.
  { destruct q; [|cbn in Hl; lia]. injection E as <- <- <-. exists []. repeat split; constructor. }
  destruct (pop Q q) as [[top rest]|] eqn:Ep.
  2: { apply pop_empty in Ep. subst q. injection E as <- <- <-. exists []. repeat split; constructor. }
  destruct (pop_min Q q top rest Ep) as [Hp Hmin]. destruct (Z.ltb_spec now (m_next_deadline top)) as [Hlt|Hge].
  - injection E as <- <- <-. assert (Forall (fun e => due now e = false) q) as Hnd.
    { rewrite Hp. constructor; [by apply Z.leb_gt|]. eapply Forall_impl; [exact Hmin|]. intros x Hx.
      apply Z.leb_gt. cbn in Hx. lia. }
    destruct (not_due_after_round now q Hnd) as [H1 H2]. exists []. rewrite H1, H2. by repeat split; try constructor.
  - destruct (timer_loop Q fuel now rest) as [[q1 again1] tasks1] eqn:E1. injection E as <- <- <-.
    assert (length q = S (length rest)) as Hlen by (by rewrite Hp).
    destruct (IH rest q1 again1 tasks1 ltac:(lia) E1) as (fired & H1 & H2 & H3 & H4).
    assert (due now top = true) as Hd by (by apply Z.leb_le).
    exists (if missed now top then fired else top :: fired). split_and!.
    + rewrite Hp, fmap_cons. cbn [app]. unfold after_round at 1. rewrite Hd. by constructor.
    + destruct (missed now top); [done|]. by rewrite H2.
    + rewrite (filter_perm (fires now) q _ Hp). cbn [List.filter]. unfold fires at 1. rewrite Hd. cbn [andb].
      destruct (missed now top); cbn [negb]; [done|by constructor].
    + destruct (missed now top); [done|]. constructor; [done|]. rewrite H3.
      apply Forall_forall. intros x Hx. apply list_elem_of_In, filter_In in Hx as [Hx _].
      rewrite Forall_forall in Hmin. apply Hmin. by apply list_elem_of_In.
Qed.

(** The entries a round runs: due, and not skippable or at most a second late. *)
Definition runs (now : Z) (e : TimerEntry) : bool :=
  (m_next_deadline e <=? now) && (negb (m_skippable e) || (now <=? m_next_deadline e + 1000000000)).

(** What a round at [now] makes of an entry. *)
Record entry_after (now : Z) (e e' : TimerEntry) : Prop := {
  ea_name : m_name e' = m_name e;
  ea_interval : m_interval e' = m_interval e;
  ea_skippable : m_skippable e' = m_skippable e;
  ea_deadline : m_next_deadline e' = (if m_next_deadline e <=? now then now + m_interval e else m_next_deadline e);
  ea_fn : m_fn e' = (if runs now e then None else m_fn e) }.

Lemma fires_runs now e : fires now e = runs now e.
Proof.
  unfold fires, runs, due, missed, kSkipThreshold. f_equal. rewrite negb_andb, Z.ltb_antisym, negb_involutive, orb_comm.
  f_equal. destruct (Z.leb_spec (now - m_next_deadline e) 1000000000), (Z.leb_spec now (m_next_deadline e + 1000000000)); lia || done.
Qed.

Lemma entry_after_round now e : entry_after now e (after_round now e).
Proof.
  split; rewrite <- ?fires_runs; unfold after_round, fires, due; destruct (m_next_deadline e <=? now); try done.
  cbn [andb renewed m_fn]. by destruct (missed now e).
Qed.

(** C32. One round of the timers. Exactly the entries that are due, and not both
    skippable and more than a second late, become tasks with their name and
    function, earliest deadline first. Every entry that was due, run or skipped,
    gets the deadline [now + interval]; the deadlines of the others stay; names,
    intervals and flags do not change, and no entry is lost or added. An entry that
    ran goes back without its function, the others keep theirs. *)
Theorem timers_round Q now q q' tasks (Hrun : process_timers Q now q = (q', tasks)) :
  exists fired after, q' ≡ₚ after /\ Forall2 (entry_after now) q after /\
    Forall2 (fun e t => t_name t = m_name e /\ t_fn t = RunTimer (m_fn e) /\ t_skippable t = m_skippable e) fired tasks /\
    fired ≡ₚ List.filter (runs now) q /\
    StronglySorted (fun a b => m_next_deadline a <= m_next_deadline b) fired.
Proof.
  unfold process_timers in Hrun. destruct (timer_loop Q (length q) now q) as [[q1 again] ts] eqn:E.
  injection Hrun as <- <-. eapply timer_loop_spec in E as (fired & H1 & -> & H3 & H4); [|done].
  exists fired, (after_round now <$> q). split_and!; [done| | | |done].
  - apply Forall2_fmap_r, Forall_Forall2_diag, Forall_true. apply entry_after_round.
  - apply Forall2_fmap_r, Forall_Forall2_diag, Forall_true. done.
  - rewrite H3. clear. induction q as [|e q IH]; [done|]. cbn [List.filter]. rewrite fires_runs. destruct (runs now e); [by constructor|done].
Qed.

(** ** The functions *)

(** Functions still in the timer queue, and those handed to tasks. *)
Definition waiting_fns (q : list TimerEntry) : list F := omap m_fn q.
Definition task_fns (ts : list Task) : list F :=
  omap (fun t => match t_fn t with RunTimer f => f | _ => None end) ts.

(** Rounds at the given times. *)
Fixpoint rounds (Q : TimerQueue) (times : list Z) (q : list TimerEntry) : list TimerEntry * list Task :=
  match times with
  | [] => (q, [])
  | t :: times =>
      let '(q, ts) := process_timers Q t q in let '(q, ts') := rounds Q times q in (q, ts ++ ts')
  end.

Lemma omap_perm {A B} (g : A -> option B) l k : l ≡ₚ k -> omap g l ≡ₚ omap g k.
Proof. intros H. by rewrite H. Qed.

Lemma round_fns now q : omap m_fn (after_round now <$> q) ++ omap m_fn (List.filter (fires now) q) ≡ₚ omap m_fn q.
Proof.
  induction q as [|e q IH]; [done|]. rewrite fmap_cons. cbn [List.filter].
  assert (forall (l : list TimerEntry) x, omap m_fn (x :: l) = option_list (m_fn x) ++ omap m_fn l) as Hc.
  { intros l x. cbn. by destruct (m_fn x). }
  rewrite !Hc. unfold fires at 1, after_round at 1. destruct (due now e); cbn [andb].
  - unfold renewed at 1. cbn [m_fn]. destruct (missed now e); cbn [negb].
    + by rewrite <- app_assoc, IH.
    + rewrite Hc. cbn [option_list app]. rewrite <- IH. solve_Permutation.
  - by rewrite <- app_assoc, IH.
Qed.

Lemma process_timers_fns Q now q q' ts : process_timers Q now q = (q', ts) ->
  waiting_fns q' ++ task_fns ts ≡ₚ waiting_fns q.
Proof.
  intros E. unfold process_timers in E. destruct (timer_loop Q (length q) now q) as [[q1 again] ts1] eqn:E1.
  injection E as <- <-. eapply timer_loop_spec in E1 as (fired & H1 & -> & H3 & _); [|done].
  unfold waiting_fns, task_fns. rewrite H1.
  assert (omap (fun t => match t_fn t with RunTimer f => f | _ => None end) (timer_task <$> fired) = omap m_fn fired) as ->.
  { clear. induction fired as [|e l IH]; [done|]. rewrite fmap_cons. cbn. by rewrite IH. }
  by rewrite H3, round_fns.
Qed.

(** A timer function runs at most once. Over any rounds of the timers, at
    any times, the functions handed to tasks together with those still waiting
    are the ones scheduled: firing moves the function out of the entry, and the
    entry that is put back for the next period has none. *)
Theorem timer_functions_once Q times q q' tasks (Hrun : rounds Q times q = (q', tasks)) :
  waiting_fns q' ++ task_fns tasks ≡ₚ waiting_fns q.
Proof.
  revert q q' tasks Hrun. induction times as [|t times IH]; intros q q' tasks E; cbn [rounds] in E.
  - injection E as <- <-. unfold task_fns. by rewrite app_nil_r.
  - destruct (process_timers Q t q) as [q1 ts1] eqn:E1. destruct (rounds Q times q1) as [q2 ts2] eqn:E2.
    injection E as <- <-. apply process_timers_fns in E1. apply IH in E2. unfold task_fns in *.
    rewrite omap_app, <- E1, <- E2. solve_Permutation.
Qed.
End Timers.
Arguments TimerEntry : clear implicits.
Arguments TimerQueue : clear implicits.
Arguments Task : clear implicits.

(** A queue that yields the first entry with the least deadline. *)
Fixpoint pop_first {F} (q : list (TimerEntry F)) : option (TimerEntry F * list (TimerEntry F)) :=
  match q with
  | [] => None
  | e :: q =>
      match pop_first q with
      | Some (m, rest) => if m_next_deadline m <? m_next_deadline e then Some (m, e :: rest) else Some (e, q)
      | None => Some (e, q)
      end
  end.

Lemma pop_first_spec {F} (q : list (TimerEntry F)) :
  match pop_first q with
  | None => q = []
  | Some (m, rest) => q ≡ₚ m :: rest /\ Forall (fun x => m_next_deadline m <= m_next_deadline x) rest
  end.
Proof.
  induction q as [|e q IH]; cbn [pop_first]; [done|].
  destruct (pop_first q) as [[m rest]|]; [|subst q; split; [done|constructor]]. destruct IH as [Hp HF].
  destruct (Z.ltb_spec (m_next_deadline m) (m_next_deadline e)) as [Hlt|Hge].
  - split; [rewrite Hp; constructor|]. constructor; [lia|done].
  - split; [done|]. rewrite Hp. constructor; [lia|]. eapply Forall_impl; [exact HF|]. cbn. lia.
Qed.

Definition first_queue {F} : TimerQueue F.
Proof.
  refine (mkTimerQueue pop_first _ _).
  - intros q E. pose proof (pop_first_spec q) as H. by rewrite E in H.
  - intros q e q' E. pose proof (pop_first_spec q) as H. by rewrite E in H.
Defined.

Definition demo_timers : list (TimerEntry nat) := schedule_timer "heartbeat_check" 7%nat 30 true 0 [].

Lemma timers_round_witness :
  exists fired after, (process_timers first_queue 30 demo_timers).1 ≡ₚ after /\ Forall2 (entry_after 30) demo_timers after /\
    Forall2 (fun e t => t_name t = m_name e /\ t_fn t = RunTimer (m_fn e) /\ t_skippable t = m_skippable e) fired
      (process_timers first_queue 30 demo_timers).2 /\
    fired ≡ₚ List.filter (runs 30) demo_timers /\
    StronglySorted (fun a b => m_next_deadline a <= m_next_deadline b) fired.
Proof. apply (timers_round first_queue 30 demo_timers). reflexivity. Defined.

Lemma timer_functions_once_witness :
  waiting_fns (rounds first_queue [30; 60; 90] demo_timers).1 ++
    task_fns (rounds first_queue [30; 60; 90] demo_timers).2 ≡ₚ [7%nat] /\
  length (rounds first_queue [30; 60; 90] demo_timers).2 = 3%nat.
Proof.
  split; [apply (timer_functions_once first_queue [30; 60; 90] demo_timers); reflexivity|reflexivity].
Defined.

(** ** The reactor *)

Section Reactor.
Context {F : Type} {Q : Type -> Type} {ops : QueueOps Q} {laws : QueueLaws Q}.

Record Reactor := mkReactor {
  m_inbox : @GatewayChannel.channel GatewayText.GatewayMessage;
  m_cpu_queue : Q (Task F);
  m_timer_queue : list (TimerEntry F);
  m_message_processor : bool;
  m_data_evolver : bool }.

Definition set_cpu q r := mkReactor (m_inbox r) q (m_timer_queue r) (m_message_processor r) (m_data_evolver r).
Definition set_inbox c r := mkReactor c (m_cpu_queue r) (m_timer_queue r) (m_message_processor r) (m_data_evolver r).

(** [m_cpu_queue.try_push(...)]: the result is ignored. *)
Definition push_task (t : Task F) (r : Reactor) : res Reactor :=
  '(q, _) ← q_try_push (m_cpu_queue r) t; Ok (set_cpu q r).

Definition process_messages (r : Reactor) : res Reactor :=
  '(c, batch) ← GatewayChannel.swap_out (m_inbox r);
  let r := set_inbox c r in
  if bool_decide (length batch = 0%nat) then Ok r else
  r ← (if m_message_processor r
       then push_task (mkTask 0 "message_processor" (RunBatch batch) false 0) r else Ok r);
  if m_data_evolver r then push_task (mkTask 0 "data_evolver" RunEvolver true 0) r else Ok r.

(** The inbox holds the messages [l]. *)
Definition inbox_holds (r : Reactor) (l : list GatewayText.GatewayMessage) : Prop :=
  exists f, GatewayChannel.represents (m_inbox r) f /\ items f = l.

Definition batch_task (l : list GatewayText.GatewayMessage) : Task F :=
  mkTask 0 "message_processor" (RunBatch l) false 0.
Definition evolve_task : Task F := mkTask 0 "data_evolver" RunEvolver true 0.

Lemma push_task_runs t r f : q_holds (m_cpu_queue r) f -> Z.of_nat (length (items f)) < 2 ^ 64 - 1 ->
  exists q, push_task t r = Ok (set_cpu q r) /\ q_holds q (offer t f).1.
Proof using laws.
  intros Hf Hl. destruct (q_try_push_law _ _ t Hf Hl) as (q & E & Hq). exists q. unfold push_task. by rewrite E.
Qed.

(** Incoming messages become one batch, or are lost. With a message
    processor and an evolver installed, [process_messages] empties the inbox; if
    the task queue has room, the messages are in one task, all and in order,
    followed by the evolver's task; if it is full, the messages are in no
    queue any more. *)
Theorem messages_batched r l f
  (Hin : inbox_holds r l) (Hne : l <> []) (Hcpu : q_holds (m_cpu_queue r) f) (Hopen : closed f = false)
  (Hlen : Z.of_nat (length (items f)) + 1 < 2 ^ 64 - 1)
  (Hp : m_message_processor r = true) (He : m_data_evolver r = true) :
  exists r' f', process_messages r = Ok r' /\ inbox_holds r' [] /\ q_holds (m_cpu_queue r') f' /\
    items f' = if full f then items f
               else items f ++ batch_task l ::
                    (if full (set_items (items f ++ [batch_task l]) f) then [] else [evolve_task]).
Proof using laws.
  destruct Hin as (fi & Hr & <-). unfold process_messages, GatewayChannel.swap_out.
  rewrite (GatewayChannel.channel_represents_size _ _ Hr).
  destruct (GatewayChannel.swap_represents (S (length (items fi))) _ _ Hr ltac:(lia)) as (c & -> & Hr').
  cbn [mbind res_bind]. rewrite bool_decide_false by (destruct (items fi); done).
  cbn [m_message_processor set_inbox]. rewrite Hp.
  destruct (push_task_runs (batch_task (items fi)) (set_inbox c r) f Hcpu ltac:(lia)) as (q1 & E1 & H1).
  fold (batch_task (items fi)). rewrite E1. cbn [mbind res_bind m_data_evolver set_cpu set_inbox]. rewrite He.
  fold evolve_task.
  destruct (push_task_runs evolve_task (set_cpu q1 (set_inbox c r)) (offer (batch_task (items fi)) f).1)
    as (q2 & E2 & H2); [done|unfold offer; destruct (_ || _); cbn; rewrite ?length_app; cbn; lia|].
  exists (set_cpu q2 (set_cpu q1 (set_inbox c r))), (offer evolve_task (offer (batch_task (items fi)) f).1).1.
  rewrite E2. split_and!; [done|by exists (set_items [] fi)|done|].
  unfold offer. rewrite Hopen. cbn [orb]. destruct (full f) eqn:Ef; cbn [fst].
  - by rewrite Hopen, Ef.
  - cbn [closed set_items]. rewrite Hopen. cbn [orb]. destruct (full (set_items _ f)); cbn [fst items set_items]; [done|].
    rewrite <- app_assoc. done.
Qed.
End Reactor.

Definition demo_reactor : @Reactor nat BlockingQueue.queue :=
  mkReactor (match GatewayChannel.append_item (GatewayChannel.new_channel 4) GatewayText.empty_message with
             | Ok c => c | Fault _ => GatewayChannel.new_channel 4 end) (q_new 2) [] true true.

Lemma messages_batched_witness :
  exists r' f', process_messages demo_reactor = Ok r' /\ inbox_holds r' [] /\ q_holds (m_cpu_queue r') f' /\
    items f' = [batch_task [GatewayText.empty_message]; evolve_task].
Proof.
  apply (messages_batched demo_reactor [GatewayText.empty_message] (mkFifo 2 [] false)); try done.
  - destruct (GatewayChannel.channel_append_represents (GatewayChannel.new_channel 4) (mkFifo 4 [] false)
      GatewayText.empty_message) as (c & E & R); [apply GatewayChannel.represents_new|done|].
    unfold inbox_holds, demo_reactor. rewrite E. by exists (set_items [GatewayText.empty_message] (mkFifo 4 [] false)).
  - by apply q_new_law.
Defined.
(** ** Submission and statistics *)

Section Submit.
Context {F : Type} {Q : Type -> Type} {ops : QueueOps Q} {laws : QueueLaws Q}.

(** [submit]: the task gets the next number and the time, and is offered to the
    queue. *)
Definition submit (counter now : Z) (q : Q (Task F)) (t : Task F) : res (Z * Q (Task F) * bool) :=
  '(q, ok) ← q_try_push q (mkTask counter (t_name t) (t_fn t) (t_skippable t) now);
  Ok (u64 (counter + 1), q, ok).

(** A task that is accepted stands at the end of the queue with its number. *)
Lemma submit_offers counter now q f t : q_holds q f -> Z.of_nat (length (items f)) < 2 ^ 64 - 1 ->
  exists q', submit counter now q t = Ok (u64 (counter + 1), q', negb (closed f || full f)) /\
    q_holds q' (if closed f || full f then f
                else set_items (items f ++ [mkTask counter (t_name t) (t_fn t) (t_skippable t) now]) f).
Proof using laws.
  intros Hq Hl. destruct (q_try_push_law q f (mkTask counter (t_name t) (t_fn t) (t_skippable t) now) Hq Hl)
    as (q' & E & Hq'). exists q'. unfold submit. rewrite E. unfold offer in *. by destruct (closed f || full f).
Qed.
End Submit.

(** Durations in microseconds. [m_skipped] is never changed. *)
Record TaskStats := mkStats {
  s_name : string;
  m_total_executions : Z;
  m_skipped : Z;
  m_slow_count : Z;
  m_max_duration : Z;
  m_total_duration : Z }.

Definition kSlowCpuThreshold : Z := 10000.

Definition record_stats (stats : gmap string TaskStats) (name : string) (duration : Z) : gmap string TaskStats :=
  let s := default (mkStats "" 0 0 0 0 0) (stats !! name) in
  <[name := mkStats name (u64 (m_total_executions s + 1)) (m_skipped s)
      (if kSlowCpuThreshold <? duration then u64 (m_slow_count s + 1) else m_slow_count s)
      (if m_max_duration s <? duration then duration else m_max_duration s)
      (m_total_duration s + duration)]> stats.

(** The durations recorded for a task. *)
Definition durations (name : string) (l : list (string * Z)) : list Z :=
  omap (fun e => if bool_decide (e.1 = name) then Some e.2 else None) l.

Definition summary (name : string) (l : list Z) : TaskStats :=
  mkStats name (Z.of_nat (length l)) 0 (Z.of_nat (length (filter (fun d => kSlowCpuThreshold < d) l)))
    (foldr Z.max 0 l) (foldr Z.add 0 l).

Lemma summary_snoc name l d : Z.of_nat (S (length l)) < 2 ^ 64 ->
  summary name (l ++ [d]) = mkStats name (u64 (m_total_executions (summary name l) + 1)) 0
    (if kSlowCpuThreshold <? d then u64 (m_slow_count (summary name l) + 1) else m_slow_count (summary name l))
    (if m_max_duration (summary name l) <? d then d else m_max_duration (summary name l))
    (m_total_duration (summary name l) + d).
Proof.
  intros Hl. unfold summary. cbn [m_total_executions m_slow_count m_max_duration m_total_duration].
  assert (forall k x, foldr Z.max 0 (k ++ [x]) = Z.max (foldr Z.max 0 k) x) as ->
    by (intros k x; induction k; cbn [app foldr]; lia).
  assert (forall k x, foldr Z.add 0 (k ++ [x]) = foldr Z.add 0 k + x) as ->
    by (intros k x; induction k; cbn [app foldr]; lia).
  pose proof (length_filter (fun d => kSlowCpuThreshold < d) l) as Hf.
  rewrite length_app, filter_app, length_app, filter_cons, filter_nil. cbn [length]. unfold u64. f_equal.
  - rewrite Z.mod_small; lia.
  - destruct (Z.ltb_spec kSlowCpuThreshold d).
    + rewrite decide_True by done. rewrite Z.mod_small; cbn [length]; lia.
    + rewrite decide_False by lia. cbn [length]. lia.
  - destruct (Z.ltb_spec (foldr Z.max 0 l) d); lia.
Qed.

(** The statistics of the tasks are those of a reference: after any sequence
    of executions every task that ran has its number of executions, the number
    of those over 10 ms, their longest and their total duration. *)
Theorem stats_exact l (Hl : Z.of_nat (length l) < 2 ^ 64) name :
  foldl (fun m e => record_stats m e.1 e.2) ∅ l !! name =
    if bool_decide (durations name l = []) then None else Some (summary name (durations name l)).
Proof.
  induction l as [|[n d] l IH] using rev_ind; [done|]. rewrite length_app in Hl. cbn [length] in Hl.
  specialize (IH ltac:(lia)). rewrite foldl_app. cbn [foldl fst snd]. unfold record_stats at 1.
  assert (durations name (l ++ [(n, d)]) = durations name l ++ (if bool_decide (n = name) then [d] else [])) as ->.
  { unfold durations. rewrite omap_app. cbn [omap list_omap fst snd]. by destruct (bool_decide (n = name)). }
  assert (length (durations name l) <= length l)%nat as Hd.
  { clear. unfold durations. induction l as [|[a b] l IH]; cbn [omap list_omap fst snd length]; [done|].
    destruct (bool_decide (a = name)); cbn [length]; lia. }
  destruct (decide (n = name)) as [->|Hn].
  - rewrite (bool_decide_eq_true_2 (name = name)), lookup_insert_eq, IH by done.
    rewrite (bool_decide_eq_false_2 (durations name l ++ [d] = [])) by (by destruct (durations name l)).
    f_equal. rewrite summary_snoc by lia. case_bool_decide as He; [rewrite He|]; done.
  - rewrite (bool_decide_eq_false_2 (n = name)), lookup_insert_ne, app_nil_r by done. exact IH.
Qed.

Lemma stats_exact_witness :
  foldl (fun m e => record_stats m e.1 e.2) ∅ [("a"%string, 5); ("b"%string, 7); ("a"%string, 20000)] !! "a"%string =
  Some (mkStats "a" 2 0 1 20000 20005).
Proof.
  rewrite (stats_exact [("a"%string, 5); ("b"%string, 7); ("a"%string, 20000)]); [|vm_compute; reflexivity].
  vm_compute. reflexivity.
Defined.

End GatewayReactor.
