(* ===== verification/GatewayBoard.v ===== *)
(** * The gateway's services (src/gateway)

    The blackboard of devices and metrics, the rate limiter, the metrics and
    the session manager, as operations on the server's state. One call runs at
    a time. The readings of the clocks are taken from [Env], one after the
    other; so are the answers of the transport and the listeners that others
    register. *)
From stdpp Require Import base list numbers option sets strings gmap pretty.
From Stdlib Require Import ZArith Lia.
From S2P Require Import Prelude Float64 Types Packets BlockingQueue Decimal GatewayText.

Local Open Scope Z_scope.
Import GatewayText.

Module GatewayBoard.

Notation str := (list Z) (only parsing).

(** ** The blackboard (gateway_blackboard.hpp) *)

Inductive ConvaiStatus := kIdle | kListening | kThinking | kAnswering | kInterrupted | kAnswerFinished.

(** [BlackboardEntry<DeviceState>]: the state and the [m_dirty] flag of its
    entry. The fields [m_jwt], [m_authenticated] and [m_audio_duration_ms] are
    never read or written. *)
Record DeviceState := mkDevice {
  d_device_id : str;
  d_session_id : str;
  d_peer_id : str;
  d_connected : bool;
  d_status : ConvaiStatus;
  d_bytes_in : Z;
  d_bytes_out : Z;
  d_message_count : Z;
  d_last_activity_ms : Z;
  d_dirty : bool }.

Definition new_device (id : str) : DeviceState := mkDevice id [] [] false kIdle 0 0 0 0 false.

Record MetricsState := mkMetrics {
  m_active_connections : Z;
  m_messages_in_total : Z;
  m_messages_out_total : Z;
  m_ratelimit_hits_total : Z;
  m_auth_success_total : Z;
  m_auth_failure_total : Z;
  m_bytes_in_total : Z;
  m_bytes_out_total : Z }.

(** The board without its downstream entries and evolvers, which nothing of the
    server fills. *)
Record DataBoard := mkBoard {
  m_devices : gmap str DeviceState;
  m_metrics : MetricsState;
  m_changed_keys : gset str }.

(** ** The rate limiter (gateway_ratelimit.hpp) *)

(** [m_window] is never read. *)
Record BucketConfig := mkBucketConfig { m_rate : F64.double; m_capacity : F64.double }.
Record TokenBucket := mkTokenBucket { m_tokens : F64.double; m_last_refill : Z }.
Record RateLimitResult := mkLimit { m_allowed : bool; m_dimension : str; m_error_code : str; m_remaining : Z }.
Record RateLimiter := mkLimiter { m_buckets : gmap str BucketConfig; m_token_buckets : gmap str TokenBucket }.

Definition per_day (n : Z) : BucketConfig := mkBucketConfig (F64.lit n 86400) (F64.of_Z n).

Definition new_limiter : RateLimiter :=
  mkLimiter (<[lit "connection" := mkBucketConfig (F64.lit 1 10) (F64.of_Z 1)]>
            (<[lit "bandwidth" := mkBucketConfig (F64.of_Z (32 * 1024)) (F64.of_Z (32 * 1024))]>
            (<[lit "audio_day" := per_day 60]> (<[lit "tokens_day" := per_day 100000]> ∅)))) ∅.

Definition configure (dimension : str) (c : BucketConfig) (r : RateLimiter) : RateLimiter :=
  mkLimiter (<[dimension := c]> (m_buckets r)) (m_token_buckets r).

Definition bucket_key (device dimension : str) : str := device ++ lit ":" ++ dimension.

(** A bucket after the time since its last refill. *)
Definition refilled (cfg : BucketConfig) (tb : TokenBucket) (now : Z) : TokenBucket :=
  let tb := if m_last_refill tb =? 0 then mkTokenBucket (m_capacity cfg) now else tb in
  let elapsed := F64.div (F64.of_Z (now - m_last_refill tb)) (F64.of_Z 1000000000) in
  let tokens := F64.add (m_tokens tb) (F64.mul elapsed (m_rate cfg)) in
  mkTokenBucket (if F64.ltb (m_capacity cfg) tokens then m_capacity cfg else tokens) now.

Definition check (device dimension : str) (cost now : Z) (r : RateLimiter) : res (RateLimiter * RateLimitResult) :=
  match m_buckets r !! dimension with
  | None => Ok (r, mkLimit true dimension [] 0)
  | Some cfg =>
      let key := bucket_key device dimension in
      let tb := refilled cfg (default (mkTokenBucket F64.zero 0) (m_token_buckets r !! key)) now in
      let dcost := F64.of_Z cost in
      if F64.ltb (m_tokens tb) dcost then
        n ← F64.cast_u64 (m_tokens tb);
        Ok (mkLimiter (m_buckets r) (<[key := tb]> (m_token_buckets r)),
            mkLimit false dimension (lit "RATE_LIMITED") n)
      else
        let left := F64.sub (m_tokens tb) dcost in
        n ← F64.cast_u64 left;
        Ok (mkLimiter (m_buckets r) (<[key := mkTokenBucket left now]> (m_token_buckets r)),
            mkLimit true dimension [] n)
  end.

(** ** The server's state *)

(** Deferred work. *)
Inductive IoOp := IoSend (device : str) (msg : GatewayMessage) | IoDownstream (msg : GatewayMessage).

(** What leaves the server. *)
Inductive Output := ToTransport (peer payload : str) (priority : Z) | ToDownstream (msg : GatewayMessage).

(** The built-in listeners, and those registered by others. *)
Inductive Listener :=
  | OnHello | OnAudioFrame | OnAudioBoundary | OnBye | OnPing | OnRateLimit | OnConfigUpdate | OnFunctionCallOutput
  | UserListener (n : nat).

(** The part of [GatewayConfig] the server reads. Durations of [m_tight] are in
    milliseconds, [session_timeout] in seconds. *)
Record GatewayConfig := mkGatewayConfig {
  tight_host : string;
  tight_port : Z;
  tight_id : string;
  tight_token : string;
  tight_mtu : Z;
  tight_heartbeat : Z;
  tight_dead_timeout : Z;
  heartbeat_seconds : Z;
  max_payload_bytes : Z;
  session_timeout : Z }.

Definition default_gateway_config : GatewayConfig :=
  mkGatewayConfig "0.0.0.0" 9443 "" "gateway-token" 1350 5000 30000 60 65536 3600.

(** [m_transport]: the transport exists (and with it [m_auth]); [ticks]: how
    often a clock has been read. *)
Record Server := mkServer {
  m_config : GatewayConfig;
  m_board : DataBoard;
  m_inbox : BlockingQueue.fifo GatewayMessage;
  m_ratelimiter : RateLimiter;
  m_listeners : gmap Z (list Listener);
  m_pending_io : list IoOp;
  m_transport : bool;
  m_downstream_cb : bool;
  ticks : nat;
  output : list Output }.

Definition set_board x s := mkServer (m_config s) x (m_inbox s) (m_ratelimiter s) (m_listeners s) (m_pending_io s)
  (m_transport s) (m_downstream_cb s) (ticks s) (output s).
Definition set_inbox x s := mkServer (m_config s) (m_board s) x (m_ratelimiter s) (m_listeners s) (m_pending_io s)
  (m_transport s) (m_downstream_cb s) (ticks s) (output s).
Definition set_limiter x s := mkServer (m_config s) (m_board s) (m_inbox s) x (m_listeners s) (m_pending_io s)
  (m_transport s) (m_downstream_cb s) (ticks s) (output s).
Definition set_listeners x s := mkServer (m_config s) (m_board s) (m_inbox s) (m_ratelimiter s) x (m_pending_io s)
  (m_transport s) (m_downstream_cb s) (ticks s) (output s).
Definition set_pending_io x s := mkServer (m_config s) (m_board s) (m_inbox s) (m_ratelimiter s) (m_listeners s) x
  (m_transport s) (m_downstream_cb s) (ticks s) (output s).
Definition set_ticks x s := mkServer (m_config s) (m_board s) (m_inbox s) (m_ratelimiter s) (m_listeners s) (m_pending_io s)
  (m_transport s) (m_downstream_cb s) x (output s).
Definition set_output x s := mkServer (m_config s) (m_board s) (m_inbox s) (m_ratelimiter s) (m_listeners s) (m_pending_io s)
  (m_transport s) (m_downstream_cb s) (ticks s) x.

(** ** The monad *)

Definition G (A : Type) : Type := Server -> res (A * Server).
Global Instance G_ret : MRet G := fun A a s => Ok (a, s).
Global Instance G_bind : MBind G := fun A B f m s =>
  match m s with Ok (a, s) => f a s | Fault e => Fault e end.
Definition get : G Server := fun s => Ok (s, s).
Definition modify (f : Server -> Server) : G unit := fun s => Ok (tt, f s).
Definition fail {A} (e : fault) : G A := fun _ => Fault e.
Definition nothing : G unit := mret tt.
Definition when (b : bool) (m : G unit) : G unit := if b then m else nothing.
Fixpoint for_all {A} (l : list A) (f : A -> G unit) : G unit :=
  match l with [] => nothing | x :: l => f x ;; for_all l f end.

Definition modify_board (f : DataBoard -> DataBoard) : G unit := modify (fun s => set_board (f (m_board s)) s).

(** What the server does not determine: the [i]-th reading of the system clock
    in milliseconds, of the steady clock in nanoseconds and of [std::time], the
    address of the session manager, the transport's answer after some outputs,
    the listeners others register (an exception is caught, so what counts is
    the state they leave), and the order in which an [unordered_map] is walked. *)
Record Env := mkEnv {
  wall : nat -> Z;
  steady : nat -> Z;
  seconds : nat -> Z;
  self : Z;
  accepts : list Output -> str -> str -> Z -> bool;
  user : nat -> GatewayMessage -> G unit;
  order : gmap str DeviceState -> list (str * DeviceState) }.

Section Services.
Context (E : Env).

Definition tick (s : Server) : Server := set_ticks (S (ticks s)) s.

Definition now_ms : G Z := s ← get; modify tick ;; mret (wall E (ticks s)).

(** [RateLimiter::check] on the server's limiter. *)
Definition check_limit (device dimension : str) (cost : Z) : G RateLimitResult := fun s =>
  match check device dimension cost (steady E (ticks s)) (m_ratelimiter s) with
  | Ok (r, result) => Ok (result, tick (set_limiter r s))
  | Fault e => Fault e
  end.

(** ** Blackboard operations *)

(** [DataBoard::device]: the entry, created when missing. *)
Definition device_of (b : DataBoard) (id : str) : DeviceState := default (new_device id) (m_devices b !! id).

Definition modify_device (id : str) (f : DeviceState -> DeviceState) : G unit :=
  modify_board (fun b => mkBoard (<[id := f (device_of b id)]> (m_devices b)) (m_metrics b) (m_changed_keys b)).

Definition read_device (id : str) : G DeviceState :=
  modify_device id (fun d => d) ;; s ← get; mret (device_of (m_board s) id).

Definition remove_device (id : str) : G unit :=
  modify_board (fun b => mkBoard (delete id (m_devices b)) (m_metrics b) (m_changed_keys b)).

Definition mark_changed (key : str) : G unit :=
  modify_board (fun b => mkBoard (m_devices b) (m_metrics b) ({[key]} ∪ m_changed_keys b)).

Definition device_key (id : str) : str := lit "device:" ++ id.

(** ** Metrics (gateway_metrics.hpp) *)

Definition modify_metrics (f : MetricsState -> MetricsState) : G unit :=
  modify_board (fun b => mkBoard (m_devices b) (f (m_metrics b)) (m_changed_keys b)).

Definition on_connection_open : G unit := modify_metrics (fun m =>
  mkMetrics (u64 (m_active_connections m + 1)) (m_messages_in_total m) (m_messages_out_total m)
    (m_ratelimit_hits_total m) (m_auth_success_total m) (m_auth_failure_total m) (m_bytes_in_total m) (m_bytes_out_total m)).
Definition on_connection_close : G unit := modify_metrics (fun m =>
  mkMetrics (if 0 <? m_active_connections m then m_active_connections m - 1 else m_active_connections m)
    (m_messages_in_total m) (m_messages_out_total m)
    (m_ratelimit_hits_total m) (m_auth_success_total m) (m_auth_failure_total m) (m_bytes_in_total m) (m_bytes_out_total m)).
Definition on_message_in : G unit := modify_metrics (fun m =>
  mkMetrics (m_active_connections m) (u64 (m_messages_in_total m + 1)) (m_messages_out_total m)
    (m_ratelimit_hits_total m) (m_auth_success_total m) (m_auth_failure_total m) (m_bytes_in_total m) (m_bytes_out_total m)).
Definition on_message_out : G unit := modify_metrics (fun m =>
  mkMetrics (m_active_connections m) (m_messages_in_total m) (u64 (m_messages_out_total m + 1))
    (m_ratelimit_hits_total m) (m_auth_success_total m) (m_auth_failure_total m) (m_bytes_in_total m) (m_bytes_out_total m)).
Definition on_bytes_in (n : Z) : G unit := modify_metrics (fun m =>
  mkMetrics (m_active_connections m) (m_messages_in_total m) (m_messages_out_total m)
    (m_ratelimit_hits_total m) (m_auth_success_total m) (m_auth_failure_total m) (u64 (m_bytes_in_total m + n)) (m_bytes_out_total m)).
Definition on_bytes_out (n : Z) : G unit := modify_metrics (fun m =>
  mkMetrics (m_active_connections m) (m_messages_in_total m) (m_messages_out_total m)
    (m_ratelimit_hits_total m) (m_auth_success_total m) (m_auth_failure_total m) (m_bytes_in_total m) (u64 (m_bytes_out_total m + n))).
Definition on_ratelimit_hit : G unit := modify_metrics (fun m =>
  mkMetrics (m_active_connections m) (m_messages_in_total m) (m_messages_out_total m)
    (u64 (m_ratelimit_hits_total m + 1)) (m_auth_success_total m) (m_auth_failure_total m) (m_bytes_in_total m) (m_bytes_out_total m)).
Definition on_auth_success : G unit := modify_metrics (fun m =>
  mkMetrics (m_active_connections m) (m_messages_in_total m) (m_messages_out_total m)
    (m_ratelimit_hits_total m) (u64 (m_auth_success_total m + 1)) (m_auth_failure_total m) (m_bytes_in_total m) (m_bytes_out_total m)).
Definition on_auth_failure : G unit := modify_metrics (fun m =>
  mkMetrics (m_active_connections m) (m_messages_in_total m) (m_messages_out_total m)
    (m_ratelimit_hits_total m) (m_auth_success_total m) (u64 (m_auth_failure_total m + 1)) (m_bytes_in_total m) (m_bytes_out_total m)).

(** ** Sessions (gateway_session.hpp) *)

Definition generate_session_id (device : str) : G str :=
  now ← now_ms;
  mret (device ++ lit "-" ++ Decimal.to_string now ++ lit "-" ++ Decimal.to_string (self E)).

Definition create_session (id : str) : G str :=
  session ← generate_session_id id;
  now ← now_ms;
  modify_device id (fun d => mkDevice id session (d_peer_id d) true (d_status d) (d_bytes_in d) (d_bytes_out d)
                               (d_message_count d) now (d_dirty d)) ;;
  mark_changed (device_key id) ;;
  mret session.

Definition activate_session (id session : str) : G bool :=
  d ← read_device id;
  if negb (bool_decide (d_session_id d = session)) then mret false else
  now ← now_ms;
  modify_device id (fun d => mkDevice (d_device_id d) (d_session_id d) (d_peer_id d) true kIdle (d_bytes_in d)
                               (d_bytes_out d) (d_message_count d) now true) ;;
  mret true.

(** A device with its session closed at [now]. *)
Definition closed_device (now : Z) (d : DeviceState) : DeviceState :=
  mkDevice (d_device_id d) (d_session_id d) (d_peer_id d) false kIdle (d_bytes_in d) (d_bytes_out d)
    (d_message_count d) now (d_dirty d).

Definition close_session (id : str) : G unit :=
  now ← now_ms;
  modify_device id (closed_device now) ;;
  mark_changed (device_key id).

Definition update_status (id : str) (status : ConvaiStatus) : G unit :=
  now ← now_ms;
  modify_device id (fun d => mkDevice (d_device_id d) (d_session_id d) (d_peer_id d) (d_connected d) status
                               (d_bytes_in d) (d_bytes_out d) (d_message_count d) now true).

Definition record_bytes_in (id : str) (n : Z) : G unit :=
  now ← now_ms;
  modify_device id (fun d => mkDevice (d_device_id d) (d_session_id d) (d_peer_id d) (d_connected d) (d_status d)
                               (u64 (d_bytes_in d + n)) (d_bytes_out d) (d_message_count d) now (d_dirty d)).

Definition record_bytes_out (id : str) (n : Z) : G unit :=
  now ← now_ms;
  modify_device id (fun d => mkDevice (d_device_id d) (d_session_id d) (d_peer_id d) (d_connected d) (d_status d)
                               (d_bytes_in d) (u64 (d_bytes_out d + n)) (d_message_count d) now (d_dirty d)).

Definition record_message (id : str) : G unit :=
  modify_device id (fun d => mkDevice (d_device_id d) (d_session_id d) (d_peer_id d) (d_connected d) (d_status d)
                               (d_bytes_in d) (d_bytes_out d) (u64 (d_message_count d + 1)) (d_last_activity_ms d)
                               (d_dirty d)).

Definition is_connected (id : str) : G bool := d ← read_device id; mret (d_connected d).

Definition device_state (id : str) : G DeviceState := read_device id.

End Services.

End GatewayBoard.
