(* ===== verification/MetricsText.v ===== *)
(** * The metrics over HTTP (gateway_metrics.hpp, gateway_metrics_http.hpp)

    The text of the counters and the answer to a request. What [recv] returns
    is an argument. *)
From stdpp Require Import base list numbers option sets strings.
From Stdlib Require Import ZArith Lia.
From S2P Require Import Prelude Float64 Packets Decimal GatewayText GatewayBoard.

Local Open Scope Z_scope.
Import Decimal GatewayText GatewayBoard.

Module MetricsText.

Notation str := (list Z) (only parsing).

Definition newline : Z := 10.
Definition crlf : str := [13; 10].

(** ** The text *)

Definition line (l : str) : str := l ++ [newline].

(** Help, type and value of one counter. *)
Definition metric (name help kind : string) (v : Z) : str :=
  line (lit "# HELP " ++ lit name ++ lit " " ++ lit help) ++
  line (lit "# TYPE " ++ lit name ++ lit " " ++ lit kind) ++
  line (lit name ++ lit " " ++ to_string v).

Definition prometheus_text (m : MetricsState) : str :=
  metric "gateway_active_connections" "Current device connections" "gauge" (m_active_connections m) ++
  metric "gateway_messages_in_total" "Total inbound messages" "counter" (m_messages_in_total m) ++
  metric "gateway_messages_out_total" "Total outbound messages" "counter" (m_messages_out_total m) ++
  metric "gateway_ratelimit_hits_total" "Rate limit hits" "counter" (m_ratelimit_hits_total m) ++
  metric "gateway_auth_success_total" "Successful authentications" "counter" (m_auth_success_total m) ++
  metric "gateway_auth_failure_total" "Failed authentications" "counter" (m_auth_failure_total m) ++
  metric "gateway_bytes_in_total" "Total bytes received" "counter" (m_bytes_in_total m) ++
  metric "gateway_bytes_out_total" "Total bytes sent" "counter" (m_bytes_out_total m).

(** ** The answer *)

Definition response (status kind body : str) : str :=
  lit "HTTP/1.1 " ++ status ++ crlf ++
  lit "Content-Type: " ++ kind ++ crlf ++
  lit "Content-Length: " ++ to_string (Z.of_nat (length body)) ++ crlf ++
  lit "Connection: close" ++ crlf ++
  crlf ++
  body.

Definition is_metrics (path request : str) : bool :=
  contains (lit "GET " ++ path) request || contains (lit "GET /metrics") request.

(** [received]: what [recv] puts into the buffer of 4095 bytes, or nothing. *)
Definition handle_client (path : str) (m : MetricsState) (received : option str) : option str :=
  match received with
  | None | Some [] => None
  | Some request =>
      Some (if is_metrics path request
            then response (lit "200 OK") (lit "text/plain; version=0.0.4") (prometheus_text m)
            else response (lit "404 Not Found") (lit "application/json") (lit "{}"))
  end.

(** ** A reader *)

Fixpoint lines_from (line l : str) : list str :=
  match l with
  | [] => [line]
  | c :: l => if c =? newline then line :: lines_from [] l else lines_from (line ++ [c]) l
  end.
Definition lines (l : str) : list str := lines_from [] l.

(** The number on the first line that starts with [key]. *)
Definition number_after (key : str) (ls : list str) : option Z :=
  match List.find (starts_with key) ls with
  | Some line => Some (value (digits (drop (length key) line)))
  | None => None
  end.

Definition scrape (text : str) (name : string) : option Z := number_after (lit name ++ lit " ") (lines text).

(** The body of an answer, behind the first empty line, and the length the
    header announces. *)
Definition body_of (r : str) : option str :=
  i ← find (crlf ++ crlf) r; Some (drop (i + 4) r).

Definition content_length (r : str) : option Z := number_after (lit "Content-Length: ") (lines r).

(** ** Lines of the text *)

Definition one_line (l : str) : Prop := newline ∉ l.

Lemma lines_from_app line l rest : one_line l -> lines_from line (l ++ newline :: rest) = (line ++ l) :: lines rest.
Proof.
  revert line. induction l as [|c l IH]; intros line H; cbn; [by rewrite app_nil_r|].
  assert (c <> newline /\ one_line l) as [Hc Hl] by (unfold one_line in *; set_solver).
  apply Z.eqb_neq in Hc. rewrite Hc, IH by done. by rewrite <- app_assoc.
Qed.

Lemma lines_line l rest : one_line l -> lines (line l ++ rest) = l :: lines rest.
Proof. intros H. unfold line. rewrite <- app_assoc. by apply lines_from_app. Qed.

Lemma to_string_line n : 0 <= n -> one_line (to_string n).
Proof.
  intros Hn H. destruct (to_string_spec n Hn) as (Hd & _ & _). rewrite Forall_forall in Hd. by apply Hd in H.
Qed.

(** A concrete text is one line by computation. *)
Definition one_lineb (l : str) : bool := forallb (fun c => negb (c =? newline)) l.

Lemma one_lineb_ok l : one_lineb l = true -> one_line l.
Proof.
  unfold one_lineb, one_line. intros H Hin. rewrite forallb_forall in H.
  specialize (H newline ltac:(by apply list_elem_of_In)). done.
Qed.

Definition metric_lines (name help kind : string) (v : Z) : list str :=
  [lit "# HELP " ++ lit name ++ lit " " ++ lit help; lit "# TYPE " ++ lit name ++ lit " " ++ lit kind;
   lit name ++ lit " " ++ to_string v].

Lemma lines_metric name help kind v rest : 0 <= v -> one_lineb (lit name ++ lit help ++ lit kind) = true ->
  lines (metric name help kind v ++ rest) = metric_lines name help kind v ++ lines rest.
Proof.
  intros Hv H%one_lineb_ok. pose proof (to_string_line v Hv) as Ht. unfold metric, metric_lines, one_line in *.
  rewrite !not_elem_of_app in H. assert (forall s, one_lineb (lit s) = true -> newline ∉ lit s) as Hl by (intros; by apply one_lineb_ok).
  rewrite <- !app_assoc, !lines_line; [done|unfold one_line; rewrite !not_elem_of_app..];
    repeat split; try apply H; try (by apply Hl); done.
Qed.

Definition names : list string :=
  ["gateway_active_connections"; "gateway_messages_in_total"; "gateway_messages_out_total";
   "gateway_ratelimit_hits_total"; "gateway_auth_success_total"; "gateway_auth_failure_total";
   "gateway_bytes_in_total"; "gateway_bytes_out_total"]%string.

Definition counters (m : MetricsState) : list Z :=
  [m_active_connections m; m_messages_in_total m; m_messages_out_total m; m_ratelimit_hits_total m;
   m_auth_success_total m; m_auth_failure_total m; m_bytes_in_total m; m_bytes_out_total m].

(** The sample line of a counter is found in front of the others. *)
Lemma scrape_all m : Forall (fun v => 0 <= v) (counters m) ->
  scrape (prometheus_text m) <$> names = Some <$> counters m.
Proof.
  destruct m as [a b c d e f g h]. intros H. unfold counters, prometheus_text in *. cbn [m_active_connections m_messages_in_total
    m_messages_out_total m_ratelimit_hits_total m_auth_success_total m_auth_failure_total m_bytes_in_total m_bytes_out_total] in *.
  rewrite !Forall_cons in H. destruct H as (? & ? & ? & ? & ? & ? & ? & ? & _). unfold scrape.
  rewrite <- (app_nil_r (metric "gateway_bytes_out_total" _ _ _)). rewrite !lines_metric by done. unfold metric_lines.
  assert (forall v, 0 <= v -> exists t, to_string v = t /\ value (digits t) = v) as Hr.
  { intros v Hv. exists (to_string v). split; [done|]. rewrite <- (app_nil_r (to_string v)). by apply read_printed. }
  repeat match goal with |- context [to_string ?v] =>
    let t := fresh "t" in let Ht := fresh "Ht" in destruct (Hr v ltac:(assumption)) as (t & -> & Ht) end.
  lazy -[value digits]. congruence.
Qed.

(** ** Answers *)

Definition return_code : Z := 13.

(** A header line is skipped by the search for the empty line. *)
Lemma find_past l r : return_code ∉ l -> (forall x, r <> crlf ++ x) ->
  find (crlf ++ crlf) (l ++ crlf ++ r) = (fun i => length l + 2 + i)%nat <$> find (crlf ++ crlf) r.
Proof.
  intros Hl Hr. induction l as [|c l IH].
  - change (crlf ++ crlf) with [13; 10; 13; 10]. change ([] ++ crlf ++ r) with (13 :: 10 :: r).
    rewrite find_cons, find_cons; [by destruct (find [13; 10; 13; 10] r)|done|].
    destruct r as [|x [|y r]]; cbn [starts_with]; [done| |].
    + by destruct (13 =? x).
    + destruct (Z.eqb_spec 13 x) as [<-|]; [|done]. destruct (Z.eqb_spec 10 y) as [<-|]; [|done]. by destruct (Hr r).
  - apply not_elem_of_cons in Hl as [Hc Hl]. cbn [app length]. rewrite find_cons.
    + rewrite IH by done. by destruct (find (crlf ++ crlf) r).
    + change (crlf ++ crlf) with [13; 10; 13; 10]. cbn [starts_with]. destruct (Z.eqb_spec 13 c) as [<-|]; [by destruct Hc|done].
Qed.

Lemma response_reads status kind body : return_code ∉ status -> return_code ∉ kind -> one_line status -> one_line kind ->
  body_of (response status kind body) = Some body /\
  content_length (response status kind body) = Some (Z.of_nat (length body)).
Proof.
  intros Hs Hk Hs1 Hk1. destruct (to_string_spec (Z.of_nat (length body)) ltac:(lia)) as (Hd & Hv & _).
  assert (return_code ∉ to_string (Z.of_nat (length body))) as Hn.
  { intros Hin. rewrite Forall_forall in Hd. by apply Hd in Hin. }
  pose proof (to_string_line (Z.of_nat (length body)) ltac:(lia)) as Hn1. unfold response.
  set (n := to_string _) in *. split.
  - unfold body_of.
    assert (forall c l x, c <> 13 -> c :: l <> crlf ++ x) as Hx by (intros c l x Hc [= ? _]; done).
    assert (forall s, forallb (fun c => negb (c =? return_code)) (lit s) = true -> return_code ∉ lit s) as Hl.
    { intros s H Hin. rewrite forallb_forall in H. specialize (H return_code ltac:(by apply list_elem_of_In)). done. }
    rewrite (app_assoc (lit "HTTP/1.1 ")), find_past; [|rewrite not_elem_of_app; split; [by apply Hl|done]|intros x; by apply Hx].
    rewrite (app_assoc (lit "Content-Type: ")), find_past; [|rewrite not_elem_of_app; split; [by apply Hl|done]|intros x; by apply Hx].
    rewrite (app_assoc (lit "Content-Length: ")), find_past; [|rewrite not_elem_of_app; split; [by apply Hl|done]|intros x; by apply Hx].
    assert (find (crlf ++ crlf) (lit "Connection: close" ++ crlf ++ crlf ++ body) = Some 17%nat) as -> by reflexivity.
    cbn [fmap option_fmap option_map mbind option_bind]. f_equal.
    set (pre := (lit "HTTP/1.1 " ++ status) ++ crlf ++ (lit "Content-Type: " ++ kind) ++ crlf ++
      (lit "Content-Length: " ++ n) ++ crlf ++ lit "Connection: close" ++ crlf ++ crlf).
    match goal with |- drop _ ?l = _ => replace l with (pre ++ body) by (unfold pre; by rewrite <- !app_assoc) end.
    apply drop_app_length'. unfold pre.
    rewrite !length_app. change (length crlf) with 2%nat. change (length (lit "Connection: close")) with 17%nat. lia.
  - unfold content_length.
    assert (forall l r, one_line l -> lines (l ++ crlf ++ r) = (l ++ [return_code]) :: lines r) as Hl.
    { intros l r Hl. change (crlf ++ r) with ([return_code] ++ newline :: r). rewrite app_assoc. unfold lines.
      rewrite lines_from_app; [done|]. unfold one_line in *. rewrite not_elem_of_app. split; [done|].
      rewrite list_elem_of_singleton. done. }
    assert (forall s, one_lineb (lit s) = true -> newline ∉ lit s) as Hs2 by (intros; by apply one_lineb_ok).
    rewrite (app_assoc (lit "HTTP/1.1 ")), Hl by (unfold one_line; rewrite not_elem_of_app; split; [by apply Hs2|done]).
    rewrite (app_assoc (lit "Content-Type: ")), Hl by (unfold one_line; rewrite not_elem_of_app; split; [by apply Hs2|done]).
    rewrite (app_assoc (lit "Content-Length: ")), Hl by (unfold one_line; rewrite not_elem_of_app; split; [by apply Hs2|done]).
    assert (value (digits (n ++ [return_code])) = Z.of_nat (length body)) as Hr by (by rewrite digits_app).
    rewrite <- Hr. clearbody n. clear. set (rest := lines _). clearbody rest. revert rest. generalize status kind. clear.
    intros status kind rest. reflexivity.
Qed.

(** C39. A scrape works: a request that asks for the metrics is answered with
    status 200, the announced length is the length of the body, and every
    counter is read back from the body under its name. *)
Theorem metrics_scraped path m request (Hreq : is_metrics path request = true)
    (Hm : Forall (fun v => 0 <= v) (counters m)) :
  exists r body, handle_client path m (Some request) = Some r /\ starts_with (lit "HTTP/1.1 200 ") r = true /\
    body_of r = Some body /\ content_length r = Some (Z.of_nat (length body)) /\
    scrape body <$> names = Some <$> counters m.
Proof.
  unfold handle_client. rewrite Hreq. destruct request as [|c request].
  { exfalso. unfold is_metrics, contains in Hreq. cbn in Hreq. done. }
  destruct (response_reads (lit "200 OK") (lit "text/plain; version=0.0.4") (prometheus_text m)) as [Hb Hc].
  1-4: vm_compute; intros H; repeat (apply elem_of_cons in H as [H|H]; [discriminate|]); by apply elem_of_nil in H.
  do 2 eexists. split; [done|]. split; [reflexivity|]. split; [exact Hb|]. split; [exact Hc|]. by apply scrape_all.
Qed.

Lemma metrics_scraped_witness : exists r body,
  handle_client (lit "/metrics") (mkMetrics 1 20 300 0 5 0 77 0) (Some (lit "GET /metrics HTTP/1.1")) = Some r /\
  body_of r = Some body /\ scrape body "gateway_bytes_in_total" = Some 77.
Proof.
  destruct (metrics_scraped (lit "/metrics") (mkMetrics 1 20 300 0 5 0 77 0) (lit "GET /metrics HTTP/1.1"))
    as (r & body & Hr & _ & Hb & _ & Hs); [vm_compute; reflexivity|repeat constructor; vm_compute; discriminate|].
  exists r, body. split; [exact Hr|]. split; [exact Hb|]. by injection Hs.
Defined.

End MetricsText.
