(* ===== verification/MetricsHttp.v ===== *)
(** * The HTTP server of the metrics (gateway_metrics_http.hpp)

    Start, stop and the turns of the serving thread over the sockets the
    system has open (POSIX). The answers of the system are arguments. One turn
    of the thread, or one call, runs at a time. *)
From stdpp Require Import base list numbers option sets strings gmap.
From Stdlib Require Import ZArith Lia.
From S2P Require Import Prelude GatewayText GatewayBoard MetricsText.

Local Open Scope Z_scope.
Import GatewayText GatewayBoard MetricsText.

Module MetricsHttp.

Notation str := (list Z) (only parsing).

(** [serving]: the thread is in its loop; [answers]: what was sent to whom. *)
Record HttpServer := mkHttp {
  m_path : str;
  m_running : bool;
  m_socket : Z;
  serving : bool;
  open_sockets : gset Z;
  answers : list (Z * str) }.

Definition new_http (path : str) : HttpServer := mkHttp path false (-1) false ∅ [].

(** [::close]; closing what is not open is an error of the program. *)
Definition close_fd (fd : Z) (h : HttpServer) : res HttpServer :=
  if decide (fd ∈ open_sockets h)
  then Ok (mkHttp (m_path h) (m_running h) (m_socket h) (serving h) (open_sockets h ∖ {[fd]}) (answers h))
  else Fault BadPointer.

(** [serve] up to its loop: [socket] is negative when none could be made. A
    socket that cannot be bound or listened on stays open until [stop]. *)
Definition serve (socket : Z) (bound listening : bool) (h : HttpServer) : HttpServer :=
  if socket <? 0 then mkHttp (m_path h) (m_running h) socket false (open_sockets h) (answers h) else
  mkHttp (m_path h) (m_running h) socket (bound && listening) ({[socket]} ∪ open_sockets h) (answers h).

Definition start (socket : Z) (bound listening : bool) (h : HttpServer) : bool * HttpServer :=
  if m_running h then (true, h) else
  (true, serve socket bound listening (mkHttp (m_path h) true (m_socket h) (serving h) (open_sockets h) (answers h))).

(** One turn of the loop: [ready] is [select]'s result, [client] the accepted
    socket, [received] what [recv] returned for it. *)
Definition serve_turn (m : MetricsState) (ready : bool) (client : Z) (received : option str) (h : HttpServer) : res HttpServer :=
  if negb (serving h && m_running h) then Ok h else
  if negb ready then Ok h else
  if client <? 0 then Ok h else
  let h := mkHttp (m_path h) (m_running h) (m_socket h) (serving h) ({[client]} ∪ open_sockets h) (answers h) in
  let h := match handle_client (m_path h) m received with
           | Some r => mkHttp (m_path h) (m_running h) (m_socket h) (serving h) (open_sockets h) (answers h ++ [(client, r)])
           | None => h
           end in
  close_fd client h.

Definition stop (h : HttpServer) : res HttpServer :=
  if negb (m_running h) then Ok h else
  let h := mkHttp (m_path h) false (m_socket h) (serving h) (open_sockets h) (answers h) in
  h ← (if 0 <=? m_socket h
       then h' ← close_fd (m_socket h) h;
            Ok (mkHttp (m_path h') (m_running h') (-1) (serving h') (open_sockets h') (answers h'))
       else Ok h);
  Ok (mkHttp (m_path h) (m_running h) (m_socket h) false (open_sockets h) (answers h)).

Inductive HttpOp :=
  | HttpStart (socket : Z) (bound listening : bool)
  | HttpTurn (m : MetricsState) (ready : bool) (client : Z) (received : option str)
  | HttpStop.

Definition http_op (o : HttpOp) (h : HttpServer) : res HttpServer :=
  match o with
  | HttpStart socket bound listening => Ok (start socket bound listening h).2
  | HttpTurn m ready client received => serve_turn m ready client received h
  | HttpStop => stop h
  end.

Fixpoint http_ops (l : list HttpOp) (h : HttpServer) : res HttpServer :=
  match l with [] => Ok h | o :: l => h ← http_op o h; http_ops l h end.

(** The system hands out descriptors that are not in use. *)
Definition new_client (o : HttpOp) (h : HttpServer) : Prop :=
  match o with HttpTurn _ _ client _ => client ∉ open_sockets h | _ => True end.

Fixpoint new_clients (l : list HttpOp) (h : HttpServer) : Prop :=
  match l with
  | [] => True
  | o :: l => new_client o h /\ match http_op o h with Ok h => new_clients l h | Fault _ => True end
  end.

(** Only the listening socket is open between turns. *)
Record http_fine (h : HttpServer) : Prop := {
  hf_open : open_sockets h = if 0 <=? m_socket h then {[m_socket h]} else ∅;
  hf_stopped : m_running h = false -> m_socket h < 0 /\ serving h = false }.

Lemma http_op_fine o h : http_fine h -> new_client o h -> exists h', http_op o h = Ok h' /\ http_fine h' /\
  m_path h' = m_path h /\ exists new, answers h' = answers h ++ new /\
    forall fd r, (fd, r) ∈ new -> exists m request, handle_client (m_path h) m (Some request) = Some r.
Proof.
  intros [Ho Hs] Hn.
  assert (forall P : Z -> str -> Prop, exists new, answers h = answers h ++ new /\ forall fd r, (fd, r) ∈ new -> P fd r) as Hnone.
  { intros P. exists []. rewrite app_nil_r. split; [done|]. intros fd r Hx. by apply not_elem_of_nil in Hx. }
  assert (exists h', Ok h = Ok h' /\ http_fine h' /\ m_path h' = m_path h /\ exists new, answers h' = answers h ++ new /\
    forall fd r, (fd, r) ∈ new -> exists m request, handle_client (m_path h) m (Some request) = Some r) as Hsame
    by (exists h; split_and!; [done|by constructor|done|apply Hnone]).
  destruct o as [socket bound listening|m ready client received|]; cbn [http_op].
  - unfold start, serve. destruct (m_running h) eqn:Hr; [exact Hsame|]. destruct (Hs eq_refl) as [Hneg _].
    destruct (Z.ltb_spec socket 0) as [Hk|Hk]; cbn [snd]; (eexists; split_and!; [done|..]); [|done|apply Hnone| |done|apply Hnone]; (constructor; cbn; [|done]).
    + rewrite Ho, !(proj2 (Z.leb_gt _ _)) by lia. done.
    + rewrite Ho, (proj2 (Z.leb_gt _ _)), (proj2 (Z.leb_le _ _)) by lia. set_solver.
  - unfold serve_turn. destruct (serving h && m_running h) eqn:Hr; cbn [negb]; [|exact Hsame].
    destruct ready; cbn [negb]; [|exact Hsame]. destruct (Z.ltb_spec client 0) as [Hc|Hc]; [exact Hsame|]. cbn [m_path].
    assert (forall x : option str, exists h', close_fd client (match x with
        | Some r => mkHttp (m_path h) (m_running h) (m_socket h) (serving h) ({[client]} ∪ open_sockets h) (answers h ++ [(client, r)])
        | None => mkHttp (m_path h) (m_running h) (m_socket h) (serving h) ({[client]} ∪ open_sockets h) (answers h) end) = Ok h' /\
        http_fine h' /\ m_path h' = m_path h /\ answers h' = answers h ++ (match x with Some r => [(client, r)] | None => [] end)) as Hx.
    { intros x. eexists. split; [unfold close_fd; rewrite decide_True by (destruct x; cbn; set_solver); done|].
      split_and!; [constructor|by destruct x|destruct x; cbn; rewrite ?app_nil_r; done].
      - destruct x; cbn [open_sockets m_socket m_path m_running serving answers]; rewrite <- Ho; cbn in Hn; set_solver.
      - apply andb_true_iff in Hr as [_ Hr]. destruct x; cbn; congruence. }
    destruct (Hx (handle_client (m_path h) m received)) as (h' & E & F & Hp & Ha). exists h'. split_and!; [exact E|done|done|].
    eexists. split; [exact Ha|]. intros fd r Hin. destruct (handle_client (m_path h) m received) as [r'|] eqn:Eh; [|by apply not_elem_of_nil in Hin].
    apply list_elem_of_singleton in Hin. injection Hin as -> ->. destruct received as [request|]; [|done]. by exists m, request.
  - unfold stop. destruct (m_running h) eqn:Hr; cbn [negb]; [|exact Hsame]. cbn [m_socket].
    destruct (Z.leb_spec 0 (m_socket h)) as [Hk|Hk].
    + unfold close_fd. cbn [open_sockets]. rewrite Ho, decide_True by set_solver. cbn [mbind res_bind].
      eexists. split; [done|]. split_and!; [|done|apply Hnone]. constructor; cbn; [set_solver|done].
    + cbn [mbind res_bind]. eexists. split; [done|]. split_and!; [|done|apply Hnone]. constructor; cbn; [|done].
      rewrite Ho, (proj2 (Z.leb_gt _ _)) by lia. done.
Qed.

(** The metrics server closes what it opens. For every sequence of starts,
    stops and turns of its thread, whatever the system answers, no descriptor
    is closed that is not open; between turns only the listening socket is
    open, and none once it is stopped; everything sent is the answer to a request. *)
Theorem http_no_leak path l (Hl : new_clients l (new_http path)) :
  exists h, http_ops l (new_http path) = Ok h /\
    open_sockets h = (if 0 <=? m_socket h then {[m_socket h]} else ∅) /\
    (m_running h = false -> open_sockets h = ∅ /\ serving h = false) /\
    forall fd r, (fd, r) ∈ answers h -> exists m request, handle_client path m (Some request) = Some r.
Proof.
  assert (http_fine (new_http path)) as H0 by (constructor; done).
  assert (forall fd r, (fd, r) ∈ answers (new_http path) -> exists m request, handle_client path m (Some request) = Some r) as A0
    by (intros fd r Hx; by apply not_elem_of_nil in Hx).
  assert (m_path (new_http path) = path) as P0 by done.
  revert H0 A0 P0 Hl. generalize (new_http path). induction l as [|o l IH]; intros h Hh Ha Hp Hl; cbn [http_ops].
  - exists h. destruct Hh as [Ho Hs]. split_and!; [done|done| |done]. intros Hr. destruct (Hs Hr) as [Hk Hv]. split; [|done].
    by rewrite Ho, (proj2 (Z.leb_gt _ _)).
  - destruct Hl as [Hn Hl]. destruct (http_op_fine o h Hh Hn) as (h' & E & Hh' & Hp' & new & En & Hnew). rewrite E in Hl |- *.
    apply (IH h'); [done| |congruence|done]. intros fd r. rewrite En, elem_of_app. rewrite Hp in Hnew. intros [Hx|Hx]; eauto.
Qed.

Lemma http_no_leak_witness : exists h,
  http_ops [HttpStart 3 true true; HttpTurn (mkMetrics 0 0 0 0 0 0 0 0) true 4 (Some (lit "GET /metrics HTTP/1.1")); HttpStop]
    (new_http (lit "/metrics")) = Ok h /\ (m_running h = false -> open_sockets h = ∅ /\ serving h = false).
Proof.
  destruct (http_no_leak (lit "/metrics")
    [HttpStart 3 true true; HttpTurn (mkMetrics 0 0 0 0 0 0 0 0) true 4 (Some (lit "GET /metrics HTTP/1.1")); HttpStop])
    as (h & E & _ & H & _); [|exists h; split; [exact E|exact H]].
  split; [exact I|]. cbn [http_op start serve new_http m_running snd]. split; [apply (bool_decide_unpack (4 ∉ _)); vm_compute; exact I|].
  destruct (http_op _ _); [|exact I]. split; [exact I|]. destruct (http_op _ _); exact I.
Defined.

End MetricsHttp.
