(* ===== verification/Gateway.v ===== *)
(** * The gateway server and its listeners (src/gateway)

    The listeners of the device messages, the dispatch, the deferred
    output, the callbacks of the transport, and the two periodic checks. *)
From stdpp Require Import base list numbers option sets strings gmap pretty.
From Stdlib Require Import ZArith Lia.
From S2P Require Import Prelude Float64 Types Packets BlockingQueue Decimal GatewayText GatewayBoard.

Local Open Scope Z_scope.
Import GatewayText GatewayBoard.

Module Gateway.

Notation str := (list Z) (only parsing).

Record AuthResult := mkAuth {
  a_ok : bool;
  a_device_id : str;
  a_session_id : str;
  a_jwt : str;
  a_error_code : str;
  a_error_message : str;
  a_expires_at : Z }.

(** A message made by the gateway for a device. *)
Definition to_device (t : GatewayMessageType) (device session payload : str) : GatewayMessage :=
  mkMessage t GatewayToDevice device session payload 0 0.

Section Server.
Context (E : Env).

(** ** Output *)

Definition emit (o : Output) : G unit := modify (fun s => set_output (output s ++ [o]) s).

(** [std::move(wire)] leaves the vector empty, so [on_bytes_out] gets 0. *)
Definition send_to_device (device : str) (msg : GatewayMessage) : G bool :=
  s ← get;
  if negb (m_transport s) then mret false else
  let wire := serialize_downstream msg in
  if bool_decide (wire = []) then mret false else
  d ← read_device device;
  let peer := if bool_decide (d_peer_id d = []) then device else d_peer_id d in
  s ← get;
  if accepts E (output s) peer wire 0 then
    emit (ToTransport peer wire 0) ;;
    on_message_out ;;
    on_bytes_out 0 ;;
    mret true
  else mret false.

Definition downstream (msg : GatewayMessage) : G unit :=
  s ← get; when (m_downstream_cb s) (emit (ToDownstream msg)).

Definition schedule_io (op : IoOp) : G unit := modify (fun s => set_pending_io (m_pending_io s ++ [op]) s).

Definition perform_io (op : IoOp) : G unit :=
  match op with
  | IoSend device msg => send_to_device device msg ;; nothing
  | IoDownstream msg => downstream msg
  end.

Definition execute_pending_io : G unit :=
  s ← get;
  modify (set_pending_io []) ;;
  for_all (m_pending_io s) perform_io.

(** ** Authentication *)

Definition do_authenticate (product_id product_key product_secret device_name : str) : G AuthResult :=
  if bool_decide (product_id = []) || bool_decide (product_key = []) || bool_decide (device_name = []) then
    mret (mkAuth false [] [] [] (lit "AUTH_FAILED") (lit "Missing credentials") 0)
  else
    s ← get;
    modify tick ;;
    mret (mkAuth true (lit "dev-" ++ device_name) [] [] [] [] (u64 (seconds E (ticks s) + 86400))).

(** One reading of [std::time]. *)
Definition time_now : G Z := s ← get; modify tick ;; mret (seconds E (ticks s)).

(** [AuthService::authenticate]; without a validator every device is accepted. *)
Definition service_authenticate (validator : option (str -> str -> str -> str -> G AuthResult))
    (product_id product_key product_secret device_name : str) (callback : AuthResult -> G unit) : G unit :=
  result ← match validator with
           | Some validate => validate product_id product_key product_secret device_name
           | None =>
               t1 ← time_now;
               t2 ← time_now;
               mret (mkAuth true (lit "dev-" ++ device_name) (lit "sess-" ++ Decimal.to_string t1)
                       (lit "mock-jwt-" ++ device_name) [] [] (u64 (t2 + 86400)))
           end;
  callback result.

(** [AuthService::validate_jwt]; nothing in the server calls it. *)
Definition validate_jwt (validator : option (str -> bool)) (jwt : str) : bool :=
  match validator with Some validate => validate jwt | None => true end.

(** The server's service, which exists once the server has been started. *)
Definition authenticate (product_id product_key product_secret device_name : str)
    (callback : AuthResult -> G unit) : G unit :=
  s ← get;
  if negb (m_transport s) then fail BadPointer else
  service_authenticate (Some do_authenticate) product_id product_key product_secret device_name callback.

(** ** Listeners *)

Definition on_auth_result (msg : GatewayMessage) (result : AuthResult) : G unit :=
  let device := m_device_id msg in
  if negb (a_ok result) then
    on_auth_failure ;;
    schedule_io (IoSend device (to_device kToDeviceHelloErr device [] (a_error_code result)))
  else
    on_auth_success ;;
    on_connection_open ;;
    session ← create_session E device;
    schedule_io (IoSend device (to_device kToDeviceHelloAck device session [])) ;;
    schedule_io (IoDownstream (mkMessage kDeviceHello DownstreamOut device session (m_payload msg) 0 0)).

Definition on_hello (msg : GatewayMessage) : G unit :=
  let json := m_payload msg in
  let product_id := extract_json_field json (lit "product_id") in
  let product_key := extract_json_field json (lit "product_key") in
  let product_secret := extract_json_field json (lit "product_secret") in
  let device_name := extract_json_field json (lit "device_name") in
  rl ← check_limit E device_name (lit "connection") 1;
  if negb (m_allowed rl) then
    on_ratelimit_hit ;;
    schedule_io (IoSend device_name (to_device kToDeviceHelloErr device_name [] (m_error_code rl)))
  else
    authenticate product_id product_key product_secret device_name (on_auth_result msg).

Definition on_audio_frame (msg : GatewayMessage) : G unit :=
  let size := Z.of_nat (length (m_payload msg)) in
  rl ← check_limit E (m_device_id msg) (lit "bandwidth") size;
  if negb (m_allowed rl) then on_ratelimit_hit else
  record_bytes_in E (m_device_id msg) size ;;
  schedule_io (IoDownstream msg).

Definition on_audio_boundary (msg : GatewayMessage) : G unit := schedule_io (IoDownstream msg).

Definition on_bye (msg : GatewayMessage) : G unit :=
  close_session E (m_device_id msg) ;;
  on_connection_close ;;
  schedule_io (IoDownstream msg).

Definition on_ping (msg : GatewayMessage) : G unit :=
  schedule_io (IoSend (m_device_id msg) (to_device kToDevicePong (m_device_id msg) (m_session_id msg) [])).

Definition on_rate_limit (msg : GatewayMessage) : G unit := on_ratelimit_hit.

Definition forward (msg : GatewayMessage) : G unit := schedule_io (IoDownstream msg).

Definition run_listener (l : Listener) (msg : GatewayMessage) : G unit :=
  match l with
  | OnHello => on_hello msg
  | OnAudioFrame => on_audio_frame msg
  | OnAudioBoundary => on_audio_boundary msg
  | OnBye => on_bye msg
  | OnPing => on_ping msg
  | OnRateLimit => on_rate_limit msg
  | OnConfigUpdate => forward msg
  | OnFunctionCallOutput => forward msg
  | UserListener n => user E n msg
  end.

(** ** Dispatch *)

Definition listeners_of (t : GatewayMessageType) (s : Server) : list Listener :=
  default [] (m_listeners s !! message_code t).

Definition add_message_listener (t : GatewayMessageType) (l : Listener) : G unit :=
  modify (fun s => set_listeners (<[message_code t := listeners_of t s ++ [l]]> (m_listeners s)) s).

Definition builtin_listeners : list (GatewayMessageType * Listener) :=
  [(kDeviceHello, OnHello);
   (kDeviceAudioFrame, OnAudioFrame); (kDeviceAudioBoundary, OnAudioBoundary);
   (kDeviceBye, OnBye); (kDevicePing, OnPing); (kInternalRateLimit, OnRateLimit);
   (kDeviceConfigUpdate, OnConfigUpdate); (kDeviceFunctionCallOutput, OnFunctionCallOutput)].

Definition register_builtin_listeners : G unit :=
  for_all builtin_listeners (fun reg => add_message_listener reg.1 reg.2).

Definition process_one_message (msg : GatewayMessage) : G unit :=
  s ← get;
  for_all (listeners_of (m_type msg) s) (fun l => run_listener l msg).

Definition process_message_batch (batch : list GatewayMessage) : G unit :=
  for_all batch process_one_message ;;
  execute_pending_io.

(** ** Callbacks of the transport *)

Definition on_tight_message (peer_id payload : str) : G unit :=
  now ← now_ms E;
  let msg := parse_upstream_json peer_id payload now in
  modify_device (m_device_id msg) (fun d =>
    if bool_decide (d_peer_id d = []) then
      mkDevice (d_device_id d) (d_session_id d) peer_id (d_connected d) (d_status d) (d_bytes_in d) (d_bytes_out d)
        (d_message_count d) (d_last_activity_ms d) (d_dirty d)
    else d) ;;
  on_message_in ;;
  on_bytes_in (Z.of_nat (length payload)) ;;
  modify (fun s => set_inbox (BlockingQueue.offer msg (m_inbox s)).1 s).

Definition on_tight_peer_event (event : Types.PeerEvent) : G unit :=
  let id := lit (Types.ev_id event) in
  match Types.ev_state event with
  | Types.Online | Types.Established =>
      d ← read_device id;
      if d_connected d then nothing else
      modify_device id (fun d => mkDevice (d_device_id d) (d_session_id d) id true (d_status d) (d_bytes_in d)
                                   (d_bytes_out d) (d_message_count d) (d_last_activity_ms d) (d_dirty d)) ;;
      create_session E id ;;
      send_to_device id (to_device kToDeviceEvent id [] (lit "connected")) ;;
      send_to_device id (to_device kToDeviceStatus id [] (lit "idle")) ;;
      nothing
  | Types.Closed => mark_changed (device_key id)
  | _ => nothing
  end.

(** ** Periodic checks *)

Definition device_snapshot : G (list (str * DeviceState)) :=
  s ← get; mret (order E (m_devices (m_board s))).

(** Unsigned 64-bit differences. *)
Definition heartbeat_expired (c : GatewayConfig) (now : Z) (d : DeviceState) : bool :=
  d_connected d && (u64 (heartbeat_seconds c * 2000) <? u64 (now - d_last_activity_ms d)).

Definition close_expired (now : Z) (e : str * DeviceState) : G unit :=
  s ← get;
  when (heartbeat_expired (m_config s) now e.2)
    (close_session E e.1 ;; on_connection_close ;; mark_changed (device_key e.1)).

Definition heartbeat_check : G unit :=
  now ← now_ms E;
  snapshot ← device_snapshot;
  for_all snapshot (close_expired now).

Definition cleanup_due (c : GatewayConfig) (now : Z) (d : DeviceState) : bool :=
  negb (d_connected d) && (u64 (session_timeout c * 1000) <? u64 (now - d_last_activity_ms d)).

Definition remove_stale (now : Z) (e : str * DeviceState) : G unit :=
  s ← get; when (cleanup_due (m_config s) now e.2) (remove_device e.1).

Definition session_cleanup : G unit :=
  now ← now_ms E;
  snapshot ← device_snapshot;
  for_all snapshot (remove_stale now).

(** ** Construction and start *)

Definition empty_server (c : GatewayConfig) (cb : bool) : Server :=
  mkServer c (mkBoard ∅ (mkMetrics 0 0 0 0 0 0 0 0) ∅) (BlockingQueue.mkFifo 32768 [] false) new_limiter ∅ []
    false cb 0 [].

(** The configuration [start] gives to the transport. *)
Definition transport_config (c : GatewayConfig) : Types.TightConfig :=
  let d := Types.default_config in {|
    Types.bind := Types.mkNetAddress (tight_host c) (tight_port c);
    Types.cfg_id := if bool_decide (tight_id c = ""%string)
      then ("gateway-" +:+ pretty (Z.to_N (tight_port c)))%string else tight_id c;
    Types.token := tight_token c;
    Types.role := Types.Node;
    Types.mtu := tight_mtu c;
    Types.heartbeat := tight_heartbeat c;
    Types.report_interval := Types.report_interval d;
    Types.flush_interval := Types.flush_interval d;
    Types.dead_timeout := tight_dead_timeout c;
    Types.retransmit_timeout := Types.retransmit_timeout d;
    Types.initial_bandwidth_bytes := Types.initial_bandwidth_bytes d;
    Types.queue_limit := max_payload_bytes c;
    Types.max_message_bytes := max_payload_bytes c;
    Types.drop_log := Types.drop_log d;
    Types.retransmit_enabled := Types.retransmit_enabled d;
    Types.late_rtt_multiplier := Types.late_rtt_multiplier d;
    Types.speed_test_enabled := Types.speed_test_enabled d;
    Types.speed_test_bytes := Types.speed_test_bytes d;
    Types.encryption_enabled := Types.encryption_enabled d;
    Types.socket_buffer_bytes := Types.socket_buffer_bytes d;
    Types.encode_queue_limit := Types.encode_queue_limit d;
    Types.outbound_queue_limit := Types.outbound_queue_limit d;
    Types.lite_mode := Types.lite_mode d |}.

End Server.

End Gateway.
