(* ===== verification/GatewayFlow.v ===== *)
(** * What the gateway does with a batch of messages

    A batch is dispatched to the built-in listeners and then the deferred
    output is executed. The result is compared with a reference: per message
    the work it asks for, given the verdict of the limiter and of the
    authentication, and a fold that turns this work into output. *)
From stdpp Require Import base list numbers option sets strings gmap pretty.
From Stdlib Require Import ZArith Lia.
From S2P Require Import Prelude Float64 Types Packets BlockingQueue Decimal GatewayText GatewayBoard Gateway.

Local Open Scope Z_scope.
Import GatewayText GatewayBoard Gateway.

Module GatewayFlow.

Notation str := (list Z) (only parsing).

(** ** Reference *)

Inductive verdict := Limited | Rejected | Granted (session : str).

Definition hello_name (msg : GatewayMessage) : str := extract_json_field (m_payload msg) (lit "device_name").

(** A hello without one of the fields the gateway insists on. *)
Definition no_credentials (msg : GatewayMessage) : bool :=
  bool_decide (extract_json_field (m_payload msg) (lit "product_id") = []) ||
  bool_decide (extract_json_field (m_payload msg) (lit "product_key") = []) ||
  bool_decide (hello_name msg = []).

Definition session_name (E : Env) (device : str) (i : nat) : str :=
  device ++ lit "-" ++ Decimal.to_string (wall E i) ++ lit "-" ++ Decimal.to_string (self E).

(** Which verdicts a message can get. *)
Definition verdict_ok (E : Env) (msg : GatewayMessage) (v : verdict) : Prop :=
  match m_type msg, v with
  | kDeviceHello, Limited => True
  | kDeviceHello, Rejected => no_credentials msg = true
  | kDeviceHello, Granted session => no_credentials msg = false /\ exists i, session = session_name E (m_device_id msg) i
  | kDeviceAudioFrame, Limited => True
  | _, Granted _ => True
  | _, _ => False
  end.

(** The deferred work of a message. *)
Definition io_of (msg : GatewayMessage) (v : verdict) : list IoOp :=
  let dev := m_device_id msg in
  match m_type msg, v with
  | kDeviceHello, Limited =>
      [IoSend (hello_name msg) (to_device kToDeviceHelloErr (hello_name msg) [] (lit "RATE_LIMITED"))]
  | kDeviceHello, Rejected => [IoSend dev (to_device kToDeviceHelloErr dev [] (lit "AUTH_FAILED"))]
  | kDeviceHello, Granted session =>
      [IoSend dev (to_device kToDeviceHelloAck dev session []);
       IoDownstream (mkMessage kDeviceHello DownstreamOut dev session (m_payload msg) 0 0)]
  | kDeviceAudioFrame, Limited => []
  | kDevicePing, _ => [IoSend dev (to_device kToDevicePong dev (m_session_id msg) [])]
  | (kDeviceAudioFrame | kDeviceAudioBoundary | kDeviceBye | kDeviceConfigUpdate | kDeviceFunctionCallOutput), _ =>
      [IoDownstream msg]
  | _, _ => []
  end.

Definition is_limited (v : verdict) : bool := match v with Limited => true | _ => false end.
Definition is_rejected (v : verdict) : bool := match v with Rejected => true | _ => false end.

(** Where a message for a device goes. *)
Definition peer_of (b : DataBoard) (device : str) : str :=
  let p := d_peer_id (device_of b device) in if bool_decide (p = []) then device else p.

(** The output of one piece of deferred work after [sofar]. *)
Definition outcome (E : Env) (s : Server) (sofar : list Output) (op : IoOp) : list Output :=
  match op with
  | IoSend device msg =>
      let wire := serialize_downstream msg in
      let peer := peer_of (m_board s) device in
      if m_transport s && negb (bool_decide (wire = [])) && accepts E sofar peer wire 0
      then [ToTransport peer wire 0] else []
  | IoDownstream msg => if m_downstream_cb s then [ToDownstream msg] else []
  end.

Definition outputs (E : Env) (s : Server) (ops : list IoOp) : list Output :=
  foldl (fun sofar op => sofar ++ outcome E s sofar op) (output s) ops.

(** Only the built-in listeners are registered. *)
Definition builtin_only (s : Server) : Prop :=
  forall t, listeners_of t s = snd <$> List.filter (fun r => bool_decide (r.1 = t)) builtin_listeners.

(** ** Frames *)

(** What no built-in listener and no output changes. *)
Record same (s s' : Server) : Prop := {
  sm_config : m_config s' = m_config s;
  sm_listeners : m_listeners s' = m_listeners s;
  sm_transport : m_transport s' = m_transport s;
  sm_cb : m_downstream_cb s' = m_downstream_cb s;
  sm_inbox : m_inbox s' = m_inbox s;
  sm_peer : forall id, d_peer_id (device_of (m_board s') id) = d_peer_id (device_of (m_board s) id);
  sm_bytes_out : 0 <= m_bytes_out_total (m_metrics (m_board s)) < 2 ^ 64 ->
    m_bytes_out_total (m_metrics (m_board s')) = m_bytes_out_total (m_metrics (m_board s)) }.

Global Instance same_refl : Reflexive same.
Proof. by constructor. Qed.

Global Instance same_trans : Transitive same.
Proof.
  intros a b c [] []. constructor; try congruence. intros H. rewrite sm_bytes_out1; [auto|]. rewrite sm_bytes_out0; auto.
Qed.

Lemma peer_of_same s s' id : same s s' -> peer_of (m_board s') id = peer_of (m_board s) id.
Proof. intros H. unfold peer_of. by rewrite (sm_peer _ _ H). Qed.

Lemma device_of_insert devs m k id d x : device_of (mkBoard (<[id := d]> devs) m k) x =
  if bool_decide (x = id) then d else device_of (mkBoard devs m k) x.
Proof.
  unfold device_of. cbn [m_devices]. case_bool_decide as H; [subst; by rewrite lookup_insert_eq|].
  by rewrite lookup_insert_ne.
Qed.

(** ** One message *)

Definition hits (s : Server) : Z := m_ratelimit_hits_total (m_metrics (m_board s)).
Definition failures (s : Server) : Z := m_auth_failure_total (m_metrics (m_board s)).

Definition hits_of (msg : GatewayMessage) (v : verdict) : Z :=
  if is_limited v || bool_decide (m_type msg = kInternalRateLimit) then 1 else 0.
Definition failures_of (v : verdict) : Z := if is_rejected v then 1 else 0.

(** [l] has been scheduled, with [a] more hits and [b] more failures. *)
Record delta (l : list IoOp) (a b : Z) (s s' : Server) : Prop := {
  dl_same : same s s';
  dl_pending : m_pending_io s' = m_pending_io s ++ l;
  dl_output : output s' = output s;
  dl_hits : u64 (hits s') = u64 (hits s + a);
  dl_failures : u64 (failures s') = u64 (failures s + b) }.

(** On a started server [m] has such an effect, unless the limiter's conversion
    of a double to an integer is undefined. *)
Definition does {A} (m : G A) (Q : A -> list IoOp -> Z -> Z -> Prop) : Prop :=
  forall s, m_transport s = true ->
  match m s with
  | Ok (r, s') => exists l a b, Q r l a b /\ delta l a b s s'
  | Fault e => e = BadCast
  end.

Lemma check_refused device dimension cost now r r' res : check device dimension cost now r = Ok (r', res) ->
  m_allowed res = false -> m_error_code res = lit "RATE_LIMITED".
Proof.
  unfold check. intros H. destruct (m_buckets r !! dimension) as [cfg|]; [|by simplify_eq].
  cbv zeta in H. destruct (F64.ltb _ _) in H; inv_bind H; by simplify_eq.
Qed.

Lemma check_faults device dimension cost now r e : check device dimension cost now r = Fault e -> e = BadCast.
Proof.
  assert (forall f e, F64.cast_u64 f = Fault e -> e = BadCast) as Hc.
  { intros f e'. unfold F64.cast_u64, F64.cast_unsigned, F64.trunc. intros H.
    destruct f as [|[]| |]; cbn [mbind res_bind] in H; try (by injection H as <-); by destruct (bool_decide _); simplify_eq. }
  unfold check. intros H. destruct (m_buckets r !! dimension) as [cfg|]; [|done]. cbv zeta in H.
  destruct (F64.ltb _ _) in H; (destruct (F64.cast_u64 _) as [n|e'] eqn:En in H; [done|]); injection H as <-;
    by eapply Hc.
Qed.

Lemma u64_u64 n : u64 (u64 n) = u64 n.
Proof. unfold u64. apply Z.mod_mod. lia. Qed.

(** Updates of one device that keep its peer. *)
Lemma peer_kept b f id x m k : (forall d, d_peer_id (f d) = d_peer_id d) ->
  d_peer_id (device_of (mkBoard (<[id := f (device_of b id)]> (m_devices b)) m k) x) = d_peer_id (device_of b x).
Proof.
  intros H. rewrite device_of_insert. case_bool_decide as Hx; [subst; by rewrite H|done].
Qed.

Lemma builtin_listener msg s : builtin_only s ->
  listeners_of (m_type msg) s = match m_type msg with
    | kDeviceHello => [OnHello] | kDeviceAudioFrame => [OnAudioFrame] | kDeviceAudioBoundary => [OnAudioBoundary]
    | kDeviceBye => [OnBye] | kDevicePing => [OnPing] | kInternalRateLimit => [OnRateLimit]
    | kDeviceConfigUpdate => [OnConfigUpdate] | kDeviceFunctionCallOutput => [OnFunctionCallOutput]
    | _ => [] end.
Proof. intros H. rewrite H. by destruct (m_type msg). Qed.

Lemma u64_shift x y z a : u64 x = u64 (y + z) -> u64 (x + a) = u64 (y + (z + a)).
Proof. unfold u64. intros H. rewrite <- Zplus_mod_idemp_l, H, Zplus_mod_idemp_l. f_equal. lia. Qed.

Lemma delta_nil s s' : same s s' -> m_pending_io s' = m_pending_io s -> output s' = output s -> hits s' = hits s ->
  failures s' = failures s -> delta [] 0 0 s s'.
Proof. intros ? H ? Hh Hf. constructor; rewrite ?app_nil_r, ?Z.add_0_r, ?Hh, ?Hf; done. Qed.

Lemma delta_trans l l' a a' b b' s s1 s2 : delta l a b s s1 -> delta l' a' b' s1 s2 ->
  delta (l ++ l') (a + a') (b + b') s s2.
Proof.
  intros [] []. constructor; [by etrans|by rewrite dl_pending1, dl_pending0, app_assoc|congruence| |].
  - rewrite dl_hits1. by apply u64_shift.
  - rewrite dl_failures1. by apply u64_shift.
Qed.

Lemma flow_bind {A B} (m : G A) (k : A -> G B) Q Q' : does m Q ->
  (forall r l a b, Q r l a b -> does (k r) (fun r' l' a' b' => Q' r' (l ++ l') (a + a') (b + b'))) ->
  does (m ≫= k) Q'.
Proof.
  intros Hm Hk s Hs. unfold mbind, G_bind. specialize (Hm s Hs). destruct (m s) as [[x s1]|]; [|done].
  destruct Hm as (l & a & b & HQ & Hd). pose proof (sm_transport _ _ (dl_same _ _ _ _ _ Hd)) as Ht.
  specialize (Hk _ _ _ _ HQ s1 ltac:(by rewrite Ht)). destruct (k x s1) as [[y s2]|]; [|done].
  destruct Hk as (l' & a' & b' & HQ' & Hd'). do 3 eexists. split; [exact HQ'|]. by eapply delta_trans.
Qed.

Definition silent {A} (r : A) (l : list IoOp) (a b : Z) : Prop := l = [] /\ a = 0 /\ b = 0.

(** After a step without effect of its own. *)
Lemma flow_then {A B} (m : G A) (k : A -> G B) Q : does m silent -> (forall r, does (k r) Q) -> does (m ≫= k) Q.
Proof. intros Hm Hk. eapply flow_bind; [exact Hm|]. intros r l a b (-> & -> & ->). apply Hk. Qed.

Lemma does_mono {A} (m : G A) (Q Q' : A -> list IoOp -> Z -> Z -> Prop) : does m Q ->
  (forall r l a b, Q r l a b -> Q' r l a b) -> does m Q'.
Proof.
  intros Hm H s Hs. specialize (Hm s Hs). destruct (m s) as [[r s']|]; [|done].
  destruct Hm as (l & a & b & HQ & Hd). exists l, a, b. auto.
Qed.

Lemma does_ret {A} (x : A) : does (mret x) (fun r l a b => r = x /\ silent r l a b).
Proof. intros s Hs. exists [], 0, 0. split; [done|]. by apply delta_nil. Qed.

Lemma does_get : does get silent.
Proof. intros s Hs. exists [], 0, 0. split; [done|]. by apply delta_nil. Qed.

Lemma does_tick : does (modify tick) silent.
Proof. intros s Hs. exists [], 0, 0. split; [done|]. by apply delta_nil. Qed.

Lemma does_schedule op : does (schedule_io op) (fun _ l a b => l = [op] /\ a = 0 /\ b = 0).
Proof. intros s Hs. exists [op], 0, 0. split; [done|]. by constructor; rewrite ?Z.add_0_r. Qed.

Lemma does_device id f : (forall d, d_peer_id (f d) = d_peer_id d) -> does (modify_device id f) silent.
Proof.
  intros Hf s Hs. exists [], 0, 0. split; [done|]. apply delta_nil; try done.
  constructor; try done. intros x. by apply peer_kept.
Qed.

Lemma does_mark key : does (mark_changed key) silent.
Proof. intros s Hs. exists [], 0, 0. split; [done|]. by apply delta_nil. Qed.

(** Changes of the metrics that leave the bytes sent alone. *)
Lemma does_metrics f a b : (forall m, m_bytes_out_total (f m) = m_bytes_out_total m) ->
  (forall m, u64 (m_ratelimit_hits_total (f m)) = u64 (m_ratelimit_hits_total m + a)) ->
  (forall m, u64 (m_auth_failure_total (f m)) = u64 (m_auth_failure_total m + b)) ->
  does (modify_metrics f) (fun _ l a' b' => l = [] /\ a' = a /\ b' = b).
Proof.
  intros Hf Ha Hb s Hs. exists [], a, b. split; [done|].
  constructor; [constructor; try done; cbn; auto|by rewrite app_nil_r|done|apply Ha|apply Hb].
Qed.

Lemma does_limit E device dimension cost : does (check_limit E device dimension cost)
  (fun r l a b => silent r l a b /\ (m_allowed r = false -> m_error_code r = lit "RATE_LIMITED")).
Proof.
  intros s Hs. unfold check_limit. destruct (check _ _ _ _ _) as [[lim res]|] eqn:Ec; [|by eapply check_faults].
  exists [], 0, 0. split; [split; [done|by eapply check_refused]|]. by apply delta_nil.
Qed.

Lemma u64_incr x : u64 (u64 (x + 1)) = u64 (x + 1).
Proof. apply u64_u64. Qed.

Lemma does_opened : does on_auth_success silent /\ does on_connection_open silent /\ does on_connection_close silent.
Proof. split_and!; apply does_metrics; intros m; cbn; by rewrite ?Z.add_0_r. Qed.

Lemma does_hit : does on_ratelimit_hit (fun _ l a b => l = [] /\ a = 1 /\ b = 0).
Proof. apply does_metrics; intros m; cbn; rewrite ?Z.add_0_r, ?u64_u64; done. Qed.

Lemma does_failure : does on_auth_failure (fun _ l a b => l = [] /\ a = 0 /\ b = 1).
Proof. apply does_metrics; intros m; cbn; rewrite ?Z.add_0_r, ?u64_u64; done. Qed.

Lemma does_now E : does (now_ms E) silent.
Proof. intros s Hs. exists [], 0, 0. split; [done|]. by apply delta_nil. Qed.

Lemma does_session_id E device :
  does (generate_session_id E device) (fun r l a b => silent r l a b /\ exists i, r = session_name E device i).
Proof.
  intros s Hs. exists [], 0, 0. split; [split; [done|by exists (ticks s)]|]. by apply delta_nil.
Qed.

Lemma does_create E device :
  does (create_session E device) (fun r l a b => silent r l a b /\ exists i, r = session_name E device i).
Proof.
  eapply flow_bind; [apply does_session_id|]. intros session l a b [(-> & -> & ->) Hs].
  apply flow_then; [apply does_now|]. intros now. apply flow_then; [by apply does_device|]. intros [].
  apply flow_then; [apply does_mark|]. intros [].
  eapply does_mono; [apply does_ret|]. intros r l a b [-> H]. done.
Qed.

Lemma does_close E id : does (close_session E id) silent.
Proof.
  apply flow_then; [apply does_now|]. intros now. apply flow_then; [by apply does_device|]. intros []. apply does_mark.
Qed.

(** The last step of a listener. *)
Lemma does_last op : forall l0 a0 b0 (Q : unit -> list IoOp -> Z -> Z -> Prop), Q tt (l0 ++ [op]) (a0 + 0) (b0 + 0) ->
  does (schedule_io op) (fun r l a b => Q r (l0 ++ l) (a0 + a) (b0 + b)).
Proof. intros l0 a0 b0 Q H. eapply does_mono; [apply does_schedule|]. by intros [] l a b (-> & -> & ->). Qed.

Definition reports (E : Env) (msg : GatewayMessage) : unit -> list IoOp -> Z -> Z -> Prop := fun _ l a b =>
  exists v, verdict_ok E msg v /\ l = io_of msg v /\ a = hits_of msg v /\ b = failures_of v.

Lemma does_auth_result E msg res : m_type msg = kDeviceHello -> a_ok res = negb (no_credentials msg) ->
  (a_ok res = false -> a_error_code res = lit "AUTH_FAILED") -> does (on_auth_result E msg res) (reports E msg).
Proof.
  intros Ht Hok Hc. unfold on_auth_result. destruct (a_ok res); cbn [negb].
  - apply flow_then; [apply does_opened|]. intros []. apply flow_then; [apply does_opened|]. intros [].
    eapply flow_bind; [apply does_create|]. intros session l a b [(-> & -> & ->) [i Hi]].
    eapply flow_bind; [apply does_schedule|]. intros [] l a b (-> & -> & ->). apply (does_last _ [_]).
    exists (Granted session). unfold verdict_ok, io_of, hits_of. rewrite Ht.
    split_and!; [by destruct (no_credentials msg)|by exists i|done..].
  - eapply flow_bind; [apply does_failure|]. intros [] l a b (-> & -> & ->). apply does_last.
    exists Rejected. unfold verdict_ok, io_of, hits_of. rewrite Ht, Hc by done.
    split_and!; [by destruct (no_credentials msg)|done..].
Qed.

Lemma does_authenticate E pid pkey psec name cb Q :
  (forall res, a_ok res = negb (bool_decide (pid = []) || bool_decide (pkey = []) || bool_decide (name = [])) ->
     (a_ok res = false -> a_error_code res = lit "AUTH_FAILED") -> does (cb res) Q) ->
  does (authenticate E pid pkey psec name cb) Q.
Proof.
  intros H. enough (does (result ← do_authenticate E pid pkey psec name; cb result) Q) as Hd.
  { intros s Hs. specialize (Hd s Hs). unfold authenticate, get, mbind, G_bind in *. by rewrite Hs. }
  unfold do_authenticate. destruct (_ || _) eqn:Eb.
  - eapply flow_bind; [apply does_ret|]. intros r l a b [-> (-> & -> & ->)]. by apply H.
  - eapply flow_bind with (Q := fun r l a b => silent r l a b /\ a_ok r = true).
    + apply flow_then; [apply does_get|]. intros s1. apply flow_then; [apply does_tick|]. intros [].
      eapply does_mono; [apply does_ret|]. by intros r l a b [-> Hs].
    + intros r l a b [(-> & -> & ->) Hr]. apply H; [by rewrite Hr|]. by rewrite Hr.
Qed.
Lemma does_hello E msg : m_type msg = kDeviceHello -> does (on_hello E msg) (reports E msg).
Proof.
  intros Ht. eapply flow_bind; [apply does_limit|]. intros rl l a b [(-> & -> & ->) Hc].
  destruct (m_allowed rl); cbn [negb app].
  - apply does_authenticate. intros res Hok Hcode. by apply does_auth_result.
  - eapply flow_bind; [apply does_hit|]. intros [] l a b (-> & -> & ->). apply does_last.
    exists Limited. unfold verdict_ok, io_of, hits_of. rewrite Ht, Hc by done. done.
Qed.

Lemma does_audio E msg : m_type msg = kDeviceAudioFrame -> does (on_audio_frame E msg) (reports E msg).
Proof.
  intros Ht. eapply flow_bind; [apply does_limit|]. intros rl l a b [(-> & -> & ->) Hc].
  destruct (m_allowed rl); cbn [negb app].
  - apply flow_then; [|intros []; apply (does_last _ [] 0 0)].
    + apply flow_then; [apply does_now|]. intros now. by apply does_device.
    + exists (Granted []). unfold verdict_ok, io_of, hits_of. by rewrite Ht.
  - eapply does_mono; [apply does_hit|]. intros [] l a b (-> & -> & ->).
    exists Limited. unfold verdict_ok, io_of, hits_of. by rewrite Ht.
Qed.

(** A listener that only schedules. *)
Lemma does_one E msg op : io_of msg (Granted []) = [op] -> verdict_ok E msg (Granted []) ->
  m_type msg <> kInternalRateLimit -> does (schedule_io op) (reports E msg).
Proof.
  intros Hop Hv Ht. apply (does_last op [] 0 0). exists (Granted []). split_and!; [done|by rewrite Hop| |done].
  unfold hits_of. by rewrite bool_decide_eq_false_2.
Qed.

Lemma does_listener E msg l : (m_type msg, l) ∈ builtin_listeners -> does (run_listener E l msg) (reports E msg).
Proof.
  intros Hl. unfold builtin_listeners in Hl. rewrite !elem_of_cons, elem_of_nil in Hl.
  destruct Hl as [[= Ht ->]|[[= Ht ->]|[[= Ht ->]|[[= Ht ->]|[[= Ht ->]|[[= Ht ->]|[[= Ht ->]|[[= Ht ->]|[]]]]]]]]]; cbn [run_listener].
  - by apply does_hello.
  - by apply does_audio.
  - apply does_one; unfold io_of, verdict_ok; by rewrite Ht.
  - apply flow_then; [apply does_close|]. intros []. apply flow_then; [apply does_opened|]. intros [].
    apply does_one; unfold io_of, verdict_ok; by rewrite Ht.
  - apply does_one; unfold io_of, verdict_ok; by rewrite Ht.
  - eapply does_mono; [apply does_hit|]. intros [] l a b (-> & -> & ->). exists (Granted []).
    unfold verdict_ok, io_of, hits_of. by rewrite Ht.
  - apply does_one; unfold io_of, verdict_ok; by rewrite Ht.
  - apply does_one; unfold io_of, verdict_ok; by rewrite Ht.
Qed.

(** The listeners of a message do what the reference says. *)
Lemma does_message E msg s : builtin_only s -> m_transport s = true ->
  match process_one_message E msg s with
  | Ok (_, s') => exists v, verdict_ok E msg v /\ delta (io_of msg v) (hits_of msg v) (failures_of v) s s'
  | Fault e => e = BadCast
  end.
Proof.
  intros Hb Hs. change (process_one_message E msg s) with (for_all (listeners_of (m_type msg) s) (fun l => run_listener E l msg) s).
  rewrite (builtin_listener msg s Hb).
  enough (does (for_all match m_type msg with
    | kDeviceHello => [OnHello] | kDeviceAudioFrame => [OnAudioFrame] | kDeviceAudioBoundary => [OnAudioBoundary]
    | kDeviceBye => [OnBye] | kDevicePing => [OnPing] | kInternalRateLimit => [OnRateLimit]
    | kDeviceConfigUpdate => [OnConfigUpdate] | kDeviceFunctionCallOutput => [OnFunctionCallOutput]
    | _ => [] end (fun l => run_listener E l msg)) (reports E msg)) as Hd.
  { specialize (Hd s Hs). destruct (for_all _ _ s) as [[[] s']|]; [|done].
    destruct Hd as (l & a & b & (v & Hv & -> & -> & ->) & Hdelta). by exists v. }
  assert (forall l, (m_type msg, l) ∈ builtin_listeners -> does (for_all [l] (fun l => run_listener E l msg)) (reports E msg)) as Hl.
  { intros l Hl. eapply flow_bind; [by apply does_listener|]. intros [] l1 a b Hq. eapply does_mono; [apply does_ret|].
    intros r l2 a2 b2 [_ (-> & -> & ->)]. by rewrite app_nil_r, !Z.add_0_r. }
  assert (verdict_ok E msg (Granted []) -> io_of msg (Granted []) = [] -> hits_of msg (Granted []) = 0 ->
    does (for_all [] (fun l => run_listener E l msg)) (reports E msg)) as Hn.
  { intros Hv Hio Hh. eapply does_mono; [apply does_ret|]. intros r l a b [_ (-> & -> & ->)]. exists (Granted []).
    by rewrite Hio, Hh. }
  unfold verdict_ok, io_of, hits_of, builtin_listeners in *.
  destruct (m_type msg); (apply Hl; set_solver) || by apply Hn.
Qed.

(** ** The deferred output *)

Lemma outcome_same E s s' sofar op : same s s' -> outcome E s' sofar op = outcome E s sofar op.
Proof.
  intros H. unfold outcome. destruct op; rewrite ?(peer_of_same _ _ _ H), ?(sm_transport _ _ H), ?(sm_cb _ _ H); done.
Qed.

(** A piece of output leaves only its output. *)
Record emitted (s : Server) (o : list Output) (s' : Server) : Prop := {
  em_same : same s s';
  em_pending : m_pending_io s' = m_pending_io s;
  em_output : output s' = output s ++ o;
  em_hits : hits s' = hits s;
  em_failures : failures s' = failures s }.

Lemma emitted_nil s s' : same s s' -> m_pending_io s' = m_pending_io s -> output s' = output s -> hits s' = hits s ->
  failures s' = failures s -> emitted s [] s'.
Proof. intros ? ? Ho ? ?. constructor; [done|done|by rewrite app_nil_r|done|done]. Qed.

Lemma emitted_trans s s1 s2 o o' : emitted s o s1 -> emitted s1 o' s2 -> emitted s (o ++ o') s2.
Proof. intros [] []. constructor; [by etrans|congruence|by rewrite em_output1, em_output0, app_assoc|congruence..]. Qed.

Lemma read_device_emits id s :
  exists s', read_device id s = Ok (device_of (m_board s) id, s') /\ emitted s [] s'.
Proof.
  eexists. split.
  - unfold read_device, modify_device, modify_board, modify, get, mbind, G_bind, mret, G_ret. cbn [m_board set_board].
    rewrite device_of_insert. by rewrite bool_decide_eq_true_2.
  - apply emitted_nil; try done. constructor; try done. intros x. cbn. by apply (peer_kept _ (fun d => d)).
Qed.

Lemma send_emits E id msg s :
  exists b s', send_to_device E id msg s = Ok (b, s') /\ emitted s (outcome E s (output s) (IoSend id msg)) s'.
Proof.
  destruct (m_transport s) eqn:Ht.
  2: { exists false, s. unfold send_to_device, outcome, get, mbind, G_bind, mret, G_ret. rewrite Ht. cbn [negb andb].
       split; [done|]. by apply emitted_nil. }
  unfold send_to_device, get, mbind at 1, G_bind at 1, outcome. rewrite Ht. cbn [negb andb]. cbv zeta.
  destruct (bool_decide (serialize_downstream msg = [])); cbn [negb andb].
  { exists false, s. split; [done|]. by apply emitted_nil. }
  destruct (read_device_emits id s) as (s1 & Hr & He). unfold mbind, G_bind. rewrite Hr. cbv beta iota zeta.
  unfold peer_of. cbv zeta. pose proof (em_output _ _ _ He) as Ho. rewrite app_nil_r in Ho. rewrite Ho.
  destruct (accepts _ _ _ _ _).
  2: { exists false, s1. split; [done|exact He]. }
  exists true. eexists. split; [reflexivity|]. rewrite <- (app_nil_l [_]). eapply emitted_trans; [exact He|].
  constructor; try done. constructor; try done. intros Hb. cbn in *. unfold u64. rewrite Z.add_0_r. by apply Z.mod_small.
Qed.

Lemma io_emits E op s : exists s', perform_io E op s = Ok (tt, s') /\ emitted s (outcome E s (output s) op) s'.
Proof.
  destruct op as [id msg|msg]; cbn [perform_io].
  - destruct (send_emits E id msg s) as (b & s' & Hs & He). exists s'. split; [|done].
    unfold mbind, G_bind. by rewrite Hs.
  - unfold downstream, get, mbind, G_bind, outcome, when. destruct (m_downstream_cb s).
    + eexists. split; [reflexivity|]. by constructor.
    + exists s. split; [done|]. by apply emitted_nil.
Qed.

Lemma ios_emit E ops s s0 : same s0 s -> exists s', for_all ops (perform_io E) s = Ok (tt, s') /\ same s s' /\
  m_pending_io s' = m_pending_io s /\ hits s' = hits s /\ failures s' = failures s /\
  output s' = foldl (fun sofar op => sofar ++ outcome E s0 sofar op) (output s) ops.
Proof.
  revert s. induction ops as [|op ops IH]; intros s H0; cbn [for_all foldl]; [by exists s|].
  destruct (io_emits E op s) as (s1 & E1 & He). unfold mbind, G_bind. rewrite E1. destruct He.
  destruct (IH s1) as (s2 & E2 & Hs & Hp & Hh & Hf & Ho); [by etrans|]. exists s2.
  rewrite em_output0, (outcome_same _ _ _ _ _ H0) in Ho. split_and!; [done|by etrans|congruence..|done].
Qed.

(** ** A batch *)

Definition sum (l : list Z) : Z := foldr Z.add 0 l.

Lemma builtin_listeners_eq s s' : m_listeners s' = m_listeners s -> builtin_only s -> builtin_only s'.
Proof. intros H Hb t. rewrite <- Hb. unfold listeners_of. by rewrite H. Qed.

Lemma builtin_same s s' : same s s' -> builtin_only s -> builtin_only s'.
Proof. intros H. apply builtin_listeners_eq, H. Qed.

Lemma does_batch E batch s : builtin_only s -> m_transport s = true ->
  match for_all batch (process_one_message E) s with
  | Ok (_, s') => exists vs, Forall2 (verdict_ok E) batch vs /\
      delta (concat (zip_with io_of batch vs)) (sum (zip_with hits_of batch vs)) (sum (failures_of <$> vs)) s s'
  | Fault e => e = BadCast
  end.
Proof.
  revert s. induction batch as [|msg batch IH]; intros s Hb Ht; cbn [for_all].
  { exists []. split; [constructor|]. by apply delta_nil. }
  unfold mbind, G_bind. pose proof (does_message E msg s Hb Ht) as H1.
  destruct (process_one_message E msg s) as [[[] s1]|]; [|done]. destruct H1 as (v & Hv & Hd).
  pose proof (dl_same _ _ _ _ _ Hd) as Hs. specialize (IH s1 (builtin_same _ _ Hs Hb)). rewrite (sm_transport _ _ Hs) in IH.
  specialize (IH Ht). destruct (for_all batch _ s1) as [[[] s2]|]; [|done]. destruct IH as (vs & Hvs & Hd2).
  exists (v :: vs). split; [by constructor|]. by eapply delta_trans.
Qed.

(** The outcome of a batch. The only failure left is an undefined conversion in
    the limiter, which GatewayTotal excludes. *)
Lemma batch_outcome E batch s (Hb : builtin_only s) (Ht : m_transport s = true) :
  match process_message_batch E batch s with
  | Ok (_, s') => exists vs, Forall2 (verdict_ok E) batch vs /\
      output s' = outputs E s (m_pending_io s ++ concat (zip_with io_of batch vs)) /\
      m_pending_io s' = [] /\
      u64 (hits s') = u64 (hits s + sum (zip_with hits_of batch vs)) /\
      u64 (failures s') = u64 (failures s + sum (failures_of <$> vs)) /\
      same s s'
  | Fault e => e = BadCast
  end.
Proof.
  unfold process_message_batch, mbind at 1, G_bind at 1. pose proof (does_batch E batch s Hb Ht) as H1.
  destruct (for_all batch _ s) as [[[] s1]|]; [|done]. destruct H1 as (vs & Hvs & []).
  unfold execute_pending_io, get, modify, mbind, G_bind.
  assert (same s (set_pending_io [] s1)) as Hs by (etrans; [exact dl_same0|by constructor]).
  destruct (ios_emit E (m_pending_io s1) (set_pending_io [] s1) s Hs) as (s2 & -> & Hs2 & Hp & Hh & Hf & Ho).
  exists vs. split_and!; [done| |done| | |by etrans].
  - rewrite Ho. unfold outputs. cbn. by rewrite dl_output0, dl_pending0.
  - rewrite Hh. exact dl_hits0.
  - rewrite Hf. exact dl_failures0.
Qed.
Lemma register_builtin_only c cb : exists s, register_builtin_listeners (empty_server c cb) = Ok (tt, s) /\ builtin_only s.
Proof. eexists. split; [reflexivity|]. intros []; reflexivity. Qed.

(** A server that has been started, and its surroundings. *)
Definition demo_env : Env :=
  mkEnv (fun i => 1000000 + Z.of_nat i) (fun i => 1000000000 * Z.of_nat (S i)) (fun _ => 1000) 4096
    (fun _ _ _ _ => true) (fun _ _ => nothing) map_to_list.

Definition demo_listeners : gmap Z (list Listener) :=
  match register_builtin_listeners (empty_server default_gateway_config true) with
  | Ok (_, s) => m_listeners s
  | Fault _ => ∅
  end.

Definition demo_server : Server :=
  mkServer default_gateway_config (mkBoard ∅ (mkMetrics 0 0 0 0 0 0 0 0) ∅) (BlockingQueue.mkFifo 32768 [] false)
    new_limiter demo_listeners [] true true 0 [].

Definition demo_hello (name : string) : GatewayMessage :=
  mkMessage kDeviceHello DeviceToGateway (lit name) []
    (braces (field "product_id" (lit "p") ++ lit "," ++ field "product_key" (lit "k") ++ lit "," ++
             field "device_name" (lit name))) 0 0.

Definition demo_message (t : GatewayMessageType) (name : string) (payload : str) : GatewayMessage :=
  mkMessage t DeviceToGateway (lit name) [] payload 0 0.

Lemma demo_builtin : builtin_only demo_server.
Proof. intros []; reflexivity. Qed.

Definition demo_batch : list GatewayMessage :=
  [demo_hello "d1"; demo_message kDeviceAudioFrame "d1" [1; 2; 3]; demo_hello "d1"; demo_message kDevicePing "d1" []].

End GatewayFlow.
