(* ===== verification/GatewayChecks.v ===== *)
(** * The gateway's periodic checks, links and limits

    What [heartbeat_check] and [session_cleanup] do to every device, what a
    ping and a lost link do not do, the way of a message into the inbox, and
    the independence of the limiter's buckets. *)
From stdpp Require Import base list numbers option sets strings gmap pretty.
From Stdlib Require Import ZArith Lia.
From S2P Require Import Prelude Float64 Types Packets BlockingQueue GatewayText GatewayBoard Gateway GatewayFlow.

Local Open Scope Z_scope.
Import GatewayText GatewayBoard Gateway GatewayFlow.

Module GatewayChecks.

Notation str := (list Z) (only parsing).

Definition devices (s : Server) : gmap str DeviceState := m_devices (m_board s).
Definition active (s : Server) : Z := m_active_connections (m_metrics (m_board s)).
Definition changed (s : Server) : gset str := m_changed_keys (m_board s).

(** An [unordered_map] is walked in some order, each entry once. *)
Definition walks_all (E : Env) : Prop := forall m, order E m ≡ₚ map_to_list m.

Lemma walk_nodup E m : walks_all E -> NoDup (order E m).*1.
Proof. intros H. rewrite (H m). apply NoDup_fst_map_to_list. Qed.

Lemma walk_lookup E m id d : walks_all E -> (id, d) ∈ order E m <-> m !! id = Some d.
Proof. intros H. rewrite (H m). apply elem_of_map_to_list. Qed.

Lemma walk_size E m (P : str * DeviceState -> Prop) `{!forall e, Decision (P e)} : walks_all E ->
  length (filter P (order E m)) = size (filter P m).
Proof.
  intros Hw. rewrite (Hw m), map_filter_alt. rewrite map_size_list_to_map; [done|].
  eapply sublist_NoDup; [apply (NoDup_fst_map_to_list m)|]. apply fmap_sublist, sublist_filter.
Qed.

Lemma run_bind {A B} (m : G A) (k : A -> G B) s :
  (m ≫= k) s = match m s with Ok (a, s) => k a s | Fault e => Fault e end.
Proof. done. Qed.

(** ** The heartbeat check *)

Lemma close_step E now id d s : devices s !! id = Some d -> 0 <= active s -> exists s',
  close_expired E now (id, d) s = Ok (tt, s') /\ m_config s' = m_config s /\
  (if heartbeat_expired (m_config s) now d then
     ticks s' = S (ticks s) /\ devices s' = <[id := closed_device (wall E (ticks s)) d]> (devices s) /\
     changed s' = {[device_key id]} ∪ changed s /\ active s' = Z.max 0 (active s - 1)
   else s' = s).
Proof.
  intros Hd Ha. unfold close_expired, get, mbind, G_bind, when. cbn [fst snd].
  destruct (heartbeat_expired _ _ _); [|by exists s]. eexists. split; [reflexivity|]. cbn. split_and!; try done.
  - unfold device_of. unfold devices in Hd. cbn. by rewrite Hd.
  - unfold changed. set_solver.
  - unfold active in *. cbn. destruct (Z.ltb_spec 0 (m_active_connections (m_metrics (m_board s)))); lia.
Qed.

Lemma close_loop E now c l s : NoDup l.*1 -> (forall id d, (id, d) ∈ l -> devices s !! id = Some d) ->
  m_config s = c -> 0 <= active s -> exists s',
  for_all l (close_expired E now) s = Ok (tt, s') /\ m_config s' = c /\ (ticks s <= ticks s')%nat /\
  (forall id d, (id, d) ∈ l -> if heartbeat_expired c now d
     then exists i, (ticks s <= i < ticks s')%nat /\ devices s' !! id = Some (closed_device (wall E i) d) /\
                    device_key id ∈ changed s'
     else devices s' !! id = Some d) /\
  (forall id, id ∉ l.*1 -> devices s' !! id = devices s !! id) /\ changed s ⊆ changed s' /\
  active s' = Z.max 0 (active s - Z.of_nat (length (filter (fun e => heartbeat_expired c now e.2 = true) l))).
Proof.
  revert s. induction l as [|[id d] l IH]; intros s Hn Hl Hc Ha; cbn [for_all].
  { exists s. split_and!; try done; [by intros ? ? ?%elem_of_nil|cbn; lia]. }
  cbn in Hn. apply NoDup_cons in Hn as [Hid Hn].
  destruct (close_step E now id d s (Hl id d ltac:(left)) Ha) as (s1 & E1 & Hc1 & H1). unfold mbind, G_bind. rewrite E1.
  rewrite Hc in H1.
  assert (forall id', id' <> id -> devices s1 !! id' = devices s !! id') as Hne.
  { intros id' Hi. destruct (heartbeat_expired c now d); [|by subst]. destruct H1 as (_ & -> & _). by rewrite lookup_insert_ne. }
  assert (active s1 = Z.max 0 (active s - if heartbeat_expired c now d then 1 else 0)) as Ha1
    by (destruct (heartbeat_expired c now d); [apply H1|subst; lia]).
  destruct (IH s1) as (s2 & E2 & Hc2 & Ht2 & Hin & Hout & Hch & Ha2); [done| |congruence|lia|].
  { intros id' d' Hi. rewrite Hne; [apply Hl; by right|]. intros ->. apply Hid. apply list_elem_of_fmap. by exists (id, d'). }
  exists s2. split_and!; [done|done| | | | |].
  - destruct (heartbeat_expired c now d); [destruct H1 as [H1 _]; lia|by subst].
  - intros id' d' [[= -> ->]|Hi]%elem_of_cons.
    + rewrite (Hout id Hid). destruct (heartbeat_expired c now d); [|subst s1; apply Hl; left].
      destruct H1 as (H1 & H2 & H3 & _). exists (ticks s). split; [lia|]. rewrite H2, lookup_insert_eq.
      split; [done|]. apply Hch. rewrite H3. set_solver.
    + specialize (Hin id' d' Hi). destruct (heartbeat_expired c now d'); [|done].
      destruct Hin as (i & Hi1 & Hi2). exists i. split; [|done].
      destruct (heartbeat_expired c now d); [destruct H1 as [H1 _]; lia|by subst].
  - intros id' Hi. cbn in Hi. rewrite not_elem_of_cons in Hi. destruct Hi. rewrite Hout by done. by apply Hne.
  - etrans; [|exact Hch]. destruct (heartbeat_expired c now d); [|by subst]. destruct H1 as (_ & _ & -> & _). set_solver.
  - rewrite Ha2, Ha1. rewrite filter_cons. cbn [snd]. destruct (heartbeat_expired c now d).
    + rewrite decide_True by done. cbn [length]. lia.
    + rewrite decide_False by done. lia.
Qed.

(** C30. The heartbeat check closes exactly the sessions of the connected
    devices whose last activity lies further back than twice the heartbeat
    interval (in unsigned arithmetic), at a later reading of the clock, marks
    them changed, leaves every other device as it is, and lowers the number of
    active connections by one for each, down to zero. *)
Theorem heartbeat_exact E s (Hw : walks_all E) (Ha : 0 <= active s) : exists s',
  heartbeat_check E s = Ok (tt, s') /\
  (forall id d, devices s !! id = Some d -> if heartbeat_expired (m_config s) (wall E (ticks s)) d
     then exists i, (ticks s < i < ticks s')%nat /\ devices s' !! id = Some (closed_device (wall E i) d) /\
                    device_key id ∈ changed s'
     else devices s' !! id = Some d) /\
  (forall id, devices s !! id = None -> devices s' !! id = None) /\
  active s' = Z.max 0 (active s - Z.of_nat (size (filter (fun e =>
    heartbeat_expired (m_config s) (wall E (ticks s)) e.2 = true) (devices s)))).
Proof.
  destruct (close_loop E (wall E (ticks s)) (m_config s) (order E (devices s)) (tick s))
    as (s' & Hr & _ & Ht & Hin & Hout & _ & Hact); [by apply walk_nodup| |done|done|].
  { intros id d. by rewrite walk_lookup. }
  exists s'. split_and!.
  - exact Hr.
  - intros id d Hd. apply (walk_lookup E _ _ _ Hw) in Hd. specialize (Hin id d Hd).
    destruct (heartbeat_expired _ _ _); [|done]. destruct Hin as (i & Hi & H1). exists i. split; [|done]. cbn in Hi. lia.
  - intros id Hd. rewrite Hout; [done|]. intros ([i d] & -> & Hi%(walk_lookup E _ _ _ Hw))%list_elem_of_fmap.
    cbn in Hd. congruence.
  - rewrite Hact. by rewrite walk_size.
Qed.
(** ** The session cleanup *)

Definition with_devices (m : gmap str DeviceState) (s : Server) : Server :=
  set_board (mkBoard m (m_metrics (m_board s)) (m_changed_keys (m_board s))) s.

Lemma remove_loop now l s :
  for_all l (remove_stale now) s =
    Ok (tt, with_devices (foldr delete (devices s)
      (filter (fun e => cleanup_due (m_config s) now e.2 = true) l).*1) s).
Proof.
  revert s. induction l as [|[id d] l IH]; intros s.
  { cbn. destruct s as [? [] ? ? ? ? ? ? ? ?]. reflexivity. }
  assert (remove_stale now (id, d) s = Ok (tt, if cleanup_due (m_config s) now d then
    with_devices (delete id (devices s)) s else s)) as E1.
  { unfold remove_stale, get, mbind, G_bind, when. cbn [fst snd]. by destruct (cleanup_due _ _ _). }
  cbn [for_all]. unfold mbind, G_bind. rewrite E1, IH, filter_cons. cbn [snd]. destruct (cleanup_due (m_config s) now d).
  - rewrite decide_True by done. cbn [fmap list_fmap fst foldr]. unfold with_devices. cbn. by rewrite delete_foldr_delete.
  - by rewrite decide_False by done.
Qed.

(** C31. The session cleanup removes exactly the disconnected devices whose last
    activity lies further back than the session timeout, and changes nothing
    else. *)
Theorem cleanup_exact E s (Hw : walks_all E) :
  session_cleanup E s =
    Ok (tt, with_devices (filter (fun e => cleanup_due (m_config s) (wall E (ticks s)) e.2 = false) (devices s)) (tick s)).
Proof.
  unfold session_cleanup, now_ms, device_snapshot, get, modify, mbind, G_bind, mret, G_ret. rewrite remove_loop.
  do 3 f_equal. apply map_eq. intros id. cbn [m_config tick set_ticks].
  set (stale := filter _ _). apply option_eq. intros d. rewrite lookup_foldr_delete_Some, map_lookup_filter_Some.
  change (devices (tick s)) with (devices s). cbn [snd]. split.
  - intros [Hn Hd]. split; [done|]. apply not_true_is_false. intros Hc. apply Hn, list_elem_of_fmap. exists (id, d).
    split; [done|]. apply list_elem_of_filter. split; [done|]. by apply walk_lookup.
  - intros [Hd Hc]. split; [|done]. intros ([i d'] & -> & [Hc' Hi]%list_elem_of_filter)%list_elem_of_fmap.
    apply walk_lookup in Hi; [|done]. change (devices s !! i = Some d') in Hi. cbn [fst snd] in *. simplify_eq. congruence.
Qed.

(** ** Activity *)

(** The conditions under which a device is closed by [heartbeat_check]. *)
Lemma expired_closed E s id d : walks_all E -> 0 <= active s -> devices s !! id = Some d ->
  heartbeat_expired (m_config s) (wall E (ticks s)) d = true ->
  exists s' d', heartbeat_check E s = Ok (tt, s') /\ devices s' !! id = Some d' /\ d_connected d' = false.
Proof.
  intros Hw Ha Hd Hx.
  destruct (close_loop E (wall E (ticks s)) (m_config s) (order E (devices s)) (tick s))
    as (s' & Hr & _ & _ & Hin & _); [by apply walk_nodup| |done|done|].
  { intros id' d'. by rewrite walk_lookup. }
  specialize (Hin id d ltac:(by apply walk_lookup)). rewrite Hx in Hin. destruct Hin as (i & _ & Hi & _).
  exists s', (closed_device (wall E i) d). by split_and!.
Qed.

(** The difference to the last activity is unsigned: a connected device
    whose last activity is later than the clock reading taken at the start of
    the check, by a step of the clock or because it was active on another
    thread in between, is closed at once. *)
Theorem future_activity_disconnects E s id d (Hw : walks_all E) (Ha : 0 <= active s)
    (Hd : devices s !! id = Some d) (Hc : d_connected d = true)
    (Hh : 0 <= heartbeat_seconds (m_config s) < 2 ^ 32)
    (Hl : wall E (ticks s) < d_last_activity_ms d <= wall E (ticks s) + 2 ^ 63) :
  exists s' d', heartbeat_check E s = Ok (tt, s') /\ devices s' !! id = Some d' /\ d_connected d' = false.
Proof.
  eapply expired_closed; [done..|]. unfold heartbeat_expired. rewrite Hc. apply Z.ltb_lt. unfold u64.
  rewrite (Z.mod_small (heartbeat_seconds _ * 2000)) by lia.
  replace (wall E (ticks s) - d_last_activity_ms d) with
    (2 ^ 64 - (d_last_activity_ms d - wall E (ticks s)) + (-1) * 2 ^ 64) by lia.
  rewrite Z.mod_add, Z.mod_small by lia. lia.
Qed.

Lemma device_kept_send E id msg s : exists b s', send_to_device E id msg s = Ok (b, s') /\
  (forall x d, devices s !! x = Some d -> devices s' !! x = Some d).
Proof.
  assert (forall x d, devices s !! x = Some d -> <[id := device_of (m_board s) id]> (devices s) !! x = Some d) as Hk.
  { intros x d Hd. destruct (decide (x = id)) as [->|Hn]; [|by rewrite lookup_insert_ne].
    rewrite lookup_insert_eq. unfold device_of. unfold devices in Hd. by rewrite Hd. }
  unfold send_to_device, read_device, emit, on_message_out, on_bytes_out, modify_metrics, modify_device, modify_board,
    modify, get, mbind, G_bind, mret, G_ret. cbn [m_transport].
  destruct (negb (m_transport s)); [by exists false, s|]. destruct (bool_decide _); [by exists false, s|].
  cbv beta iota zeta. destruct (accepts _ _ _ _ _); do 2 eexists; (split; [reflexivity|exact Hk]).
Qed.

(** Sending keeps every device. *)
Lemma devices_kept_io E ops s : Forall (fun op => exists id msg, op = IoSend id msg) ops -> exists s',
  for_all ops (perform_io E) s = Ok (tt, s') /\ (forall x d, devices s !! x = Some d -> devices s' !! x = Some d).
Proof.
  intros H. revert s. induction H as [|op ops (id & msg & ->) _ IH]; intros s; cbn [for_all]; [by exists s|].
  destruct (device_kept_send E id msg s) as (b & s1 & E1 & H1). destruct (IH s1) as (s2 & E2 & H2).
  exists s2. cbn [perform_io]. unfold mbind, G_bind. rewrite E1. split; [exact E2|]. auto.
Qed.

Lemma pings_scheduled E batch s : builtin_only s -> Forall (fun m => m_type m = kDevicePing) batch ->
  for_all batch (process_one_message E) s =
    Ok (tt, set_pending_io (m_pending_io s ++ concat ((fun m => io_of m (Granted [])) <$> batch)) s).
Proof.
  intros Hb H. revert s Hb. induction H as [|m batch Hm _ IH]; intros s Hb; cbn [for_all].
  { cbn. rewrite app_nil_r. by destruct s. }
  assert (process_one_message E m s = Ok (tt, set_pending_io (m_pending_io s ++ io_of m (Granted [])) s)) as E1.
  { change (process_one_message E m s) with (for_all (listeners_of (m_type m) s) (fun l => run_listener E l m) s).
    rewrite (builtin_listener m s Hb). unfold io_of. by rewrite Hm. }
  unfold mbind, G_bind. rewrite E1, IH; [|done]. cbn. by rewrite <- app_assoc.
Qed.

(** Pings do not count as activity: after a batch of pings every device is
    as it was before, so a connected device that sends nothing else is closed
    by the next heartbeat check once its last other activity is too old. *)
Theorem ping_no_activity E batch s id d (Hw : walks_all E) (Hb : builtin_only s) (Hp : m_pending_io s = [])
    (Hpings : Forall (fun m => m_type m = kDevicePing) batch) (Hd : devices s !! id = Some d) :
  exists s', process_message_batch E batch s = Ok (tt, s') /\ devices s' !! id = Some d /\
    (0 <= active s' -> heartbeat_expired (m_config s') (wall E (ticks s')) d = true ->
     exists s2 d2, heartbeat_check E s' = Ok (tt, s2) /\ devices s2 !! id = Some d2 /\ d_connected d2 = false).
Proof.
  unfold process_message_batch, mbind at 1, G_bind at 1. rewrite pings_scheduled, Hp by done. cbn [app].
  unfold execute_pending_io, get, modify, mbind, G_bind. set (s1 := set_pending_io [] _).
  destruct (devices_kept_io E (concat ((fun m => io_of m (Granted [])) <$> batch)) s1) as (s' & Hr & Hk).
  { apply Forall_concat, Forall_fmap. eapply Forall_impl; [exact Hpings|]. intros m Hm. cbn. unfold io_of. rewrite Hm.
    constructor; [by do 2 eexists|constructor]. }
  exists s'. split_and!; [exact Hr|by apply Hk|]. intros Ha Hx. eapply expired_closed; try done. by apply Hk.
Qed.

(** ** Links *)

(** When a link is closed the device stays marked as connected; when the
    link comes back nothing is sent to the device and no session is created. *)
Theorem reconnect_not_announced E name role role' c c' s d (Hd : devices s !! lit name = Some d) (Hc : d_connected d = true) :
  exists s', (on_tight_peer_event E (Types.mkPeerEvent name role Types.Closed c) ;;
              on_tight_peer_event E (Types.mkPeerEvent name role' Types.Online c')) s = Ok (tt, s') /\
    devices s' = devices s /\ output s' = output s.
Proof.
  unfold on_tight_peer_event, read_device, mark_changed, modify_device, modify_board, modify, get, mbind, G_bind, mret, G_ret.
  cbn [Types.ev_state Types.ev_id m_board set_board m_devices m_metrics m_changed_keys]. unfold device_of. cbn [m_devices].
  unfold devices in Hd. rewrite Hd. cbn [default]. rewrite lookup_insert_eq. cbn [default from_option]. unfold Datatypes.id. rewrite Hc.
  eexists. split; [reflexivity|]. split; [|done]. unfold devices. cbn. by apply insert_id.
Qed.
(** ** The inbox *)

Definition receive (E : Env) (m : str * str) : G unit := on_tight_message E m.1 m.2.

Definition bytes_in (s : Server) : Z := m_bytes_in_total (m_metrics (m_board s)).
Definition messages_in (s : Server) : Z := m_messages_in_total (m_metrics (m_board s)).

Definition parsed (E : Env) (t : nat) (i : nat) (m : str * str) : GatewayMessage :=
  parse_upstream_json m.1 m.2 (wall E (t + i)).

Definition room (f : BlockingQueue.fifo GatewayMessage) : nat :=
  (Z.to_nat (BlockingQueue.cap f) - length (BlockingQueue.items f))%nat.

Lemma inbox_offer_room f m : BlockingQueue.closed f = false -> 0 < BlockingQueue.cap f ->
  let f' := (BlockingQueue.offer m f).1 in
  BlockingQueue.items f' = BlockingQueue.items f ++ take (room f) [m] /\ room f' = pred (room f) /\
  BlockingQueue.closed f' = false /\ BlockingQueue.cap f' = BlockingQueue.cap f.
Proof.
  intros Hc Hp. unfold BlockingQueue.offer, BlockingQueue.full, room. rewrite Hc. cbn [orb].
  rewrite (proj2 (Z.ltb_lt 0 _) Hp). cbn [andb].
  destruct (Z.leb_spec (BlockingQueue.cap f) (Z.of_nat (length (BlockingQueue.items f)))) as [H|H]; cbn.
  - replace (_ - _)%nat with 0%nat by lia. cbn. rewrite app_nil_r. split_and!; try done; lia.
  - replace (_ - length (BlockingQueue.items f))%nat
      with (S (Z.to_nat (BlockingQueue.cap f) - S (length (BlockingQueue.items f)))) at 1 by lia.
    cbn. rewrite length_app. cbn [length]. rewrite take_nil. split_and!; try done; lia.
Qed.

(** The messages the transport hands up enter the inbox in their order, each
    parsed with its own time stamp, until the inbox is full; what does not fit
    is dropped, but all messages and bytes are counted. The peer a device
    first spoke from keeps receiving its answers. *)
Theorem inbox_in_order E l s (Hc : BlockingQueue.closed (m_inbox s) = false) (Hp : 0 < BlockingQueue.cap (m_inbox s)) :
  exists s', for_all l (receive E) s = Ok (tt, s') /\
    BlockingQueue.items (m_inbox s') =
      BlockingQueue.items (m_inbox s) ++ take (room (m_inbox s)) (imap (parsed E (ticks s)) l) /\
    u64 (messages_in s') = u64 (messages_in s + Z.of_nat (length l)) /\
    u64 (bytes_in s') = u64 (bytes_in s + sum ((fun m => Z.of_nat (length m.2)) <$> l)) /\
    (forall id, d_peer_id (device_of (m_board s) id) <> [] ->
       d_peer_id (device_of (m_board s') id) = d_peer_id (device_of (m_board s) id)) /\
    output s' = output s.
Proof.
  revert s Hc Hp. induction l as [|[peer payload] l IH]; intros s Hc Hp; cbn [for_all].
  { exists s. cbn [imap length fmap list_fmap sum foldr]. rewrite take_nil, app_nil_r, !Z.add_0_r. done. }
  set (msg := parsed E (ticks s) 0 (peer, payload)). destruct (inbox_offer_room (m_inbox s) msg Hc Hp) as (H1 & H2 & H3 & H4).
  assert (exists s1, receive E (peer, payload) s = Ok (tt, s1) /\ m_inbox s1 = (BlockingQueue.offer msg (m_inbox s)).1 /\
    ticks s1 = S (ticks s) /\ messages_in s1 = u64 (messages_in s + 1) /\
    bytes_in s1 = u64 (bytes_in s + Z.of_nat (length payload)) /\ output s1 = output s /\
    (forall id, d_peer_id (device_of (m_board s) id) <> [] ->
       d_peer_id (device_of (m_board s1) id) = d_peer_id (device_of (m_board s) id)))
    as (s1 & E1 & Hi & Ht & Hm & Hb & Ho & Hpeer).
  { subst msg. unfold parsed. rewrite Nat.add_0_r. unfold receive, on_tight_message, now_ms, modify_device, on_message_in,
      on_bytes_in, modify_metrics, modify_board, modify, get, mbind, G_bind, mret, G_ret. cbv beta iota zeta.
    eexists. split; [reflexivity|]. do 5 (split; [reflexivity|]).
    intros id Hne. cbn [m_board set_inbox set_board tick set_ticks m_devices m_metrics m_changed_keys].
    rewrite device_of_insert. case_bool_decide as Heq; [|done]. subst id. rewrite bool_decide_eq_false_2; done. }
  unfold mbind, G_bind. rewrite E1. destruct (IH s1) as (s2 & E2 & G1 & G2 & G3 & G4 & G5);
    [by rewrite Hi|by rewrite Hi, H4|].
  exists s2. split; [exact E2|]. rewrite Hm in G2. rewrite Hb in G3. split_and!.
  - rewrite G1, Hi, H1, H2, <- app_assoc. f_equal. cbn [imap]. rewrite Ht.
    replace (imap (parsed E (S (ticks s))) l) with (imap (parsed E (ticks s) ∘ S) l).
    2: { apply imap_ext. intros i x _. cbn. unfold parsed. by rewrite Nat.add_succ_r. }
    destruct (room (m_inbox s)); [done|]. cbn. by rewrite take_nil.
  - rewrite G2. cbn [length]. rewrite (u64_shift _ (messages_in s) 1) by apply u64_u64. f_equal. lia.
  - rewrite G3. rewrite (u64_shift _ (bytes_in s) (Z.of_nat (length payload))) by apply u64_u64. done.
  - intros id Hne. rewrite G4; [by apply Hpeer|]. by rewrite Hpeer.
  - congruence.
Qed.

(** ** The limiter *)

Definition colon : Z := 58.

Lemma bucket_key_inj d d' k k' : colon ∉ k -> colon ∉ k' -> bucket_key d k = bucket_key d' k' -> d = d' /\ k = k'.
Proof.
  intros Hk Hk' H. unfold bucket_key in H. change (lit ":") with [colon] in H.
  assert (forall l l' : str, colon ∉ l -> colon ∉ l' -> forall a b, l ++ colon :: a = l' ++ colon :: b -> l = l' /\ a = b) as Hl.
  { induction l as [|x l IH]; intros [|y l'] H1 H2 a b E1; cbn in E1; simplify_eq; [done|set_solver..|].
    destruct (IH l' ltac:(set_solver) ltac:(set_solver) a b) as [-> ->]; done. }
  apply (f_equal reverse) in H. rewrite !reverse_app in H. cbn [reverse rev_append] in H.
  change (reverse [colon]) with [colon] in H. rewrite <- !app_assoc in H. cbn [app] in H.
  destruct (Hl (reverse k) (reverse k')) with (3 := H) as [H1 H2]; [by rewrite elem_of_reverse..|].
  by apply (inj reverse) in H1, H2.
Qed.

Lemma check_bucket device dimension cost now r r' res : check device dimension cost now r = Ok (r', res) ->
  m_buckets r' = m_buckets r /\
  forall key, key <> bucket_key device dimension -> m_token_buckets r' !! key = m_token_buckets r !! key.
Proof.
  unfold check. intros H. destruct (m_buckets r !! dimension) as [cfg|]; [|by simplify_eq]. cbv zeta in H.
  destruct (F64.ltb _ _) in H; inv_bind H; simplify_eq; (split; [done|]); intros key Hk; cbn;
    by rewrite lookup_insert_ne.
Qed.

(** The buckets of the limiter are independent: a check of one device in one
    dimension does not change what any later check of another device or
    another dimension answers (dimensions do not contain a colon). *)
Theorem limiter_isolated device dimension cost now r r' res device' dimension' cost' now'
    (Hc : check device dimension cost now r = Ok (r', res)) (Hk : colon ∉ dimension) (Hk' : colon ∉ dimension')
    (Hne : (device, dimension) <> (device', dimension')) :
  match check device' dimension' cost' now' r', check device' dimension' cost' now' r with
  | Ok (_, a), Ok (_, b) => a = b
  | Fault e, Fault e' => e = e'
  | _, _ => False
  end.
Proof.
  destruct (check_bucket _ _ _ _ _ _ _ Hc) as [Hb Ht]. unfold check. rewrite Hb.
  destruct (m_buckets r !! dimension') as [cfg|]; [|done]. cbv zeta. rewrite Ht.
  2: { intros Heq. apply bucket_key_inj in Heq as [-> ->]; done. }
  destruct (F64.ltb _ _); unfold mbind, res_bind; by destruct (F64.cast_u64 _).
Qed.
(** ** Hello *)

Definition greeted (E : Env) (dev : str) (i j : nat) (d : DeviceState) : DeviceState :=
  mkDevice dev (session_name E dev i) (d_peer_id d) true (d_status d) (d_bytes_in d) (d_bytes_out d) (d_message_count d)
    (wall E j) (d_dirty d).

Lemma greet E msg res s : a_ok res = true -> exists s', on_auth_result E msg res s = Ok (tt, s') /\
  m_ratelimiter s' = m_ratelimiter s /\ ticks s' = S (S (ticks s)) /\
  devices s' = <[m_device_id msg := greeted E (m_device_id msg) (ticks s) (S (ticks s)) (device_of (m_board s) (m_device_id msg))]>
    (devices s) /\
  active s' = u64 (active s + 1) /\
  m_pending_io s' = m_pending_io s ++ io_of
    (mkMessage kDeviceHello (m_direction msg) (m_device_id msg) (m_session_id msg) (m_payload msg) (m_timestamp_ms msg)
       (m_sequence msg)) (Granted (session_name E (m_device_id msg) (ticks s))).
Proof.
  intros Hok. unfold on_auth_result. rewrite Hok. cbn [negb]. unfold schedule_io, create_session, generate_session_id,
    mark_changed, modify_device, on_auth_success, on_connection_open, now_ms, modify_metrics, modify_board, modify, get,
    mbind, G_bind, mret, G_ret. cbv beta iota zeta.
  eexists. split; [reflexivity|]. cbn. by rewrite <- app_assoc.
Qed.

(** What a hello does, branch by branch: when the limiter refuses the device
    name or a credential is missing no device changes and no connection is
    counted; otherwise the device gets a new session, is connected and active,
    one more connection is counted, and the acknowledgement with that session
    and the message for downstream are queued. *)
Theorem hello_sessions E msg s (Ht : m_transport s = true) (Hm : m_type msg = kDeviceHello) :
  match check (hello_name msg) (lit "connection") 1 (steady E (ticks s)) (m_ratelimiter s) with
  | Fault e => on_hello E msg s = Fault e
  | Ok (r, rl) => exists s', on_hello E msg s = Ok (tt, s') /\ m_ratelimiter s' = r /\
      if m_allowed rl && negb (no_credentials msg) then
        exists i j, devices s' = <[m_device_id msg := greeted E (m_device_id msg) i j
          (device_of (m_board s) (m_device_id msg))]> (devices s) /\ active s' = u64 (active s + 1) /\
          m_pending_io s' = m_pending_io s ++ io_of msg (Granted (session_name E (m_device_id msg) i))
      else devices s' = devices s /\ active s' = active s
  end.
Proof.
  unfold on_hello, check_limit. cbv zeta. fold (hello_name msg). rewrite run_bind.
  destruct (check (hello_name msg) (lit "connection") 1 (steady E (ticks s)) (m_ratelimiter s)) as [[r rl]|e]; [|done].
  destruct (m_allowed rl); cbn [negb andb].
  2: { eexists. split; [reflexivity|]. done. }
  unfold authenticate. rewrite run_bind. unfold get. cbn [m_transport tick set_ticks set_limiter]. rewrite Ht. cbn [negb].
  unfold service_authenticate, do_authenticate. fold (no_credentials msg).
  change (bool_decide (extract_json_field (m_payload msg) (lit "product_id") = []) ||
    bool_decide (extract_json_field (m_payload msg) (lit "product_key") = []) || bool_decide (hello_name msg = []))
    with (no_credentials msg).
  destruct (no_credentials msg); cbn [negb].
  { eexists. split; [reflexivity|]. done. }
  repeat (rewrite run_bind; unfold get, modify, mret, G_ret; cbv beta iota zeta).
  match goal with |- context [on_auth_result E msg ?a ?s1] =>
    destruct (greet E msg a s1 eq_refl) as (s' & Hs & Hr & _ & Hd & Ha & Hp); rewrite Hs end.
  exists s'. split; [done|]. split; [exact Hr|]. do 2 eexists. split; [exact Hd|]. split; [exact Ha|].
  rewrite Hp. f_equal. unfold io_of. by rewrite Hm.
Qed.

(** The number of active connections is not the number of connected devices:
    a device that is admitted twice is counted twice, and after its bye one
    connection stays counted although the device is disconnected. *)
Theorem connection_gauge_drifts E msg bye res s (Hok : a_ok res = true) (Hd : m_device_id bye = m_device_id msg)
    (Ha : 0 <= active s < 2 ^ 64 - 2) :
  exists s' d, (on_auth_result E msg res ;; on_auth_result E msg res ;; on_bye E bye) s = Ok (tt, s') /\
    active s' = active s + 1 /\ devices s' !! m_device_id msg = Some d /\ d_connected d = false.
Proof.
  destruct (greet E msg res s Hok) as (s1 & E1 & _ & _ & _ & Ha1 & _).
  destruct (greet E msg res s1 Hok) as (s2 & E2 & _ & _ & Hd2 & Ha2 & _).
  rewrite run_bind, E1, run_bind, E2. rewrite Ha1 in Ha2. unfold u64 in Ha2. rewrite !Z.mod_small in Ha2 by (rewrite ?Z.mod_small; lia).
  unfold on_bye, close_session, schedule_io, mark_changed, modify_device, on_connection_close, now_ms, modify_metrics,
    modify_board, modify, get, mbind, G_bind, mret, G_ret. cbv beta iota zeta.
  do 2 eexists. split; [reflexivity|]. unfold active, devices in *. cbn. rewrite Hd, lookup_insert_eq.
  split_and!; [|reflexivity|done]. rewrite Ha2. destruct (Z.ltb_spec 0 (m_active_connections (m_metrics (m_board s)) + 1 + 1)); lia.
Qed.
(** ** Instances *)

Lemma demo_walks : walks_all demo_env.
Proof. intros m. reflexivity. Qed.

(** A server that knows one device, with its last activity. *)
Definition demo_device (last : Z) : DeviceState := mkDevice (lit "d1") (lit "s") (lit "d1") true kIdle 0 0 0 last false.
Definition demo_known (last : Z) : Server := with_devices {[lit "d1" := demo_device last]} demo_server.

Lemma demo_lookup last : devices (demo_known last) !! lit "d1" = Some (demo_device last).
Proof. apply lookup_singleton_eq. Qed.

Lemma demo_known_builtin last : builtin_only (demo_known last).
Proof. apply (builtin_listeners_eq demo_server); [reflexivity|apply demo_builtin]. Qed.

Lemma heartbeat_exact_witness : exists s' i, heartbeat_check demo_env (demo_known 5) = Ok (tt, s') /\
  devices s' !! lit "d1" = Some (closed_device (wall demo_env i) (demo_device 5)).
Proof.
  destruct (heartbeat_exact demo_env (demo_known 5) demo_walks ltac:(vm_compute; discriminate)) as (s' & Hs & Hin & _).
  specialize (Hin _ _ (demo_lookup 5)). replace (heartbeat_expired _ _ _) with true in Hin by (vm_compute; reflexivity).
  destruct Hin as (i & _ & Hi & _). exists s', i. split; [exact Hs|exact Hi].
Defined.

Lemma cleanup_exact_witness : exists s', session_cleanup demo_env (demo_known 5) = Ok (tt, s') /\
  devices s' !! lit "d1" = Some (demo_device 5).
Proof.
  eexists. split; [exact (cleanup_exact demo_env (demo_known 5) demo_walks)|].
  apply map_lookup_filter_Some. split; [apply demo_lookup|reflexivity].
Defined.

Lemma future_activity_disconnects_witness : exists s' d', heartbeat_check demo_env (demo_known 1000001) = Ok (tt, s') /\
  devices s' !! lit "d1" = Some d' /\ d_connected d' = false.
Proof.
  apply (future_activity_disconnects demo_env (demo_known 1000001) (lit "d1") (demo_device 1000001) demo_walks);
    [vm_compute; discriminate|apply demo_lookup|reflexivity|vm_compute; split; [discriminate|reflexivity]|
     vm_compute; split; [reflexivity|discriminate]].
Defined.

Lemma ping_no_activity_witness : exists s',
  process_message_batch demo_env [demo_message kDevicePing "d1" []] (demo_known 5) = Ok (tt, s') /\
  devices s' !! lit "d1" = Some (demo_device 5).
Proof.
  destruct (ping_no_activity demo_env [demo_message kDevicePing "d1" []] (demo_known 5) (lit "d1") (demo_device 5))
    as (s' & Hs & Hd & _); [exact demo_walks|apply demo_known_builtin|reflexivity|apply Forall_singleton; reflexivity|apply demo_lookup|].
  exists s'. split; [exact Hs|exact Hd].
Defined.

Lemma reconnect_not_announced_witness : exists s',
  (on_tight_peer_event demo_env (Types.mkPeerEvent "d1" Types.Leaf Types.Closed 1) ;;
   on_tight_peer_event demo_env (Types.mkPeerEvent "d1" Types.Leaf Types.Online 1)) (demo_known 5) = Ok (tt, s') /\
  devices s' = devices (demo_known 5) /\ output s' = output (demo_known 5).
Proof.
  exact (reconnect_not_announced demo_env "d1" Types.Leaf Types.Leaf 1 1 (demo_known 5) (demo_device 5) (demo_lookup 5) eq_refl).
Defined.

Lemma inbox_in_order_witness : exists s', for_all [(lit "p1", [1; 2]); (lit "p2", [3])] (receive demo_env) demo_server = Ok (tt, s') /\
  (m_device_id <$> BlockingQueue.items (m_inbox s')) = [lit "p1"; lit "p2"].
Proof.
  destruct (inbox_in_order demo_env [(lit "p1", [1; 2]); (lit "p2", [3])] demo_server) as (s' & Hs & Hi & _);
    [reflexivity|vm_compute; reflexivity|].
  exists s'. split; [exact Hs|]. rewrite Hi. vm_compute. reflexivity.
Defined.

(** A device that has used up its connection, next to another one. *)
Definition demo_limiter : RateLimiter :=
  match check (lit "d1") (lit "connection") 1 1000000000 new_limiter with Ok (r, _) => r | Fault _ => new_limiter end.

Lemma limiter_isolated_witness :
  match check (lit "d2") (lit "connection") 1 2000000000 demo_limiter,
        check (lit "d2") (lit "connection") 1 2000000000 new_limiter with
  | Ok (_, a), Ok (_, b) => a = b
  | Fault e, Fault e' => e = e'
  | _, _ => False
  end.
Proof.
  apply (limiter_isolated (lit "d1") (lit "connection") 1 1000000000 new_limiter demo_limiter
    (mkLimit true (lit "connection") [] 0) (lit "d2") (lit "connection") 1 2000000000).
  - vm_compute. reflexivity.
  - vm_compute. intros H. repeat (apply elem_of_cons in H as [H|H]; [discriminate|]). by apply elem_of_nil in H.
  - vm_compute. intros H. repeat (apply elem_of_cons in H as [H|H]; [discriminate|]). by apply elem_of_nil in H.
  - intros H. by apply (f_equal (fun p => p.1)) in H.
Defined.

Lemma hello_sessions_witness : exists s' i j, on_hello demo_env (demo_hello "d1") demo_server = Ok (tt, s') /\
  devices s' = {[lit "d1" := greeted demo_env (lit "d1") i j (new_device (lit "d1"))]}.
Proof.
  pose proof (hello_sessions demo_env (demo_hello "d1") demo_server eq_refl eq_refl) as H.
  assert (no_credentials (demo_hello "d1") = false) as Hn by (vm_compute; reflexivity). rewrite Hn in H.
  assert (match check (hello_name (demo_hello "d1")) (lit "connection") 1 (steady demo_env (ticks demo_server))
    (m_ratelimiter demo_server) with Ok (_, rl) => m_allowed rl | Fault _ => false end = true) as Ha by (vm_compute; reflexivity).
  destruct (check _ _ _ _ _) as [[r rl]|]; [|done]. rewrite Ha in H. cbn [andb negb] in H.
  destruct H as (s' & Hs & _ & i & j & Hd & _). exists s', i, j. split; [exact Hs|exact Hd].
Defined.

Lemma connection_gauge_drifts_witness : exists s' d,
  (on_auth_result demo_env (demo_hello "d1") (mkAuth true [] [] [] [] [] 0) ;;
   on_auth_result demo_env (demo_hello "d1") (mkAuth true [] [] [] [] [] 0) ;;
   on_bye demo_env (demo_message kDeviceBye "d1" [])) demo_server = Ok (tt, s') /\
  active s' = 1 /\ devices s' !! lit "d1" = Some d /\ d_connected d = false.
Proof.
  apply (connection_gauge_drifts demo_env (demo_hello "d1") (demo_message kDeviceBye "d1" [])
    (mkAuth true [] [] [] [] [] 0) demo_server); [reflexivity|reflexivity|vm_compute; split; [discriminate|reflexivity]].
Defined.
End GatewayChecks.
