(* ===== verification/GatewayTotal.v ===== *)
(** * The gateway's limiter is defined everywhere (gateway_ratelimit.hpp)

    [RateLimiter::check] converts a number of tokens, a double, to an unsigned
    integer. With a clock that does not go back the tokens stay between zero
    and the capacity, so the conversion is always defined; hence a started
    server with its own listeners never fails. *)
From stdpp Require Import base list numbers option sets strings gmap.
From Stdlib Require Import ZArith Lia Floats.SpecFloat.
From S2P Require Import Prelude Float64 FloatBounds Types Packets BlockingQueue Decimal GatewayText GatewayBoard Gateway.
From S2P Require Import GatewayFlow GatewayChecks.

Local Open Scope Z_scope.
Import GatewayText GatewayBoard Gateway FloatBounds.

Module GatewayTotal.

Notation str := (list Z) (only parsing).

(** ** The limiter *)

(** A positive double in canonical form with exponent at most [k]. *)
Definition positive_double (k : Z) (f : F64.double) : Prop :=
  exists m e, f = S754_finite false m e /\ canonical m e /\ e <= k.

(** Rates are positive, capacities positive and below 2^62. *)
Definition config_ok (c : BucketConfig) : Prop :=
  positive_double 971 (m_rate c) /\ positive_double 9 (m_capacity c).

(** Tokens are not negative, no bucket was filled after [now], and the buckets of
    a dimension hold at most its capacity. *)
Record limiter_ok (now : Z) (r : RateLimiter) : Prop := {
  lo_configs : forall dim c, m_buckets r !! dim = Some c -> config_ok c /\ GatewayChecks.colon ∉ dim;
  lo_tokens : forall key tb, m_token_buckets r !! key = Some tb -> fine (m_tokens tb) /\ m_last_refill tb <= now;
  lo_within : forall device dim c tb, m_buckets r !! dim = Some c ->
    m_token_buckets r !! bucket_key device dim = Some tb -> F64.ltb (m_capacity c) (m_tokens tb) = false }.

Lemma limiter_later now now' r : now <= now' -> limiter_ok now r -> limiter_ok now' r.
Proof. intros Hn [H1 H2 H3]. split; [done| |done]. intros key tb Hk. destruct (H2 key tb Hk). split; [done|lia]. Qed.

(** A refilled bucket holds between zero and its capacity. *)
Lemma refilled_ok c tb now : config_ok c -> fine (m_tokens tb) -> m_last_refill tb = 0 \/ m_last_refill tb <= now ->
  fine (m_tokens (refilled c tb now)) /\ small 9 (m_tokens (refilled c tb now)) /\ m_last_refill (refilled c tb now) = now /\
  F64.ltb (m_capacity c) (m_tokens (refilled c tb now)) = false.
Proof.
  intros [(mr & er & Er & Cr & _) (mc & ec & Ec & Cc & Hec)] Ht Hl. unfold refilled.
  set (tb1 := if m_last_refill tb =? 0 then _ else tb).
  assert (fine (m_tokens tb1) /\ m_last_refill tb1 <= now) as [F1 L1].
  { unfold tb1. destruct (Z.eqb_spec (m_last_refill tb) 0); [|split; [done|lia]]. cbn. rewrite Ec. split; [exact Cc|lia]. }
  set (tokens := F64.add _ _). cbn [m_tokens m_last_refill].
  assert (fine tokens) as Ft.
  { apply fine_add; [done|]. rewrite Er. apply fine_mul; [|done].
    assert (F64.of_Z 1000000000 = S754_finite false 8388608000000000 (-23)) as -> by (vm_compute; reflexivity).
    apply fine_div, fine_of_Z. lia. }
  destruct (F64.ltb (m_capacity c) tokens) eqn:El; split_and!; try done.
  - rewrite Ec. exact Cc.
  - rewrite Ec. exact Hec.
  - rewrite Ec. unfold F64.ltb, SFltb, SFcompare. rewrite Z.compare_refl.
    change (Pos.compare_cont Eq mc mc) with (Pos.compare mc mc). by rewrite Pos.compare_refl.
  - rewrite Ec in El. pose proof (not_above _ _ _ Ft El) as Hs. clear -Hs Hec. destruct tokens; cbn in *; lia || done.
Qed.

Lemma check_total device dimension cost now now' r : limiter_ok now r -> now <= now' -> 0 <= cost ->
  exists r' res, check device dimension cost now' r = Ok (r', res) /\ limiter_ok now' r' /\ m_buckets r' = m_buckets r.
Proof.
  intros Hr Hn Hcost. unfold check. destruct (m_buckets r !! dimension) as [c|] eqn:Ed.
  2: { exists r, (mkLimit true dimension [] 0). split_and!; [done|by eapply limiter_later|done]. }
  set (key := bucket_key device dimension). set (tb0 := default _ _).
  assert (fine (m_tokens tb0) /\ (m_last_refill tb0 = 0 \/ m_last_refill tb0 <= now')) as [F1 L1].
  { unfold tb0. destruct (m_token_buckets r !! key) as [tb|] eqn:Ek; cbn [default]; [|split; [exact I|by left]].
    destruct (lo_tokens _ _ Hr _ _ Ek) as [? ?]. split; [done|right; by etrans]. }
  destruct (lo_configs _ _ Hr _ _ Ed) as [Hc Hcolon].
  destruct (refilled_ok c tb0 now' Hc F1 L1) as (F2 & S2 & L2 & W2). set (tb := refilled c tb0 now') in *. clearbody tb.
  assert (fine (m_capacity c)) as Fc by (destruct Hc as [_ (mc & ec & -> & Cc & _)]; exact Cc).
  assert (forall tokens last, fine tokens -> last <= now' -> F64.ltb (m_capacity c) tokens = false ->
    limiter_ok now' (mkLimiter (m_buckets r) (<[key := mkTokenBucket tokens last]> (m_token_buckets r)))) as Hstore.
  { intros tokens last Hf Hl Hw. split; cbn; [apply Hr|..].
    - intros k tb' Hk. destruct (decide (k = key)) as [->|Hne].
      + rewrite lookup_insert_eq in Hk. by injection Hk as <-.
      + rewrite lookup_insert_ne in Hk by done. destruct (lo_tokens _ _ Hr _ _ Hk). split; [done|lia].
    - intros d' dim' c' tb' Hc' Hk. destruct (decide (bucket_key d' dim' = key)) as [Ek|Hne].
      + rewrite Ek, lookup_insert_eq in Hk. injection Hk as <-.
        apply GatewayChecks.bucket_key_inj in Ek as [-> ->]; [|by apply (lo_configs _ _ Hr _ _ Hc')|done].
        rewrite Ed in Hc'. by injection Hc' as <-.
      + rewrite lookup_insert_ne in Hk by done. by eapply (lo_within _ _ Hr). }
  cbv zeta. destruct (F64.ltb (m_tokens tb) (F64.of_Z cost)) eqn:El.
  - destruct (fine_cast 9 _ F2 S2 ltac:(lia)) as (n & ->). cbn [mbind res_bind]. eexists _, _. split_and!; [done| |done].
    destruct tb as [tokens last]. apply Hstore; [done|cbn in L2; lia|done].
  - destruct (fine_sub 9 _ _ ltac:(lia) F2 (fine_of_Z cost Hcost) S2 El) as [F3 S3].
    destruct (fine_cast (9 + 1) _ F3 S3 ltac:(lia)) as (n & ->). cbn [mbind res_bind]. eexists _, _. split_and!; [done| |done].
    apply Hstore; [done|lia|]. eapply ltb_trans_neg; [done|exact F2|done|exact W2|].
    apply sub_below; [done|by apply fine_of_Z| |done]. destruct (m_tokens tb); cbn in *; lia || done.
Qed.

(** Checks at given times. *)
Fixpoint checks (l : list (str * str * Z * Z)) (r : RateLimiter) : res (RateLimiter * list RateLimitResult) :=
  match l with
  | [] => Ok (r, [])
  | (device, dimension, cost, now) :: l =>
      '(r, res) ← check device dimension cost now r; '(r, rest) ← checks l r; Ok (r, res :: rest)
  end.

Fixpoint in_time (now : Z) (l : list (str * str * Z * Z)) : Prop :=
  match l with [] => True | (_, _, cost, t) :: l => now <= t /\ 0 <= cost /\ in_time t l end.

Definition double_okb (k : Z) (f : F64.double) : bool :=
  match f with S754_finite false m e => (fexp F64.prec F64.emax (Z.pos (digits2_pos m) + e) =? e) && (e <=? k) | _ => false end.

Lemma double_okb_ok k f : double_okb k f = true -> positive_double k f.
Proof.
  destruct f as [|[]| |[] m e]; cbn; try done. intros [H1%Z.eqb_eq H2%Z.leb_le]%andb_true_iff. by exists m, e.
Qed.

Lemma new_limiter_ok now : limiter_ok now new_limiter.
Proof.
  split; [|intros key tb Hk; cbn in Hk; by rewrite lookup_empty in Hk|intros ? ? ? ? _ Hk; cbn in Hk; by rewrite lookup_empty in Hk].
  intros dim c Hc. unfold new_limiter in Hc. cbn [m_buckets] in Hc.
  assert (forall rate cap, double_okb 971 rate && double_okb 9 cap = true -> config_ok (mkBucketConfig rate cap)) as Hok.
  { intros rate cap [H1 H2]%andb_true_iff. split; by apply double_okb_ok. }
  repeat (rewrite lookup_insert_Some in Hc; destruct Hc as [[<- <-]|[_ Hc]]; [split; [apply Hok; vm_compute; reflexivity|eval_decide]|]).
  by rewrite lookup_empty in Hc.
Qed.

Lemma checks_total now l r : limiter_ok now r -> in_time now l ->
  exists r' res t, checks l r = Ok (r', res) /\ length res = length l /\ m_buckets r' = m_buckets r /\ limiter_ok t r'.
Proof.
  revert now r. induction l as [|[[[device dimension] cost] t] l IH]; intros now r Hr Hl; cbn [checks]; [by exists r, [], now|].
  destruct Hl as (Ht & Hc & Hl). destruct (check_total device dimension cost now t r Hr Ht Hc) as (r1 & res & -> & H1 & B1).
  destruct (IH t r1 H1 Hl) as (r2 & rest & t2 & E2 & E3 & E4 & H4). cbn [mbind res_bind]. rewrite E2.
  exists r2, (res :: rest), t2. cbn. split_and!; [done|by rewrite E3|congruence|done].
Qed.

(** C37. The limiter with its built-in limits never fails and never exceeds them:
    for every sequence of checks of any devices, dimensions and costs, at times
    that do not go back, every check returns a verdict (the conversion of the
    remaining tokens to an unsigned integer is always defined), the limits stay
    as they are, and the tokens of every bucket are at least zero and at most
    the capacity of its dimension. *)
Theorem limiter_never_faults now l (Hl : in_time now l) :
  exists r res, checks l new_limiter = Ok (r, res) /\ length res = length l /\ m_buckets r = m_buckets new_limiter /\
    forall device dim c tb, m_buckets new_limiter !! dim = Some c -> m_token_buckets r !! bucket_key device dim = Some tb ->
      F64.leb F64.zero (m_tokens tb) = true /\ F64.leb (m_tokens tb) (m_capacity c) = true.
Proof.
  destruct (checks_total now l new_limiter (new_limiter_ok now) Hl) as (r & res & t & E1 & E2 & E3 & H).
  exists r, res. split_and!; [done..|]. intros device dim c tb Hc Hk. rewrite <- E3 in Hc.
  destruct (lo_tokens _ _ H _ _ Hk) as [Ff _]. split; [by apply fine_nonneg|]. apply not_ltb_leb; [|done|by eapply (lo_within _ _ H)].
  destruct (lo_configs _ _ H _ _ Hc) as [[_ (mc & ec & -> & Cc & _)] _]. exact Cc.
Qed.

Lemma limiter_never_faults_witness : exists r res,
  checks [(lit "d1", lit "connection", 1, 5); (lit "d1", lit "connection", 1, 6); (lit "d2", lit "bandwidth", 400, 6)] new_limiter = Ok (r, res) /\
  length res = 3%nat /\ m_buckets r = m_buckets new_limiter /\
  forall device dim c tb, m_buckets new_limiter !! dim = Some c -> m_token_buckets r !! bucket_key device dim = Some tb ->
    F64.leb F64.zero (m_tokens tb) = true /\ F64.leb (m_tokens tb) (m_capacity c) = true.
Proof.
  apply (limiter_never_faults 5 [(lit "d1", lit "connection", 1, 5); (lit "d1", lit "connection", 1, 6); (lit "d2", lit "bandwidth", 400, 6)]).
  cbn. lia.
Defined.

(** ** The server *)

Section Total.
Context (E : Env) (Hclock : forall i j, (i <= j)%nat -> steady E i <= steady E j).

(** A started server with its own listeners and a limiter in order. *)
Definition plain_server (s : Server) : Prop :=
  m_transport s = true /\ GatewayFlow.builtin_only s /\ limiter_ok (steady E (ticks s)) (m_ratelimiter s).

Definition total {A} (m : G A) : Prop := forall s, plain_server s -> exists a s', m s = Ok (a, s') /\ plain_server s'.

Lemma total_ret {A} (a : A) : total (mret a).
Proof using. intros s Hs. by exists a, s. Qed.
Lemma total_bind {A B} (m : G A) (k : A -> G B) : total m -> (forall a, total (k a)) -> total (m ≫= k).
Proof using.
  intros Hm Hk s Hs. destruct (Hm s Hs) as (a & s1 & E1 & H1). destruct (Hk a s1 H1) as (b & s2 & E2 & H2).
  exists b, s2. by rewrite GatewayChecks.run_bind, E1.
Qed.
Lemma total_get {B} (k : Server -> G B) : (forall s, plain_server s -> total (k s)) -> total (get ≫= k).
Proof using. intros Hk s Hs. exact (Hk s Hs s Hs). Qed.
Lemma total_modify f : (forall s, m_transport (f s) = m_transport s /\ m_listeners (f s) = m_listeners s /\
    m_ratelimiter (f s) = m_ratelimiter s /\ (ticks s <= ticks (f s))%nat) -> total (modify f).
Proof using Hclock.
  intros Hf s (Ht & Hb & Hl). destruct (Hf s) as (E1 & E2 & E3 & E4). exists tt, (f s). split; [done|].
  split_and!; [congruence|by eapply GatewayFlow.builtin_listeners_eq|]. rewrite E3. eapply limiter_later, Hl. by apply Hclock.
Qed.
Lemma total_if {A} (b : bool) (m k : G A) : total m -> total k -> total (if b then m else k).
Proof using. by destruct b. Qed.
Lemma total_for_all {A} (l : list A) f : (forall x, total (f x)) -> total (for_all l f).
Proof using. intros Hf. induction l; [apply total_ret|]. by apply total_bind. Qed.
Lemma total_tick : total (modify tick).
Proof using Hclock. apply total_modify. intros s. split_and!; try done. cbn. lia. Qed.
Lemma total_board f : total (modify_board f).
Proof using Hclock. by apply total_modify. Qed.
Lemma total_limit device dimension cost : 0 <= cost -> total (check_limit E device dimension cost).
Proof using Hclock.
  intros Hc s (Ht & Hb & Hl). unfold check_limit.
  destruct (check_total device dimension cost _ _ _ Hl (Z.le_refl _) Hc) as (r & res & -> & Hr & _).
  eexists res, _. split; [done|]. split_and!; [done|by eapply GatewayFlow.builtin_listeners_eq|]. cbn.
  eapply limiter_later, Hr. apply Hclock. lia.
Qed.

Create HintDb total.
Hint Resolve total_limit : total.
(** The rules by the head of the program. *)
Ltac total := repeat lazymatch goal with
  | |- forall _, _ => intros ?
  | |- total (mret _) => apply total_ret
  | |- total (modify_board _) => apply total_board
  | |- total (modify tick) => apply total_tick
  | |- total (modify _) => apply total_modify; done
  | |- total (get ≫= _) => apply total_get
  | |- total (_ ≫= _) => apply total_bind
  | |- total (if _ then _ else _) => apply total_if
  | |- total (for_all _ _) => apply total_for_all
  | |- _ => solve [eauto 2 with total]
  end.

Lemma total_send id msg : total (send_to_device E id msg).
Proof using Hclock. unfold send_to_device, read_device, modify_device, emit, on_message_out, on_bytes_out, modify_metrics. total. Qed.
Lemma total_close id : total (close_session E id).
Proof using Hclock. unfold close_session, now_ms, modify_device, mark_changed. total. Qed.
Lemma total_create id : total (create_session E id).
Proof using Hclock. unfold create_session, generate_session_id, now_ms, modify_device, mark_changed. total. Qed.
Hint Resolve total_send total_close total_create : total.

Lemma total_heartbeat : total (heartbeat_check E).
Proof using Hclock.
  unfold heartbeat_check, device_snapshot, close_expired, when, nothing, on_connection_close, modify_metrics, mark_changed, now_ms. total.
Qed.
Lemma total_cleanup : total (session_cleanup E).
Proof using Hclock. unfold session_cleanup, device_snapshot, remove_stale, when, nothing, remove_device, now_ms. total. Qed.
Lemma total_perform op : total (perform_io E op).
Proof using Hclock. destruct op; unfold perform_io, downstream, when, emit; unfold nothing; total. Qed.
Hint Resolve total_perform : total.

Lemma total_authenticate pid pkey psec name cb : (forall r, total (cb r)) -> total (authenticate E pid pkey psec name cb).
Proof using Hclock.
  intros Hcb. unfold authenticate. apply total_get. intros s (Ht & _). rewrite Ht. cbn [negb].
  unfold service_authenticate, do_authenticate. apply total_bind; [total|exact Hcb].
Qed.

Lemma total_auth_result msg r : total (on_auth_result E msg r).
Proof using Hclock. unfold on_auth_result, on_auth_failure, on_auth_success, on_connection_open, modify_metrics, schedule_io. total. Qed.

Lemma total_listener l msg : (forall n, l <> UserListener n) -> total (run_listener E l msg).
Proof using Hclock.
  intros Hl. destruct l; cbn [run_listener].
  - unfold on_hello. apply total_bind; [apply total_limit; lia|]. intros rl. apply total_if; [unfold on_ratelimit_hit, modify_metrics, schedule_io; total|].
    apply total_authenticate. intros r. apply total_auth_result.
  - unfold on_audio_frame. apply total_bind; [apply total_limit; lia|]. intros rl.
    unfold on_ratelimit_hit, record_bytes_in, modify_metrics, modify_device, schedule_io, now_ms. total.
  - unfold on_audio_boundary, schedule_io. total.
  - unfold on_bye, on_connection_close, modify_metrics, schedule_io. total.
  - unfold on_ping, schedule_io. total.
  - unfold on_rate_limit, on_ratelimit_hit, modify_metrics. total.
  - unfold forward, schedule_io. total.
  - unfold forward, schedule_io. total.
  - by destruct (Hl n).
Qed.

Lemma total_batch batch : total (process_message_batch E batch).
Proof using Hclock.
  unfold process_message_batch, execute_pending_io. apply total_bind; [|intros []; total].
  apply total_for_all. intros msg. unfold process_one_message. apply total_get. intros s (_ & Hb & _).
  rewrite (GatewayFlow.builtin_listener msg s Hb).
  destruct (m_type msg); cbn [for_all]; try apply total_ret;
    (apply total_bind; [apply total_listener; intros n; discriminate|intros; apply total_ret]).
Qed.

(** C29. A batch of messages on a started server with the built-in listeners,
    whose clock does not go back, is processed to the end: every message gets a
    verdict (a hello is refused by the limiter, rejected for missing credentials
    or admitted with a session of its device; an audio frame is refused or
    admitted; everything else is admitted), and the server executes exactly the
    work these verdicts ask for, in message order after what was already
    pending: its output is the fold of the reference over that work, nothing
    stays pending, every refusal and every rejection is counted, and the bytes
    counted as sent do not change. *)
Theorem batch_exact batch s (Hs : plain_server s) : exists s' vs,
  process_message_batch E batch s = Ok (tt, s') /\ Forall2 (GatewayFlow.verdict_ok E) batch vs /\
  output s' = GatewayFlow.outputs E s (m_pending_io s ++ concat (zip_with GatewayFlow.io_of batch vs)) /\
  m_pending_io s' = [] /\
  u64 (GatewayFlow.hits s') = u64 (GatewayFlow.hits s + GatewayFlow.sum (zip_with GatewayFlow.hits_of batch vs)) /\
  u64 (GatewayFlow.failures s') = u64 (GatewayFlow.failures s + GatewayFlow.sum (GatewayFlow.failures_of <$> vs)) /\
  GatewayFlow.same s s'.
Proof using Hclock.
  pose proof Hs as (Ht & Hb & _). pose proof (GatewayFlow.batch_outcome E batch s Hb Ht) as Ho.
  destruct (total_batch batch s Hs) as ([] & s' & Er & _). rewrite Er in Ho. destruct Ho as (vs & Ho).
  by exists s', vs.
Qed.
End Total.

Import GatewayFlow.

Lemma demo_clock_forward i j : (i <= j)%nat -> steady demo_env i <= steady demo_env j.
Proof. cbn. lia. Qed.

Lemma demo_plain : plain_server demo_env demo_server.
Proof. split; [reflexivity|]. split; [exact demo_builtin|apply new_limiter_ok]. Qed.

Lemma demo_batch_outcome : exists s', process_message_batch demo_env demo_batch demo_server = Ok (tt, s') /\
  length (output s') = 5%nat /\ hits s' = 1.
Proof. eexists. split; [vm_compute; reflexivity|]. split; vm_compute; reflexivity. Qed.

(** The second hello comes too early and is refused. *)
Lemma batch_exact_witness : exists s' vs, process_message_batch demo_env demo_batch demo_server = Ok (tt, s') /\
  Forall2 (verdict_ok demo_env) demo_batch vs /\
  output s' = outputs demo_env demo_server (concat (zip_with io_of demo_batch vs)) /\
  length (output s') = 5%nat /\ hits s' = 1.
Proof.
  destruct (batch_exact demo_env demo_clock_forward demo_batch demo_server demo_plain) as (s' & vs & Er & Hv & Ho & _).
  destruct demo_batch_outcome as (s2 & E2 & Hl & Hh). rewrite Er in E2. injection E2 as <-.
  exists s', vs. split; [exact Er|]. split; [exact Hv|]. split; [exact Ho|]. split; [exact Hl|exact Hh].
Defined.

End GatewayTotal.
