(* ===== verification/GatewayLife.v ===== *)
(** * The life of the gateway (gateway_server.hpp, gateway_reactor.hpp)

    The server together with its reactor: start and stop, the turns of the
    reactor's three threads, the callbacks of the transport, and the calls
    others may make. The inbox and the task queues are FIFOs, which their
    linked lists refine. One turn or callback runs at a time; [stop] overlaps
    with the last turns of the threads, which are its arguments. *)
From stdpp Require Import base list numbers option sets strings gmap.
From Stdlib Require Import ZArith Lia.
From S2P Require Import Prelude Types BlockingQueue GatewayText GatewayReactor GatewayBoard Gateway.
From S2P Require Import GatewayFlow GatewayChecks GatewayTotal.

Local Open Scope Z_scope.
Import GatewayReactor GatewayText GatewayBoard Gateway.

Module GatewayLife.

Notation str := (list Z) (only parsing).

(** ** State *)

(** Functions of timers and submitted tasks: those of the server, and others. *)
Inductive Fn := HeartbeatCheck | SessionCleanup | MetricsReport | UserTask (n : nat).

(** [Reactor] but for the inbox, which it shares with the server. *)
Record RState := mkRState {
  r_running : bool;
  r_processor : bool;
  r_evolver : bool;
  r_timers : list (TimerEntry Fn);
  r_cpu : fifo (Task Fn);
  r_io : fifo (Task Fn);
  r_next_task : Z;
  r_stats : gmap string TaskStats }.

(** What happens to the messages of devices. *)
Inductive Event :=
  | Received (msg : GatewayMessage)
  | Refused (msgs : list GatewayMessage)
  | Dispatched (msgs : list GatewayMessage).

(** [g_listening]: the transport has been started and not stopped;
    [g_evolvers]: which evolver is registered under a name. *)
Record Gate := mkGate {
  g_server : Server;
  g_running : bool;
  g_listening : bool;
  g_evolvers : gmap str nat;
  g_reactor : RState;
  g_log : list Event }.

Definition set_server s g := mkGate s (g_running g) (g_listening g) (g_evolvers g) (g_reactor g) (g_log g).
Definition set_running b g := mkGate (g_server g) b (g_listening g) (g_evolvers g) (g_reactor g) (g_log g).
Definition set_listening b g := mkGate (g_server g) (g_running g) b (g_evolvers g) (g_reactor g) (g_log g).
Definition set_evolvers m g := mkGate (g_server g) (g_running g) (g_listening g) m (g_reactor g) (g_log g).
Definition set_reactor r g := mkGate (g_server g) (g_running g) (g_listening g) (g_evolvers g) r (g_log g).
Definition log_event e g := mkGate (g_server g) (g_running g) (g_listening g) (g_evolvers g) (g_reactor g) (g_log g ++ [e]).

Definition set_r_running b r := mkRState b (r_processor r) (r_evolver r) (r_timers r) (r_cpu r) (r_io r) (r_next_task r) (r_stats r).
Definition set_functions p e r := mkRState (r_running r) p e (r_timers r) (r_cpu r) (r_io r) (r_next_task r) (r_stats r).
Definition set_timers t r := mkRState (r_running r) (r_processor r) (r_evolver r) t (r_cpu r) (r_io r) (r_next_task r) (r_stats r).
Definition set_cpu q r := mkRState (r_running r) (r_processor r) (r_evolver r) (r_timers r) q (r_io r) (r_next_task r) (r_stats r).
Definition set_io q r := mkRState (r_running r) (r_processor r) (r_evolver r) (r_timers r) (r_cpu r) q (r_next_task r) (r_stats r).
Definition set_next_task n r := mkRState (r_running r) (r_processor r) (r_evolver r) (r_timers r) (r_cpu r) (r_io r) n (r_stats r).
Definition set_stats m r := mkRState (r_running r) (r_processor r) (r_evolver r) (r_timers r) (r_cpu r) (r_io r) (r_next_task r) m.

Definition new_reactor : RState :=
  mkRState false false false [] (mkFifo 512 [] false) (mkFifo 256 [] false) 1 ∅.

(** The constructor registers the built-in listeners. *)
Definition new_gate (c : GatewayConfig) (cb : bool) : res Gate :=
  '(_, s) ← register_builtin_listeners (empty_server c cb); Ok (mkGate s false false ∅ new_reactor []).

(** ** The blackboard's evolvers *)

(** [take_changed_keys]; an [unordered_set] that has been moved from is empty. *)
Definition take_changed_keys (b : DataBoard) : DataBoard * gset str :=
  (mkBoard (m_devices b) (m_metrics b) ∅, m_changed_keys b).

(** [evolve_once]: all evolvers run once for every changed key. *)
Definition evolve_once (evolvers : list (DataBoard -> DataBoard)) (b : DataBoard) : DataBoard :=
  let '(b, keys) := take_changed_keys b in
  if bool_decide (keys = ∅) then b else
  Nat.iter (size keys) (fun b => foldl (fun b f => f b) b evolvers) b.

(** ** The messages *)

Definition received (l : list Event) : list GatewayMessage :=
  omap (fun e => match e with Received m => Some m | _ => None end) l.
Definition refused (l : list Event) : list GatewayMessage :=
  concat ((fun e => match e with Refused b => b | _ => [] end) <$> l).
Definition dispatched (l : list Event) : list GatewayMessage :=
  concat ((fun e => match e with Dispatched b => b | _ => [] end) <$> l).

Definition batch_of (t : Task Fn) : list GatewayMessage := match t_fn t with RunBatch b => b | _ => [] end.

(** Messages in tasks of the CPU queue, then those in the inbox. *)
Definition batched (g : Gate) : list GatewayMessage := concat (batch_of <$> items (r_cpu (g_reactor g))).
Definition waiting (g : Gate) : list GatewayMessage := batched g ++ items (m_inbox (g_server g)).

(** Entries of downstream sessions, which nothing of the server uses. *)
Record DownstreamState := mkDownstream { ds_session_id : str; ds_stream_open : bool; ds_last_heartbeat_ms : Z }.

(** [DataBoard::downstream]: the entry, created when missing. *)
Definition downstream_entry (session : str) (m : gmap str DownstreamState) : gmap str DownstreamState * DownstreamState :=
  match m !! session with
  | Some d => (m, d)
  | None => let d := mkDownstream session false 0 in (<[session := d]> m, d)
  end.
Definition remove_downstream (session : str) (m : gmap str DownstreamState) : gmap str DownstreamState := delete session m.

(** An entry is created once and then stays what it is. *)
Lemma downstream_entry_stable session m : downstream_entry session (downstream_entry session m).1 = downstream_entry session m.
Proof.
  unfold downstream_entry at 2 3. destruct (m !! session) as [d|] eqn:E; unfold downstream_entry; cbn [fst];
    [by rewrite E|by rewrite lookup_insert_eq].
Qed.

(** When keys have changed, every evolver runs once per key. *)
Lemma evolve_once_runs (evolvers : list (DataBoard -> DataBoard)) b :
  m_changed_keys b <> ∅ -> evolve_once evolvers b =
    Nat.iter (size (m_changed_keys b)) (fun b => foldl (fun b f => f b) b evolvers) (mkBoard (m_devices b) (m_metrics b) ∅).
Proof. intros H. unfold evolve_once, take_changed_keys. by rewrite bool_decide_false. Qed.

(** [task_stats] and [metrics_snapshot]. *)
Definition task_stats (g : Gate) : list TaskStats := (map_to_list (r_stats (g_reactor g))).*2.
Definition metrics_snapshot (g : Gate) : MetricsState := m_metrics (m_board (g_server g)).

Section Life.
(** The surroundings, the yields of the timer queue, the tasks and evolvers of
    others, and the walk over the registered evolvers. *)
Context (E : Env) (Q : TimerQueue Fn) (task_fn : nat -> G unit) (evolver : nat -> DataBoard -> DataBoard)
  (walk : gmap str nat -> list (str * nat)).

Definition register_evolver (name : str) (n : nat) (g : Gate) : Gate := set_evolvers (<[name := n]> (g_evolvers g)) g.

Definition evolve (g : Gate) : G unit := modify_board (evolve_once ((fun e => evolver e.2) <$> walk (g_evolvers g))).

(** ** The threads of the reactor *)

Definition run_fn (f : Fn) : G unit :=
  match f with
  | HeartbeatCheck => heartbeat_check E
  | SessionCleanup => session_cleanup E
  | MetricsReport => nothing
  | UserTask n => task_fn n
  end.

(** [task.m_fn]; the function of a timer is empty when it fires again. *)
Definition run_body (g : Gate) (b : @Body Fn) : G unit :=
  match b with
  | RunTimer None => nothing
  | RunTimer (Some f) => run_fn f
  | RunBatch batch => process_message_batch E batch
  | RunEvolver => evolve g
  end.

Definition log_task (b : @Body Fn) (g : Gate) : Gate :=
  match b with RunBatch batch => log_event (Dispatched batch) g | _ => g end.

(** The body of a worker's loop for the task it took; [duration] is what the
    clock measured. *)
Definition execute (t : Task Fn) (duration : Z) (g : Gate) : res Gate :=
  '(_, s) ← run_body g (t_fn t) (g_server g);
  let g := log_task (t_fn t) (set_server s g) in
  Ok (set_reactor (set_stats (record_stats (r_stats (g_reactor g)) (t_name t) duration) (g_reactor g)) g).

Definition cpu_turn (duration : Z) (g : Gate) : res Gate :=
  let '(q, t) := next_item (r_cpu (g_reactor g)) in
  let g := set_reactor (set_cpu q (g_reactor g)) g in
  match t with Some t => execute t duration g | None => Ok g end.

Definition io_turn (duration : Z) (g : Gate) : res Gate :=
  let '(q, t) := next_item (r_io (g_reactor g)) in
  let g := set_reactor (set_io q (g_reactor g)) g in
  match t with Some t => execute t duration g | None => Ok g end.

(** [m_cpu_queue.try_push]; the messages of a batch that is not taken are lost. *)
Definition push_cpu (t : Task Fn) (g : Gate) : Gate :=
  let '(q, ok) := offer t (r_cpu (g_reactor g)) in
  let g := set_reactor (set_cpu q (g_reactor g)) g in
  match t_fn t with RunBatch batch => if (ok : bool) then g else log_event (Refused batch) g | _ => g end.

Definition timers_turn (now : Z) (g : Gate) : Gate :=
  let '(timers, tasks) := process_timers Q now (r_timers (g_reactor g)) in
  foldl (fun g t => push_cpu t g) (set_reactor (set_timers timers (g_reactor g)) g) tasks.

Definition messages_turn (g : Gate) : Gate :=
  let batch := items (m_inbox (g_server g)) in
  let g := set_server (GatewayBoard.set_inbox (set_items [] (m_inbox (g_server g))) (g_server g)) g in
  if bool_decide (batch = []) then g else
  let g := if r_processor (g_reactor g) then push_cpu (batch_task batch) g else log_event (Refused batch) g in
  if r_evolver (g_reactor g) then push_cpu evolve_task g else g.

Definition reactor_turn (now : Z) (g : Gate) : Gate := messages_turn (timers_turn now g).

(** ** Callbacks of the transport *)

Definition arrive (peer payload : str) (g : Gate) : res Gate :=
  let s := g_server g in
  let msg := parse_upstream_json peer payload (wall E (ticks s)) in
  '(_, s') ← on_tight_message E peer payload s;
  let g := log_event (Received msg) (set_server s' g) in
  Ok (if (offer msg (m_inbox s)).2 then g else log_event (Refused [msg]) g).

Definition peer_change (event : Types.PeerEvent) (g : Gate) : res Gate :=
  '(_, s) ← on_tight_peer_event E event (g_server g); Ok (set_server s g).

Inductive Turn :=
  | Arrive (peer payload : str)
  | PeerChange (event : Types.PeerEvent)
  | ReactorTurn (now : Z)
  | CpuTurn (duration : Z)
  | IoTurn (duration : Z).

Definition take_turn (t : Turn) (g : Gate) : res Gate :=
  match t with
  | Arrive peer payload => arrive peer payload g
  | PeerChange event => peer_change event g
  | ReactorTurn now => Ok (reactor_turn now g)
  | CpuTurn d => cpu_turn d g
  | IoTurn d => io_turn d g
  end.

Fixpoint take_turns (ts : list Turn) (g : Gate) : res Gate :=
  match ts with [] => Ok g | t :: ts => g ← take_turn t g; take_turns ts g end.

(** The thread that takes the turn is alive. *)
Definition enabled (t : Turn) (g : Gate) : bool :=
  match t with Arrive _ _ | PeerChange _ => g_listening g | _ => r_running (g_reactor g) end.

(** ** Start and stop *)

Definition close_fifo {A} (f : fifo A) : fifo A := mkFifo (cap f) (items f) true.

(** [Reactor::start] and the first half of [Reactor::stop]. *)
Definition reactor_start (r : RState) : RState := set_r_running true r.
Definition reactor_close (r : RState) : RState :=
  set_r_running false (set_io (close_fifo (r_io r)) (set_cpu (close_fifo (r_cpu r)) r)).

Definition add_timer (name : string) (fn : Fn) (interval : Z) (skippable : bool) (now : Z) (r : RState) : RState :=
  set_timers (schedule_timer name fn interval skippable now (r_timers r)) r.

(** Three readings of the clock, one per timer. *)
Definition server_timers (t1 t2 t3 : Z) (r : RState) : RState :=
  add_timer "metrics_report" MetricsReport 60000000000 true t3
    (add_timer "session_cleanup" SessionCleanup 60000000000 true t2
      (add_timer "heartbeat_check" HeartbeatCheck 30000000000 true t1 r)).

(** [bound]: the new transport could be started. *)
Definition start (bound : bool) (t1 t2 t3 : Z) (g : Gate) : bool * Gate :=
  if g_running g then (true, g) else
  let s := g_server g in
  let g := set_server (mkServer (m_config s) (m_board s) (m_inbox s) (m_ratelimiter s) (m_listeners s) (m_pending_io s)
                         true (m_downstream_cb s) (ticks s) (output s)) g in
  let g := set_listening bound g in
  if negb bound then (false, g) else
  let r := server_timers t1 t2 t3 (set_functions true true (g_reactor g)) in
  (true, set_running true (set_reactor (reactor_start r) g)).

(** The threads end with [final], the callbacks go on until the transport has
    stopped: [late]. *)
Definition stop (final late : list Turn) (g : Gate) : res Gate :=
  if negb (g_running g) then Ok g else
  let g := set_running false g in
  g ← (if negb (r_running (g_reactor g)) then Ok g
       else take_turns final (set_reactor (reactor_close (g_reactor g)) g));
  let s := g_server g in
  let g := set_server (GatewayBoard.set_inbox (close_fifo (m_inbox s)) s) g in
  g ← take_turns late g;
  Ok (set_listening false g).

(** ** Calls of others *)

(** [submit]: the number and the time are given, then the task is offered. *)
Definition numbered (name : string) (n : nat) (skippable : bool) (now : Z) (r : RState) : Task Fn :=
  mkTask (r_next_task r) name (RunTimer (Some (UserTask n))) skippable now.

Definition submit_cpu (name : string) (n : nat) (skippable : bool) (now : Z) (g : Gate) : bool * Gate :=
  let r := g_reactor g in
  let '(q, ok) := offer (numbered name n skippable now r) (r_cpu r) in
  (ok, set_reactor (set_cpu q (set_next_task (u64 (r_next_task r + 1)) r)) g).

Definition submit_io (name : string) (n : nat) (skippable : bool) (now : Z) (g : Gate) : bool * Gate :=
  let r := g_reactor g in
  let '(q, ok) := offer (numbered name n skippable now r) (r_io r) in
  (ok, set_reactor (set_io q (set_next_task (u64 (r_next_task r + 1)) r)) g).

Inductive Call :=
  | Start (bound : bool) (t1 t2 t3 : Z)
  | Stop (final late : list Turn)
  | Take (t : Turn)
  | AddListener (t : GatewayMessageType) (l : Listener)
  | RegisterEvolver (name : str) (n : nat)
  | ScheduleTimer (name : string) (n : nat) (interval : Z) (skippable : bool) (now : Z)
  | SubmitCpu (name : string) (n : nat) (skippable : bool) (now : Z)
  | SubmitIo (name : string) (n : nat) (skippable : bool) (now : Z).

Definition call (c : Call) (g : Gate) : res Gate :=
  match c with
  | Start bound t1 t2 t3 => Ok (start bound t1 t2 t3 g).2
  | Stop final late => stop final late g
  | Take t => if enabled t g then take_turn t g else Ok g
  | AddListener t l => '(_, s) ← add_message_listener t l (g_server g); Ok (set_server s g)
  | RegisterEvolver name n => Ok (register_evolver name n g)
  | ScheduleTimer name n interval sk now => Ok (set_reactor (add_timer name (UserTask n) interval sk now (g_reactor g)) g)
  | SubmitCpu name n sk now => Ok (submit_cpu name n sk now g).2
  | SubmitIo name n sk now => Ok (submit_io name n sk now g).2
  end.

Fixpoint calls (cs : list Call) (g : Gate) : res Gate :=
  match cs with [] => Ok g | c :: cs => g ← call c g; calls cs g end.

(** ** What leaves the inbox alone *)

Definition keeps {A} (m : G A) : Prop := forall s a s', m s = Ok (a, s') -> m_inbox s' = m_inbox s.

Lemma keeps_ret {A} (a : A) : keeps (mret a).
Proof. by intros s b s' [= _ <-]. Qed.
Lemma keeps_get : keeps get.
Proof. by intros s b s' [= _ <-]. Qed.
Lemma keeps_modify f : (forall s, m_inbox (f s) = m_inbox s) -> keeps (modify f).
Proof. intros Hf s b s' [= _ <-]. apply Hf. Qed.
Lemma keeps_fail {A} e : keeps (@fail A e).
Proof. by intros s b s'. Qed.
Lemma keeps_inbox_bind {A B} (m : G A) (k : A -> G B) : keeps m -> (forall a, keeps (k a)) -> keeps (m ≫= k).
Proof.
  intros Hm Hk s b s'. rewrite GatewayChecks.run_bind. destruct (m s) as [[a s1]|] eqn:Em; [|done]. intros Ek.
  rewrite (Hk a _ _ _ Ek). exact (Hm _ _ _ Em).
Qed.
Lemma keeps_if {A} (b : bool) (m k : G A) : keeps m -> keeps k -> keeps (if b then m else k).
Proof. by destruct b. Qed.
Lemma keeps_for_all {A} (l : list A) f : (forall x, keeps (f x)) -> keeps (for_all l f).
Proof. intros Hf. induction l; [apply keeps_ret|]. by apply keeps_inbox_bind. Qed.
Lemma keeps_board f : keeps (modify_board f).
Proof. by apply keeps_modify. Qed.
Lemma keeps_limit device dimension cost : keeps (check_limit E device dimension cost).
Proof. intros s b s'. unfold check_limit. destruct (check _ _ _ _ _) as [[r x]|]; [|done]. by intros [= _ <-]. Qed.

Create HintDb keeps.
Hint Resolve keeps_ret keeps_get keeps_fail keeps_board keeps_limit : keeps.
Ltac keeps := repeat first
  [ progress (intros; eauto 1 with keeps) | apply keeps_inbox_bind | apply keeps_if | apply keeps_for_all
  | (apply keeps_modify; reflexivity)
  | match goal with |- keeps (match ?x with _ => _ end) => destruct x end ].

Lemma keeps_close id : keeps (close_session E id).
Proof. unfold close_session, now_ms, modify_device, mark_changed. keeps. Qed.
Lemma keeps_create id : keeps (create_session E id).
Proof. unfold create_session, generate_session_id, now_ms, modify_device, mark_changed. keeps. Qed.
Lemma keeps_send id msg : keeps (send_to_device E id msg).
Proof.
  unfold send_to_device, read_device, modify_device, emit, on_message_out, on_bytes_out, modify_metrics. keeps.
Qed.
Hint Resolve keeps_close keeps_create keeps_send : keeps.

Lemma keeps_heartbeat : keeps (heartbeat_check E).
Proof. unfold heartbeat_check, now_ms, device_snapshot, close_expired, when, nothing, on_connection_close, modify_metrics, mark_changed. keeps. Qed.
Lemma keeps_cleanup : keeps (session_cleanup E).
Proof. unfold session_cleanup, now_ms, device_snapshot, remove_stale, when, nothing, remove_device. keeps. Qed.
Lemma keeps_peer event : keeps (on_tight_peer_event E event).
Proof. unfold on_tight_peer_event, read_device, modify_device, mark_changed, nothing. keeps. Qed.
Lemma keeps_perform op : keeps (perform_io E op).
Proof. unfold perform_io, downstream, when, nothing, emit. keeps. Qed.
Hint Resolve keeps_heartbeat keeps_cleanup keeps_peer keeps_perform : keeps.

Lemma keeps_register : keeps register_builtin_listeners.
Proof. unfold register_builtin_listeners, add_message_listener. keeps. Qed.

(** Listeners and tasks of others have no handle on the inbox. *)
Context (Hlisteners : forall n msg, keeps (user E n msg)) (Htasks : forall n, keeps (task_fn n)).
Hint Resolve Hlisteners Htasks : keeps.

Lemma keeps_listener l msg : keeps (run_listener E l msg).
Proof using Hlisteners.
  destruct l; cbn [run_listener]; [| | | | | | | |apply Hlisteners];
    unfold on_hello, on_audio_frame, on_audio_boundary, on_bye, on_ping, on_rate_limit, forward, authenticate, service_authenticate, do_authenticate,
      on_auth_result, schedule_io, record_bytes_in, now_ms, on_ratelimit_hit, on_auth_failure, on_auth_success,
      on_connection_open, on_connection_close, modify_metrics, modify_device; keeps.
Qed.
Hint Resolve keeps_listener : keeps.

Lemma keeps_batch batch : keeps (process_message_batch E batch).
Proof using Hlisteners. unfold process_message_batch, process_one_message, execute_pending_io. keeps. Qed.
Hint Resolve keeps_batch : keeps.

Lemma keeps_body g b : keeps (run_body g b).
Proof using Hlisteners Htasks. destruct b as [[[]|]| |]; cbn [run_body run_fn]; unfold nothing, evolve; keeps. Qed.

(** ** Every message is accounted for *)

Lemma received_snoc l e : received (l ++ [e]) = received l ++ match e with Received m => [m] | _ => [] end.
Proof. unfold received. rewrite omap_app. by destruct e. Qed.
Lemma refused_snoc l e : refused (l ++ [e]) = refused l ++ match e with Refused b => b | _ => [] end.
Proof. unfold refused. rewrite fmap_app, concat_app. cbn. by rewrite app_nil_r. Qed.
Lemma dispatched_snoc l e : dispatched (l ++ [e]) = dispatched l ++ match e with Dispatched b => b | _ => [] end.
Proof. unfold dispatched. rewrite fmap_app, concat_app. cbn. by rewrite app_nil_r. Qed.
Lemma batched_snoc (l : list (Task Fn)) t : concat (batch_of <$> (l ++ [t])) = concat (batch_of <$> l) ++ batch_of t.
Proof. rewrite fmap_app, concat_app. cbn. by rewrite app_nil_r. Qed.

(** In order, none twice, none forgotten; the IO queue holds no batch. *)
Record accounted (g : Gate) : Prop := {
  ac_order : dispatched (g_log g) ++ waiting g `sublist_of` received (g_log g);
  ac_all : received (g_log g) ≡ₚ dispatched (g_log g) ++ waiting g ++ refused (g_log g);
  ac_io : Forall (fun t => batch_of t = []) (items (r_io (g_reactor g))) }.

(** The same messages at the same places. *)
Record alike (g g' : Gate) : Prop := {
  al_log : g_log g' = g_log g;
  al_batched : batched g' = batched g;
  al_inbox : items (m_inbox (g_server g')) = items (m_inbox (g_server g));
  al_io : items (r_io (g_reactor g')) = items (r_io (g_reactor g)) }.

Lemma alike_accounted g g' : alike g g' -> accounted g -> accounted g'.
Proof. intros [H1 H2 H3 H4] [A B C]. unfold waiting in *. constructor; unfold waiting; by rewrite ?H1, ?H2, ?H3, ?H4. Qed.

Lemma push_accounted t g g0 : accounted g0 -> g_log g = g_log g0 -> batched g = batched g0 ->
  items (r_io (g_reactor g)) = items (r_io (g_reactor g0)) ->
  items (m_inbox (g_server g0)) = batch_of t ++ items (m_inbox (g_server g)) -> batch_of t = [] \/ items (m_inbox (g_server g)) = [] ->
  accounted (push_cpu t g).
Proof using.
  intros [A B C] El Eb Eio Ei Hor. unfold waiting in *. rewrite Ei in A, B. rewrite <- El, <- Eb in *.
  unfold push_cpu, offer. destruct (closed _ || full _).
  - unfold batched in *. unfold batch_of in Hor, A, B at 2. destruct (t_fn t) as [f|b|] eqn:Et; cbn [app] in *.
    1,3: constructor; unfold waiting, batched; cbn; unfold batch_of in *; rewrite ?Et in *; cbn in *; by rewrite ?Eio.
    assert (batch_of t = b) as Hb by (unfold batch_of; by rewrite Et). rewrite Hb in *.
    constructor; unfold waiting, batched; cbn [g_log log_event g_reactor set_reactor r_cpu set_cpu g_server r_io];
      rewrite ?received_snoc, ?refused_snoc, ?dispatched_snoc, ?app_nil_r, ?Eio; [| |done].
    + etrans; [|exact A]. apply sublist_app; [done|]. apply sublist_app; [done|]. by apply sublist_inserts_l.
    + rewrite B. solve_Permutation.
  - cbv zeta. assert (forall (X : Type) (x y : X), match t_fn t with RunBatch _ => x | _ => x end = x) as Hm by (by destruct (t_fn t)).
    rewrite (Hm Gate _ g). constructor; unfold waiting, batched in *;
      cbn [g_log g_reactor set_reactor r_cpu set_cpu g_server r_io items set_items]; [| |by rewrite Eio].
    + rewrite batched_snoc, <- app_assoc. done.
    + rewrite batched_snoc, B. by rewrite !app_assoc.
Qed.

Lemma push_plain t g : batch_of t = [] -> accounted g -> accounted (push_cpu t g).
Proof using. intros Ht Hg. apply (push_accounted t g g); try done; rewrite ?Ht; auto. Qed.

Lemma push_all_plain ts g : Forall (fun t => batch_of t = []) ts -> accounted g ->
  accounted (foldl (fun g t => push_cpu t g) g ts).
Proof using. intros Ht. revert g. induction Ht as [|t ts Ht _ IH]; intros g Hg; [done|]. by apply IH, push_plain. Qed.

Lemma timer_tasks_plain fuel now q : Forall (fun t => batch_of t = []) (timer_loop Q fuel now q).2.
Proof using.
  revert q. induction fuel as [|fuel IH]; intros q; cbn [timer_loop]; [constructor|].
  destruct (pop Q q) as [[top rest]|]; [|constructor]. destruct (now <? _); [constructor|].
  specialize (IH rest). destruct (timer_loop Q fuel now rest) as [[q' again] tasks].
  destruct (missed now top); [done|]. by constructor.
Qed.

Lemma timers_accounted now g : accounted g -> accounted (timers_turn now g).
Proof using.
  intros Hg. unfold timers_turn, process_timers. pose proof (timer_tasks_plain (length (r_timers (g_reactor g))) now (r_timers (g_reactor g))) as Ht.
  destruct (timer_loop _ _ _ _) as [[q' again] tasks]. apply push_all_plain; [done|]. by eapply alike_accounted, Hg.
Qed.

Lemma messages_accounted g : accounted g -> accounted (messages_turn g).
Proof using.
  intros Hg. unfold messages_turn. set (g1 := set_server _ g).
  assert (items (m_inbox (g_server g)) = items (m_inbox (g_server g)) ++ items (m_inbox (g_server g1))) as Ei
    by (by rewrite app_nil_r).
  case_bool_decide as Hb; [by eapply alike_accounted, Hg; constructor|].
  set (g2 := if r_processor _ then _ else _).
  assert (accounted g2) as H2.
  { unfold g2. destruct (r_processor _).
    - apply (push_accounted _ g1 g); auto.
    - destruct Hg as [A B C]. unfold waiting in *. constructor; unfold waiting; cbn [g_log log_event];
        rewrite ?received_snoc, ?refused_snoc, ?dispatched_snoc, ?app_nil_r; [| |done].
      + etrans; [|exact A]. apply sublist_app; [done|]. by apply sublist_inserts_r.
      + change (g_log g1) with (g_log g). change (batched (log_event _ g1)) with (batched g). rewrite B. solve_Permutation. }
  destruct (r_evolver _); [by apply push_plain|done].
Qed.

Lemma arrive_accounted peer payload g g' : arrive peer payload g = Ok g' -> accounted g -> accounted g'.
Proof using.
  intros E1 [A B C]. unfold arrive in E1. set (msg := parse_upstream_json _ _ _) in E1.
  destruct (on_tight_message E peer payload (g_server g)) as [[[] s']|] eqn:Em; [|done].
  assert (m_inbox s' = (offer msg (m_inbox (g_server g))).1) as Hi.
  { revert Em. unfold on_tight_message, now_ms. rewrite !GatewayChecks.run_bind. cbn. by intros [= <-]. }
  cbn [mbind res_bind] in E1. injection E1 as <-. unfold offer in *. unfold waiting in *.
  destruct (closed _ || full _); cbn [fst snd] in *; constructor; unfold waiting, batched in *;
    cbn [g_log log_event set_server g_server g_reactor]; rewrite ?Hi; cbn [items set_items];
    rewrite ?received_snoc, ?refused_snoc, ?dispatched_snoc, ?app_nil_r; try done.
  - by apply sublist_inserts_r.
  - rewrite B. solve_Permutation.
  - rewrite !app_assoc. apply sublist_app; [by rewrite <- !app_assoc|done].
  - rewrite B. solve_Permutation.
Qed.

Lemma execute_accounted t d g g' : execute t d g = Ok g' ->
  exists s, m_inbox s = m_inbox (g_server g) /\
    g' = set_reactor (set_stats (r_stats (g_reactor g')) (g_reactor g)) (log_task (t_fn t) (set_server s g)).
Proof using Hlisteners Htasks.
  unfold execute. destruct (run_body g (t_fn t) (g_server g)) as [[a s]|] eqn:Eb; [|done]. intros [= <-].
  exists s. split; [exact (keeps_body g (t_fn t) _ _ _ Eb)|]. by destruct (t_fn t).
Qed.

Lemma cpu_accounted d g g' : cpu_turn d g = Ok g' -> accounted g -> accounted g'.
Proof using Hlisteners Htasks.
  unfold cpu_turn, next_item. intros E1 [A B C]. destruct (items (r_cpu (g_reactor g))) as [|t q] eqn:Eq.
  { injection E1 as <-. by constructor. }
  destruct (execute_accounted _ _ _ _ E1) as (s & Hs & ->). clear E1. cbn [g_server set_reactor] in Hs.
  unfold waiting, batched in *. rewrite Eq in A, B. cbn [fmap list_fmap concat] in A, B. unfold batch_of in A, B at 1.
  constructor; unfold waiting, batched; destruct (t_fn t); cbn [log_task log_event set_server set_reactor set_stats set_cpu g_log g_reactor g_server
    r_cpu r_io items set_items] in *;
    rewrite ?received_snoc, ?refused_snoc, ?dispatched_snoc, ?app_nil_r, ?Hs; try done; rewrite <- ?app_assoc in *; try done.
Qed.

Lemma io_accounted d g g' : io_turn d g = Ok g' -> accounted g -> accounted g'.
Proof using Hlisteners Htasks.
  unfold io_turn, next_item. intros E1 [A B C]. destruct (items (r_io (g_reactor g))) as [|t q] eqn:Eq.
  { injection E1 as <-. constructor; try done. cbn. by rewrite Eq. }
  destruct (execute_accounted _ _ _ _ E1) as (s & Hs & ->). clear E1. cbn [g_server set_reactor] in Hs.
  apply Forall_cons in C as [Ht C]. unfold waiting, batched in *. unfold batch_of in Ht.
  constructor; unfold waiting, batched; destruct (t_fn t); cbn [log_task log_event set_server set_reactor set_stats set_io g_log g_reactor g_server
    r_cpu r_io items set_items] in *; subst;
    rewrite ?received_snoc, ?refused_snoc, ?dispatched_snoc, ?app_nil_r, ?Hs; done.
Qed.

Lemma turn_accounted t g g' : take_turn t g = Ok g' -> accounted g -> accounted g'.
Proof using Hlisteners Htasks.
  destruct t; cbn [take_turn].
  - apply arrive_accounted.
  - unfold peer_change. destruct (on_tight_peer_event _ _ _) as [[[] s]|] eqn:Ep; [|done]. intros [= <-].
    apply alike_accounted. constructor; try done. cbn. by rewrite (keeps_peer _ _ _ _ Ep).
  - intros [= <-] Hg. by apply messages_accounted, timers_accounted.
  - apply cpu_accounted.
  - apply io_accounted.
Qed.

Lemma turns_accounted ts g g' : take_turns ts g = Ok g' -> accounted g -> accounted g'.
Proof using Hlisteners Htasks.
  revert g. induction ts as [|t ts IH]; intros g; cbn [take_turns]; [by intros [= ->]|].
  destruct (take_turn t g) as [g1|] eqn:Et; [|done]. intros E1 Hg. eapply IH; [exact E1|]. by eapply turn_accounted.
Qed.

Lemma start_alike bound t1 t2 t3 g : alike g (start bound t1 t2 t3 g).2.
Proof using. unfold start. destruct (g_running g); [by constructor|]. by destruct bound; constructor. Qed.

Lemma offered_alike t g q ok : batch_of t = [] -> offer t (r_cpu (g_reactor g)) = (q, ok) ->
  concat (batch_of <$> items q) = batched g.
Proof using.
  intros Ht. unfold offer. destruct (closed _ || full _); intros [= <- <-]; [done|].
  cbn [items set_items]. by rewrite batched_snoc, Ht, app_nil_r.
Qed.

Lemma call_accounted c g g' : call c g = Ok g' -> accounted g -> accounted g'.
Proof using Hlisteners Htasks.
  destruct c; cbn [call]; intros Ec Hg.
  - injection Ec as <-. eapply alike_accounted, Hg. apply start_alike.
  - unfold stop in Ec. destruct (negb (g_running g)); [by injection Ec as <-|].
    set (g1 := set_running false g) in Ec. assert (accounted g1) as H1 by (by eapply alike_accounted, Hg; constructor).
    destruct (if negb _ then _ else _) as [g2|] eqn:E2; [|done]. cbn [mbind res_bind] in Ec.
    assert (accounted g2) as H2.
    { destruct (negb _); [by injection E2 as <-|]. eapply turns_accounted; [exact E2|]. by eapply alike_accounted, H1; constructor. }
    set (g3 := set_server _ g2) in Ec. assert (accounted g3) as H3 by (by eapply alike_accounted, H2; constructor).
    destruct (take_turns late g3) as [g4|] eqn:E4; [|done]. injection Ec as <-.
    eapply alike_accounted; [|by eapply turns_accounted]. by constructor.
  - destruct (enabled t g); [by eapply turn_accounted|by injection Ec as <-].
  - injection Ec as <-. by eapply alike_accounted, Hg; constructor.
  - injection Ec as <-. by eapply alike_accounted, Hg; constructor.
  - injection Ec as <-. by eapply alike_accounted, Hg; constructor.
  - unfold submit_cpu in Ec. destruct (offer _ _) as [q ok] eqn:Eo. injection Ec as <-.
    eapply alike_accounted, Hg. constructor; try done. by eapply offered_alike in Eo.
  - unfold submit_io, offer in Ec. destruct Hg as [A B C].
    destruct (closed (r_io (g_reactor g)) || full (r_io (g_reactor g))); injection Ec as <-; constructor; try done.
    cbn. apply Forall_app. by repeat constructor.
Qed.

Lemma calls_accounted cs g g' : calls cs g = Ok g' -> accounted g -> accounted g'.
Proof using Hlisteners Htasks.
  revert g. induction cs as [|c cs IH]; intros g; cbn [calls]; [by intros [= ->]|].
  destruct (call c g) as [g1|] eqn:Ec; [|done]. intros E1 Hg. eapply IH; [exact E1|]. by eapply call_accounted.
Qed.

(** A running server has a running reactor. *)
Definition alive (g : Gate) : Prop := g_running g = true -> r_running (g_reactor g) = true.

Lemma fresh_gate c cb g : new_gate c cb = Ok g -> accounted g /\ alive g.
Proof using.
  unfold new_gate. destruct (register_builtin_listeners (empty_server c cb)) as [[[] s]|] eqn:Er; [|done].
  intros [= <-]. assert (m_inbox s = mkFifo 32768 [] false) as Hs by (by rewrite (keeps_register _ _ _ Er)).
  split; [|done]. constructor; unfold waiting, batched; cbn; rewrite ?Hs; done.
Qed.


(** ** After a stop *)

(** The inbox and the CPU queue take nothing more. *)
Definition muted (g : Gate) : Prop :=
  closed (m_inbox (g_server g)) = true /\ closed (r_cpu (g_reactor g)) = true /\
  Forall (fun t => batch_of t = []) (items (r_io (g_reactor g))).

(** From [g] to [g'] what is dispatched was in the CPU queue, and what is
    received is refused. *)
Definition mutely (g g' : Gate) : Prop :=
  muted g' /\ exists l, g_log g' = g_log g ++ l /\ dispatched l ++ batched g' = batched g /\
    forall m, m ∈ received l -> m ∈ refused l.

Lemma mutely_refl g : muted g -> mutely g g.
Proof using. intros Hm. split; [done|]. exists []. rewrite app_nil_r. split_and!; [done|done|]. intros m Hm'. by apply not_elem_of_nil in Hm'. Qed.

Lemma mutely_trans g1 g2 g3 : mutely g1 g2 -> mutely g2 g3 -> mutely g1 g3.
Proof using.
  intros [_ (l & L1 & L2 & L3)] [M (k & K1 & K2 & K3)]. split; [done|]. exists (l ++ k). split_and!.
  - by rewrite K1, L1, app_assoc.
  - unfold dispatched in *. by rewrite fmap_app, concat_app, <- app_assoc, K2.
  - intros m. unfold received, refused in *. rewrite omap_app, fmap_app, concat_app, !elem_of_app. naive_solver.
Qed.

(** Steps that say nothing of messages. *)
Lemma mutely_quiet g g' : muted g -> g_log g' = g_log g -> batched g' = batched g ->
  closed (m_inbox (g_server g')) = closed (m_inbox (g_server g)) -> closed (r_cpu (g_reactor g')) = closed (r_cpu (g_reactor g)) ->
  items (r_io (g_reactor g')) = items (r_io (g_reactor g)) -> mutely g g'.
Proof using.
  intros (M1 & M2 & M3) El Eb Ei Ec Eio. split; [unfold muted; by rewrite Ei, Ec, Eio|].
  exists []. rewrite El, Eb, app_nil_r. split_and!; [done|done|]. intros m Hm. by apply not_elem_of_nil in Hm.
Qed.

Lemma mutely_log g e : muted g -> (forall b, e = Dispatched b -> b = []) -> (forall m, e <> Received m) -> mutely g (log_event e g).
Proof using.
  intros M Hd Hr. split; [exact M|]. exists [e]. split_and!; [done| |].
  - destruct e as [| |b]; try done. by rewrite (Hd b).
  - intros m. destruct e; [by destruct (Hr msg)| |]; cbn; intros Hm; by apply not_elem_of_nil in Hm.
Qed.

Lemma mutely_push t g : muted g -> mutely g (push_cpu t g).
Proof using.
  intros M. pose proof M as (_ & Hc & _). unfold push_cpu, offer. rewrite Hc. cbn [orb].
  set (g1 := set_reactor _ g). assert (mutely g g1) as H1 by (by apply mutely_quiet).
  destruct (t_fn t); try done. eapply mutely_trans; [exact H1|]. apply mutely_log; [apply H1|done|done].
Qed.

Lemma mutely_pushes ts g : muted g -> mutely g (foldl (fun g t => push_cpu t g) g ts).
Proof using.
  revert g. induction ts as [|t ts IH]; intros g M; [by apply mutely_refl|]. cbn [foldl].
  pose proof (mutely_push t g M) as H1. eapply mutely_trans; [exact H1|]. apply IH, H1.
Qed.

Lemma mutely_reactor now g : muted g -> mutely g (reactor_turn now g).
Proof using.
  intros M. assert (mutely g (timers_turn now g)) as H1.
  { unfold timers_turn. destruct (process_timers _ _ _) as [q ts]. set (g1 := set_reactor _ g).
    assert (mutely g g1) as H1 by (by apply mutely_quiet). eapply mutely_trans; [exact H1|]. apply mutely_pushes, H1. }
  eapply mutely_trans; [exact H1|]. unfold reactor_turn, messages_turn. set (gt := timers_turn now g) in *.
  set (g1 := set_server _ gt). assert (mutely gt g1) as H2 by (apply mutely_quiet; try done; apply H1).
  case_bool_decide as Hb; [done|]. eapply mutely_trans; [exact H2|].
  set (g2 := if r_processor _ then _ else _).
  assert (mutely g1 g2) as H3 by (unfold g2; destruct (r_processor _); [apply mutely_push, H2|apply mutely_log; [apply H2|done|done]]).
  eapply mutely_trans; [exact H3|]. destruct (r_evolver _); [apply mutely_push, H3|apply mutely_refl, H3].
Qed.

Lemma mutely_arrive peer payload g g' : arrive peer payload g = Ok g' -> muted g -> mutely g g'.
Proof using.
  intros E1 M. pose proof M as (Hi & Hc & Hio). unfold arrive in E1. set (msg := parse_upstream_json _ _ _) in E1.
  destruct (on_tight_message E peer payload (g_server g)) as [[[] s']|] eqn:Em; [|done].
  assert (m_inbox s' = (offer msg (m_inbox (g_server g))).1) as Hs.
  { revert Em. unfold on_tight_message, now_ms. rewrite !GatewayChecks.run_bind. cbn. by intros [= <-]. }
  unfold offer in *. rewrite Hi in E1, Hs. cbn in E1, Hs. injection E1 as <-.
  split; [split_and!; cbn; rewrite ?Hs; done|]. exists [Received msg; Refused [msg]]. split_and!; [|done|].
  - cbn. by rewrite <- app_assoc.
  - intros m. done.
Qed.

Lemma mutely_cpu d g g' : cpu_turn d g = Ok g' -> muted g -> mutely g g'.
Proof using Hlisteners Htasks.
  unfold cpu_turn, next_item. intros E1 M. destruct (items (r_cpu (g_reactor g))) as [|t q] eqn:Eq.
  { injection E1 as <-. by apply mutely_quiet. }
  destruct (execute_accounted _ _ _ _ E1) as (s & Hs & ->). clear E1. cbn [g_server set_reactor] in Hs.
  destruct M as (M1 & M2 & M3). split; [by unfold muted; destruct (t_fn t); cbn; rewrite ?Hs|].
  unfold batched. rewrite Eq. cbn [fmap list_fmap concat]. unfold batch_of at 2.
  destruct (t_fn t) as [f|b|]; cbn [log_task log_event set_server set_reactor set_stats set_cpu g_log g_reactor g_server r_cpu items set_items].
  - exists []. rewrite app_nil_r. split_and!; [done|done|]. intros m Hm. by apply not_elem_of_nil in Hm.
  - exists [Dispatched b]. split_and!; [done| |intros m Hm; by apply not_elem_of_nil in Hm]. cbn. by rewrite app_nil_r.
  - exists []. rewrite app_nil_r. split_and!; [done|done|]. intros m Hm. by apply not_elem_of_nil in Hm.
Qed.

Lemma mutely_io d g g' : io_turn d g = Ok g' -> muted g -> mutely g g'.
Proof using Hlisteners Htasks.
  unfold io_turn, next_item. intros E1 M. destruct (items (r_io (g_reactor g))) as [|t q] eqn:Eq.
  { injection E1 as <-. by apply mutely_quiet. }
  destruct (execute_accounted _ _ _ _ E1) as (s & Hs & ->). clear E1. cbn [g_server set_reactor] in Hs.
  destruct M as (M1 & M2 & M3). rewrite Eq in M3. apply Forall_cons in M3 as [Ht M3]. unfold batch_of in Ht.
  split; [by unfold muted; destruct (t_fn t); cbn; rewrite ?Hs|].
  exists (match t_fn t with RunBatch b => [Dispatched b] | _ => [] end).
  destruct (t_fn t); subst; cbn; rewrite ?app_nil_r; (split_and!; [done|done|]; intros m Hm; by apply not_elem_of_nil in Hm).
Qed.

Lemma mutely_turn t g g' : take_turn t g = Ok g' -> muted g -> mutely g g'.
Proof using Hlisteners Htasks.
  destruct t; cbn [take_turn].
  - apply mutely_arrive.
  - unfold peer_change. destruct (on_tight_peer_event _ _ _) as [[[] s]|] eqn:Ep; [|done]. intros [= <-] M.
    apply mutely_quiet; try done. cbn. by rewrite (keeps_peer _ _ _ _ Ep).
  - intros [= <-]. apply mutely_reactor.
  - apply mutely_cpu.
  - apply mutely_io.
Qed.

Lemma mutely_turns ts g g' : take_turns ts g = Ok g' -> muted g -> mutely g g'.
Proof using Hlisteners Htasks.
  revert g. induction ts as [|t ts IH]; intros g; cbn [take_turns]; [intros [= ->]; apply mutely_refl|].
  destruct (take_turn t g) as [g1|] eqn:Et; [|done]. intros E1 M. pose proof (mutely_turn _ _ _ Et M) as H1.
  eapply mutely_trans; [exact H1|]. eapply IH; [exact E1|apply H1].
Qed.

(** No turn opens or closes a queue, or starts or stops the reactor. *)
Definition stable (g g' : Gate) : Prop :=
  closed (r_cpu (g_reactor g')) = closed (r_cpu (g_reactor g)) /\ r_running (g_reactor g') = r_running (g_reactor g) /\
  g_running g' = g_running g.

Global Instance stable_refl : Reflexive stable.
Proof. by intros g. Qed.
Global Instance stable_trans : Transitive stable.
Proof. intros g1 g2 g3 (A1 & A2 & A3) (B1 & B2 & B3). unfold stable. by rewrite B1, B2, B3. Qed.

Lemma stable_push t g : stable g (push_cpu t g).
Proof using.
  unfold push_cpu, offer. destruct (closed _ || full _) eqn:Eo; destruct (t_fn t); done.
Qed.

Lemma stable_pushes ts g : stable g (foldl (fun g t => push_cpu t g) g ts).
Proof using. revert g. induction ts as [|t ts IH]; intros g; [done|]. cbn [foldl]. etrans; [apply (stable_push t)|apply IH]. Qed.

Lemma stable_reactor now g : stable g (reactor_turn now g).
Proof using.
  assert (stable g (timers_turn now g)) as H1.
  { unfold timers_turn. destruct (process_timers _ _ _) as [q ts]. etrans; [|apply stable_pushes]. done. }
  etrans; [exact H1|]. unfold reactor_turn, messages_turn. case_bool_decide; [done|].
  set (g2 := if r_processor _ then _ else _).
  assert (stable (timers_turn now g) g2) as H2.
  { unfold g2. destruct (r_processor _); [|done]. etrans; [|apply stable_push]. done. }
  etrans; [exact H2|]. destruct (r_evolver _); [apply stable_push|done].
Qed.

Lemma stable_turn t g g' : take_turn t g = Ok g' -> stable g g'.
Proof using Hlisteners Htasks.
  destruct t; cbn [take_turn].
  - unfold arrive. destruct (on_tight_message _ _ _ _) as [[[] s]|]; [|done]. intros [= <-]. by destruct (offer _ _).2.
  - unfold peer_change. destruct (on_tight_peer_event _ _ _) as [[[] s]|]; [|done]. by intros [= <-].
  - intros [= <-]. apply stable_reactor.
  - unfold cpu_turn, next_item. destruct (items _) as [|t q]; [by intros [= <-]|]. intros Ex.
    destruct (execute_accounted _ _ _ _ Ex) as (s & _ & ->). by destruct (t_fn t).
  - unfold io_turn, next_item. destruct (items _) as [|t q]; [by intros [= <-]|]. intros Ex.
    destruct (execute_accounted _ _ _ _ Ex) as (s & _ & ->). by destruct (t_fn t).
Qed.

Lemma stable_turns ts g g' : take_turns ts g = Ok g' -> stable g g'.
Proof using Hlisteners Htasks.
  revert g. induction ts as [|t ts IH]; intros g; cbn [take_turns]; [by intros [= ->]|].
  destruct (take_turn t g) as [g1|] eqn:Et; [|done]. intros E1. etrans; [by eapply stable_turn|by apply IH].
Qed.

Lemma stop_runs final late g g' : stop final late g = Ok g' -> g_running g = true -> r_running (g_reactor g) = true ->
  exists g1 g2, take_turns final (set_reactor (reactor_close (g_reactor g)) (set_running false g)) = Ok g1 /\
    take_turns late (set_server (GatewayBoard.set_inbox (close_fifo (m_inbox (g_server g1))) (g_server g1)) g1) = Ok g2 /\
    g' = set_listening false g2.
Proof using.
  unfold stop. intros Es Hr Hr'. rewrite Hr in Es. cbn [negb] in Es. cbn [set_running g_reactor] in Es. rewrite Hr' in Es. cbn [negb] in Es.
  destruct (take_turns final _) as [g1|]; [|done]. cbn [mbind res_bind] in Es.
  destruct (take_turns late _) as [g2|] eqn:E2; [|done]. injection Es as <-. by exists g1, g2.
Qed.

Lemma call_alive c g g' : call c g = Ok g' -> alive g -> alive g'.
Proof using Hlisteners Htasks.
  intros Ec Ha. destruct c; cbn [call] in Ec.
  - injection Ec as <-. unfold start. destruct (g_running g) eqn:Er; [done|]. destruct bound; [done|].
    intros Hr. cbn in Hr. congruence.
  - destruct (g_running g) eqn:Er.
    2: { unfold stop in Ec. rewrite Er in Ec. by injection Ec as <-. }
    destruct (stop_runs final late g g' Ec Er (Ha Er)) as (g1 & g2 & E1 & E2 & ->).
    apply stable_turns in E1 as (_ & _ & E1), E2 as (_ & _ & E2). cbn in E1, E2. intros Hr. cbn in Hr. congruence.
  - destruct (enabled t g); [|by injection Ec as <-]. apply stable_turn in Ec as (_ & H1 & H2). unfold alive. by rewrite H1, H2.
  - by injection Ec as <-.
  - by injection Ec as <-.
  - by injection Ec as <-.
  - unfold submit_cpu in Ec. destruct (offer _ _) as [q ok]. by injection Ec as <-.
  - unfold submit_io in Ec. destruct (offer _ _) as [q ok]. by injection Ec as <-.
Qed.

Lemma calls_alive cs g g' : calls cs g = Ok g' -> alive g -> alive g'.
Proof using Hlisteners Htasks.
  revert g. induction cs as [|c cs IH]; intros g; cbn [calls]; [by intros [= ->]|].
  destruct (call c g) as [g1|] eqn:Ec; [|done]. intros E1 Hg. eapply IH; [exact E1|]. by eapply call_alive.
Qed.

Lemma stop_mutes final late g g' : stop final late g = Ok g' -> g_running g = true -> alive g -> accounted g -> muted g'.
Proof using Hlisteners Htasks.
  intros Es Hr Ha Hg. destruct (stop_runs _ _ _ _ Es Hr (Ha Hr)) as (g1 & g2 & E1 & E2 & ->).
  pose proof (stable_turns _ _ _ E1) as (Hc & _). cbn in Hc.
  assert (accounted g1) as [_ _ Hio] by (eapply turns_accounted; [exact E1|]; by eapply alike_accounted, Hg; constructor).
  by destruct (mutely_turns _ _ _ E2) as [(M1 & M2 & M3) _].
Qed.

Lemma mutely_call c g g' : call c g = Ok g' -> muted g -> alive g -> mutely g g'.
Proof using Hlisteners Htasks.
  intros Ec M Ha. destruct c; cbn [call] in Ec.
  - injection Ec as <-. unfold start. destruct (g_running g); [by apply mutely_refl|]. by destruct bound; apply mutely_quiet.
  - destruct (g_running g) eqn:Er.
    2: { unfold stop in Ec. rewrite Er in Ec. injection Ec as <-. by apply mutely_refl. }
    destruct (stop_runs final late g g' Ec Er (Ha Er)) as (g1 & g2 & E1 & E2 & ->).
    set (ga := set_reactor _ _) in E1. assert (mutely g ga) as Ma.
    { destruct M as (M1 & M2 & M3). apply mutely_quiet; try done; by rewrite M2. }
    pose proof (mutely_turns _ _ _ E1 (proj1 Ma)) as M1. set (gb := set_server _ g1) in E2.
    assert (mutely g1 gb) as Mb. { destruct M1 as [(N1 & N2 & N3) _]. apply mutely_quiet; try done; by rewrite N1. }
    pose proof (mutely_turns _ _ _ E2 (proj1 Mb)) as M2.
    eapply mutely_trans; [exact Ma|]. eapply mutely_trans; [exact M1|]. eapply mutely_trans; [exact Mb|].
    eapply mutely_trans; [exact M2|]. apply mutely_quiet; try done. apply M2.
  - destruct (enabled t g); [by eapply mutely_turn|]. injection Ec as <-. by apply mutely_refl.
  - injection Ec as <-. by apply mutely_quiet.
  - injection Ec as <-. by apply mutely_quiet.
  - injection Ec as <-. by apply mutely_quiet.
  - unfold submit_cpu in Ec. destruct (offer _ _) as [q ok] eqn:Eo. injection Ec as <-.
    pose proof M as (_ & Hc & _). apply mutely_quiet; try done; [by eapply offered_alike in Eo|].
    unfold offer in Eo. rewrite Hc in Eo. by injection Eo as <- <-.
  - unfold submit_io, offer in Ec. pose proof M as (M1 & M2 & M3).
    destruct (closed (r_io (g_reactor g)) || full (r_io (g_reactor g))); injection Ec as <-; [by apply mutely_quiet|].
    split; [split_and!; try done; cbn; apply Forall_app; by repeat constructor|].
    exists []. cbn. rewrite app_nil_r. split_and!; [done|done|]. intros m Hm. by apply not_elem_of_nil in Hm.
Qed.

Lemma mutely_calls cs g g' : calls cs g = Ok g' -> muted g -> alive g -> mutely g g'.
Proof using Hlisteners Htasks.
  revert g. induction cs as [|c cs IH]; intros g; cbn [calls]; [intros [= ->] ? _; by apply mutely_refl|].
  destruct (call c g) as [g1|] eqn:Ec; [|done]. intros E1 M Ha. pose proof (mutely_call _ _ _ Ec M Ha) as H1.
  eapply mutely_trans; [exact H1|]. eapply IH; [exact E1|apply H1|by eapply call_alive].
Qed.

(** C35. A gateway that has been stopped cannot be started again, although
    [start] reports success: whatever is done after the stop, the messages that
    reach the listeners are those that already waited in the task queue, and
    every message that arrives is refused. The inbox and the queues of the
    reactor stay closed. *)
Theorem restart_is_deaf c cb g0 cs g1 final late g2 cs' g3 (Hnew : new_gate c cb = Ok g0) (Hrun : calls cs g0 = Ok g1)
    (Hup : g_running g1 = true) (Hstop : stop final late g1 = Ok g2) (Hafter : calls cs' g2 = Ok g3) :
  (forall t1 t2 t3, let '(ok, g) := start true t1 t2 t3 g2 in ok = true /\ g_running g = true /\ g_listening g = true) /\
  exists l, g_log g3 = g_log g2 ++ l /\ dispatched l ++ batched g3 = batched g2 /\
    forall m, m ∈ received l -> m ∈ refused l.
Proof using Hlisteners Htasks.
  destruct (fresh_gate c cb g0 Hnew) as [A0 L0].
  pose proof (calls_accounted _ _ _ Hrun A0) as A1. pose proof (calls_alive _ _ _ Hrun L0) as L1.
  pose proof (stop_mutes _ _ _ _ Hstop Hup L1 A1) as M2.
  assert (alive g2) as L2 by (by apply (call_alive (Stop final late) g1 g2)).
  split; [|exact (proj2 (mutely_calls _ _ _ Hafter M2 L2))].
  intros t1 t2 t3. destruct (stop_runs _ _ _ _ Hstop Hup (L1 Hup)) as (ga & gb & Ea & Eb & ->).
  apply stable_turns in Ea as (_ & _ & Ea), Eb as (_ & _ & Eb). cbn in Ea, Eb.
  unfold start. cbn [g_running set_listening]. rewrite Eb, Ea. done.
Qed.

(** ** Waiting messages are served *)


(** The steady clock does not go back. *)
Context (Hclock : forall i j, (i <= j)%nat -> steady E i <= steady E j).





(** ** The reactor's turn with room in the task queue *)














End Life.

(** ** The program (gateway_main.cpp) *)

Definition main_config : GatewayConfig :=
  mkGatewayConfig "0.0.0.0" 9443 "" "gateway-shared-secret" 1400 5000 30000 30 65536 3600.

(** The exit code and the gateway at the end; [turns] are taken until a signal
    clears [g_running]. The metrics server only reads the metrics. *)
Definition gateway_main (E : Env) (Q : TimerQueue Fn) (bound : bool) (t1 t2 t3 : Z) (turns final late : list Turn) : res (Z * Gate) :=
  g ← new_gate main_config true;
  let '(started, g) := start bound t1 t2 t3 g in
  if negb started then Ok (1, g) else
  g ← calls E Q (fun _ => nothing) (fun _ b => b) map_to_list (Take <$> turns) g;
  g ← stop E Q (fun _ => nothing) (fun _ b => b) map_to_list final late g;
  Ok (0, g).

(** ** Witnesses *)

Lemma demo_listeners_keep n msg : keeps (user GatewayFlow.demo_env n msg).
Proof. apply keeps_ret. Qed.
Lemma demo_tasks_keep (n : nat) : keeps nothing.
Proof. apply keeps_ret. Qed.

Notation demo_calls := (calls GatewayFlow.demo_env first_queue (fun _ => nothing) (fun _ b => b) map_to_list).
Notation demo_stop := (stop GatewayFlow.demo_env first_queue (fun _ => nothing) (fun _ b => b) map_to_list).

Definition the {A} (d : A) (r : res A) : A := match r with Ok a => a | Fault _ => d end.
Definition blank : Gate := mkGate (empty_server main_config true) false false ∅ new_reactor [].
Definition demo_gate : Gate := the blank (new_gate main_config true).
Definition demo_text : str := braces (field "type" (lit "ping") ++ lit "," ++ field "device_id" (lit "d1")).
Definition demo_up : list Call :=
  [Start true 0 1 2; Take (Arrive (lit "p1") demo_text); Take (Arrive (lit "p2") demo_text)].
Definition demo_running : Gate := the blank (demo_calls demo_up demo_gate).
Definition demo_stopped : Gate := the blank (demo_stop [ReactorTurn 5] [Arrive (lit "p3") demo_text] demo_running).
Definition demo_again : list Call :=
  [Start true 10 11 12; Take (Arrive (lit "p4") demo_text); Take (ReactorTurn 20); Take (CpuTurn 1)].
Definition demo_restarted : Gate := the blank (demo_calls demo_again demo_stopped).

Lemma demo_gate_new : new_gate main_config true = Ok demo_gate.
Proof. vm_compute. reflexivity. Qed.
Lemma demo_gate_runs : demo_calls demo_up demo_gate = Ok demo_running.
Proof. vm_compute. reflexivity. Qed.
Lemma demo_gate_stops : demo_stop [ReactorTurn 5] [Arrive (lit "p3") demo_text] demo_running = Ok demo_stopped.
Proof. vm_compute. reflexivity. Qed.
Lemma demo_gate_restarts : demo_calls demo_again demo_stopped = Ok demo_restarted.
Proof. vm_compute. reflexivity. Qed.


Lemma restart_is_deaf_witness : exists l, g_log demo_restarted = g_log demo_stopped ++ l /\
  dispatched l ++ batched demo_restarted = batched demo_stopped /\ forall m, m ∈ received l -> m ∈ refused l.
Proof.
  apply (restart_is_deaf GatewayFlow.demo_env first_queue (fun _ => nothing) (fun _ b => b) map_to_list demo_listeners_keep
    demo_tasks_keep main_config true demo_gate demo_up demo_running [ReactorTurn 5] [Arrive (lit "p3") demo_text] demo_stopped
    demo_again demo_restarted demo_gate_new demo_gate_runs eq_refl demo_gate_stops demo_gate_restarts).
Defined.




End GatewayLife.
