(* ===== verification/Platform.v ===== *)
(** * The operating system's resources (wsa.cpp, address.cpp, small_thread.hpp, transport.cpp)

    The reference count of the Windows socket library, name resolution, the
    thread handles, and the socket of the transport. What the system
    answers is an argument; what it owns is part of the state. *)
From stdpp Require Import base list numbers option sets strings gmap.
From Stdlib Require Import ZArith Lia.
From S2P Require Import Prelude Wire Types Peer.

Local Open Scope Z_scope.
Import Wire Types Peer.

Module Platform.

(** ** The socket library (wsa.cpp) *)

(** [WsaRef], and how often the library was started and cleaned up. *)
Record WsaRef := mkWsa { m_refcount : Z; m_ok : bool; startups : Z; cleanups : Z }.

Definition wsa_ref : WsaRef := mkWsa 0 false 0 0.

(** [startup]: [WSAStartup] would succeed. *)
Definition wsa_acquire (startup : bool) (r : WsaRef) : bool * WsaRef :=
  let r := if m_ok r then r
           else mkWsa (m_refcount r) startup (if startup then startups r + 1 else startups r) (cleanups r) in
  (m_ok r, if m_ok r then mkWsa (m_refcount r + 1) true (startups r) (cleanups r) else r).

Definition wsa_release (r : WsaRef) : WsaRef :=
  if 0 <? m_refcount r then
    let n := m_refcount r - 1 in
    if (n =? 0) && m_ok r then mkWsa n false (startups r) (cleanups r + 1) else mkWsa n (m_ok r) (startups r) (cleanups r)
  else r.

(** The library is up exactly while somebody holds it, and every start but the
    current one has been cleaned up. *)
Record wsa_fine (r : WsaRef) : Prop := {
  wf_count : 0 <= m_refcount r;
  wf_ok : m_ok r = (0 <? m_refcount r);
  wf_balance : startups r = cleanups r + (if m_ok r then 1 else 0) }.

Lemma wsa_acquire_fine b r : wsa_fine r -> wsa_fine (wsa_acquire b r).2 /\
  m_refcount (wsa_acquire b r).2 = m_refcount r + (if (wsa_acquire b r).1 then 1 else 0) /\
  (wsa_acquire b r).1 = m_ok r || b.
Proof.
  destruct r as [n ok st cl]. intros [H1 H2 H3]. cbn in *. unfold wsa_acquire. cbn.
  destruct ok; cbn; [|destruct b; cbn].
  - split_and!; [|lia|done]. constructor; cbn; [lia| |lia]. symmetry. apply Z.ltb_lt. lia.
  - split_and!; [|lia|done]. constructor; cbn; [lia| |lia]. symmetry. apply Z.ltb_lt. lia.
  - split_and!; [|lia|done]. constructor; cbn; [lia|done|lia].
Qed.

Lemma wsa_release_fine r : wsa_fine r -> wsa_fine (wsa_release r) /\ m_refcount (wsa_release r) = Z.max 0 (m_refcount r - 1).
Proof.
  destruct r as [n ok st cl]. intros [H1 H2 H3]. cbn in *. unfold wsa_release. cbn.
  destruct (Z.ltb_spec 0 n) as [Hn|Hn]; subst ok; cbn [andb].
  - rewrite andb_true_r. destruct (Z.eqb_spec (n - 1) 0) as [E|E]; cbn; (split; [|lia]); constructor; cbn in *; try lia.
  - split; [|cbn; lia]. constructor; cbn; [lia|symmetry; apply Z.ltb_ge; lia|done].
Qed.

(** ** Names (address.cpp) *)

Section Resolve.
(** [inet_pton] on a dotted address, and the entries of [getaddrinfo], each with
    whether its family is [AF_INET]; addresses are in network order. *)
Context (inet_pton : string -> option Z) (getaddrinfo : string -> option (list (bool * Z))).

Definition kInaddrAny : Z := 0.
(** [htonl(INADDR_LOOPBACK)]. *)
Definition kLoopback : Z := to_be32 0x7F000001.

Definition first_inet (l : list (bool * Z)) : option Z := head (omap (fun e => if e.1 : bool then Some e.2 else None) l).

Definition resolve_address (host : string) (port : Z) : option AddrKey :=
  let at_port a := mkAddr a (to_be16 port) in
  if bool_decide (host = ""%string) || bool_decide (host = "0.0.0.0"%string) then Some (at_port kInaddrAny) else
  if bool_decide (host = "127.0.0.1"%string) || bool_decide (host = "localhost"%string) then Some (at_port kLoopback) else
  match inet_pton host with
  | Some a => Some (at_port a)
  | None =>
      match getaddrinfo host with
      | None | Some [] => None
      | Some l => at_port <$> first_inet l
      end
  end.

(** A resolved address always carries the port that was asked for; resolution
    fails only for a name that is no dotted address and has no IPv4 entry. *)
Theorem resolve_exact host port : 
  match resolve_address host port with
  | Some key => m_port key = to_be16 port
  | None => inet_pton host = None /\ forall l, getaddrinfo host = Some l -> Forall (fun e => e.1 = false) l
  end.
Proof.
  unfold resolve_address. destruct (_ || _); [done|]. destruct (_ || _); [done|]. destruct (inet_pton host); [done|].
  destruct (getaddrinfo host) as [[|e l]|]; [split; [done|]; intros ? [= <-]; constructor| |done].
  destruct (first_inet (e :: l)) eqn:Ef; cbn [fmap option_fmap option_map]; [done|]. split; [done|]. intros ? [= <-].
  unfold first_inet in Ef. apply head_None in Ef. apply Forall_forall. intros [b a] Hx. cbn. destruct b; [|done].
  assert (a ∈ omap (fun e : bool * Z => if e.1 then Some e.2 else None) (e :: l)) as Ha
    by (apply list_elem_of_omap; by exists (true, a)).
  rewrite Ef in Ha. by apply not_elem_of_nil in Ha.
Qed.
End Resolve.

(** ** Threads (small_thread.hpp) *)

(** The threads of the system that have not been joined, and those whose
    function on the heap has not been deleted. *)
Record Threads := mkThreads { running : gset Z; functions : gset Z }.

(** Joining a thread that does not exist, or a second time, is undefined. A
    thread deletes its function at its end. *)
Definition os_join (h : Z) (w : Threads) : res Threads :=
  if decide (h ∈ running w) then Ok (mkThreads (running w ∖ {[h]}) (functions w ∖ {[h]})) else Fault BadPointer.

Definition kEmpty : Z := 0.
Definition joinable (h : Z) : bool := negb (h =? kEmpty).

Definition join (h : Z) (w : Threads) : res (Z * Threads) :=
  if joinable h then w ← os_join h w; Ok (kEmpty, w) else Ok (h, w).

(** [created]: the handle of the new thread, if one could be created; otherwise
    the function is deleted at once. *)
Definition start (h : Z) (created : option Z) (w : Threads) : res (Z * Threads) :=
  '(_, w) ← join h w;
  Ok (match created with
      | Some t => (t, mkThreads ({[t]} ∪ running w) ({[t]} ∪ functions w))
      | None => (kEmpty, w)
      end).

(** The objects of a program by name. *)
Notation objects := (gmap string Z).
Definition handle (os : objects) (x : string) : Z := default kEmpty (os !! x).

Inductive ThreadOp :=
  | Start (x : string) (created : option Z)
  | Join (x : string)
  | Move (x y : string)
  | Destroy (x : string).

(** [Move x y] is [x = std::move(y)]. *)
Definition thread_op (o : ThreadOp) (st : objects * Threads) : res (objects * Threads) :=
  let '(os, w) := st in
  match o with
  | Start x created => '(h, w) ← start (handle os x) created w; Ok (<[x := h]> os, w)
  | Join x => '(h, w) ← join (handle os x) w; Ok (<[x := h]> os, w)
  | Move x y =>
      if decide (x = y) then Ok (os, w) else
      '(_, w) ← join (handle os x) w; Ok (<[y := kEmpty]> (<[x := handle os y]> os), w)
  | Destroy x => '(_, w) ← join (handle os x) w; Ok (delete x os, w)
  end.

Fixpoint thread_ops (l : list ThreadOp) (st : objects * Threads) : res (objects * Threads) :=
  match l with [] => Ok st | o :: l => st ← thread_op o st; thread_ops l st end.

(** The system gives a new thread a handle that is not in use. *)
Fixpoint fresh_handles (l : list ThreadOp) (st : objects * Threads) : Prop :=
  match l with
  | [] => True
  | o :: l =>
      (forall x t, o = Start x (Some t) -> t <> kEmpty /\ t ∉ running st.2) /\
      match thread_op o st with Ok st => fresh_handles l st | Fault _ => True end
  end.

(** Every running thread belongs to exactly one object. *)
Record owned (st : objects * Threads) : Prop := {
  ow_live : forall x, handle st.1 x <> kEmpty -> handle st.1 x ∈ running st.2;
  ow_owner : forall h, h ∈ running st.2 -> h <> kEmpty /\ exists x, handle st.1 x = h;
  ow_unique : forall x y, handle st.1 x = handle st.1 y -> handle st.1 x <> kEmpty -> x = y;
  ow_fns : functions st.2 = running st.2 }.

Lemma handle_insert os x h y : handle (<[x := h]> os) y = if decide (y = x) then h else handle os y.
Proof. unfold handle. case_decide as E; [subst; by rewrite lookup_insert_eq|by rewrite lookup_insert_ne]. Qed.
Lemma handle_delete os x y : handle (delete x os) y = if decide (y = x) then kEmpty else handle os y.
Proof. unfold handle. case_decide as E; [subst; by rewrite lookup_delete_eq|by rewrite lookup_delete_ne]. Qed.

(** [join] succeeds and leaves the object empty. *)
Lemma join_owned os w x : owned (os, w) -> exists w', join (handle os x) w = Ok (kEmpty, w') /\
  owned (<[x := kEmpty]> os, w') /\ running w' ⊆ running w.
Proof.
  intros [H1 H2 H3 H4]. cbn in *. unfold join, joinable. destruct (Z.eqb_spec (handle os x) kEmpty) as [E|E]; cbn [negb].
  - exists w. rewrite E. split_and!; [done| |done]. constructor; cbn; [| | |done].
    + intros y. rewrite handle_insert. case_decide; [done|apply H1].
    + intros h Hh. destruct (H2 h Hh) as [Hne [y Hy]]. split; [done|]. exists y. rewrite handle_insert. case_decide; congruence.
    + intros y z. rewrite !handle_insert. repeat case_decide; try done; eauto; intros; congruence.
  - unfold os_join. rewrite decide_True by auto. eexists. split; [done|]. split; [|set_solver].
    constructor; cbn; [| | |by rewrite H4].
    + intros y. rewrite handle_insert. case_decide; [done|]. intros Hy. apply elem_of_difference. split; [by apply H1|].
      rewrite elem_of_singleton. intros Heq. by apply (H3 y x) in Heq.
    + intros h [Hh Hn]%elem_of_difference. rewrite elem_of_singleton in Hn. destruct (H2 h Hh) as [Hne [y Hy]]. split; [done|].
      exists y. rewrite handle_insert. case_decide; congruence.
    + intros y z. rewrite !handle_insert. repeat case_decide; try done; eauto; intros; congruence.
Qed.

(** Ownership survives a renaming of the objects. *)
Lemma owned_rename os os' w (f : string -> string) : (forall x, f (f x) = x) ->
  (forall x, handle os' x = handle os (f x)) -> owned (os, w) -> owned (os', w).
Proof.
  intros Hf He [H1 H2 H3 H4]. constructor; cbn in *; [| | |done].
  - intros x. rewrite He. apply H1.
  - intros h Hh. destruct (H2 h Hh) as [Hne [x Hx]]. split; [done|]. exists (f x). by rewrite He, Hf.
  - intros x y. rewrite !He. intros Exy Hne. rewrite <- (Hf x), <- (Hf y). f_equal. by apply H3.
Qed.

Lemma thread_op_owned o st : owned st -> (forall x t, o = Start x (Some t) -> t <> kEmpty /\ t ∉ running st.2) ->
  exists st', thread_op o st = Ok st' /\ owned st'.
Proof.
  destruct st as [os w]. intros Ho Hf. destruct o as [x created|x|x y|x]; cbn [thread_op].
  - destruct (join_owned os w x Ho) as (w' & E & Ho' & Hs). unfold start. rewrite E. cbn [mbind res_bind].
    destruct created as [t|]; (eexists; split; [done|]); [|done].
    destruct (Hf x t eq_refl) as [Ht Hn]. destruct Ho' as [H1 H2 H3 H4]. cbn in *.
    assert (forall y, y <> x -> handle (<[x := kEmpty]> os) y = handle os y) as Hy by (intros y Hy; rewrite handle_insert; by rewrite decide_False).
    constructor; cbn; [| | |by rewrite H4].
    + intros y. rewrite handle_insert. case_decide as Hyx; [set_solver|]. specialize (H1 y). rewrite Hy in H1 by done. set_solver.
    + intros h [->%elem_of_singleton|Hh]%elem_of_union.
      { split; [done|]. exists x. rewrite handle_insert. by rewrite decide_True. }
      destruct (H2 h Hh) as [Hne [y Hhy]]. split; [done|]. exists y. rewrite handle_insert in *. case_decide; [congruence|done].
    + assert (forall y, y <> x -> handle os y <> t) as Hnt.
      { intros y Hyx Ht'. specialize (H1 y). rewrite Hy in H1 by done. rewrite Ht' in H1. set_solver. }
      intros y z. rewrite !handle_insert. repeat case_decide; subst; try done.
      * intros Ht' _. by destruct (Hnt z).
      * intros Ht' _. by destruct (Hnt y).
      * specialize (H3 y z). rewrite !Hy in H3 by done. exact H3.
  - destruct (join_owned os w x Ho) as (w' & E & Ho' & _). rewrite E. by eexists.
  - case_decide as Hxy; [by eexists|]. destruct (join_owned os w x Ho) as (w' & E & Ho' & _). rewrite E. cbn [mbind res_bind].
    eexists. split; [done|].
    eapply (owned_rename _ _ _ (fun z => if decide (z = x) then y else if decide (z = y) then x else z)), Ho'.
    + intros z. repeat case_decide; congruence.
    + intros z. rewrite !handle_insert. repeat case_decide; congruence.
  - destruct (join_owned os w x Ho) as (w' & E & Ho' & _). rewrite E. cbn [mbind res_bind]. eexists. split; [done|].
    eapply (owned_rename _ _ _ (fun z => z)), Ho'; [done|]. intros y. by rewrite handle_delete, handle_insert.
Qed.

(** Threads are joined exactly once. Whatever a program does with its thread
    objects - starting, joining, moving, destroying them, also when a thread
    cannot be created - no handle is joined that is not a running thread, every
    running thread belongs to exactly one object, and when all objects are gone
    no thread and no thread function is left. *)
Theorem threads_joined_once l (Hf : fresh_handles l (∅, mkThreads ∅ ∅)) :
  exists os w, thread_ops l (∅, mkThreads ∅ ∅) = Ok (os, w) /\
    (forall h, h ∈ running w -> exists x, handle os x = h /\ forall y, handle os y = h -> y = x) /\
    (os = ∅ -> running w = ∅ /\ functions w = ∅).
Proof.
  assert (owned (∅, mkThreads ∅ ∅)) as H0 by (constructor; cbn; done).
  revert H0 Hf. generalize ((∅, mkThreads ∅ ∅) : objects * Threads). induction l as [|o l IH]; intros st Ho Hf; cbn [thread_ops].
  - destruct st as [os w]. exists os, w. destruct Ho as [H1 H2 H3 H4]. cbn in *. split_and!; [done| |].
    + intros h Hh. destruct (H2 h Hh) as [Hne [x <-]]. exists x. split; [done|]. intros y Hy. apply H3; congruence.
    + intros ->. assert (running w = ∅) as E; [|by rewrite H4, E]. apply elem_of_equiv_empty_L. intros h Hh.
      destruct (H2 h Hh) as [Hne [x Hx]]. unfold handle in Hx. rewrite lookup_empty in Hx. by destruct Hne.
  - destruct Hf as [Hf1 Hf2]. destruct (thread_op_owned o st Ho Hf1) as (st' & E & Ho'). rewrite E in Hf2 |- *. by apply IH.
Qed.

Lemma threads_joined_once_witness :
  exists os w, thread_ops [Start "a" (Some 7); Start "b" None; Move "b" "a"; Start "a" (Some 8); Destroy "a"; Destroy "b"] (∅, mkThreads ∅ ∅) = Ok (os, w) /\
    (os = ∅ -> running w = ∅ /\ functions w = ∅).
Proof.
  destruct (threads_joined_once [Start "a" (Some 7); Start "b" None; Move "b" "a"; Start "a" (Some 8); Destroy "a"; Destroy "b"])
    as (os & w & H1 & _ & H3); [|by exists os, w].
  vm_compute. repeat split; intros; simplify_eq; try done; by intros [].
Defined.

(** ** Random numbers (transport.cpp) *)

(** [draws] are the outputs of the engine from here on, [seed] two of the random
    device; the result and how many draws were used. *)
Definition random_u64 (draws : nat -> Z) (seed : Z * Z) : Z * nat :=
  let device := Z.lor (u64 (Z.shiftl seed.1 32)) seed.2 in
  if draws 0%nat =? 0 then
    if draws 1%nat =? 0 then (device, 2%nat)
    else (Z.lxor (draws 2%nat) (u64 (Z.shiftl (draws 3%nat) 1)), 4%nat)
  else (Z.lxor (draws 1%nat) (u64 (Z.shiftl (draws 2%nat) 1)), 3%nat).

(** ** The socket of the transport (transport.cpp) *)

Definition kInvalidSocket : Z := -1.

(** [m_sock], [m_running], [m_local_port], with what the system holds: the open
    sockets and the socket library. *)
Record Socket := mkSocket {
  m_sock : Z;
  m_running : bool;
  m_local_port : Z;
  m_bufsize : Z;
  open_sockets : gset Z;
  library : WsaRef }.

Definition new_socket : Socket := mkSocket kInvalidSocket false 0 0 ∅ wsa_ref.

(** Answers of the system to one [start]. *)
Record Answers := mkAnswers {
  a_startup : bool;
  a_socket : Z;
  a_resolved : option AddrKey;
  a_bound : bool;
  a_name : option Z }.

Definition close_socket (k : Z) (s : Socket) : res Socket :=
  if decide (k ∈ open_sockets s)
  then Ok (mkSocket (m_sock s) (m_running s) (m_local_port s) (m_bufsize s) (open_sockets s ∖ {[k]}) (library s))
  else Fault BadPointer.

Definition set_sock k s := mkSocket k (m_running s) (m_local_port s) (m_bufsize s) (open_sockets s) (library s).
Definition set_library r s := mkSocket (m_sock s) (m_running s) (m_local_port s) (m_bufsize s) (open_sockets s) r.

(** [static_cast<int>(buf_bytes)]. *)
Definition buffer_size (c : TightConfig) : Z :=
  let n := socket_buffer_bytes c in s32 (if lite_mode c then Z.min n (16 * 1024) else n).

(** Closing the socket, forgetting it and releasing the library. *)
Definition abandon (s : Socket) : res Socket :=
  s ← close_socket (m_sock s) s; Ok (set_library (wsa_release (library s)) (set_sock kInvalidSocket s)).

Definition start_socket (c : TightConfig) (a : Answers) (s : Socket) : res (bool * Socket) :=
  if m_running s then Ok (true, s) else
  let '(ok, r) := wsa_acquire (a_startup a) (library s) in
  let s := set_library r s in
  if negb ok then Ok (false, s) else
  let s := mkSocket (a_socket a) (m_running s) (m_local_port s) (m_bufsize s)
             (if a_socket a =? kInvalidSocket then open_sockets s else {[a_socket a]} ∪ open_sockets s) (library s) in
  if m_sock s =? kInvalidSocket then Ok (false, set_library (wsa_release (library s)) s) else
  match a_resolved a with
  | None => s ← abandon s; Ok (false, s)
  | Some _ =>
      if negb (a_bound a) then s ← abandon s; Ok (false, s) else
      Ok (true, mkSocket (m_sock s) true (match a_name a with Some p => to_be16 p | None => m_local_port s end)
                  (buffer_size c) (open_sockets s) (library s))
  end.

Definition stop_socket (s : Socket) : res Socket :=
  if negb (m_running s) then Ok s else
  let s := mkSocket (m_sock s) false (m_local_port s) (m_bufsize s) (open_sockets s) (library s) in
  s ← (if m_sock s =? kInvalidSocket then Ok s else s ← close_socket (m_sock s) s; Ok (set_sock kInvalidSocket s));
  Ok (set_library (wsa_release (library s)) s).

Inductive SocketOp := StartSocket (a : Answers) | StopSocket.

Fixpoint socket_ops (c : TightConfig) (l : list SocketOp) (s : Socket) : res Socket :=
  match l with
  | [] => Ok s
  | StartSocket a :: l => '(_, s) ← start_socket c a s; socket_ops c l s
  | StopSocket :: l => s ← stop_socket s; socket_ops c l s
  end.

(** A running transport holds one open socket and one reference, a stopped one nothing. *)
Record socket_fine (s : Socket) : Prop := {
  so_library : wsa_fine (library s);
  so_count : m_refcount (library s) = if m_running s then 1 else 0;
  so_open : open_sockets s = if m_running s then {[m_sock s]} else ∅;
  so_valid : m_running s = true -> m_sock s <> kInvalidSocket }.

Lemma abandon_fine s : wsa_fine (library s) -> m_refcount (library s) = 1 -> open_sockets s = {[m_sock s]} -> m_running s = false ->
  exists s', abandon s = Ok s' /\ socket_fine s'.
Proof.
  intros Hw Hc Ho Hr. unfold abandon, close_socket. rewrite Ho, decide_True by set_solver. cbn [mbind res_bind].
  eexists. split; [done|]. destruct (wsa_release_fine _ Hw) as [H1 H2]. constructor; cbn; rewrite ?Hr; try done.
  - rewrite H2, Hc. done.
  - set_solver.
Qed.

Lemma start_fine c a s : socket_fine s -> exists s', start_socket c a s = Ok (m_running s', s') /\ socket_fine s'.
Proof.
  intros [Hw Hc Ho Hv]. unfold start_socket. destruct (m_running s) eqn:Hr.
  { exists s. rewrite Hr. split; [done|]. constructor; rewrite ?Hr; done. }
  destruct (wsa_acquire_fine (a_startup a) (library s) Hw) as (W1 & W2 & _).
  destruct (wsa_acquire (a_startup a) (library s)) as [ok r]. cbn [fst snd] in *. destruct ok; cbn [negb].
  2: { exists (set_library r s). split; [cbn [m_running set_library]; by rewrite Hr|]. constructor; cbn; rewrite ?Hr; try done. lia. }
  cbn [m_sock set_library m_running m_local_port m_bufsize open_sockets library].
  destruct (Z.eqb_spec (a_socket a) kInvalidSocket) as [Es|Es].
  { destruct (wsa_release_fine r W1) as [H1 H2]. match goal with |- exists _, Ok (false, ?x) = _ /\ _ => exists x end.
    split; [cbn [m_running set_library]; by rewrite Hr|].
    constructor; cbn; rewrite ?Hr; try done. lia. }
  rewrite Hr. set (s1 := mkSocket _ _ _ _ _ r).
  assert (exists s', abandon s1 = Ok s' /\ socket_fine s') as (s2 & E2 & F2).
  { apply abandon_fine; [done|cbn; lia|cbn; rewrite Ho; set_solver|done]. }
  assert (m_running s2 = false) as Hr2.
  { revert E2. unfold abandon, close_socket. destruct (decide _); [|done]. by intros [= <-]. }
  destruct (a_resolved a); [destruct (a_bound a); cbn [negb]|].
  - match goal with |- exists _, Ok (true, ?x) = _ /\ _ => exists x end. split; [done|]. constructor; cbn; [done|lia|rewrite Ho; set_solver|done].
  - exists s2. rewrite E2, Hr2. done.
  - exists s2. rewrite E2, Hr2. done.
Qed.

Lemma stop_fine s : socket_fine s -> exists s', stop_socket s = Ok s' /\ socket_fine s' /\ m_running s' = false.
Proof.
  intros [Hw Hc Ho Hv]. unfold stop_socket. destruct (m_running s) eqn:Hr; cbn [negb].
  2: { exists s. split_and!; [done| |done]. constructor; rewrite ?Hr; done. }
  cbn [m_sock]. destruct (Z.eqb_spec (m_sock s) kInvalidSocket) as [E|E]; [by destruct Hv|].
  unfold close_socket. cbn [open_sockets]. rewrite Ho, decide_True by set_solver. cbn [mbind res_bind].
  destruct (wsa_release_fine _ Hw) as [H1 H2]. eexists. split_and!; [done| |done].
  constructor; cbn; [done|rewrite H2, Hc; done|set_solver|done].
Qed.

(** C40. The transport leaks neither socket nor library reference. After any
    sequence of starts and stops, whatever the system answers, [start] and
    [stop] have closed no socket that was not open; a running transport
    holds exactly its one socket and one reference of the library, a stopped one,
    also one whose start failed half-way, holds none, and the library has been
    cleaned up as often as it was started. *)
Theorem sockets_balanced c l : exists s, socket_ops c l new_socket = Ok s /\
  open_sockets s = (if m_running s then {[m_sock s]} else ∅) /\
  startups (library s) = cleanups (library s) + (if m_running s then 1 else 0).
Proof.
  assert (socket_fine new_socket) as H0 by (constructor; try done; by constructor).
  revert H0. generalize new_socket. induction l as [|o l IH]; intros s Hs; cbn [socket_ops].
  - destruct Hs as [[W1 W2 W3] Hc Ho Hv]. exists s. split_and!; [done|done|]. rewrite W3, W2, Hc. by destruct (m_running s).
  - destruct o as [a|].
    + destruct (start_fine c a s Hs) as (s' & -> & Hs'). by apply IH.
    + destruct (stop_fine s Hs) as (s' & -> & Hs' & _). by apply IH.
Qed.

Lemma random_u64_width draws seed : (forall i, in_width 64 (draws i)) -> in_width 32 seed.1 -> in_width 32 seed.2 ->
  in_width 64 (random_u64 draws seed).1.
Proof.
  intros Hd H1 H2. assert (forall x y, in_width 64 x -> in_width 64 y -> in_width 64 (Z.lxor x y)) as Hx.
  { unfold in_width. intros x y Hx Hy. split; [apply Z.lxor_nonneg; lia|].
    destruct (Z.eq_dec (Z.lxor x y) 0) as [->|Hne]; [done|]. apply Z.log2_lt_cancel. rewrite (Z.log2_pow2 64) by lia.
    pose proof (Z.log2_lxor x y ltac:(lia) ltac:(lia)) as Hl.
    assert (forall z, 0 <= z < 2 ^ 64 -> Z.log2 z < 64) as Hz by (intros z Hz; destruct (Z.eq_dec z 0) as [->|]; [done|apply Z.log2_lt_pow2; lia]).
    pose proof (Hz x Hx). pose proof (Hz y Hy). lia. }
  assert (forall x, in_width 64 (u64 x)) as Hu by (intros x; apply Z.mod_pos_bound; lia).
  unfold random_u64. destruct (_ =? 0); [destruct (_ =? 0)|]; cbn [fst]; try (apply Hx; auto).
  unfold in_width in *. split; [apply Z.lor_nonneg; split; [apply Hu|lia]|].
  destruct (Z.eq_dec (Z.lor (u64 (Z.shiftl seed.1 32)) seed.2) 0) as [->|Hne]; [done|].
  pose proof (Hu (Z.shiftl seed.1 32)) as Hs.
  apply Z.log2_lt_cancel. rewrite (Z.log2_pow2 64), Z.log2_lor by lia. apply Z.max_lub_lt.
  - destruct (Z.eq_dec (u64 (Z.shiftl seed.1 32)) 0) as [->|]; [done|]. apply Z.log2_lt_pow2; lia.
  - destruct (Z.eq_dec seed.2 0) as [->|]; [done|]. apply Z.log2_lt_pow2; lia.
Qed.
End Platform.
