(* ===== verification/Client.v ===== *)
(** * The command line client (client/tight_client.cpp)

    The arguments, the configuration made from them, and the commands read
    from the console as calls of the transport. A line of the console is a list
    of bytes; what is printed is a value per kind of message, not its wording.
    An exception that nothing catches ends the program. *)
From stdpp Require Import base list numbers option sets strings gmap pretty.
From Stdlib Require Import ZArith Lia.
From S2P Require Import Prelude Wire Codec Float64 Maps Types Peer.
From S2P Require Import Bandwidth BlockingQueue Packets Endpoint Transport TransportSafe.
From S2P Require Import Decimal GatewayText GatewayBoard Gateway GatewayFlow.

Local Open Scope Z_scope.
Import Types Wire Peer Packets Endpoint Transport TransportSafe Decimal GatewayText.

Module Client.

Notation str := (list Z) (only parsing).

(** ** Arguments *)

Record Options := mkOptions {
  o_host : string;
  o_port : Z;
  o_token : string;
  o_id : string;
  o_name : string;
  o_mtu : Z;
  o_max_message : Z;
  o_role : LinkRole;
  o_encryption : bool;
  o_speed_test : bool;
  o_lite : bool }.

Definition default_options : Options :=
  mkOptions "127.0.0.1" 9443 "gateway-shared-secret" "device-001" "" 1350 (64 * 1024) Leaf true true true.

Definition set_host x o := mkOptions x (o_port o) (o_token o) (o_id o) (o_name o) (o_mtu o) (o_max_message o) (o_role o)
  (o_encryption o) (o_speed_test o) (o_lite o).
Definition set_port x o := mkOptions (o_host o) x (o_token o) (o_id o) (o_name o) (o_mtu o) (o_max_message o) (o_role o)
  (o_encryption o) (o_speed_test o) (o_lite o).
Definition set_token x o := mkOptions (o_host o) (o_port o) x (o_id o) (o_name o) (o_mtu o) (o_max_message o) (o_role o)
  (o_encryption o) (o_speed_test o) (o_lite o).
Definition set_id x o := mkOptions (o_host o) (o_port o) (o_token o) x (o_name o) (o_mtu o) (o_max_message o) (o_role o)
  (o_encryption o) (o_speed_test o) (o_lite o).
Definition set_name x o := mkOptions (o_host o) (o_port o) (o_token o) (o_id o) x (o_mtu o) (o_max_message o) (o_role o)
  (o_encryption o) (o_speed_test o) (o_lite o).
Definition set_mtu x o := mkOptions (o_host o) (o_port o) (o_token o) (o_id o) (o_name o) x (o_max_message o) (o_role o)
  (o_encryption o) (o_speed_test o) (o_lite o).
Definition set_max_message x o := mkOptions (o_host o) (o_port o) (o_token o) (o_id o) (o_name o) (o_mtu o) x (o_role o)
  (o_encryption o) (o_speed_test o) (o_lite o).
Definition set_role x o := mkOptions (o_host o) (o_port o) (o_token o) (o_id o) (o_name o) (o_mtu o) (o_max_message o) x
  (o_encryption o) (o_speed_test o) (o_lite o).
Definition set_encryption x o := mkOptions (o_host o) (o_port o) (o_token o) (o_id o) (o_name o) (o_mtu o) (o_max_message o)
  (o_role o) x (o_speed_test o) (o_lite o).
Definition set_speed_test x o := mkOptions (o_host o) (o_port o) (o_token o) (o_id o) (o_name o) (o_mtu o) (o_max_message o)
  (o_role o) (o_encryption o) x (o_lite o).
Definition set_lite x o := mkOptions (o_host o) (o_port o) (o_token o) (o_id o) (o_name o) (o_mtu o) (o_max_message o)
  (o_role o) (o_encryption o) (o_speed_test o) x.

(** The program goes on, ends with a code, or is terminated by an exception. *)
Inductive parsed := Run (o : Options) | Exit (code : Z) | Terminate.

(** The loop over the arguments behind the program's name. *)
Fixpoint parse_loop (args : list string) (o : Options) : parsed :=
  match args with
  | [] => Run o
  | arg :: rest =>
      if String.eqb arg "--host" then match rest with v :: rest => parse_loop rest (set_host v o) | [] => Exit 2 end
      else if String.eqb arg "--port" then
        match rest with
        | v :: rest => match stoi (lit v) with Number n => parse_loop rest (set_port (u16 n) o) | _ => Terminate end
        | [] => Exit 2
        end
      else if String.eqb arg "--token" then match rest with v :: rest => parse_loop rest (set_token v o) | [] => Exit 2 end
      else if String.eqb arg "--id" then match rest with v :: rest => parse_loop rest (set_id v o) | [] => Exit 2 end
      else if String.eqb arg "--name" then match rest with v :: rest => parse_loop rest (set_name v o) | [] => Exit 2 end
      else if String.eqb arg "--mtu" then
        match rest with
        | v :: rest => match stoul (lit v) with Number n => parse_loop rest (set_mtu n o) | _ => Terminate end
        | [] => Exit 2
        end
      else if String.eqb arg "--role" then
        match rest with
        | v :: rest => parse_loop rest (set_role (if String.eqb v "node" then Node else Leaf) o)
        | [] => Exit 2
        end
      else if String.eqb arg "--no-encryption" then parse_loop rest (set_encryption false o)
      else if String.eqb arg "--no-speed-test" then parse_loop rest (set_speed_test false o)
      else if String.eqb arg "--no-lite" then parse_loop rest (set_lite false o)
      else if String.eqb arg "--max-message" then
        match rest with
        | v :: rest => match stoul (lit v) with Number n => parse_loop rest (set_max_message n o) | _ => Terminate end
        | [] => Exit 2
        end
      else if String.eqb arg "--help" then Exit 0
      else Exit 2
  end.

Definition parse_args (args : list string) : parsed :=
  match parse_loop args default_options with
  | Run o => Run (if String.eqb (o_name o) "" then set_name (o_id o) o else o)
  | r => r
  end.

Definition client_config (o : Options) : TightConfig :=
  let d := default_config in {|
    Types.bind := mkNetAddress "0.0.0.0" 0; cfg_id := o_id o; token := o_token o; role := o_role o; mtu := o_mtu o;
    heartbeat := heartbeat d; report_interval := report_interval d; Types.flush_interval := Types.flush_interval d;
    dead_timeout := dead_timeout d; retransmit_timeout := retransmit_timeout d;
    initial_bandwidth_bytes := initial_bandwidth_bytes d; Types.queue_limit := Types.queue_limit d;
    Types.max_message_bytes := o_max_message o; drop_log := drop_log d; retransmit_enabled := retransmit_enabled d;
    late_rtt_multiplier := late_rtt_multiplier d; speed_test_enabled := o_speed_test o;
    speed_test_bytes := speed_test_bytes d; encryption_enabled := o_encryption o;
    socket_buffer_bytes := socket_buffer_bytes d; encode_queue_limit := encode_queue_limit d;
    outbound_queue_limit := outbound_queue_limit d; lite_mode := o_lite o |}.

Definition gateway_id (o : Options) : string := "gateway-" +:+ pretty (Z.to_N (o_port o)).

(** ** Messages *)

Definition hello_json (o : Options) : str :=
  braces (field "type" (lit "hello") ++ lit "," ++ field "product_id" (lit "demo-pid") ++ lit "," ++
          field "product_key" (lit "demo-key") ++ lit "," ++ field "product_secret" (lit "demo-secret") ++ lit "," ++
          field "device_name" (lit (o_name o))).
Definition ping_json (o : Options) : str :=
  braces (field "type" (lit "ping") ++ lit "," ++ field "device_id" (lit (o_name o))).
Definition bye_json (o : Options) : str :=
  braces (field "type" (lit "bye") ++ lit "," ++ field "device_id" (lit (o_name o))).
Definition config_json (o : Options) (rest : str) : str :=
  braces (field "type" (lit "config_update") ++ lit "," ++ field "device_id" (lit (o_name o)) ++ lit "," ++
          quoted (lit "body") ++ lit ":" ++ (if bool_decide (rest = []) then lit "{}" else rest)).

(** ** The console *)

(** What is printed. *)
Inductive Note :=
  | Outcome (what : string) (ok : bool)
  | Usage (what : string)
  | Frames (sent frames : Z)
  | Mode (lite : bool)
  | LinkLine (ev : PeerEvent) (online : bool)
  | Help
  | Unknown.

(** What follows a line. *)
Inductive Next := Continue (notes : list Note) | Quit | Crash.

Definition space : Z := 32.

(** The verb and the rest behind the first space. *)
Definition split_line (line : str) : str * str :=
  match find [space] line with
  | None => (line, [])
  | Some sp => (take sp line, drop (S sp) line)
  end.

Definition frame : str := replicate 160 0xD5.

Section Console.
Context {Q : Type -> Type} {ops : QueueOps Q}.
Notation T := (@T Q).
Notation Impl := (@Impl Q).

(** The flag the peer callback keeps: the last Online or Closed event counts. *)
Definition online (s : Impl) : bool :=
  foldl (fun b e => match e with
    | Called (OnPeer ev) => match ev_state ev with Types.Online => true | Types.Closed => false | _ => b end
    | _ => b end) false (trace s).

Fixpoint send_frames (gateway : string) (n : nat) : T Z :=
  match n with
  | O => mret 0
  | S n =>
      ok ← send_message gateway frame 0;
      sent ← send_frames gateway n;
      mret (if (ok : bool) then sent + 1 else sent)
  end.

Definition send_and_tell (o : Options) (what : string) (payload : str) : T Next :=
  ok ← send_message (gateway_id o) payload 0; mret (Continue [Outcome what ok]).

(** One line that is not empty. *)
Definition command_line (o : Options) (line : str) (c : Clocks) : T Next :=
  let '(verb, rest) := split_line line in
  let verb_is w := bool_decide (verb = lit w) in
  if verb_is "quit"%string || verb_is "exit"%string then mret Quit
  else if verb_is "help"%string then mret (Continue [Help])
  else if verb_is "hello"%string then send_and_tell o "hello" (hello_json o)
  else if verb_is "ping"%string then send_and_tell o "ping" (ping_json o)
  else if verb_is "bye"%string then send_and_tell o "bye" (bye_json o)
  else if verb_is "send"%string then
    if bool_decide (rest = []) then mret (Continue [Usage "send"]) else send_and_tell o "send" rest
  else if verb_is "audio"%string then
    match (if bool_decide (rest = []) then Number 10 else stoi rest) with
    | Number frames =>
        sent ← send_frames (gateway_id o) (Z.to_nat frames);
        mret (Continue [Frames sent frames])
    | _ => mret Crash
    end
  else if verb_is "config"%string then send_and_tell o "config" (config_json o rest)
  else if verb_is "cmd"%string then
    if bool_decide (rest = []) then mret (Continue [Usage "cmd"]) else
    ok ← send_command (gateway_id o) rest c;
    mret (Continue [Outcome "cmd" ok])
  else if verb_is "lite"%string then
    if bool_decide (rest = lit "on") then set_lite_mode true ;; mret (Continue [Mode true])
    else if bool_decide (rest = lit "off") then set_lite_mode false ;; mret (Continue [Mode false])
    else s ← get; mret (Continue [Mode (m_lite_mode (modes s)); Usage "lite"])
  else if verb_is "peers"%string then
    s ← get; mret (Continue ((fun ev => LinkLine ev (online s)) <$> peers_snapshot s))
  else mret (Continue [Unknown]).

(** The loop until the end of the input: each line with what the transport's
    threads did before it and the clocks; the notes, and whether it crashed. *)
Fixpoint console (o : Options) (input : list (T unit * Clocks * str)) : T (list Note * bool) :=
  match input with
  | [] => mret ([], false)
  | (meanwhile, c, line) :: input =>
      meanwhile ;;
      if bool_decide (line = []) then console o input else
      next ← command_line o line c;
      match next with
      | Quit => mret ([], false)
      | Crash => mret ([], true)
      | Continue notes => '(more, crashed) ← console o input; mret (notes ++ more, crashed)
      end
  end.

(** The program behind the parsing of arguments: exit code and notes. The
    destructor stops a transport that could not connect; a crash ends the
    program without stopping it. *)
Definition client_main (o : Options) (bound : bool) (addr : option AddrKey) (c : Clocks)
    (input : list (T unit * Clocks * str)) (c_end : Clocks) (last_turns : T unit) : T (option Z * list Note) :=
  set_message_callback true ;;
  set_command_callback true ;;
  set_peer_callback true ;;
  started ← start bound;
  if negb started then mret (Some 1, []) else
  connected ← connect (gateway_id o) addr c;
  if negb connected then stop c_end last_turns ;; mret (Some 1, []) else
  '(notes, crashed) ← console o input;
  if (crashed : bool) then mret (None, notes) else
  stop c_end last_turns ;;
  mret (Some 0, notes).

End Console.

(** ** Arguments are read back *)

Definition flag (b : bool) (s : string) : list string := if b then [] else [s].

(** Arguments that say all of [o]. *)
Definition render (o : Options) : list string :=
  ["--host"; o_host o; "--port"; pretty (Z.to_N (o_port o)); "--token"; o_token o; "--id"; o_id o; "--name"; o_name o;
   "--mtu"; pretty (Z.to_N (o_mtu o)); "--role"; match o_role o with Node => "node" | Leaf => "leaf" end;
   "--max-message"; pretty (Z.to_N (o_max_message o))]%string ++
  flag (o_encryption o) "--no-encryption" ++ flag (o_speed_test o) "--no-speed-test" ++ flag (o_lite o) "--no-lite".

(** Every set of options can be given on the command line: parsing the
    rendered arguments gives the options back, with the identifier in place of
    an empty name. Ports are 16 bits wide, sizes 64. *)
Theorem args_roundtrip o (Hp : 0 <= o_port o < 2 ^ 16) (Hm : 0 <= o_mtu o < 2 ^ 64) (Hx : 0 <= o_max_message o < 2 ^ 64) :
  parse_args (render o) = Run (if String.eqb (o_name o) "" then set_name (o_id o) o else o).
Proof.
  unfold parse_args. enough (parse_loop (render o) default_options = Run o) as -> by done.
  unfold render. cbn [app parse_loop String.eqb Ascii.eqb Bool.eqb].
  assert (stoi (lit (pretty (Z.to_N (o_port o)))) = Number (o_port o)) as -> by (apply stoi_printed; lia).
  assert (stoul (lit (pretty (Z.to_N (o_mtu o)))) = Number (o_mtu o)) as -> by (by apply stoul_printed).
  assert (stoul (lit (pretty (Z.to_N (o_max_message o)))) = Number (o_max_message o)) as -> by (by apply stoul_printed).
  unfold u16. rewrite Z.mod_small by lia.
  destruct o as [host port token id name mtu mm role enc st lite]. cbn.
  by destruct role, enc, st, lite.
Qed.

(** ** Messages are understood *)

(** Words the gateway classifies by. *)
Definition keywords : list str :=
  [lit "hello"; lit "product_id"; lit "config_update"; lit "function_call_output"; lit "audio_boundary"; lit "bye"; lit "ping"].

Definition understood (payload : str) (t : GatewayMessageType) (device : str) : Prop :=
  forall peer now, let msg := parse_upstream_json peer payload now in
    m_type msg = t /\ m_device_id msg = device /\ m_payload msg = payload.

Ltac has_word :=
  first
    [ rewrite bool_decide_true by (repeat (first [by left | right]))
    | rewrite bool_decide_false by (let H := fresh in rewrite !elem_of_cons, elem_of_nil; intros H;
        repeat destruct H as [H|H]; first [contradiction | discriminate H | symmetry in H; contradiction]) ].

(** Classification and device of a text whose segments are [segs]. *)
Lemma understood_segs s segs payload t device : payload = unsplit s segs -> Forall plain (s :: segs) ->
  kind_of (words segs) = t -> t <> kDeviceAudioFrame ->
  extract_json_field payload (lit (if decide (t = kDeviceHello) then "device_name" else "device_id")) = device ->
  device <> [] -> understood payload t device.
Proof.
  intros Hp HF Ht Ha Hd Hne peer now. destruct (upstream_by_words peer payload now s segs Hp HF) as (H1 & H2 & _ & H3).
  rewrite Ht in *. cbv zeta in *. split_and!; [done| |done]. rewrite H3.
  destruct (decide (t = kDeviceHello)) as [->|Hh]; [rewrite Hd; by rewrite decide_False|].
  by destruct t.
Qed.

(** The segments of the four texts. *)
Definition hello_segs (n : str) : list str :=
  [seg "type"; seg ":"; seg "hello"; seg ","; seg "product_id"; seg ":"; seg "demo-pid"; seg ","; seg "product_key"; seg ":";
   seg "demo-key"; seg ","; seg "product_secret"; seg ":"; seg "demo-secret"; seg ","; seg "device_name"; seg ":"; n; seg "}"].
Definition device_segs (t : string) (n : str) (close : str) : list str :=
  [seg "type"; seg ":"; seg t; seg ","; seg "device_id"; seg ":"; n; close].

Lemma hello_segments o : hello_json o = unsplit (seg "{") (hello_segs (lit (o_name o))).
Proof. unfold hello_json, hello_segs, braces, field, quoted, seg. cbn [unsplit]. by simplify_list_eq. Qed.

Lemma ping_segments o : ping_json o = unsplit (seg "{") (device_segs "ping" (lit (o_name o)) (seg "}")).
Proof. unfold ping_json, device_segs, braces, field, quoted, seg. cbn [unsplit]. by simplify_list_eq. Qed.

Lemma bye_segments o : bye_json o = unsplit (seg "{") (device_segs "bye" (lit (o_name o)) (seg "}")).
Proof. unfold bye_json, device_segs, braces, field, quoted, seg. cbn [unsplit]. by simplify_list_eq. Qed.

(** The body of a configuration update, as the client completes it. *)
Definition body_of (rest : str) : str := if bool_decide (rest = []) then lit "{}" else rest.

Lemma config_segments o rest : exists s segs,
  config_json o rest = unsplit (seg "{") (device_segs "config_update" (lit (o_name o)) (seg ",") ++ seg "body" :: (seg ":" ++ s) :: segs) /\
  Forall plain (s :: segs) /\ forall w, plain w -> w ∈ words segs -> contains (quoted w) (body_of rest) = true.
Proof.
  destruct (text_segments (body_of rest)) as (s & segs & E & HF).
  destruct (closed_segments (lit "}") segs ltac:(plain_literal) s HF) as (s' & segs' & E' & HF' & Hw & _).
  exists s', segs'. split_and!; [|done|].
  - unfold config_json, device_segs, braces, field, quoted, seg. fold (body_of rest). cbn [app unsplit].
    replace (unsplit (lit ":" ++ s') segs') with (lit ":" ++ unsplit s' segs') by (by destruct segs').
    rewrite <- E', <- E. by simplify_list_eq.
  - intros w Hp Hin. rewrite E, contains_words by done. apply bool_decide_eq_true. by rewrite <- Hw.
Qed.

Lemma not_keyword n w : n ∉ keywords -> w ∈ keywords -> n <> w.
Proof. by intros H Hw ->. Qed.

Lemma hello_fields o : plain (lit (o_name o)) ->
  reads (hello_json o) "product_id" (lit "demo-pid") /\ reads (hello_json o) "product_key" (lit "demo-key") /\
  reads (hello_json o) "device_name" (lit (o_name o)).
Proof. intros Hp. rewrite hello_segments. unfold reads, hello_segs. split_and!; field_found. Qed.

Lemma config_understood o rest : let n := lit (o_name o) in plain n -> n ∉ keywords -> n <> [] ->
  contains (quoted (lit "hello")) (body_of rest) = false -> contains (quoted (lit "product_id")) (body_of rest) = false ->
  understood (config_json o rest) kDeviceConfigUpdate n.
Proof.
  intros n Hp Hk Hne Hb1 Hb2. destruct (config_segments o rest) as (s & segs & E & HF & Hw). fold n in E.
  apply Forall_cons in HF as [Hs HF].
  set (l := device_segs "config_update" n (seg ",") ++ seg "body" :: (seg ":" ++ s) :: segs) in E.
  assert (Forall plain (seg "{" :: l)) as HFl.
  { constructor; [plain_literal|]. apply Forall_app. split; [unfold device_segs; plain_literals|].
    constructor; [plain_literal|]. constructor; [|done]. unfold plain in *. rewrite elem_of_app. intros [H|H]; [|done].
    revert H. change (plain (seg ":")). plain_literal. }
  assert (forall w, w ∈ words l -> w ∈ device_segs "config_update" n (seg ",") \/ w = seg "body" \/ w = seg ":" ++ s \/ w ∈ words segs) as Hin.
  { intros w. unfold l, device_segs. cbn [app]. rewrite !words_cons, !elem_of_cons.
    destruct segs as [|x segs]; [|rewrite words_cons, elem_of_cons]; naive_solver. }
  assert (forall w, w ∈ keywords -> w <> seg "config_update" -> contains (quoted w) (body_of rest) = false -> plain w -> w ∉ words l) as Hno.
  { intros w Hkw Hc Hb Hpw Hwl. apply Hin in Hwl as [Hd|[->|[->|Hws]]].
    - unfold device_segs in Hd. rewrite !elem_of_cons, elem_of_nil in Hd. revert Hkw. unfold keywords.
      rewrite !elem_of_cons, elem_of_nil. unfold keywords in Hk. rewrite !elem_of_cons, elem_of_nil in Hk.
      intros Hkw. destruct Hd as [Hd|[Hd|[Hd|[Hd|[Hd|[Hd|[Hd|[Hd|[]]]]]]]]]; try congruence;
        repeat destruct Hkw as [Hkw|Hkw]; try done; try (rewrite Hkw in Hd; discriminate Hd); try (apply Hk; rewrite <- Hd, Hkw; tauto).
    - revert Hkw. by apply (bool_decide_unpack (seg "body" ∉ keywords)).
    - unfold keywords in Hkw. rewrite !elem_of_cons, elem_of_nil in Hkw. repeat destruct Hkw as [Hkw|Hkw]; try done; discriminate Hkw.
    - rewrite (Hw w Hpw Hws) in Hb. done. }
  eapply understood_segs; [exact E|exact HFl| |done| |done].
  - unfold kind_of. rewrite !(bool_decide_false (_ ∈ _)) by (apply Hno; [repeat (first [by left | right])|discriminate|done|plain_literal]).
    cbn [orb]. rewrite bool_decide_true; [done|]. unfold l, device_segs. cbn [app]. rewrite !words_cons. right. right. by left.
  - rewrite E. apply extract_literal; [plain_literal|done|]. unfold l, device_segs. cbn [app]. repeat next_segment. reflexivity.
Qed.

(** The silent frame is taken for audio of the peer that sent it. *)
Lemma frame_understood peer now : let msg := parse_upstream_json peer frame now in
  m_type msg = kDeviceAudioFrame /\ m_device_id msg = peer /\ m_payload msg = frame.
Proof.
  destruct (upstream_by_words peer frame now frame [] eq_refl) as (H1 & H2 & _ & H4);
    [constructor; [apply plainb_ok; vm_compute; reflexivity|constructor]|].
  cbv zeta. split_and!; [exact H1|exact H4|exact H2].
Qed.

(** C38. The gateway understands the client, for a device name that is not empty,
    contains no quote and is none of the words the gateway looks for. The texts
    of hello, ping and bye are classified as these messages, from the device
    with that name; so is a configuration update with any body that contains
    neither of the quoted words hello and product_id (in particular with the
    empty one); an audio frame is classified as audio from the sending peer; and
    the hello carries all credentials the gateway insists on. *)
Theorem client_understood o (Hplain : plain (lit (o_name o))) (Hkey : lit (o_name o) ∉ keywords) (Hne : lit (o_name o) <> []) :
  understood (hello_json o) kDeviceHello (lit (o_name o)) /\
  understood (ping_json o) kDevicePing (lit (o_name o)) /\
  understood (bye_json o) kDeviceBye (lit (o_name o)) /\
  (forall rest, contains (quoted (lit "hello")) (body_of rest) = false ->
     contains (quoted (lit "product_id")) (body_of rest) = false ->
     understood (config_json o rest) kDeviceConfigUpdate (lit (o_name o))) /\
  (forall peer now, let msg := parse_upstream_json peer frame now in
     m_type msg = kDeviceAudioFrame /\ m_device_id msg = peer /\ m_payload msg = frame) /\
  forall peer now, GatewayFlow.no_credentials (parse_upstream_json peer (hello_json o) now) = false.
Proof.
  set (n := lit (o_name o)) in *.
  assert (n <> lit "hello" /\ n <> lit "product_id" /\ n <> lit "config_update" /\ n <> lit "function_call_output" /\
    n <> lit "audio_boundary" /\ n <> lit "bye" /\ n <> lit "ping") as (K1 & K2 & K3 & K4 & K5 & K6 & K7).
  { split_and!; apply not_keyword; try done; unfold keywords; repeat (first [by left | right]). }
  destruct (hello_fields o Hplain) as (F1 & F2 & F3).
  assert (understood (hello_json o) kDeviceHello n) as Hhello.
  { eapply understood_segs; [apply hello_segments|unfold hello_segs; plain_literals| |done|exact F3|done].
    unfold kind_of, words, hello_segs, seg. cbn [length Nat.sub take]. has_word. reflexivity. }
  split_and!; [done| | |intros rest; by apply config_understood|apply frame_understood|].
  - eapply understood_segs; [apply ping_segments|unfold device_segs; plain_literals| |done| |done].
    + unfold kind_of, words, device_segs, seg. cbn [length Nat.sub take]. fold n. repeat has_word. reflexivity.
    + rewrite ping_segments. unfold device_segs. cbn [decide]. field_found.
  - eapply understood_segs; [apply bye_segments|unfold device_segs; plain_literals| |done| |done].
    + unfold kind_of, words, device_segs, seg. cbn [length Nat.sub take]. fold n. repeat has_word. reflexivity.
    + rewrite bye_segments. unfold device_segs. field_found.
  - intros peer now. destruct (Hhello peer now) as (_ & _ & Hp). unfold GatewayFlow.no_credentials, GatewayFlow.hello_name.
    rewrite Hp, F1, F2, F3. rewrite !bool_decide_false by (done || (vm_compute; discriminate)). done.
Qed.

(** ** The transport stays sound *)

Section Sound.
Context {Q : Type -> Type} {ops : QueueOps Q} {laws : QueueLaws Q}.
Context (cfg : TightConfig) (ce co : Z).
Context (Hce : 0 < ce < 2 ^ 64 - 1) (Hco : 0 < co < 2 ^ 64 - 1).

Notation sound := (sound (Q := Q) cfg ce co).
Notation evolves := (evolves (Q := Q) cfg ce co).

Lemma sound_frames gateway n : sound (send_frames gateway n).
Proof using laws Hce Hco.
  induction n as [|n IH]; cbn [send_frames]; [apply sound_ret|].
  apply sound_bind; [apply sound_send_message|]. intros ok. apply sound_bind; [done|]. intros sent. apply sound_ret.
Qed.

Lemma sound_tell o what payload : sound (send_and_tell o what payload).
Proof using laws Hce Hco. apply sound_bind; [apply sound_send_message|]. intros ok. apply sound_ret. Qed.

Lemma sound_command_line o line c : sound (command_line o line c).
Proof using laws Hce Hco.
  unfold command_line. destruct (split_line line) as [verb rest].
  assert (forall n, sound (mret (Continue n))) as Hr by (intros; apply sound_ret).
  repeat match goal with |- TransportSafe.sound _ _ _ (if ?b then _ else _) => destruct b end;
    try apply sound_ret; try apply sound_tell.
  - destruct (if bool_decide (rest = []) then Number 10 else stoi rest); try apply sound_ret.
    apply sound_bind; [apply sound_frames|auto].
  - apply sound_bind; [by apply sound_send_command|auto].
  - apply sound_bind; [apply sound_set_lite_mode|auto].
  - apply sound_bind; [apply sound_set_lite_mode|auto].
  - apply sound_bind; [apply sound_get|auto].
  - apply sound_bind; [apply sound_get|auto].
Qed.

Lemma sound_console o input : Forall (fun e => sound e.1.1) input -> sound (console o input).
Proof using laws Hce Hco.
  induction 1 as [|[[m c] line] input Hm _ IH]; cbn [console]; [apply sound_ret|].
  apply sound_bind; [done|]. intros []. apply sound_if; [done|].
  apply sound_bind; [apply sound_command_line|]. intros [notes| |]; try apply sound_ret.
  apply sound_bind; [done|]. intros [more crashed]. apply sound_ret.
Qed.

(** What comes before [connect] leaves the peer table alone. *)
Lemma prologue_evolves bound s :
  after (set_message_callback true ;; set_command_callback true ;; set_peer_callback true ;; start bound) s
    (fun _ s' => evolves s s' /\ table s' = table s).
Proof using.
  assert (sound (set_message_callback true ;; set_command_callback true ;; set_peer_callback true ;; start bound)) as Hs.
  { repeat (apply sound_bind; [by apply sound_modify|intros _]). apply sound_start. }
  specialize (Hs s). revert Hs. unfold after, set_message_callback, set_command_callback, set_peer_callback, start, modify_modes, modify, get.
  unfold mbind, T_bind, mret, T_ret. cbn.
  destruct (m_running _); [by intros|]. destruct bound; by intros.
Qed.

(** A fresh transport knows no address, so its first [connect] takes none over. *)
Lemma main_evolves o bound addr c input c_end s : m_peer_by_addr (table s) = ∅ -> Forall (fun e => sound e.1.1) input ->
  after (client_main o bound addr c input c_end pass) s (fun _ s' => evolves s s').
Proof using laws Hce Hco.
  intros Ht Hin.
  pose proof (prologue_evolves bound s) as Hp. unfold after in Hp |- *. revert Hp.
  unfold client_main. unfold mbind, T_bind. unfold mbind, T_bind.
  destruct (set_message_callback true s) as [[[] s1]|]; [|done].
  destruct (set_command_callback true s1) as [[[] s2]|]; [|done].
  destruct (set_peer_callback true s2) as [[[] s3]|]; [|done].
  destruct (start bound s3) as [[started s4]|]; [|done]. intros [E4 T4].
  destruct (negb started); [exact E4|].
  pose proof (connect_sound cfg ce co Hco (gateway_id o) addr c s4) as Hc. unfold after in Hc.
  destruct (connect (gateway_id o) addr c s4) as [[connected s5]|]; [|done].
  assert (evolves s s5) as E5.
  { eapply evolves_trans; [exact E4|]. apply Hc. intros key old _. by rewrite T4, Ht, lookup_empty. }
  destruct (negb connected).
  { pose proof (sound_stop cfg ce co Hco c_end pass (sound_pass _ _ _) s5) as Hs. unfold after in Hs.
    destruct (stop c_end pass s5) as [[[] s6]|]; [|done]. exact (evolves_trans _ _ _ _ _ _ E5 Hs). }
  pose proof (sound_console o input Hin s5) as Hk. unfold after in Hk.
  destruct (console o input s5) as [[[notes crashed] s6]|]; [|done].
  pose proof (evolves_trans _ _ _ _ _ _ E5 Hk) as E6. destruct crashed; [exact E6|].
  pose proof (sound_stop cfg ce co Hco c_end pass (sound_pass _ _ _) s6) as Hs. unfold after in Hs.
  destruct (stop c_end pass s6) as [[[] s7]|]; [|done]. exact (evolves_trans _ _ _ _ _ _ E6 Hs).
Qed.

Lemma sound_op log2 x : match x with Connect _ _ _ => False | _ => True end -> sound (exec_impl log2 x).
Proof using laws Hce Hco. intros Hx s. apply (exec_impl_sound cfg ce co Hce Hco log2 x (mkSys s None)). by destruct x. Qed.

End Sound.

(** Turns of the reactor and encode threads, and calls from outside other than
    [connect]. *)
Definition not_connect (x : op) : Prop := match x with Connect _ _ _ | SenderTurn _ => False | _ => True end.
Definition turns {Q} {ops : QueueOps Q} (log2 : F64.double -> F64.double) (os : list op) : @T Q unit :=
  each os (exec_impl log2).
Definition prepared {Q} {ops : QueueOps Q} (log2 : F64.double -> F64.double) (script : list (list op * Clocks * str))
    : list (@T Q unit * Clocks * str) :=
  (fun e => (turns log2 e.1.1, e.1.2, e.2)) <$> script.

Lemma client_caps o : encode_cap (client_config o) = (if o_lite o then 64 else 4096) /\
  outbound_cap (client_config o) = if o_lite o then 256 else 65536.
Proof. unfold encode_cap, outbound_cap. cbn. by destruct (o_lite o). Qed.

(** The client is memory safe: whatever is typed, in any interleaving with
    turns of the reactor and encode threads and arriving datagrams, the pointers in
    the peer table and the queues of its transport point to live peers and the
    queues keep the capacities of its mode. *)
Theorem client_safe {Q} {ops : QueueOps Q} {laws : QueueLaws Q} log2 o bound addr c script c_end r1 r2 sk pk now r s
    (Hscript : Forall (fun e => Forall not_connect e.1.1) script)
    (Hrun : client_main o bound addr c (prepared (Q := Q) log2 script) c_end pass
              (new (client_config o) r1 r2 sk pk now) = Ok (r, s)) :
  (forall id p, m_peers (table s) !! id = Some p -> live s p) /\
  (exists f, q_holds (m_encode_queue (queues s)) f /\ Z.of_nat (length (items f)) <= (if o_lite o then 64 else 4096) /\
     Forall (fun t => live s (t_peer t)) (items f)) /\
  (exists f, q_holds (m_outbound_queue (queues s)) f /\ Z.of_nat (length (items f)) <= (if o_lite o then 256 else 65536) /\
     Forall (fun p => live s (o_peer p)) (items f)).
Proof.
  destruct (client_caps o) as [Ece Eco].
  assert (0 < encode_cap (client_config o) < 2 ^ 64 - 1) as He by (rewrite Ece; destruct (o_lite o); lia).
  assert (0 < outbound_cap (client_config o) < 2 ^ 64 - 1) as Ho by (rewrite Eco; destruct (o_lite o); lia).
  pose proof (new_safe (Q := Q) (client_config o) _ _ He Ho r1 r2 sk pk now eq_refl eq_refl) as Hnew.
  assert (after (client_main o bound addr c (prepared (Q := Q) log2 script) c_end pass) (new (client_config o) r1 r2 sk pk now)
    (fun _ s' => evolves (client_config o) (encode_cap (client_config o)) (outbound_cap (client_config o))
       (new (client_config o) r1 r2 sk pk now) s')) as Ha.
  { apply main_evolves; [done|done|done|]. apply Forall_fmap. eapply Forall_impl; [exact Hscript|].
    intros [[os k] l] Hos. cbn in Hos |- *. unfold turns. induction Hos as [|x os Hx _ IH]; cbn [each]; [apply sound_pass|].
    apply sound_bind; [apply sound_op; [done|done|by destruct x]|done]. }
  unfold after in Ha. rewrite Hrun in Ha. destruct (ev_safe _ _ _ _ _ Ha Hnew) as [_ [Hl _ _] (fe & H1 & _ & H2 & H3) (fo & G1 & _ & G2 & G3) _ _].
  rewrite Ece in H2. rewrite Eco in G2. split_and!; [done|by exists fe|by exists fo].
Qed.

(** ** Witnesses *)

Definition demo_options : Options := set_port 7000 (set_lite false (set_role Node default_options)).

Lemma args_roundtrip_witness : parse_args (render demo_options) = Run (set_name "device-001" demo_options).
Proof. apply (args_roundtrip demo_options); vm_compute; split; congruence. Defined.

Lemma client_understood_witness : let o := set_name "device-001" default_options in
  understood (ping_json o) kDevicePing (lit "device-001") /\
  understood (config_json o (braces (field "mode" (lit "bye")))) kDeviceConfigUpdate (lit "device-001").
Proof.
  destruct (client_understood (set_name "device-001" default_options)) as (_ & H1 & _ & H2 & _).
  - by apply plainb_ok.
  - apply (bool_decide_unpack _). vm_compute. exact I.
  - vm_compute. discriminate.
  - split; [exact H1|]. apply H2; vm_compute; reflexivity.
Defined.

(** A ping typed after the connection was made, then the end of the input. *)
Definition demo_script : list (list op * Clocks * str) :=
  [([Reactor (demo_round 10)], demo_clock 11, lit "ping"); ([], demo_clock 20, lit "quit")].
Definition demo_client : @T BlockingQueue.queue (option Z * list Note) :=
  client_main default_options true (Some (mkAddr 1 2)) (demo_clock 0) (prepared id demo_script) (demo_clock 30) pass.
Definition demo_start : @Impl BlockingQueue.queue := new (client_config default_options) 5 6 [] [] 0.
Definition demo_end : @Impl BlockingQueue.queue := match demo_client demo_start with Ok (_, s) => s | Fault _ => demo_start end.
Definition demo_result : option Z * list Note := match demo_client demo_start with Ok (r, _) => r | Fault _ => (None, []) end.

Lemma demo_runs : demo_client demo_start = Ok (demo_result, demo_end).
Proof. vm_compute. reflexivity. Qed.

Lemma client_safe_witness : forall n p, m_peers (table demo_end) !! n = Some p -> live demo_end p.
Proof.
  apply (client_safe id default_options true (Some (mkAddr 1 2)) (demo_clock 0) demo_script (demo_clock 30) 5 6 [] [] 0 demo_result demo_end).
  - repeat constructor.
  - exact demo_runs.
Defined.
End Client.
